(** * text-model: a rich-text range model, its DOM converters, split and concat

    A shallow embedding of [src/index.js].  The JavaScript values the
    program manipulates are represented as follows.

    - Offsets are JavaScript numbers that only ever hold integers: [Z].
    - Strings are [string], one character for one UTF-16 code unit;
      [s.length] is [strlen s].
    - A plain object used as a dictionary is an association list in the
      order its members are listed ([object]); keys are unique, [obj[k] = v]
      overwrites in place or appends ([set]), or, where the key may be an
      array index, puts it among the indices ([put]).  A property read walks
      the prototype chain, so a read of a missing own key still finds the
      members of [Object.prototype] ([lookup]).
    - The arrays of a model hold numbers or objects ([blockList]); where the
      program would go on with a value of another type the call ends as
      [Untyped].
    - DOM nodes are trees whose nodes carry an identity, so that the in-place
      edits of [toElement] can be written as functions on the tree.
    - Calls that may throw return a [result]; the two [while] loops of
      [getTextNodeTargets], which need not terminate on offsets outside the
      text, take fuel. *)

From Stdlib Require Import ZArith List String Ascii Bool Lia Sorted.
From Equations Require Import Equations.
Import ListNotations.

Local Open Scope string_scope.
Local Open Scope Z_scope.
Local Open Scope list_scope.

Set Warnings "-register-all".

Set Implicit Arguments.

(** ** Results of calls *)

(** What a call throws; [site] is the expression that raised it. *)
Inductive exn : Type :=
| TypeError (site : string)
| NotFoundError (site : string)
| InvalidCharacterError (site : string).

Inductive result (A : Type) : Type :=
| Ok (a : A)
| Throw (e : exn)
| Untyped (why : string)
  (** the input left the typed fragment the embedding covers (an array
      of the wrong element type, a non-numeric offset, a NaN, an attribute
      name on which the versions of the DOM disagree) *)
| Fuel.
  (** a [while] loop was cut off after the allotted number of turns *)

Arguments Ok {A} a.
Arguments Throw {A} e.
Arguments Untyped {A} why.
Arguments Fuel {A}.

Definition bind {A B : Type} (r : result A) (k : A -> result B) : result B :=
  match r with
  | Ok a => k a
  | Throw e => Throw e
  | Untyped w => Untyped w
  | Fuel => Fuel
  end.

Notation "x <- r ;; k" := (bind r (fun x => k))
  (at level 61, r at next level, right associativity).
Notation "' p <- r ;; k" := (bind r (fun p => k))
  (at level 61, p pattern, r at next level, right associativity).

(** [_.each]-style loop whose body may throw and that threads an accumulator. *)
Fixpoint foldM {A S : Type} (f : S -> A -> result S) (l : list A) (s : S)
  : result S :=
  match l with
  | [] => Ok s
  | a :: l' => s' <- f s a ;; foldM f l' s'
  end.

Fixpoint mapM {A B : Type} (f : A -> result B) (l : list A) : result (list B) :=
  match l with
  | [] => Ok []
  | a :: l' => b <- f a ;; bs <- mapM f l' ;; Ok (b :: bs)
  end.

(** ** Strings *)

Definition strlen (s : string) : Z := Z.of_nat (String.length s).

(** [String.prototype.substr(start, length)]; [len = None] is a call with
    one argument. *)
Definition substr (s : string) (start : Z) (len : option Z) : string :=
  let size := strlen s in
  let intStart := if start <? 0 then Z.max (size + start) 0 else start in
  let resultLength :=
    match len with
    | None => size - intStart
    | Some l => Z.min (Z.max l 0) (size - intStart)
    end in
  if resultLength <=? 0 then ""
  else String.substring (Z.to_nat intStart) (Z.to_nat resultLength) s.

(** ** Plain objects *)

(** The own properties of an object, in the order [Object.keys] and the
    lodash iterators go through them: the order of insertion, for keys that
    are not array indices (no kind name is one). *)
Definition object (V : Type) : Type := list (string * V).

Section Objects.
Context {V : Type}.

(** own property read *)
Fixpoint get (o : object V) (k : string) : option V :=
  match o with
  | [] => None
  | (k', v) :: o' => if String.eqb k' k then Some v else get o' k
  end.

(** [o[k] = v] *)
Fixpoint set (o : object V) (k : string) (v : V) : object V :=
  match o with
  | [] => [(k, v)]
  | (k', v') :: o' =>
      if String.eqb k' k then (k', v) :: o' else (k', v') :: set o' k v
  end.

Definition keys (o : object V) : list string := map fst o.

(** [_.assign(target, source)] *)
Definition assign (target source : object V) : object V :=
  fold_left (fun t kv => set t (fst kv) (snd kv)) source target.

(** [_.fromPairs] *)
Definition fromPairs (pairs : list (string * V)) : object V :=
  assign [] pairs.

Definition omit (o : object V) (ks : list string) : object V :=
  filter (fun kv => negb (existsb (String.eqb (fst kv)) ks)) o.
End Objects.

(** The decimal digit a character is. *)
Definition digitOf (c : ascii) : option Z :=
  let n := Z.of_N (N_of_ascii c) in
  if (48 <=? n) && (n <=? 57) then Some (n - 48) else None.

Fixpoint decimal (s : string) (acc : Z) : option Z :=
  match s with
  | EmptyString => Some acc
  | String c rest =>
      match digitOf c with
      | Some d => decimal rest (10 * acc + d)
      | None => None
      end
  end.

(** The array index a property name stands for, if any: the name is the
    decimal numeral, without a sign or a leading zero, of an integer from 0
    to 2^32 - 2.  The own properties of an object are listed with these
    names first, in ascending order of the index, and the other names after
    them in the order of insertion. *)
Definition arrayIndex (k : string) : option Z :=
  match k with
  | EmptyString => None
  | String c rest =>
      if Ascii.eqb c "0" then
        if String.eqb rest "" then Some 0 else None
      else
        match decimal k 0 with
        | Some n => if n <=? 4294967294 then Some n else None
        | None => None
        end
  end.

Section Writes.
Context {V : Type}.

(** A new member whose name is the array index [n] goes after the indices
    below [n] and before everything else. *)
Fixpoint putIndex (o : object V) (n : Z) (k : string) (v : V) : object V :=
  match o with
  | [] => [(k, v)]
  | (k', v') :: o' =>
      match arrayIndex k' with
      | Some n' => if n' <? n then (k', v') :: putIndex o' n k v
                   else (k, v) :: o
      | None => (k, v) :: o
      end
  end.

(** [o[k] = v] for a key of any form, as it is for the name of an
    attribute: a member the object has is overwritten in place, a new one
    is listed among the array indices if its name is one and last if not. *)
Definition put (o : object V) (k : string) (v : V) : object V :=
  match get o k, arrayIndex k with
  | None, Some n => putIndex o n k v
  | _, _ => set o k v
  end.

(** [_.assign(target, source)] where the keys of [source] are of any form *)
Definition assignAny (target source : object V) : object V :=
  fold_left (fun t kv => put t (fst kv) (snd kv)) source target.
End Writes.

(** The property names every plain object inherits from [Object.prototype]. *)
Definition ObjectPrototype : list string :=
  [ "constructor"; "hasOwnProperty"; "isPrototypeOf"; "propertyIsEnumerable";
    "toLocaleString"; "toString"; "valueOf"; "__proto__";
    "__defineGetter__"; "__defineSetter__";
    "__lookupGetter__"; "__lookupSetter__" ].

Inductive member (A : Type) : Type :=
| Own (a : A)
| Inherited   (** a function or object found on the prototype: truthy, and
                  without a [set] field *)
| Undefined.
Arguments Own {A} a.
Arguments Inherited {A}.
Arguments Undefined {A}.

(** [o[k]] on an object literal *)
Definition lookup {A : Type} (o : object A) (k : string) : member A :=
  match get o k with
  | Some a => Own a
  | None => if existsb (String.eqb k) ObjectPrototype then Inherited
            else Undefined
  end.

(** ** Tag registry *)

(** The three handlers double as dispatch tags in the registry
    ([set: continuous], compared with [===] in [getBlocksOfType]). *)
Inductive setter : Type := Continuous | Propertied | Singled.

Definition setter_eqb (a b : setter) : bool :=
  match a, b with
  | Continuous, Continuous | Propertied, Propertied | Singled, Singled => true
  | _, _ => false
  end.

Record tagType : Type := { set_ : setter; name : string }.

Definition tagTypes : object tagType :=
  [ ("B", {| set_ := Continuous; name := "bold" |});
    ("I", {| set_ := Continuous; name := "italic" |});
    ("U", {| set_ := Continuous; name := "underline" |});
    ("EM", {| set_ := Continuous; name := "emphasis" |});
    ("STRONG", {| set_ := Continuous; name := "strong" |});
    ("PRE", {| set_ := Continuous; name := "pre" |});
    ("DEL", {| set_ := Continuous; name := "del" |});
    ("H1", {| set_ := Continuous; name := "h1" |});
    ("H2", {| set_ := Continuous; name := "h2" |});
    ("H3", {| set_ := Continuous; name := "h3" |});
    ("H4", {| set_ := Continuous; name := "h4" |});
    ("H5", {| set_ := Continuous; name := "h5" |});
    ("H6", {| set_ := Continuous; name := "h6" |});
    ("A", {| set_ := Propertied; name := "link" |});
    ("SPAN", {| set_ := Propertied; name := "span" |});
    ("BLOCKQUOTE", {| set_ := Propertied; name := "block quote" |});
    ("Q", {| set_ := Propertied; name := "quote" |});
    ("CITE", {| set_ := Propertied; name := "cite" |});
    ("CODE", {| set_ := Propertied; name := "code" |});
    ("BR", {| set_ := Singled; name := "soft return" |}) ].

(** [_.transform(tagTypes, function (obj, tag, name) {
       obj[tag.name] = { set: tag.set, name: name }; }, {})] *)
Definition blockTypes : object tagType :=
  Eval cbv in
  fold_left
    (fun obj kv => set obj (name (snd kv))
                     {| set_ := set_ (snd kv); name := fst kv |})
    tagTypes [].

Definition sameAs : object string :=
  [ ("B", "STRONG"); ("U", "EM"); ("I", "EM");
    ("H1", "H2"); ("H3", "H2"); ("H4", "H2"); ("H5", "H2"); ("H6", "H2");
    ("STRIKE", "DEL") ].

(** ** Binary search *)

(** [a < b] and [a > b] on numbers where either side may be [undefined]
    ([None]): both comparisons are then false. *)
Inductive order : Type := Below | Above | Neither.

Definition compareValues (midValue value : option Z) : order :=
  match midValue, value with
  | Some a, Some b => if a <? b then Below else if a >? b then Above else Neither
  | _, _ => Neither
  end.

(** [list[i]] *)
Definition at_ {A : Type} (list : list A) (i : Z) : option A :=
  if i <? 0 then None else nth_error list (Z.to_nat i).

(** The [while (low <= high)] loop of [getBinarySortedInsertPosition].
    [high - low >> 1] shifts a 32-bit integer; [high - low] is below the
    length of an array, where that is the shift of [Z]. *)
Equations? search (list : list Z) (value : option Z) (low high : Z) : Z
  by wf (Z.to_nat (high - low + 1)) lt :=
  search list value low high with Z_le_gt_dec low high := {
    | right _ := low
    | left _ with compareValues
                    (at_ list (low + Z.shiftr (high - low) 1)) value := {
        | Below := search list value (low + Z.shiftr (high - low) 1 + 1) high
        | Above := search list value low (low + Z.shiftr (high - low) 1 - 1)
        | Neither := low + Z.shiftr (high - low) 1 } }.
Proof.
  all: rewrite Z.shiftr_div_pow2 by lia;
    change (2 ^ 1) with 2;
    pose proof (Z.div_pos (high - low) 2);
    pose proof (Z.div_le_upper_bound (high - low) 2 (high - low));
    lia.
Qed.

Definition getBinarySortedInsertPosition (list : list Z) (value : option Z) : Z :=
  search list value 0 (Z.of_nat (List.length list) - 1).

(** The inner [for (j = 0; j < blockB.length; j = j + 2)] loop of
    [getOverlapCount]; a trailing unpaired element reads [blockB[j + 1]]
    as [undefined]. *)
Fixpoint countPairs (blockA blockB : list Z) : nat :=
  match blockB with
  | [] => 0%nat
  | [x] =>
      if getBinarySortedInsertPosition blockA (Some x)
         =? getBinarySortedInsertPosition blockA None
      then 0%nat else 1%nat
  | x :: y :: rest =>
      let insertA := getBinarySortedInsertPosition blockA (Some x) in
      let insertB := getBinarySortedInsertPosition blockA (Some y) in
      if insertA =? insertB then countPairs blockA rest
      else S (countPairs blockA rest)
  end.

Definition getOverlapCount (blockA : list Z) (otherBlocks : list (list Z)) : nat :=
  fold_left (fun count blockB => (count + countPairs blockA blockB)%nat)
    otherBlocks 0%nat.


(** ** The range model *)

(** A property of a propertied block: [start] and [end] are numbers, the
    attributes copied from the element are strings. *)
Inductive value : Type :=
| Num (n : Z)
| Str (s : string).

(** The array stored under one kind name: numbers for the continuous and
    singled kinds, objects for the propertied kinds. *)
Inductive blockList : Type :=
| Numbers (l : list Z)
| Objects (l : list (object value)).

Record rangeModel : Type := { text : string; blocks : object blockList }.

Definition numbers (why : string) (b : blockList) : result (list Z) :=
  match b with
  | Numbers l => Ok l
  | Objects [] => Ok []
  | Objects _ => Untyped why
  end.

Definition objects (why : string) (b : blockList) : result (list (object value)) :=
  match b with
  | Objects l => Ok l
  | Numbers [] => Ok []
  | Numbers _ => Untyped why
  end.

(** [block.start], [block.end] read as a number *)
Definition number (block : object value) (k : string) : result Z :=
  match get block k with
  | Some (Num n) => Ok n
  | _ => Untyped k
  end.

(** ** The DOM *)

(** Nodes carry an identity [id], which the tree edits of [toElement] use to
    find the node a variable refers to; [fromElement] never looks at it. *)
Inductive Node : Type :=
| Text (id : nat) (nodeValue : string)
| Element (id : nat) (nodeName : string)
    (attributes : list (string * string)) (childNodes : list Node)
| Comment (id : nat) (data : string)
| DocumentFragment (childNodes : list Node).

Definition nodeName_ (node : Node) : string :=
  match node with
  | Text _ _ => "#text"
  | Element _ n _ _ => n
  | Comment _ _ => "#comment"
  | DocumentFragment _ => "#document-fragment"
  end.

(** Document order below [parent]: every descendant paired with its
    [parentNode]. *)
Fixpoint descendants (parent : Node) : list (Node * Node) :=
  let fix each (l : list Node) : list (Node * Node) :=
    match l with
    | [] => []
    | c :: r => (parent, c) :: descendants c ++ each r
    end in
  match parent with
  | Element _ _ _ ch => each ch
  | DocumentFragment ch => each ch
  | Text _ _ | Comment _ _ => []
  end.

Definition SHOW_TEXT (node : Node) : bool :=
  match node with Text _ _ => true | _ => false end.

Definition nodeFilter (node : Node) : bool :=
  match node with Text _ _ | Element _ _ _ _ => true | _ => false end.

(** [document.createTreeWalker(root, whatToShow, filter, false)], as the
    sequence of nodes successive [nextNode()] calls return.  A filter that
    answers [false] does not reject the subtree: the walker goes on into the
    children, so the sequence is the accepted part of the document order. *)
Definition createTreeWalker (root : Node) (whatToShow : Node -> bool)
  (filter_ : Node -> Node -> bool) : list (Node * Node) :=
  filter (fun pn => whatToShow (snd pn) && filter_ (fst pn) (snd pn))
    (descendants root).

(** [contentTextOnly(node)], from [node.parentNode] *)
Definition contentTextOnly (parent node : Node) : bool :=
  match parent with
  | Element _ n _ _ => negb (String.eqb n "SCRIPT" || String.eqb n "STYLE")
  | _ => true
  end.

Definition truthy {A : Type} (m : member A) : bool :=
  match m with Undefined => false | _ => true end.

Definition knownTagsOnly (parent node : Node) : bool :=
  truthy (lookup tagTypes (nodeName_ node))
  || (SHOW_TEXT node && contentTextOnly parent node).

Definition nodeValue_ (node : Node) : option string :=
  match node with
  | Text _ v => Some v
  | Comment _ v => Some v
  | _ => None
  end.

Definition getContentText (el : Node) : string :=
  fold_left
    (fun str pn => match nodeValue_ (snd pn) with
                   | Some v => (str ++ v)%string
                   | None => str
                   end)
    (createTreeWalker el SHOW_TEXT contentTextOnly) "".

Definition attributes_ (el : Node) : list (string * string) :=
  match el with Element _ _ a _ => a | _ => [] end.

(** [getAttributes(el)].  [props['__proto__'] = attr.value] stores
    nothing: the member is the accessor every object inherits, which
    ignores a string. *)
Definition getAttributes (el : Node) : object value :=
  fold_left
    (fun props attr =>
       if String.eqb (fst attr) "__proto__" then props
       else put props (fst attr) (Str (snd attr)))
    (attributes_ el) [].

(** [getNodeName(node)].  [None]: the alias found is a member of
    [Object.prototype], not a string. *)
Definition getNodeName (node : Node) : option string :=
  match lookup sameAs (nodeName_ node) with
  | Own alias => Some alias
  | Inherited => None
  | Undefined => Some (nodeName_ node)
  end.

(** [tagTypes[nodeName]] followed by a read of [.set] or [.name].  A key
    that is not a string is converted to one no object has a member for. *)
Definition tagTypeOf (site : string) (nodeName : option string) : result tagType :=
  match nodeName with
  | None => Throw (TypeError site)
  | Some n =>
      match lookup tagTypes n with
      | Own t => Ok t
      | Inherited => Untyped site   (* neither field exists; no caller gets here *)
      | Undefined => Throw (TypeError site)
      end
  end.

(** ** Ingest: tree to model *)

Definition continuous (model : rangeModel) (node : Node) : result rangeModel :=
  let start := strlen (text model) in
  let text_ := getContentText node in
  let end_ := start + strlen text_ in
  if start =? end_ then Ok model
  else
    t <- tagTypeOf "tagTypes[nodeName].name" (getNodeName node) ;;
    let tagBlockName := name t in
    block <- match get (blocks model) tagBlockName with
             | None => Ok []
             | Some b => numbers tagBlockName b
             end ;;
    let blockLen := Z.of_nat (List.length block) in
    let lastBlockEndIndex := blockLen - 1 in
    let block' :=
      match at_ block lastBlockEndIndex with
      | Some lastEnd =>
          if (2 <=? blockLen) && (lastEnd >=? start)
          then removelast block ++ [Z.max lastEnd end_]
          else block ++ [start; end_]
      | None => block ++ [start; end_]
      end in
    Ok {| text := text model;
          blocks := set (blocks model) tagBlockName (Numbers block') |}.

Definition propertied (model : rangeModel) (node : Node) : result rangeModel :=
  let start := strlen (text model) in
  let text_ := getContentText node in
  let end_ := start + strlen text_ in
  if start =? end_ then Ok model
  else
    let properties := getAttributes node in
    let obj := assignAny [("start", Num start); ("end", Num end_)] properties in
    t <- tagTypeOf "tagTypes[nodeName].name" (Some (nodeName_ node)) ;;
    let tagBlockName := name t in
    block <- match get (blocks model) tagBlockName with
             | None => Ok []
             | Some b => objects tagBlockName b
             end ;;
    Ok {| text := text model;
          blocks := set (blocks model) tagBlockName (Objects (block ++ [obj])) |}.

Definition singled (model : rangeModel) (node : Node) : result rangeModel :=
  let pos := strlen (text model) in
  t <- tagTypeOf "tagTypes[nodeName].name" (getNodeName node) ;;
  let tagBlockName := name t in
  block <- match get (blocks model) tagBlockName with
           | None => Ok []
           | Some b => numbers tagBlockName b
           end ;;
  Ok {| text := text model;
        blocks := set (blocks model) tagBlockName (Numbers (block ++ [pos])) |}.

(** [tag.set(model, node)] *)
Definition call (s : setter) : rangeModel -> Node -> result rangeModel :=
  match s with
  | Continuous => continuous
  | Propertied => propertied
  | Singled => singled
  end.

Definition normalizeElementAsDocument (el : Node) : Node :=
  match el with
  | DocumentFragment _ => el
  | _ => DocumentFragment [el]
  end.

Definition fromElement (el : Node) : result rangeModel :=
  let model := {| text := ""; blocks := [] |} in
  let el := normalizeElementAsDocument el in
  let walker := createTreeWalker el nodeFilter knownTagsOnly in
  foldM
    (fun model pn =>
       let node := snd pn in
       match node with
       | Text _ v => Ok {| text := (text model ++ v)%string; blocks := blocks model |}
       | _ =>
           t <- tagTypeOf "tagTypes[name].set" (getNodeName node) ;;
           call (set_ t) model node
       end)
    walker model.

(** ** Emit: model to tree *)

(** [_.pickBy(blocks, function (block, blockName) {
       return blockTypes[blockName].set === type; })] *)
Fixpoint getBlocksOfType (blocks : object blockList) (type : setter)
  : result (object blockList) :=
  match blocks with
  | [] => Ok []
  | (blockName, block) :: rest =>
      match lookup blockTypes blockName with
      | Own t =>
          picked <- getBlocksOfType rest type ;;
          Ok (if setter_eqb (set_ t) type then (blockName, block) :: picked
              else picked)
      | Inherited => getBlocksOfType rest type
      | Undefined => Throw (TypeError "blockTypes[blockName].set")
      end
  end.

(** The tree under construction: the fragment [el], the text nodes taken
    out of it so far (with their last [nodeValue]), and the identity the
    next created node receives. *)
Record dom : Type :=
  { el : Node; removed : list (nat * string); next : nat }.

Definition isNode (ref : nat) (node : Node) : bool :=
  match node with
  | Text i _ | Element i _ _ _ | Comment i _ => Nat.eqb i ref
  | DocumentFragment _ => false
  end.

(** [parentNode.insertBefore(newNode, ref)], [parentNode] being the node
    that holds [ref] *)
Fixpoint insertBefore (newNode : Node) (ref : nat) (parent : Node) : Node :=
  let fix each (l : list Node) : list Node :=
    match l with
    | [] => []
    | c :: r => if isNode ref c then newNode :: c :: r
                else insertBefore newNode ref c :: each r
    end in
  match parent with
  | Element i n a ch => Element i n a (each ch)
  | DocumentFragment ch => DocumentFragment (each ch)
  | Text _ _ | Comment _ _ => parent
  end.

(** [parentNode.removeChild(ref)] *)
Fixpoint removeChild (ref : nat) (parent : Node) : Node :=
  let fix each (l : list Node) : list Node :=
    match l with
    | [] => []
    | c :: r => if isNode ref c then r else removeChild ref c :: each r
    end in
  match parent with
  | Element i n a ch => Element i n a (each ch)
  | DocumentFragment ch => DocumentFragment (each ch)
  | Text _ _ | Comment _ _ => parent
  end.

(** [ref.nodeValue = v] *)
Fixpoint setNodeValue (ref : nat) (v : string) (node : Node) : Node :=
  match node with
  | Text i old => if Nat.eqb i ref then Text i v else node
  | Element i n a ch => Element i n a (map (setNodeValue ref v) ch)
  | DocumentFragment ch => DocumentFragment (map (setNodeValue ref v) ch)
  | Comment _ _ => node
  end.

(** The text node [ref] as it is now: [(true, v)] in the tree,
    [(false, v)] removed from it. *)
Definition textNode (d : dom) (ref : nat) : option (bool * string) :=
  match find (fun pn => isNode ref (snd pn) && SHOW_TEXT (snd pn))
               (descendants (el d)) with
  | Some (_, Text _ v) => Some (true, v)
  | _ => match find (fun iv => Nat.eqb (fst iv) ref) (removed d) with
         | Some (_, v) => Some (false, v)
         | None => None
         end
  end.

(** Modelled from the spec: the text-to-node collaborator [domify], which
    "converts a plain string into one or more text nodes"; here one text
    node holding the string. *)
Definition domify (d : dom) (text_ : string) : Node * dom :=
  (Text (next d) text_,
   {| el := el d; removed := removed d; next := S (next d) |}).

Record item : Type := { node : Node; start : option Z; end_ : option Z }.

(** A walker: [currentNode] and the nodes [nextNode()] has yet to return.
    At the end [nextNode()] returns null and [currentNode] stays. *)
Definition walker : Type := (Node * list Node)%type.

Definition nextNode (w : walker) : walker :=
  match snd w with
  | [] => w
  | n :: r => (n, r)
  end.

(** [walker.currentNode.nodeValue], about to be read for [.length] or
    appended: the root has [nodeValue] null. *)
Definition currentValue (w : walker) : result string :=
  match nodeValue_ (fst w) with
  | Some v => Ok v
  | None => Throw (TypeError "walker.currentNode.nodeValue.length")
  end.

(** [while (str.length + walker.currentNode.nodeValue.length < start)] *)
Fixpoint walkToStart (fuel : nat) (w : walker) (str : string) (start : Z)
  : result (walker * string) :=
  v <- currentValue w ;;
  if strlen str + strlen v <? start then
    match fuel with
    | O => Fuel
    | S fuel' => walkToStart fuel' (nextNode w) (str ++ v)%string start
    end
  else Ok (w, str).

(** [while (str.length < end)] *)
Fixpoint walkToEnd (fuel : nat) (w : walker) (str : string) (list : list item)
  (end_ : Z) : result (walker * string * Datatypes.list item) :=
  if strlen str <? end_ then
    match fuel with
    | O => Fuel
    | S fuel' =>
        let w := nextNode w in
        v <- currentValue w ;;
        walkToEnd fuel' w (str ++ v)%string
          (list ++ [{| node := fst w; start := None; end_ := None |}]) end_
    end
  else Ok (w, str, list).

(** [getTextNodeTargets(el, start, end)]; [end = None] is [undefined], which
    fails every comparison and turns the last [end] into NaN, read back as
    absent by [item.end || text.length]. *)
Definition getTextNodeTargets (fuel : nat) (el : Node) (start : Z)
  (end_ : option Z) : result (list item) :=
  let w : walker :=
    nextNode (el, map snd (createTreeWalker el SHOW_TEXT contentTextOnly)) in
  '(w, str) <- walkToStart fuel w "" start ;;
  v <- currentValue w ;;
  let list := [{| node := fst w; start := Some (start - strlen str);
                  end_ := None |}] in
  let str := (str ++ v)%string in
  match end_ with
  | None => Ok list
  | Some e =>
      '(w, str, list) <- walkToEnd fuel w str list e ;;
      v <- currentValue w ;;
      match last (map Some list) None with
      | Some (Build_item n s _) =>
          Ok (removelast list
              ++ [{| node := n; start := s;
                     end_ := Some (strlen v - (strlen str - e)) |}])
      | None => Ok list
      end
  end.

(** [blockTypes[blockType].name] *)
Definition tagNameOf (blockType : string) : result string :=
  match lookup blockTypes blockType with
  | Own t => Ok (name t)
  | Inherited => Untyped "blockTypes[blockType].name"
  | Undefined => Throw (TypeError "blockTypes[blockType].name")
  end.

(** The tail both [splitTextNode] and [addSingledBlocks] end with: put
    [blockEl] before the text node, the text before it in front, and keep
    or drop the text node. *)
Definition placeBlock (d : dom) (ref : nat) (attached : bool) (text_ : string)
  (blockEl : Node) (blockId : nat) (startText endText : string) : result dom :=
  if negb attached
  then Throw (NotFoundError "parentNode.insertBefore(blockEl, textNode)")
  else
    let root := insertBefore blockEl ref (el d) in
    let '(root, d) :=
      if strlen startText >? 0 then
        let '(startTextNode, d) := domify d startText in
        (insertBefore startTextNode blockId root, d)
      else (root, d) in
    if strlen endText >? 0
    then Ok {| el := setNodeValue ref endText root;
               removed := removed d; next := next d |}
    else Ok {| el := removeChild ref root;
               removed := (ref, text_) :: removed d; next := next d |}.

(** The name in ASCII lower case, as [setAttribute] stores it on an HTML
    element. *)
Definition lowerChar (c : ascii) : ascii :=
  let n := N_of_ascii c in
  if (65 <=? n)%N && (n <=? 90)%N then ascii_of_N (n + 32) else c.

Fixpoint asciiLowercase (s : string) : string :=
  match s with
  | EmptyString => EmptyString
  | String c rest => String (lowerChar c) (asciiLowercase rest)
  end.

Definition isLetter (c : ascii) : bool :=
  let n := N_of_ascii c in
  ((65 <=? n)%N && (n <=? 90)%N) || ((97 <=? n)%N && (n <=? 122)%N).

(** The characters that may start a name: a letter, [_] or [:]. *)
Definition nameStart (c : ascii) : bool :=
  isLetter c || Ascii.eqb c "_" || Ascii.eqb c ":".

(** The characters that may follow: those, a digit, [-] or [.]. *)
Definition nameChar (c : ascii) : bool :=
  nameStart c
  || (let n := N_of_ascii c in (48 <=? n)%N && (n <=? 57)%N)
  || Ascii.eqb c "-" || Ascii.eqb c ".".

(** White space (tab, line feed, form feed, carriage return, space), NUL,
    [/], [=] and [>]. *)
Definition barred (c : ascii) : bool :=
  existsb (N.eqb (N_of_ascii c)) [9; 10; 12; 13; 32; 0; 47; 61; 62]%N.

(** Whether [setAttribute] takes the name.  The versions of the DOM differ:
    the older ask for an XML name, the newer refuse only the empty name and
    a name that holds a barred character.  [Some false] is a name both
    refuse, [Some true] a name both take (ASCII letters, digits, [_], [:],
    [-] and [.], the first of them a letter, [_] or [:]), [None] a name on
    which they differ. *)
Definition validAttributeName (k : string) : option bool :=
  match k with
  | EmptyString => Some false
  | String c rest =>
      if existsb barred (list_ascii_of_string k) then Some false
      else if nameStart c && forallb nameChar (list_ascii_of_string rest)
           then Some true
           else None
  end.

(** [_.each(blockAttributes, function (value, key) {
       blockEl.setAttribute(key, value); })]: the call throws on a name
    that is not valid, and stores the name in lower case, [blockEl] being an
    HTML element of an HTML document.  [_.each] goes through the members of
    an object unless a numeric [length] makes it array-like. *)
Definition setAttributes (blockAttributes : object value)
  : result (list (string * string)) :=
  match get blockAttributes "length" with
  | Some (Num _) => Untyped "length"
  | _ =>
      foldM (fun attrs kv =>
               match snd kv with
               | Str v =>
                   match validAttributeName (fst kv) with
                   | Some true => Ok (set attrs (asciiLowercase (fst kv)) v)
                   | Some false =>
                       Throw (InvalidCharacterError
                                "blockEl.setAttribute(key, value)")
                   | None => Untyped (fst kv)
                   end
               | Num _ => Untyped (fst kv)
               end)
        blockAttributes []
  end.

Definition splitTextNode (blockType : string)
  (blockAttributes : object value) (d : dom) (item : item)
  : result dom :=
  match node item with
  | Text ref _ =>
      match textNode d ref with
      | None => Untyped "item.node"
      | Some (attached, text_) =>
          let startPos := match start item with
                          | Some s => s
                          | None => 0
                          end in
          let endPos := match end_ item with
                        | Some e => if e =? 0 then strlen text_ else e
                        | None => strlen text_
                        end in
          let startText := substr text_ 0 (Some startPos) in
          let middleText := substr text_ startPos (Some (endPos - startPos)) in
          let endText := substr text_ endPos None in
          if startPos =? endPos then Ok d
          else
            tagName <- tagNameOf blockType ;;
            let blockId := next d in
            let d := {| el := el d; removed := removed d; next := S (next d) |} in
            attrs <- setAttributes blockAttributes ;;
            let '(middle, d) := domify d middleText in
            let blockEl := Element blockId tagName attrs [middle] in
            placeBlock d ref attached text_ blockEl blockId startText endText
      end
  | _ => Untyped "item.node"
  end.

Definition addSingledBlocks (blockType : string) (d : dom) (item : item)
  : result dom :=
  match node item with
  | Text ref _ =>
      match textNode d ref, start item with
      | Some (attached, text_), Some pos =>
          let startText := substr text_ 0 (Some pos) in
          let endText := substr text_ pos None in
          tagName <- tagNameOf blockType ;;
          let blockId := next d in
          let d := {| el := el d; removed := removed d; next := S (next d) |} in
          let blockEl := Element blockId tagName [] [] in
          placeBlock d ref attached text_ blockEl blockId startText endText
      | _, _ => Untyped "item.node"
      end
  | _ => Untyped "item.node"
  end.

Definition addPropertiedBlocksToElement (fuel : nat) (d : dom)
  (model : rangeModel) : result dom :=
  propertiedBlocks <- getBlocksOfType (blocks model) Propertied ;;
  foldM
    (fun d kv =>
       let blockType := fst kv in
       blocksOfType <- objects blockType (snd kv) ;;
       foldM
         (fun d block =>
            start <- number block "start" ;;
            end_ <- number block "end" ;;
            list <- getTextNodeTargets fuel (el d) start (Some end_) ;;
            foldM (splitTextNode blockType (omit block ["start"; "end"]))
              list d)
         blocksOfType d)
    propertiedBlocks d.

Definition sortContinuousBlocks (blocks : object blockList)
  : result (object blockList) :=
  match blocks with
  | [(key0, block0); (key1, block1)] =>
      blockA <- numbers key0 block0 ;;
      blockB <- numbers key1 block1 ;;
      let forwardCount := getOverlapCount blockA [blockB] in
      let backwardCount := getOverlapCount blockB [blockA] in
      if (backwardCount <? forwardCount)%nat
      then Ok (fromPairs (rev blocks))
      else Ok blocks
  | _ => Ok blocks
  end.

(** [for (i = 0; i < blocksOfType.length; i = i + 2)] over
    [blocksOfType[i]] and [blocksOfType[i + 1]] *)
Fixpoint eachPair {S : Type} (f : S -> Z -> option Z -> result S)
  (blocksOfType : list Z) (s : S) : result S :=
  match blocksOfType with
  | [] => Ok s
  | [x] => f s x None
  | x :: y :: rest => s' <- f s x (Some y) ;; eachPair f rest s'
  end.

Definition addContinuousBlocksToElement (fuel : nat) (d : dom)
  (model : rangeModel) : result dom :=
  continuousBlocks <- getBlocksOfType (blocks model) Continuous ;;
  continuousBlocks <- sortContinuousBlocks continuousBlocks ;;
  foldM
    (fun d kv =>
       let blockType := fst kv in
       blocksOfType <- numbers blockType (snd kv) ;;
       eachPair
         (fun d start end_ =>
            list <- getTextNodeTargets fuel (el d) start end_ ;;
            foldM (splitTextNode blockType []) list d)
         blocksOfType d)
    continuousBlocks d.

Definition addSingledBlocksToElement (fuel : nat) (d : dom)
  (model : rangeModel) : result dom :=
  singledBlocks <- getBlocksOfType (blocks model) Singled ;;
  foldM
    (fun d kv =>
       let blockType := fst kv in
       blocksOfType <- numbers blockType (snd kv) ;;
       foldM
         (fun d pos =>
            list <- getTextNodeTargets fuel (el d) pos (Some pos) ;;
            foldM (addSingledBlocks blockType) list d)
         blocksOfType d)
    singledBlocks d.

(** [toElement(model)]; [fuel] bounds the turns of each [while] loop. *)
Definition toElement (fuel : nat) (model : rangeModel) : result Node :=
  let '(textNode, d) :=
    domify {| el := DocumentFragment []; removed := []; next := 0 |}
      (text model) in
  let d := {| el := normalizeElementAsDocument textNode;
              removed := removed d; next := next d |} in
  d <- addPropertiedBlocksToElement fuel d model ;;
  d <- addContinuousBlocksToElement fuel d model ;;
  d <- addSingledBlocksToElement fuel d model ;;
  Ok (el d).

(** ** Split *)

(** [m.blocks[blockType] = blocks] *)
Definition setBlocks (m : rangeModel) (blockType : string) (b : blockList)
  : rangeModel :=
  {| text := text m; blocks := set (blocks m) blockType b |}.

(** The body of the inner [_.each(blocks, function (block) ...)] of
    [splitPropertiedBlocks], on the two arrays it pushes to. *)
Definition splitPropertiedBlock (num : Z)
  (acc : list (object value) * list (object value)) (block : object value)
  : result (list (object value) * list (object value)) :=
  let '(beforeBlocks, afterBlocks) := acc in
  start <- number block "start" ;;
  end_ <- number block "end" ;;
  if (start <? num) && (end_ <? num) then
    Ok (beforeBlocks ++ [block], afterBlocks)
  else if (start >? num) && (end_ >? num) then
    Ok (beforeBlocks,
        afterBlocks
        ++ [set (set block "start" (Num (start - num))) "end" (Num (end_ - num))])
  else
    Ok (beforeBlocks ++ [set block "end" (Num num)],
        afterBlocks
        ++ [set (set block "start" (Num 0)) "end" (Num (end_ - num))]).

Definition splitPropertiedBlocks (model : rangeModel)
  (ba : rangeModel * rangeModel) (num : Z) : result (rangeModel * rangeModel) :=
  picked <- getBlocksOfType (blocks model) Propertied ;;
  foldM
    (fun ba kv =>
       let '(before, after) := ba in
       let blockType := fst kv in
       blocks <- objects blockType (snd kv) ;;
       '(beforeBlocks, afterBlocks) <-
         foldM (splitPropertiedBlock num) blocks ([], []) ;;
       let before :=
         if (0 <? List.length beforeBlocks)%nat
         then setBlocks before blockType (Objects beforeBlocks) else before in
       let after :=
         if (0 <? List.length afterBlocks)%nat
         then setBlocks after blockType (Objects afterBlocks) else after in
       Ok (before, after))
    picked ba.

(** [_.take(array, n)] and [_.drop(array, n)] for an integer [n] *)
Definition take {A : Type} (array : list A) (n : Z) : list A :=
  firstn (Z.to_nat n) array.
Definition drop {A : Type} (array : list A) (n : Z) : list A :=
  skipn (Z.to_nat n) array.

(** [array[i]] where the program goes on to compute with the element *)
Definition elem (site : string) (array : list Z) (i : Z) : result Z :=
  match at_ array i with
  | Some x => Ok x
  | None => Untyped site
  end.

(** The body of the [_.each] of [splitContinuousBlocks]: the two arrays
    stored under [blockType]. *)
Definition splitContinuousBlock (blocks : list Z) (num : Z)
  : result (list Z * list Z) :=
  let index := getBinarySortedInsertPosition blocks (Some num) in
  if Z.rem index 2 =? 1 then
    open <- elem "blocks[index - 1]" blocks (index - 1) ;;
    close <- elem "blocks[index]" blocks index ;;
    Ok (take blocks (index - 1) ++ [open; num],
        [0; close - num]
        ++ map (fun value => value - num) (drop blocks (index + 1)))
  else
    Ok (take blocks index,
        map (fun value => value - num) (drop blocks index)).

Definition splitContinuousBlocks (model : rangeModel)
  (ba : rangeModel * rangeModel) (num : Z) : result (rangeModel * rangeModel) :=
  picked <- getBlocksOfType (blocks model) Continuous ;;
  foldM
    (fun ba kv =>
       let '(before, after) := ba in
       let blockType := fst kv in
       blocks <- numbers blockType (snd kv) ;;
       '(beforeBlocks, afterBlocks) <- splitContinuousBlock blocks num ;;
       Ok (setBlocks before blockType (Numbers beforeBlocks),
           setBlocks after blockType (Numbers afterBlocks)))
    picked ba.

(** The body of the inner [_.each(blocks, function (pos) ...)] of
    [splitSingledBlocks]. *)
Definition splitSingledBlock (num : Z) (acc : list Z * list Z) (pos : Z)
  : list Z * list Z :=
  let '(beforeBlocks, afterBlocks) := acc in
  if pos <? num then (beforeBlocks ++ [pos], afterBlocks)
  else if pos >? num then (beforeBlocks, afterBlocks ++ [pos - num])
  else (beforeBlocks, afterBlocks).

Definition splitSingledBlocks (model : rangeModel)
  (ba : rangeModel * rangeModel) (num : Z) : result (rangeModel * rangeModel) :=
  picked <- getBlocksOfType (blocks model) Singled ;;
  foldM
    (fun ba kv =>
       let '(before, after) := ba in
       let blockType := fst kv in
       blocks <- numbers blockType (snd kv) ;;
       let '(beforeBlocks, afterBlocks) :=
         fold_left (splitSingledBlock num) blocks ([], []) in
       let before :=
         if (0 <? List.length beforeBlocks)%nat
         then setBlocks before blockType (Numbers beforeBlocks) else before in
       let after :=
         if (0 <? List.length afterBlocks)%nat
         then setBlocks after blockType (Numbers afterBlocks) else after in
       Ok (before, after))
    picked ba.

Definition split (model : rangeModel) (num : Z)
  : result (rangeModel * rangeModel) :=
  let before := {| text := substr (text model) 0 (Some num); blocks := [] |} in
  let after := {| text := substr (text model) num None; blocks := [] |} in
  ba <- splitPropertiedBlocks model (before, after) num ;;
  ba <- splitContinuousBlocks model ba num ;;
  ba <- splitSingledBlocks model ba num ;;
  Ok ba.

(** ** Concat *)

(** [_.mapValues(object, f)] with an [f] that may leave the typed fragment *)
Definition mapValues {A B : Type} (f : string -> A -> result B) (o : object A)
  : result (object B) :=
  mapM (fun kv => v <- f (fst kv) (snd kv) ;; Ok (fst kv, v)) o.

(** [mergedBlocks[blockType] = blocks.concat(mergedBlocks[blockType])] when
    the entry is there, [mergedBlocks[blockType] = blocks] otherwise *)
Definition mergeInto {A : Type} (join : list A -> list A -> list A)
  (mergedBlocks : object (list A)) (blockType : string) (blocks : list A)
  : object (list A) :=
  match get mergedBlocks blockType with
  | Some merged => set mergedBlocks blockType (join blocks merged)
  | None => set mergedBlocks blockType blocks
  end.

Definition concatPropertiedBlocks (before after model : rangeModel)
  : result rangeModel :=
  let num := strlen (text before) in
  picked <- getBlocksOfType (blocks after) Propertied ;;
  mergedBlocks <-
    mapValues
      (fun blockType b =>
         blocks <- objects blockType b ;;
         mapM (fun block =>
                 start <- number block "start" ;;
                 end_ <- number block "end" ;;
                 Ok (set (set block "start" (Num (start + num)))
                       "end" (Num (end_ + num))))
           blocks)
      picked ;;
  picked <- getBlocksOfType (blocks before) Propertied ;;
  mergedBlocks <-
    foldM (fun mergedBlocks kv =>
             blocks <- objects (fst kv) (snd kv) ;;
             Ok (mergeInto (@app _) mergedBlocks (fst kv) blocks))
      picked mergedBlocks ;;
  Ok {| text := text model;
        blocks := assign (blocks model)
                    (map (fun kv => (fst kv, Objects (snd kv))) mergedBlocks) |}.

(** The seam rule of [concatContinuousBlocks] *)
Definition joinContinuous (num : Z) (blocks merged : list Z) : list Z :=
  match at_ blocks (Z.of_nat (List.length blocks) - 1), merged with
  | Some lastEnd, firstStart :: _ =>
      if (lastEnd =? num) && (firstStart =? num)
      then removelast blocks ++ drop merged 1
      else blocks ++ merged
  | _, _ => blocks ++ merged
  end.

Definition concatContinuousBlocks (before after model : rangeModel)
  : result rangeModel :=
  let num := strlen (text before) in
  picked <- getBlocksOfType (blocks after) Continuous ;;
  mergedBlocks <-
    mapValues
      (fun blockType b =>
         blocks <- numbers blockType b ;;
         Ok (map (fun value => value + num) blocks))
      picked ;;
  picked <- getBlocksOfType (blocks before) Continuous ;;
  mergedBlocks <-
    foldM (fun mergedBlocks kv =>
             blocks <- numbers (fst kv) (snd kv) ;;
             Ok (mergeInto (joinContinuous num) mergedBlocks (fst kv) blocks))
      picked mergedBlocks ;;
  Ok {| text := text model;
        blocks := assign (blocks model)
                    (map (fun kv => (fst kv, Numbers (snd kv))) mergedBlocks) |}.

Definition concatSingledBlocks (before after model : rangeModel)
  : result rangeModel :=
  let num := strlen (text before) in
  picked <- getBlocksOfType (blocks after) Singled ;;
  mergedBlocks <-
    mapValues
      (fun blockType b =>
         blocks <- numbers blockType b ;;
         Ok (map (fun block => block + num) blocks))
      picked ;;
  picked <- getBlocksOfType (blocks before) Singled ;;
  mergedBlocks <-
    foldM (fun mergedBlocks kv =>
             blocks <- numbers (fst kv) (snd kv) ;;
             Ok (mergeInto (@app _) mergedBlocks (fst kv) blocks))
      picked mergedBlocks ;;
  Ok {| text := text model;
        blocks := assign (blocks model)
                    (map (fun kv => (fst kv, Numbers (snd kv))) mergedBlocks) |}.

Definition concat (before after : rangeModel) : result rangeModel :=
  let model := {| text := (text before ++ text after)%string; blocks := [] |} in
  model <- concatPropertiedBlocks before after model ;;
  model <- concatContinuousBlocks before after model ;;
  model <- concatSingledBlocks before after model ;;
  Ok model.

(** ** What the specification says of a model *)

(** The handler a kind name is registered under. *)
Definition kindOf (blockName : string) : option setter :=
  option_map set_ (get blockTypes blockName).

Definition hasKind (type : setter) (blockName : string) : bool :=
  match kindOf blockName with
  | Some s => setter_eqb s type
  | None => false
  end.

Fixpoint strictlyAscending (l : list Z) : bool :=
  match l with
  | x :: (y :: _) as rest => (x <? y) && strictlyAscending rest
  | _ => true
  end.

Definition isNum (v : option value) : bool :=
  match v with Some (Num _) => true | _ => false end.

(** The shape of the array stored under a key: the key is a kind name of the
    registry, a continuous kind holds numbers in pairs, a singled kind
    numbers, a propertied kind objects with numeric [start] and [end]. *)
Definition typedEntry (kv : string * blockList) : bool :=
  match kindOf (fst kv), snd kv with
  | Some Continuous, Numbers l => Nat.even (List.length l)
  | Some Singled, Numbers _ => true
  | Some Propertied, Objects l =>
      forallb (fun block => isNum (get block "start") && isNum (get block "end")) l
  | _, _ => false
  end.

Fixpoint uniqueKeys (ks : list string) : bool :=
  match ks with
  | [] => true
  | k :: rest => negb (existsb (String.eqb k) rest) && uniqueKeys rest
  end.

(** A range model as the data model describes it: an object (no key
    twice) from kind names to arrays of the kind's shape. *)
Definition typed (m : rangeModel) : bool :=
  uniqueKeys (keys (blocks m)) && forallb typedEntry (blocks m).

(** Well-formedness of a returned model: continuous lists of even
    length, strictly ascending when flattened, and no empty list under any
    key. *)
Definition wellFormedEntry (kv : string * blockList) : bool :=
  match snd kv with
  | Numbers [] | Objects [] => false
  | Numbers l =>
      match kindOf (fst kv) with
      | Some Continuous => Nat.even (List.length l) && strictlyAscending l
      | _ => true
      end
  | Objects _ => true
  end.

Definition wellFormed (m : rangeModel) : bool :=
  forallb wellFormedEntry (blocks m).

(** The [start, end) pairs a continuous list is read as. *)
Fixpoint ranges (l : list Z) : list (Z * Z) :=
  match l with
  | x :: y :: rest => (x, y) :: ranges rest
  | _ => []
  end.

(** The crossing count in the words of the specification: the pairs of [Y]
    whose two endpoints have different insertion positions in [X]. *)
Definition crossings (X Y : list Z) : nat :=
  List.length
    (filter (fun r => negb (getBinarySortedInsertPosition X (Some (fst r))
                            =? getBinarySortedInsertPosition X (Some (snd r))))
       (ranges Y)).

(** ** The passes of split and concat on values of the right shape

    Where the arrays have the shape of their kind nothing can fail, and
    each pass is a plain fold; these are the folds. *)

(** The key is not a member of [blockTypes], own or inherited. *)
Definition unknown (blockName : string) : bool :=
  match lookup blockTypes blockName with
  | Undefined => true
  | _ => false
  end.

(** What [getBlocksOfType] throws on such a key. *)
Definition dispatchError : exn := TypeError "blockTypes[blockName].set".

Definition numeric (block : object value) : bool :=
  isNum (get block "start") && isNum (get block "end").

(** The shape without the pairing of continuous boundaries: what the
    passes need in order not to fail. *)
Definition shapedEntry (kv : string * blockList) : bool :=
  match kindOf (fst kv), snd kv with
  | Some Continuous, Numbers _ => true
  | Some Singled, Numbers _ => true
  | Some Propertied, Objects l => forallb numeric l
  | _, _ => false
  end.

Definition shaped (blocks : object blockList) : bool :=
  forallb shapedEntry blocks.

Definition numbersOf (b : blockList) : list Z :=
  match b with Numbers l => l | Objects _ => [] end.

Definition objectsOf (b : blockList) : list (object value) :=
  match b with Objects l => l | Numbers _ => [] end.

Definition num0 (block : object value) (k : string) : Z :=
  match get block k with Some (Num n) => n | _ => 0 end.

(** [m.blocks[blockType] = v] when there is a [v] *)
Definition store (g : blockList -> option blockList) (m : rangeModel)
  (kv : string * blockList) : rangeModel :=
  match g (snd kv) with
  | Some v => setBlocks m (fst kv) v
  | None => m
  end.

Definition unlessEmpty {A : Type} (wrap : list A -> blockList) (l : list A)
  : option blockList :=
  if (0 <? List.length l)%nat then Some (wrap l) else None.

Definition clonePropertied (num : Z)
  (acc : list (object value) * list (object value)) (block : object value)
  : list (object value) * list (object value) :=
  let start := num0 block "start" in
  let end_ := num0 block "end" in
  if (start <? num) && (end_ <? num) then (fst acc ++ [block], snd acc)
  else if (start >? num) && (end_ >? num) then
    (fst acc,
     snd acc
     ++ [set (set block "start" (Num (start - num))) "end" (Num (end_ - num))])
  else
    (fst acc ++ [set block "end" (Num num)],
     snd acc ++ [set (set block "start" (Num 0)) "end" (Num (end_ - num))]).

Definition propertiedHalves (num : Z) (b : blockList)
  : list (object value) * list (object value) :=
  fold_left (clonePropertied num) (objectsOf b) ([], []).

Definition cutContinuous (num : Z) (blocks : list Z) : list Z * list Z :=
  let index := getBinarySortedInsertPosition blocks (Some num) in
  if Z.rem index 2 =? 1 then
    (take blocks (index - 1) ++ [nth (Z.to_nat (index - 1)) blocks 0; num],
     [0; nth (Z.to_nat index) blocks 0 - num]
     ++ map (fun value => value - num) (drop blocks (index + 1)))
  else
    (take blocks index, map (fun value => value - num) (drop blocks index)).

Definition singledHalves (num : Z) (b : blockList) : list Z * list Z :=
  fold_left (splitSingledBlock num) (numbersOf b) ([], []).

(** An ascending list, and the position that separates the elements below
    [v] from the rest. *)
Definition ascending (list : list Z) : Prop :=
  forall i j : nat, (i < j < List.length list)%nat ->
                    nth i list 0 < nth j list 0.

Definition splitsAt (list : list Z) (v r : Z) : Prop :=
  0 <= r <= Z.of_nat (List.length list)
  /\ (forall j, 0 <= j < r -> nth (Z.to_nat j) list 0 < v)
  /\ (forall j, r <= j < Z.of_nat (List.length list) ->
                v <= nth (Z.to_nat j) list 0).

(** The three passes of [split] on one side, as the entries they store. *)
Definition propertiedSide (side : bool) (num : Z) (b : blockList)
  : option blockList :=
  let halves := propertiedHalves num b in
  unlessEmpty Objects (if side then fst halves else snd halves).

Definition continuousSide (side : bool) (num : Z) (b : blockList)
  : option blockList :=
  let halves := cutContinuous num (numbersOf b) in
  Some (Numbers (if side then fst halves else snd halves)).

Definition singledSide (side : bool) (num : Z) (b : blockList)
  : option blockList :=
  let halves := singledHalves num b in
  unlessEmpty Numbers (if side then fst halves else snd halves).

Definition pick (type : setter) (blocks : object blockList) : object blockList :=
  filter (fun kv => hasKind type (fst kv)) blocks.

(** One side of [split(model, num)]: [side = true] is [before]. *)
Definition splitSide (side : bool) (model : rangeModel) (num : Z) : rangeModel :=
  let start :=
    {| text := if side then substr (text model) 0 (Some num)
               else substr (text model) num None;
       blocks := [] |} in
  fold_left (store (singledSide side num)) (pick Singled (blocks model))
    (fold_left (store (continuousSide side num)) (pick Continuous (blocks model))
       (fold_left (store (propertiedSide side num))
          (pick Propertied (blocks model)) start)).

(** The passes of [concat] on arrays of the right shape. *)
Definition shiftPropertied (num : Z) (block : object value) : object value :=
  set (set block "start" (Num (num0 block "start" + num)))
    "end" (Num (num0 block "end" + num)).

Definition mergedNumbers (join : list Z -> list Z -> list Z) (type : setter)
  (num : Z) (before after : rangeModel) : object (list Z) :=
  fold_left
    (fun mergedBlocks kv =>
       mergeInto join mergedBlocks (fst kv) (numbersOf (snd kv)))
    (pick type (blocks before))
    (map (fun kv => (fst kv, map (fun value => value + num) (numbersOf (snd kv))))
       (pick type (blocks after))).

Definition mergedObjects (num : Z) (before after : rangeModel)
  : object (list (object value)) :=
  fold_left
    (fun mergedBlocks kv =>
       mergeInto (@app _) mergedBlocks (fst kv) (objectsOf (snd kv)))
    (pick Propertied (blocks before))
    (map (fun kv => (fst kv, map (shiftPropertied num) (objectsOf (snd kv))))
       (pick Propertied (blocks after))).

Definition wrap {A : Type} (w : list A -> blockList) (o : object (list A))
  : object blockList :=
  map (fun kv => (fst kv, w (snd kv))) o.

Definition concatBlocks (before after : rangeModel) : object blockList :=
  let num := strlen (text before) in
  assign
    (assign
       (assign [] (wrap Objects (mergedObjects num before after)))
       (wrap Numbers
          (mergedNumbers (joinContinuous num) Continuous num before after)))
    (wrap Numbers (mergedNumbers (@app _) Singled num before after)).

(** ** Sample inputs *)

(** A model with one range of each kind over ["abcdefgh"]. *)
Definition sample : rangeModel :=
  {| text := "abcdefgh";
     blocks :=
       [ ("strong", Numbers [0; 6]);
         ("link", Objects [[("start", Num 2); ("end", Num 8); ("href", Str "x")]]);
         ("soft return", Numbers [1; 5; 7; 5]) ] |}.

(** [<p><b>ab<i>cd</i>ef</b></p>] *)
Definition p_b_i : Node :=
  Element 1 "P" []
    [ Element 2 "B" []
        [ Text 3 "ab"; Element 4 "I" [] [ Text 5 "cd" ]; Text 6 "ef" ] ].

(** [<br><br>] *)
Definition br_br : Node :=
  DocumentFragment [ Element 1 "BR" [] []; Element 2 "BR" [] [] ].

(** [<a href="x">ab</a><span>cd<a href="y">ef</a></span>] *)
Definition a_span_a : Node :=
  DocumentFragment
    [ Element 1 "A" [("href", "x")] [ Text 2 "ab" ];
      Element 3 "SPAN" []
        [ Text 4 "cd"; Element 5 "A" [("href", "y")] [ Text 6 "ef" ] ] ].

(** What [addContinuousBlocksToElement] does for one kind, the callback
    [function (blocksOfType, blockType)] it hands to [_.forOwn]: the [for]
    loop that wraps the spans of the kind, one after the other. *)
Definition wrapSpans (fuel : nat) (d : dom) (kv : string * blockList)
  : result dom :=
  let blockType := fst kv in
  blocksOfType <- numbers blockType (snd kv) ;;
  eachPair
    (fun d start end_ =>
       list <- getTextNodeTargets fuel (el d) start end_ ;;
       foldM (splitTextNode blockType []) list d)
    blocksOfType d.

(** Two continuous kinds whose spans cross, one nested in the other's. *)
Definition crossing : rangeModel :=
  {| text := "abcdefghijklmnopqrst";
     blocks := [("emphasis", Numbers [5; 15]);
                ("strong", Numbers [0; 10; 12; 18])] |}.

Definition link_2_5 : rangeModel :=
  {| text := "abcdefgh";
     blocks :=
       [("link", Objects [[("start", Num 2); ("end", Num 5); ("href", Str "x")]])] |}.

Definition link_5_8 : rangeModel :=
  {| text := "abcdefgh";
     blocks :=
       [("link", Objects [[("start", Num 5); ("end", Num 8); ("href", Str "x")]])] |}.

Definition strong_0_3 : rangeModel :=
  {| text := "abcdef"; blocks := [("strong", Numbers [0; 3])] |}.

Definition strong_4_6 : rangeModel :=
  {| text := "abcdef"; blocks := [("strong", Numbers [4; 6])] |}.

Definition plain_abc : rangeModel := {| text := "abc"; blocks := [] |}.

Definition constructor_key : rangeModel :=
  {| text := "abc"; blocks := [("constructor", Numbers [1])] |}.

Definition colour_key : rangeModel :=
  {| text := "abc"; blocks := [("colour", Numbers [1])] |}.

(** The call does not end in the error of the dispatch. *)
Definition quiet {A : Type} (r : result A) : Prop := r <> Throw dispatchError.

(** The pieces of one propertied range on either side of the offset, in
    the words of the specification: a range entirely left of the offset
    (it ends at or before it) stays whole on the left, one entirely right
    (it starts at or after it) moves to the right shifted, one that
    straddles it is cloned into both. *)
Definition piecesBefore (num : Z) (block : object value)
  : list (object value) :=
  if num0 block "end" <=? num then [block]
  else if num <=? num0 block "start" then []
  else [set block "end" (Num num)].

Definition piecesAfter (num : Z) (block : object value)
  : list (object value) :=
  if num0 block "end" <=? num then []
  else if num <=? num0 block "start" then
    [set (set block "start" (Num (num0 block "start" - num)))
       "end" (Num (num0 block "end" - num))]
  else
    [set (set block "start" (Num 0)) "end" (Num (num0 block "end" - num))].

(** A range of positive length that neither starts nor ends at the offset. *)
Definition clearOf (num : Z) (block : object value) : bool :=
  (num0 block "start" <? num0 block "end")
  && negb (num0 block "start" =? num) && negb (num0 block "end" =? num).

(** ** Vocabulary of the further properties *)

(** A boundary of [X] lies in the span [[start, end)]. *)
Definition holdsBoundary (X : list Z) (span : Z * Z) : bool :=
  existsb (fun x => (fst span <=? x) && (x <? snd span)) X.

(** The array under a key is of the kind the key is registered under:
    numbers for a continuous or a singled kind, objects for a propertied
    one. *)
Definition kindedEntry (kv : string * blockList) : bool :=
  match kindOf (fst kv), snd kv with
  | Some Continuous, Numbers _ => true
  | Some Singled, Numbers _ => true
  | Some Propertied, Objects _ => true
  | _, _ => false
  end.

(** The node is not an element that bears the name of a member of
    [Object.prototype]. *)
Definition plainName (pn : Node * Node) : bool :=
  match snd pn with
  | Element _ n _ _ => negb (existsb (String.eqb n) ObjectPrototype)
  | _ => true
  end.

(** What holds of the model while [fromElement] walks the tree. *)
Definition ingested (m : rangeModel) : bool :=
  uniqueKeys (keys (blocks m)) && forallb kindedEntry (blocks m)
  && wellFormed m.


(** A position of a text of length [n]. *)
Definition insideText (n x : Z) : bool := (0 <=? x) && (x <=? n).

Definition memberInside (n : Z) (v : option value) : bool :=
  match v with
  | Some (Num x) => insideText n x
  | _ => true
  end.

(** Every number of the array, and every numeric [start] and [end] of its
    objects, is a position of a text of length [n]. *)
Definition within (n : Z) (kv : string * blockList) : bool :=
  match snd kv with
  | Numbers l => forallb (insideText n) l
  | Objects l =>
      forallb (fun block => memberInside n (get block "start")
                            && memberInside n (get block "end")) l
  end.

(** The content text of a stretch of the document order. *)
Definition contentOf (ds : list (Node * Node)) : string :=
  fold_left
    (fun str pn => match nodeValue_ (snd pn) with
                   | Some v => (str ++ v)%string
                   | None => str
                   end)
    (filter (fun pn => SHOW_TEXT (snd pn) && contentTextOnly (fst pn) (snd pn))
       ds) "".

(** In document order every node is followed by its own descendants. *)
Fixpoint nested (ds : list (Node * Node)) : Prop :=
  match ds with
  | [] => True
  | pn :: rest =>
      (exists after, rest = descendants (snd pn) ++ after) /\ nested rest
  end.

Unset Implicit Arguments.

(** Induction on trees, with the property at hand for every child. *)
Fixpoint Node_forall (P : Node -> Prop)
  (HText : forall i v, P (Text i v))
  (HElement : forall i n a ch, Forall P ch -> P (Element i n a ch))
  (HComment : forall i v, P (Comment i v))
  (HFragment : forall ch, Forall P ch -> P (DocumentFragment ch))
  (node : Node) : P node :=
  let fix all (l : list Node) : Forall P l :=
    match l with
    | [] => Forall_nil P
    | c :: r =>
        Forall_cons c (Node_forall P HText HElement HComment HFragment c)
          (all r)
    end in
  match node with
  | Text i v => HText i v
  | Element i n a ch => HElement i n a ch (all ch)
  | Comment i v => HComment i v
  | DocumentFragment ch => HFragment ch (all ch)
  end.

Set Implicit Arguments.

(** No attribute of the node is named [start] or [end]. *)
Definition noRangeAttribute (pn : Node * Node) : bool :=
  forallb (fun attr => negb (String.eqb (fst attr) "start")
                       && negb (String.eqb (fst attr) "end"))
    (attributes_ (snd pn)).

(** The objects of the array have a numeric [start] and [end]. *)
Definition numericEntry (kv : string * blockList) : bool :=
  forallb numeric (objectsOf (snd kv)).


(** The two tests of [splitPropertiedBlocks] on a range: wholly below the
    offset, wholly above it. *)
Definition liesBefore (num : Z) (block : object value) : bool :=
  (num0 block "start" <? num) && (num0 block "end" <? num).

Definition liesAfter (num : Z) (block : object value) : bool :=
  (num0 block "start" >? num) && (num0 block "end" >? num).

(** The model of an empty text. *)
Definition emptyModel : rangeModel := {| text := ""; blocks := [] |}.

(** Two links, the later one first. *)
Definition a_b_links : rangeModel :=
  {| text := "abcdefgh";
     blocks :=
       [ ("link",
          Objects [ [("start", Num 5); ("end", Num 8); ("href", Str "y")];
                    [("start", Num 0); ("end", Num 3); ("href", Str "x")] ]) ] |}.


(** The kind name under which [fromElement] files the element that
    [toElement] creates for a kind: the tag of the kind, renamed by
    [getNodeName], looked up in [tagTypes]. *)
Definition canonicalKind (blockType : string) : result string :=
  tagName <- tagNameOf blockType ;;
  t <- tagTypeOf "tagTypes[name].set" (getNodeName (Element 0 tagName [] [])) ;;
  Ok (name t).

(** The members an element's attributes become in a propertied range. *)
Definition strings (attrs : list (string * string)) : object value :=
  map (fun attr => (fst attr, Str (snd attr))) attrs.

(** A name that [setAttribute] takes and stores as it is, and that
    [getAttributes] stores as well: valid, in lower case, not
    [__proto__]. *)
Definition keptName (k : string) : bool :=
  match validAttributeName k with Some true => true | _ => false end
  && String.eqb (asciiLowercase k) k
  && negb (String.eqb k "__proto__").


(** The range does not end before it starts. *)
Definition orderedRange (block : object value) : bool :=
  num0 block "start" <=? num0 block "end".

(** A sound entry of a model over a text of length [n]: of the shape of
    its kind, not empty, ascending in pairs if continuous, with positions
    in the text and ranges that do not end before they start. *)
Definition soundEntry (n : Z) (kv : string * blockList) : bool :=
  typedEntry kv && wellFormedEntry kv && within n kv
  && forallb orderedRange (objectsOf (snd kv)).

Definition sound (m : rangeModel) : bool :=
  uniqueKeys (keys (blocks m))
  && forallb (soundEntry (strlen (text m))) (blocks m).


(** What [toElement] has built in front of the text node it started from:
    plain text nodes and elements around one text node. *)
Inductive piece : Type :=
| Plain (id : nat) (v : string)
| Wrapped (id inner : nat) (v : string).

Definition toNode (tagName : string) (p : piece) : Node :=
  match p with
  | Plain id v => Text id v
  | Wrapped id inner v => Element id tagName [] [Text inner v]
  end.

Definition pieceText (p : piece) : string :=
  match p with Plain _ v | Wrapped _ _ v => v end.

Definition pieceTextNode (p : piece) : Node :=
  match p with
  | Plain id v => Text id v
  | Wrapped _ inner v => Text inner v
  end.

(** The identities of a piece are not 0 and below [next]. *)
Definition pieceBelow (next : nat) (p : piece) : bool :=
  match p with
  | Plain id _ => (0 <? id)%nat && (id <? next)%nat
  | Wrapped id inner _ =>
      (0 <? id)%nat && (id <? next)%nat
      && (0 <? inner)%nat && (inner <? next)%nat
  end.

(** The pieces [addContinuousBlocksToElement] makes of the text [rest] that
    starts at position [c], for the spans of one kind, and the text it
    leaves in the node it started from. *)
Fixpoint emittedPieces (rest : string) (c : Z) (id : nat) (spans : list Z)
  : list piece :=
  match spans with
  | s :: e :: more =>
      let startText := substr rest 0 (Some (s - c)) in
      let middleText := substr rest (s - c) (Some (e - s)) in
      let endText := substr rest (e - c) None in
      (if strlen startText >? 0 then [Plain (S (S id)) startText] else [])
      ++ [Wrapped id (S id) middleText]
      ++ emittedPieces endText e
           (if strlen startText >? 0 then S (S (S id)) else S (S id)) more
  | _ => []
  end.

Fixpoint leftover (rest : string) (c : Z) (spans : list Z) : string :=
  match spans with
  | s :: e :: more => leftover (substr rest (e - c) None) e more
  | _ => rest
  end.

(** Spans one after the other, apart, in a text that goes from [c] to
    [n]; the first may start at [c]. *)
Fixpoint apart (first : bool) (c n : Z) (spans : list Z) : bool :=
  match spans with
  | [] => true
  | s :: e :: more =>
      (if first then c <=? s else c <? s) && (s <? e) && (e <=? n)
      && apart false e n more
  | [_] => false
  end.

(** The text the pieces hold, in document order. *)
Definition piecesText (ps : list piece) : string :=
  fold_right (fun p acc => (pieceText p ++ acc)%string) "" ps.

(** The nodes the walker of [fromElement] stops at in a piece. *)
Definition visited (tagName : string) (p : piece) : list Node :=
  match p with
  | Plain id v => [Text id v]
  | Wrapped id inner v => [Element id tagName [] [Text inner v]; Text inner v]
  end.


(** ** Properties of the binary search *)

Section Search.
Variable list : list Z.
Local Abbreviation len := (Z.of_nat (List.length list)).

Lemma at_nth (i : Z) :
  0 <= i < len -> at_ list i = Some (nth (Z.to_nat i) list 0).
Proof.
  intros Hi. unfold at_.
  destruct (Z.ltb_spec i 0); [lia|].
  apply nth_error_nth'. lia.
Qed.

Lemma at_none (i : Z) : i < 0 \/ len <= i -> at_ list i = None.
Proof.
  intros Hi. unfold at_.
  destruct (Z.ltb_spec i 0); [reflexivity|].
  apply nth_error_None. lia.
Qed.

Lemma midpoint_bounds (low high : Z) :
  low <= high ->
  low <= low + Z.shiftr (high - low) 1 <= high.
Proof.
  intros H. rewrite Z.shiftr_div_pow2 by lia. change (2 ^ 1) with 2.
  pose proof (Z.div_pos (high - low) 2).
  pose proof (Z.div_le_upper_bound (high - low) 2 (high - low)).
  lia.
Qed.

(** The loop never leaves the window it was given. *)
Lemma search_bounds (value : option Z) (low high : Z) :
  low <= high + 1 ->
  low <= search list value low high <= high + 1.
Proof.
  intros H.
  refine (search_elim
            (fun l v low high r => l = list -> v = value ->
               low <= high + 1 -> low <= r <= high + 1)
            _ _ _ _ list value low high eq_refl eq_refl H); clear H low high.
  - intros; lia.
  - intros l v low high Hle IH _ _ -> -> _.
    pose proof (midpoint_bounds Hle). specialize (IH eq_refl eq_refl). lia.
  - intros l v low high Hle IH _ _ -> -> _.
    pose proof (midpoint_bounds Hle). specialize (IH eq_refl eq_refl). lia.
  - intros l v low high Hle _ _ -> -> _.
    pose proof (midpoint_bounds Hle). lia.
Qed.

Lemma getBinarySortedInsertPosition_bounds (value : option Z) :
  0 <= getBinarySortedInsertPosition list value <= len.
Proof.
  unfold getBinarySortedInsertPosition.
  pose proof (@search_bounds value 0 (len - 1)). lia.
Qed.

(** On an ascending list the loop returns the number of elements below
    [value]. *)
Lemma search_sorted (v : Z) (low high : Z) :
  ascending list ->
  0 <= low -> high < len -> low <= high + 1 ->
  (forall j, 0 <= j < low -> nth (Z.to_nat j) list 0 < v) ->
  (forall j, high < j < len -> v < nth (Z.to_nat j) list 0) ->
  splitsAt list v (search list (Some v) low high).
Proof.
  intros Hasc H0 Hh Hlh Hlo Hhi.
  refine (search_elim
            (fun l value low high r => l = list -> value = Some v ->
               0 <= low -> high < len -> low <= high + 1 ->
               (forall j, 0 <= j < low -> nth (Z.to_nat j) list 0 < v) ->
               (forall j, high < j < len -> v < nth (Z.to_nat j) list 0) ->
               splitsAt list v r)
            _ _ _ _ list (Some v) low high eq_refl eq_refl
            H0 Hh Hlh Hlo Hhi); clear H0 Hh Hlh Hlo Hhi low high.
  - intros l value low high Hgt _ -> -> H0 Hh Hlh Hlo Hhi.
    repeat split; try lia.
    + exact Hlo.
    + intros j Hj. apply Z.lt_le_incl, Hhi. lia.
  - intros l value low high Hle IH Hcmp _ -> -> H0 Hh Hlh Hlo Hhi.
    pose proof (midpoint_bounds Hle) as Hm.
    set (mid := low + Z.shiftr (high - low) 1) in *.
    rewrite at_nth in Hcmp by lia. simpl in Hcmp.
    destruct (Z.ltb_spec (nth (Z.to_nat mid) list 0) v) as [Hlt|];
      [|destruct (nth (Z.to_nat mid) list 0 >? v); discriminate].
    apply IH; try reflexivity; try lia.
    + intros j Hj.
      destruct (Z.eq_dec j mid) as [->|]; [exact Hlt|].
      apply Z.lt_trans with (nth (Z.to_nat mid) list 0); [|exact Hlt].
      apply Hasc. lia.
    + intros j Hj. apply Hhi. lia.
  - intros l value low high Hle IH Hcmp _ -> -> H0 Hh Hlh Hlo Hhi.
    pose proof (midpoint_bounds Hle) as Hm.
    set (mid := low + Z.shiftr (high - low) 1) in *.
    rewrite at_nth in Hcmp by lia. simpl in Hcmp.
    destruct (Z.ltb_spec (nth (Z.to_nat mid) list 0) v); [discriminate|].
    destruct (Z.gtb_spec (nth (Z.to_nat mid) list 0) v) as [Hgt|];
      [|discriminate].
    apply IH; try reflexivity; try lia.
    + exact Hlo.
    + intros j Hj.
      destruct (Z.eq_dec j mid) as [->|]; [lia|].
      destruct (Z_lt_le_dec high j); [apply Hhi; lia|].
      apply Z.lt_trans with (nth (Z.to_nat mid) list 0); [lia|].
      apply Hasc. lia.
  - intros l value low high Hle Hcmp _ -> -> H0 Hh Hlh Hlo Hhi.
    pose proof (midpoint_bounds Hle) as Hm.
    set (mid := low + Z.shiftr (high - low) 1) in *.
    rewrite at_nth in Hcmp by lia. simpl in Hcmp.
    destruct (Z.ltb_spec (nth (Z.to_nat mid) list 0) v); [discriminate|].
    destruct (Z.gtb_spec (nth (Z.to_nat mid) list 0) v); [discriminate|].
    assert (Hmid : nth (Z.to_nat mid) list 0 = v) by lia.
    repeat split; try lia.
    + intros j Hj.
      destruct (Z_lt_le_dec j low); [apply Hlo; lia|].
      rewrite <- Hmid. apply Hasc. lia.
    + intros j Hj.
      destruct (Z.eq_dec j mid) as [->|]; [lia|].
      rewrite <- Hmid. apply Z.lt_le_incl. apply Hasc. lia.
Qed.

Lemma getBinarySortedInsertPosition_sorted (v : Z) :
  ascending list ->
  splitsAt list v (getBinarySortedInsertPosition list (Some v)).
Proof.
  intros Hasc. unfold getBinarySortedInsertPosition.
  apply search_sorted; try assumption; try lia.
Qed.
End Search.

(** ** Properties of objects *)

Section ObjectFacts.
Context {V : Type}.
Implicit Types (o t s : object V) (k : string) (v : V).

Lemma get_set_same o k v : get (set o k v) k = Some v.
Proof.
  induction o as [|[k' v'] o IH]; simpl.
  - now rewrite String.eqb_refl.
  - destruct (String.eqb_spec k' k) as [->|Hne]; simpl.
    + now rewrite String.eqb_refl.
    + destruct (String.eqb_spec k' k); [contradiction|exact IH].
Qed.

Lemma get_set_other o k v k' : k <> k' -> get (set o k v) k' = get o k'.
Proof.
  intros Hne. induction o as [|[k0 v0] o IH]; simpl.
  - destruct (String.eqb_spec k k'); [contradiction|reflexivity].
  - destruct (String.eqb_spec k0 k) as [->|]; simpl.
    + destruct (String.eqb_spec k k'); [contradiction|reflexivity].
    + now rewrite IH.
Qed.

Lemma get_set o k v k' :
  get (set o k v) k' = if String.eqb k k' then Some v else get o k'.
Proof.
  destruct (String.eqb_spec k k') as [->|Hne].
  - apply get_set_same.
  - now apply get_set_other.
Qed.

Lemma get_none_keys o k : get o k = None <-> existsb (String.eqb k) (keys o) = false.
Proof.
  induction o as [|[k' v'] o IH]; simpl; [tauto|].
  rewrite (String.eqb_sym k k').
  destruct (String.eqb k' k); simpl; [split; discriminate|exact IH].
Qed.

Lemma keys_set o k v :
  keys (set o k v)
  = if existsb (String.eqb k) (keys o) then keys o else keys o ++ [k].
Proof.
  induction o as [|[k' v'] o IH]; simpl; [reflexivity|].
  rewrite (String.eqb_sym k k').
  destruct (String.eqb_spec k' k) as [->|]; simpl; [reflexivity|].
  rewrite IH. now destruct (existsb (String.eqb k) (keys o)).
Qed.

Lemma existsb_app_one (ks : list string) k k' :
  existsb (String.eqb k') (ks ++ [k])
  = existsb (String.eqb k') ks || String.eqb k' k.
Proof. rewrite existsb_app. simpl. now rewrite orb_false_r. Qed.

Lemma uniqueKeys_app_one (ks : list string) k :
  uniqueKeys ks = true -> existsb (String.eqb k) ks = false ->
  uniqueKeys (ks ++ [k]) = true.
Proof.
  induction ks as [|k0 ks IH]; simpl; [reflexivity|].
  rewrite !andb_true_iff, !negb_true_iff, !orb_false_iff.
  intros [Hk0 Hu] [Hne Hk]. split; [|now apply IH].
  rewrite existsb_app_one, Hk0. simpl.
  now rewrite String.eqb_sym.
Qed.

Lemma uniqueKeys_set o k v :
  uniqueKeys (keys o) = true -> uniqueKeys (keys (set o k v)) = true.
Proof.
  intros Hu. rewrite keys_set.
  destruct (existsb (String.eqb k) (keys o)) eqn:E; [exact Hu|].
  now apply uniqueKeys_app_one.
Qed.

Lemma assign_snoc t s k v : assign t (s ++ [(k, v)]) = set (assign t s) k v.
Proof. unfold assign. now rewrite fold_left_app. Qed.

Lemma get_app o o' k :
  get (o ++ o') k = match get o k with Some v => Some v | None => get o' k end.
Proof.
  induction o as [|[k' v'] o IH]; simpl; [reflexivity|].
  now destruct (String.eqb k' k).
Qed.

Lemma get_assign_none t s k : get s k = None -> get (assign t s) k = get t k.
Proof.
  induction s as [|[k' v'] s IH] using rev_ind; [reflexivity|].
  rewrite get_app, assign_snoc, get_set. simpl.
  destruct (get s k); [discriminate|].
  destruct (String.eqb k' k); [discriminate|]. intros _. now apply IH.
Qed.

Lemma uniqueKeys_get_app o k v :
  uniqueKeys (keys (o ++ [(k, v)])) = true -> get o k = None.
Proof.
  unfold keys. rewrite map_app. simpl.
  induction o as [|[k' v'] o IH]; simpl; [reflexivity|].
  rewrite andb_true_iff, negb_true_iff, existsb_app_one, orb_false_iff.
  intros [[_ Hne] Hu]. rewrite Hne. now apply IH.
Qed.

Lemma uniqueKeys_app_l (ks ks' : list string) :
  uniqueKeys (ks ++ ks') = true -> uniqueKeys ks = true.
Proof.
  induction ks as [|k ks IH]; simpl; [reflexivity|].
  rewrite !andb_true_iff, !negb_true_iff, existsb_app, orb_false_iff.
  intros [[Hk _] Hu]. split; [exact Hk|now apply IH].
Qed.

Lemma get_assign_some t s k v :
  uniqueKeys (keys s) = true -> get s k = Some v ->
  get (assign t s) k = Some v.
Proof.
  induction s as [|[k' v'] s IH] using rev_ind; [discriminate|].
  intros Hu. rewrite get_app, assign_snoc, get_set. simpl.
  pose proof (uniqueKeys_get_app _ _ _ Hu) as Hnone.
  destruct (String.eqb_spec k' k) as [->|Hne].
  - rewrite Hnone. now intros [= ->].
  - destruct (get s k) eqn:E; [|discriminate].
    intros [= ->]. apply IH; [|reflexivity].
    unfold keys in Hu. rewrite map_app in Hu.
    now apply uniqueKeys_app_l in Hu.
Qed.

Lemma uniqueKeys_assign t s :
  uniqueKeys (keys t) = true -> uniqueKeys (keys (assign t s)) = true.
Proof.
  revert t. induction s as [|[k v] s IH]; intros t Hu; [exact Hu|].
  apply IH. now apply uniqueKeys_set.
Qed.

Lemma keys_filter_unique (p : string * V -> bool) o :
  uniqueKeys (keys o) = true -> uniqueKeys (keys (filter p o)) = true.
Proof.
  induction o as [|[k v] o IH]; simpl; [reflexivity|].
  rewrite andb_true_iff, negb_true_iff. intros [Hk Hu].
  assert (Hk' : existsb (String.eqb k) (keys (filter p o)) = false).
  { clear -Hk. induction o as [|[k' v'] o IH]; simpl in *; [reflexivity|].
    apply orb_false_iff in Hk as [Hne Hk].
    destruct (p (k', v')); simpl; [rewrite Hne|]; now apply IH. }
  destruct (p (k, v)); simpl; [|now apply IH].
  rewrite Hk'. now apply IH.
Qed.

Lemma get_filter (p : string -> bool) o k :
  get (filter (fun kv => p (fst kv)) o) k = if p k then get o k else None.
Proof.
  induction o as [|[k' v'] o IH]; simpl; [now destruct (p k)|].
  destruct (p k') eqn:Ep; simpl;
    destruct (String.eqb_spec k' k) as [->|]; try exact IH.
  - now rewrite Ep.
  - now rewrite Ep in *.
Qed.
End ObjectFacts.

Lemma get_map_values {A B : Type} (f : string -> A -> B) (o : object A) k :
  get (map (fun kv => (fst kv, f (fst kv) (snd kv))) o) k
  = option_map (f k) (get o k).
Proof.
  induction o as [|[k' v'] o IH]; simpl; [reflexivity|].
  destruct (String.eqb_spec k' k) as [->|]; [reflexivity|exact IH].
Qed.

Lemma keys_map_values {A B : Type} (f : string -> A -> B) (o : object A) :
  keys (map (fun kv => (fst kv, f (fst kv) (snd kv))) o) = keys o.
Proof. unfold keys. rewrite map_map. reflexivity. Qed.

(** ** Properties of the dispatch on kind names *)

Unset Implicit Arguments.
Opaque blockTypes ObjectPrototype.

Lemma getBlocksOfType_spec (blocks : object blockList) (type : setter) :
  getBlocksOfType blocks type
  = if existsb unknown (keys blocks) then Throw dispatchError
    else Ok (pick type blocks).
Proof.
  induction blocks as [|[k b] rest IH]; [reflexivity|].
  cbn [getBlocksOfType keys map existsb pick filter fst].
  unfold unknown at 1, hasKind at 1, kindOf, lookup.
  destruct (get blockTypes k) as [t|]; cbn [option_map orb].
  - rewrite IH. fold (keys rest).
    destruct (existsb unknown (keys rest)); [reflexivity|].
    cbn [bind]. unfold pick. now destruct (setter_eqb (set_ t) type).
  - destruct (existsb (String.eqb k) ObjectPrototype); [exact IH|reflexivity].
Qed.

Lemma shapedEntry_known (kv : string * blockList) :
  shapedEntry kv = true -> unknown (fst kv) = false.
Proof.
  unfold shapedEntry, unknown, kindOf, lookup.
  now destruct (get blockTypes (fst kv)).
Qed.

Lemma shaped_known (blocks : object blockList) :
  shaped blocks = true -> existsb unknown (keys blocks) = false.
Proof.
  induction blocks as [|kv rest IH]; [reflexivity|].
  cbn [shaped forallb keys map existsb]. rewrite andb_true_iff.
  intros [Hkv Hrest]. rewrite (shapedEntry_known _ Hkv). now apply IH.
Qed.

Lemma getBlocksOfType_shaped (blocks : object blockList) (type : setter) :
  shaped blocks = true -> getBlocksOfType blocks type = Ok (pick type blocks).
Proof.
  intros H. now rewrite getBlocksOfType_spec, shaped_known.
Qed.

Lemma typedEntry_shaped (kv : string * blockList) :
  typedEntry kv = true -> shapedEntry kv = true.
Proof.
  unfold typedEntry, shapedEntry.
  destruct (kindOf (fst kv)) as [[]|], (snd kv); auto.
Qed.

Lemma typed_shaped (m : rangeModel) : typed m = true -> shaped (blocks m) = true.
Proof.
  unfold typed, shaped. rewrite andb_true_iff. intros [_ H].
  rewrite forallb_forall in *. intros kv Hin. now apply typedEntry_shaped, H.
Qed.

Lemma hasKind_kindOf (type : setter) (k : string) :
  hasKind type k = true <-> kindOf k = Some type.
Proof.
  unfold hasKind. destruct (kindOf k) as [s|]; [|split; discriminate].
  destruct s, type; simpl; split; congruence.
Qed.

Lemma hasKind_other (type type' : setter) (k : string) :
  kindOf k = Some type -> type <> type' -> hasKind type' k = false.
Proof.
  intros Hk Hne. destruct (hasKind type' k) eqn:E; [|reflexivity].
  apply hasKind_kindOf in E. congruence.
Qed.

(** ** Loops that cannot fail *)

Lemma foldM_pure {A S : Type} (f : S -> A -> result S) (g : S -> A -> S)
  (P : A -> Prop) (l : list A) (s : S) :
  Forall P l -> (forall s a, P a -> f s a = Ok (g s a)) ->
  foldM f l s = Ok (fold_left g l s).
Proof.
  intros Hall Hf. revert s.
  induction Hall as [|a l Ha _ IH]; intros s; [reflexivity|].
  cbn [foldM fold_left]. rewrite (Hf s a Ha). apply IH.
Qed.

Lemma mapM_pure {A B : Type} (f : A -> result B) (g : A -> B)
  (P : A -> Prop) (l : list A) :
  Forall P l -> (forall a, P a -> f a = Ok (g a)) ->
  mapM f l = Ok (map g l).
Proof.
  intros Hall Hf.
  induction Hall as [|a l Ha _ IH]; [reflexivity|].
  cbn [mapM map]. now rewrite (Hf a Ha), IH.
Qed.

Lemma fold_left_pair {A S T : Type} (g : S -> A -> S) (h : T -> A -> T)
  (l : list A) (s : S) (t : T) :
  fold_left (fun st a => (g (fst st) a, h (snd st) a)) l (s, t)
  = (fold_left g l s, fold_left h l t).
Proof.
  revert s t. induction l as [|a l IH]; intros s t; [reflexivity|].
  cbn [fold_left fst snd]. apply IH.
Qed.

Lemma pick_entries (P : string * blockList -> bool) (type : setter)
  (blocks : object blockList) :
  forallb P blocks = true ->
  Forall (fun kv => P kv = true /\ kindOf (fst kv) = Some type)
    (pick type blocks).
Proof.
  rewrite forallb_forall. intros H. apply Forall_forall. intros kv Hin.
  apply filter_In in Hin as [Hin Hk]. split; [now apply H|].
  now apply hasKind_kindOf.
Qed.

(** ** The passes of split on a typed model *)

Lemma numeric_number (block : object value) :
  numeric block = true ->
  number block "start" = Ok (num0 block "start")
  /\ number block "end" = Ok (num0 block "end").
Proof.
  unfold numeric, number, num0, isNum. rewrite andb_true_iff.
  destruct (get block "start") as [[]|], (get block "end") as [[]|];
    intros [? ?]; try discriminate; now split.
Qed.

Lemma splitPropertiedBlock_numeric (num : Z)
  (acc : list (object value) * list (object value)) (block : object value) :
  numeric block = true ->
  splitPropertiedBlock num acc block = Ok (clonePropertied num acc block).
Proof.
  intros H. destruct (numeric_number _ H) as [Hs He].
  unfold splitPropertiedBlock, clonePropertied. destruct acc as [bb ab].
  rewrite Hs, He. cbn [bind fst snd].
  destruct ((num0 block "start" <? num) && (num0 block "end" <? num));
    [reflexivity|].
  now destruct ((num0 block "start" >? num) && (num0 block "end" >? num)).
Qed.

Lemma entry_objects (kv : string * blockList) :
  shapedEntry kv = true -> kindOf (fst kv) = Some Propertied ->
  exists l, snd kv = Objects l /\ forallb numeric l = true.
Proof.
  unfold shapedEntry. intros H Hk. rewrite Hk in H.
  destruct (snd kv) as [|l]; [discriminate|]. now exists l.
Qed.

Lemma entry_numbers (kv : string * blockList) :
  shapedEntry kv = true ->
  kindOf (fst kv) = Some Continuous \/ kindOf (fst kv) = Some Singled ->
  exists l, snd kv = Numbers l.
Proof.
  unfold shapedEntry. intros H [Hk|Hk]; rewrite Hk in H;
    (destruct (snd kv) as [l|]; [now exists l|discriminate]).
Qed.

Lemma entry_pairs (kv : string * blockList) :
  typedEntry kv = true -> kindOf (fst kv) = Some Continuous ->
  exists l, snd kv = Numbers l /\ Nat.even (List.length l) = true.
Proof.
  unfold typedEntry. intros H Hk. rewrite Hk in H.
  destruct (snd kv) as [l|]; [now exists l|discriminate].
Qed.

Lemma splitPropertiedBlocks_shaped (model : rangeModel)
  (ba : rangeModel * rangeModel) (num : Z) :
  shaped (blocks model) = true ->
  splitPropertiedBlocks model ba num
  = Ok (fold_left (store (propertiedSide true num))
          (pick Propertied (blocks model)) (fst ba),
        fold_left (store (propertiedSide false num))
          (pick Propertied (blocks model)) (snd ba)).
Proof.
  intros Hs. unfold splitPropertiedBlocks.
  rewrite (getBlocksOfType_shaped _ _ Hs). cbn [bind].
  destruct ba as [b a]. cbn [fst snd]. rewrite <- fold_left_pair.
  apply foldM_pure with (1 := pick_entries shapedEntry Propertied _ Hs).
  clear. intros [b a] [k v] [Hs Hk].
  destruct (entry_objects _ Hs Hk) as (l & Hv & Hnum).
  cbn [fst snd] in *. subst v. cbn [objects bind].
  rewrite (@foldM_pure _ _ _ (clonePropertied num)
             (fun block => numeric block = true)).
  - unfold store, propertiedSide, propertiedHalves, unlessEmpty.
    cbn [bind fst snd objectsOf].
    destruct (fold_left (clonePropertied num) l ([], [])) as [bb ab].
    cbn [fst snd].
    now destruct (0 <? List.length bb)%nat, (0 <? List.length ab)%nat.
  - apply Forall_forall. rewrite forallb_forall in Hnum. exact Hnum.
  - intros. now apply splitPropertiedBlock_numeric.
Qed.

Lemma even_index_inside (blocks : list Z) (index : Z) :
  Nat.even (List.length blocks) = true ->
  0 <= index <= Z.of_nat (List.length blocks) ->
  Z.rem index 2 = 1 ->
  1 <= index < Z.of_nat (List.length blocks).
Proof.
  intros Heven Hb Hodd.
  apply Nat.even_spec in Heven as [n Hn].
  rewrite Z.rem_mod_nonneg in Hodd by lia.
  assert (index <> Z.of_nat (List.length blocks)).
  { intros ->. rewrite Hn in Hodd.
    replace (Z.of_nat (2 * n)) with (Z.of_nat n * 2) in Hodd by lia.
    rewrite Z.mod_mul in Hodd by lia. discriminate. }
  assert (index <> 0) by (intros ->; discriminate).
  lia.
Qed.

Lemma splitContinuousBlock_even (blocks : list Z) (num : Z) :
  Nat.even (List.length blocks) = true ->
  splitContinuousBlock blocks num = Ok (cutContinuous num blocks).
Proof.
  intros Heven. unfold splitContinuousBlock, cutContinuous.
  pose proof (getBinarySortedInsertPosition_bounds blocks (Some num)) as Hb.
  set (index := getBinarySortedInsertPosition blocks (Some num)) in *.
  destruct (Z.eqb_spec (Z.rem index 2) 1) as [Hodd|]; [|reflexivity].
  pose proof (even_index_inside _ _ Heven Hb Hodd) as Hin.
  unfold elem. rewrite !at_nth by lia. reflexivity.
Qed.

Lemma splitContinuousBlocks_typed (model : rangeModel)
  (ba : rangeModel * rangeModel) (num : Z) :
  forallb typedEntry (blocks model) = true ->
  splitContinuousBlocks model ba num
  = Ok (fold_left (store (continuousSide true num))
          (pick Continuous (blocks model)) (fst ba),
        fold_left (store (continuousSide false num))
          (pick Continuous (blocks model)) (snd ba)).
Proof.
  intros Ht. unfold splitContinuousBlocks.
  assert (Hs : shaped (blocks model) = true).
  { unfold shaped. rewrite forallb_forall in *.
    intros kv Hin. now apply typedEntry_shaped, Ht. }
  rewrite (getBlocksOfType_shaped _ _ Hs). cbn [bind].
  destruct ba as [b a]. cbn [fst snd]. rewrite <- fold_left_pair.
  apply foldM_pure with (1 := pick_entries typedEntry Continuous _ Ht).
  clear. intros [b a] [k v] [Ht Hk].
  destruct (entry_pairs _ Ht Hk) as (l & Hv & Heven).
  cbn [fst snd] in *. subst v. cbn [numbers bind].
  rewrite (splitContinuousBlock_even _ num Heven).
  unfold store, continuousSide. cbn [bind fst snd numbersOf].
  now destruct (cutContinuous num l).
Qed.

Lemma splitSingledBlocks_shaped (model : rangeModel)
  (ba : rangeModel * rangeModel) (num : Z) :
  shaped (blocks model) = true ->
  splitSingledBlocks model ba num
  = Ok (fold_left (store (singledSide true num))
          (pick Singled (blocks model)) (fst ba),
        fold_left (store (singledSide false num))
          (pick Singled (blocks model)) (snd ba)).
Proof.
  intros Hs. unfold splitSingledBlocks.
  rewrite (getBlocksOfType_shaped _ _ Hs). cbn [bind].
  destruct ba as [b a]. cbn [fst snd]. rewrite <- fold_left_pair.
  apply foldM_pure with (1 := pick_entries shapedEntry Singled _ Hs).
  clear. intros [b a] [k v] [Hs Hk].
  destruct (entry_numbers _ Hs (or_intror Hk)) as (l & Hv).
  cbn [fst snd] in *. subst v. cbn [numbers bind].
  unfold store, singledSide, singledHalves, unlessEmpty.
  cbn [fst snd numbersOf].
  destruct (fold_left (splitSingledBlock num) l ([], [])) as [bb ab].
  cbn [fst snd].
  now destruct (0 <? List.length bb)%nat, (0 <? List.length ab)%nat.
Qed.

(** On a typed model [split] returns, whatever the offset. *)
Lemma split_typed (model : rangeModel) (num : Z) :
  typed model = true ->
  split model num = Ok (splitSide true model num, splitSide false model num).
Proof.
  intros Ht. pose proof (typed_shaped _ Ht) as Hs.
  unfold typed in Ht. apply andb_true_iff in Ht as [_ Ht].
  unfold split.
  rewrite (splitPropertiedBlocks_shaped _ _ _ Hs). cbn [bind fst snd].
  rewrite (splitContinuousBlocks_typed _ _ _ Ht). cbn [bind fst snd].
  rewrite (splitSingledBlocks_shaped _ _ _ Hs). reflexivity.
Qed.

(** ** What a pass stores *)

Section Store.
Variable g : blockList -> option blockList.

Lemma text_fold_store (l : object blockList) (m : rangeModel) :
  text (fold_left (store g) l m) = text m.
Proof.
  revert m. induction l as [|kv l IH]; intros m; [reflexivity|].
  cbn [fold_left]. rewrite IH. unfold store. now destruct (g (snd kv)).
Qed.

Lemma get_store (m : rangeModel) (kv : string * blockList) (K : string) :
  get (blocks (store g m kv)) K
  = if String.eqb (fst kv) K
    then match g (snd kv) with Some v => Some v | None => get (blocks m) K end
    else get (blocks m) K.
Proof.
  unfold store. destruct (g (snd kv)) as [v|]; cbn [setBlocks blocks].
  - apply get_set.
  - now destruct (String.eqb (fst kv) K).
Qed.

Lemma get_fold_store (l : object blockList) (m : rangeModel) (K : string) :
  uniqueKeys (keys l) = true ->
  get (blocks (fold_left (store g) l m)) K
  = match get l K with
    | Some b => match g b with Some v => Some v | None => get (blocks m) K end
    | None => get (blocks m) K
    end.
Proof.
  revert m. induction l as [|[k b] l IH]; intros m; [reflexivity|].
  cbn [keys map uniqueKeys fold_left get fst].
  rewrite andb_true_iff, negb_true_iff. intros [Hk Hu].
  rewrite (IH _ Hu), get_store. cbn [fst snd].
  destruct (String.eqb_spec k K) as [->|]; [|reflexivity].
  apply get_none_keys in Hk. now rewrite Hk.
Qed.

Lemma uniqueKeys_fold_store (l : object blockList) (m : rangeModel) :
  uniqueKeys (keys (blocks m)) = true ->
  uniqueKeys (keys (blocks (fold_left (store g) l m))) = true.
Proof.
  revert m. induction l as [|kv l IH]; intros m Hu; [exact Hu|].
  cbn [fold_left]. apply IH. unfold store.
  destruct (g (snd kv)); [|exact Hu]. now apply uniqueKeys_set.
Qed.

Lemma shaped_set (o : object blockList) (k : string) (v : blockList) :
  shaped o = true -> shapedEntry (k, v) = true -> shaped (set o k v) = true.
Proof.
  intros Ho Hkv. induction o as [|[k' v'] o IH]; cbn [set shaped forallb].
  - now rewrite Hkv.
  - cbn [shaped forallb] in Ho. apply andb_true_iff in Ho as [H1 H2].
    destruct (String.eqb_spec k' k) as [->|]; cbn [forallb].
    + now rewrite Hkv.
    + rewrite H1. now apply IH.
Qed.

Lemma shaped_fold_store (l : object blockList) (m : rangeModel) :
  Forall (fun kv => forall v, g (snd kv) = Some v ->
                              shapedEntry (fst kv, v) = true) l ->
  shaped (blocks m) = true ->
  shaped (blocks (fold_left (store g) l m)) = true.
Proof.
  intros Hall. revert m.
  induction Hall as [|kv l Hkv _ IH]; intros m Hm; [exact Hm|].
  cbn [fold_left]. apply IH. unfold store.
  destruct (g (snd kv)) as [v|]; [|exact Hm].
  apply shaped_set; [exact Hm|now apply Hkv].
Qed.
End Store.

Lemma text_splitSide (side : bool) (m : rangeModel) (num : Z) :
  text (splitSide side m num)
  = if side then substr (text m) 0 (Some num) else substr (text m) num None.
Proof. unfold splitSide. now rewrite !text_fold_store. Qed.

Lemma uniqueKeys_pick (type : setter) (o : object blockList) :
  uniqueKeys (keys o) = true -> uniqueKeys (keys (pick type o)) = true.
Proof. apply keys_filter_unique. Qed.

Lemma get_pick (type : setter) (o : object blockList) (K : string) :
  get (pick type o) K = if hasKind type K then get o K else None.
Proof. apply (get_filter (hasKind type)). Qed.

(** What either side of [split] holds under a key. *)
Lemma get_splitSide (side : bool) (m : rangeModel) (num : Z) (K : string) :
  uniqueKeys (keys (blocks m)) = true ->
  get (blocks (splitSide side m num)) K
  = match get (blocks m) K, kindOf K with
    | Some b, Some Propertied => propertiedSide side num b
    | Some b, Some Continuous => continuousSide side num b
    | Some b, Some Singled => singledSide side num b
    | _, _ => None
    end.
Proof.
  intros Hu. unfold splitSide.
  rewrite !get_fold_store by now apply uniqueKeys_pick.
  rewrite !get_pick. unfold hasKind. cbn [blocks get].
  destruct (kindOf K) as [[]|]; cbn [setter_eqb];
    destruct (get (blocks m) K) as [b|]; try reflexivity.
  - now destruct (propertiedSide side num b).
  - now destruct (singledSide side num b).
Qed.

Lemma uniqueKeys_splitSide (side : bool) (m : rangeModel) (num : Z) :
  uniqueKeys (keys (blocks (splitSide side m num))) = true.
Proof. unfold splitSide. now repeat apply uniqueKeys_fold_store. Qed.

Lemma numeric_set_end (block : object value) (n : Z) :
  numeric block = true -> numeric (set block "end" (Num n)) = true.
Proof.
  unfold numeric. rewrite !get_set. cbn [String.eqb Ascii.eqb Bool.eqb].
  now rewrite andb_true_iff; intros [-> _].
Qed.

Lemma numeric_set_both (block : object value) (n n' : Z) :
  numeric (set (set block "start" (Num n)) "end" (Num n')) = true.
Proof.
  unfold numeric. rewrite !get_set. reflexivity.
Qed.

Lemma numeric_clonePropertied (num : Z) (l : list (object value))
  (acc : list (object value) * list (object value)) :
  forallb numeric l = true ->
  forallb numeric (fst acc) = true -> forallb numeric (snd acc) = true ->
  forallb numeric (fst (fold_left (clonePropertied num) l acc)) = true
  /\ forallb numeric (snd (fold_left (clonePropertied num) l acc)) = true.
Proof.
  revert acc. induction l as [|block l IH]; intros acc Hl Hb Ha; [now split|].
  cbn [forallb] in Hl. apply andb_true_iff in Hl as [Hblock Hl].
  cbn [fold_left]. apply IH; [exact Hl| |]; unfold clonePropertied;
    destruct ((num0 block "start" <? num) && (num0 block "end" <? num));
    destruct ((num0 block "start" >? num) && (num0 block "end" >? num));
    cbn [fst snd]; rewrite ?forallb_app; cbn [forallb];
    rewrite ?Hb, ?Ha, ?Hblock, ?numeric_set_both, ?numeric_set_end;
    auto.
Qed.

Lemma shaped_splitSide (side : bool) (m : rangeModel) (num : Z) :
  shaped (blocks m) = true -> shaped (blocks (splitSide side m num)) = true.
Proof.
  intros Hs. unfold splitSide.
  apply shaped_fold_store; [|apply shaped_fold_store; [|apply shaped_fold_store]];
    try reflexivity.
  - eapply Forall_impl; [|exact (pick_entries shapedEntry Singled _ Hs)].
    intros kv [_ Hk] v. unfold singledSide, unlessEmpty, shapedEntry.
    cbn [fst snd]. rewrite Hk.
    destruct (0 <? _)%nat; [|discriminate]. now intros [= <-].
  - eapply Forall_impl; [|exact (pick_entries shapedEntry Continuous _ Hs)].
    intros kv [_ Hk] v. unfold continuousSide, shapedEntry.
    cbn [fst snd]. rewrite Hk. now intros [= <-].
  - eapply Forall_impl; [|exact (pick_entries shapedEntry Propertied _ Hs)].
    intros kv [Hkv Hk] v. unfold propertiedSide, unlessEmpty, shapedEntry.
    cbn [fst snd]. rewrite Hk.
    destruct (entry_objects _ Hkv Hk) as (l & -> & Hnum).
    destruct (numeric_clonePropertied num l ([], []) Hnum eq_refl eq_refl)
      as [Hb Ha].
    unfold propertiedHalves. cbn [objectsOf].
    destruct (0 <? _)%nat; [|discriminate]. intros [= <-].
    now destruct side.
Qed.

(** ** The passes of concat on shaped models *)

Lemma mapValues_pure {A B : Type} (f : string -> A -> result B)
  (g : A -> B) (P : string * A -> Prop) (o : object A) :
  Forall P o -> (forall kv, P kv -> f (fst kv) (snd kv) = Ok (g (snd kv))) ->
  mapValues f o = Ok (map (fun kv => (fst kv, g (snd kv))) o).
Proof.
  intros Hall Hf. unfold mapValues.
  apply mapM_pure with (P := P); [exact Hall|].
  intros kv Hkv. now rewrite (Hf kv Hkv).
Qed.

Lemma concatNumbers_shaped (type : setter) (join : list Z -> list Z -> list Z)
  (before after model : rangeModel) :
  type = Continuous \/ type = Singled ->
  shaped (blocks before) = true -> shaped (blocks after) = true ->
  (picked <- getBlocksOfType (blocks after) type ;;
   mergedBlocks <-
     mapValues
       (fun blockType b =>
          blocks <- numbers blockType b ;;
          Ok (map (fun value => value + strlen (text before)) blocks))
       picked ;;
   picked <- getBlocksOfType (blocks before) type ;;
   mergedBlocks <-
     foldM (fun mergedBlocks kv =>
              blocks <- numbers (fst kv) (snd kv) ;;
              Ok (mergeInto join mergedBlocks (fst kv) blocks))
       picked mergedBlocks ;;
   Ok {| text := text model;
         blocks := assign (blocks model)
                     (map (fun kv => (fst kv, Numbers (snd kv))) mergedBlocks) |})
  = Ok {| text := text model;
          blocks := assign (blocks model)
                      (wrap Numbers
                         (mergedNumbers join type (strlen (text before))
                            before after)) |}.
Proof.
  intros Htype Hb Ha.
  assert (Hnum : forall kv : string * blockList,
             shapedEntry kv = true /\ kindOf (fst kv) = Some type ->
             numbers (fst kv) (snd kv) = Ok (numbersOf (snd kv))).
  { intros kv [Hs Hk].
    destruct (entry_numbers kv Hs) as (l & Hl);
      [destruct Htype; subst; auto|]. now rewrite Hl. }
  rewrite (getBlocksOfType_shaped _ _ Ha). cbn [bind].
  rewrite (mapValues_pure _
             (fun b => map (fun value => value + strlen (text before))
                         (numbersOf b))
             _ _ (pick_entries shapedEntry type _ Ha)).
  2:{ intros kv Hkv. now rewrite (Hnum kv Hkv). }
  cbn [bind]. rewrite (getBlocksOfType_shaped _ _ Hb). cbn [bind].
  rewrite (foldM_pure _
             (fun mergedBlocks kv =>
                mergeInto join mergedBlocks (fst kv) (numbersOf (snd kv)))
             _ _ _ (pick_entries shapedEntry type _ Hb)).
  2:{ intros s kv Hkv. now rewrite (Hnum kv Hkv). }
  reflexivity.
Qed.

Lemma shiftPropertied_numeric (num : Z) (block : object value) :
  numeric block = true ->
  (start <- number block "start" ;;
   end_ <- number block "end" ;;
   Ok (set (set block "start" (Num (start + num))) "end" (Num (end_ + num))))
  = Ok (shiftPropertied num block).
Proof.
  intros H. destruct (numeric_number _ H) as [-> ->]. reflexivity.
Qed.

Lemma concatPropertiedBlocks_shaped (before after model : rangeModel) :
  shaped (blocks before) = true -> shaped (blocks after) = true ->
  concatPropertiedBlocks before after model
  = Ok {| text := text model;
          blocks := assign (blocks model)
                      (wrap Objects
                         (mergedObjects (strlen (text before)) before after)) |}.
Proof.
  intros Hb Ha. unfold concatPropertiedBlocks.
  rewrite (getBlocksOfType_shaped _ _ Ha). cbn [bind].
  rewrite (mapValues_pure _
             (fun b => map (shiftPropertied (strlen (text before)))
                         (objectsOf b))
             _ _ (pick_entries shapedEntry Propertied _ Ha)).
  2:{ intros kv [Hs Hk]. destruct (entry_objects kv Hs Hk) as (l & -> & Hl).
      cbn [objects bind objectsOf].
      apply mapM_pure with (P := fun block => numeric block = true).
      - apply Forall_forall. now rewrite forallb_forall in Hl.
      - intros block Hblock. now apply shiftPropertied_numeric. }
  cbn [bind]. rewrite (getBlocksOfType_shaped _ _ Hb). cbn [bind].
  rewrite (foldM_pure _
             (fun mergedBlocks kv =>
                mergeInto (@app _) mergedBlocks (fst kv) (objectsOf (snd kv)))
             _ _ _ (pick_entries shapedEntry Propertied _ Hb)).
  2:{ intros s kv [Hs Hk]. destruct (entry_objects kv Hs Hk) as (l & -> & _).
      reflexivity. }
  reflexivity.
Qed.

(** On shaped models [concat] returns. *)
Lemma concat_shaped (before after : rangeModel) :
  shaped (blocks before) = true -> shaped (blocks after) = true ->
  concat before after
  = Ok {| text := (text before ++ text after)%string;
          blocks := concatBlocks before after |}.
Proof.
  intros Hb Ha. unfold concat.
  rewrite (concatPropertiedBlocks_shaped _ _ _ Hb Ha). cbn [bind].
  unfold concatContinuousBlocks.
  rewrite (concatNumbers_shaped Continuous _ _ _ _ (or_introl eq_refl) Hb Ha).
  cbn [bind]. unfold concatSingledBlocks.
  rewrite (concatNumbers_shaped Singled _ _ _ _ (or_intror eq_refl) Hb Ha).
  reflexivity.
Qed.

(** ** Properties of substr *)

Lemma substring_prefix_suffix (s : string) (n : nat) :
  (n <= String.length s)%nat ->
  (String.substring 0 n s ++ String.substring n (String.length s - n) s)%string
  = s.
Proof.
  revert n. induction s as [|c s IH]; intros n Hn.
  - destruct n; [reflexivity|simpl in Hn; lia].
  - destruct n as [|n].
    + cbn [String.substring String.length Nat.sub append]. f_equal.
      pose proof (IH 0%nat (Nat.le_0_l _)) as H.
      rewrite Nat.sub_0_r in H.
      destruct s; [reflexivity|]. cbn [String.substring append] in H |- *.
      exact H.
    + cbn [String.substring String.length Nat.sub append]. f_equal.
      apply IH. simpl in Hn. lia.
Qed.

Lemma length_substring (s : string) (n m : nat) :
  String.length (String.substring n m s)
  = Nat.min m (String.length s - n).
Proof.
  revert n m. induction s as [|c s IH]; intros n m.
  - destruct n, m; reflexivity.
  - destruct n as [|n].
    + destruct m as [|m]; [reflexivity|].
      cbn [String.substring String.length]. rewrite IH. lia.
    + cbn [String.substring String.length]. rewrite IH. lia.
Qed.

Lemma substring_all (s : string) (m : nat) :
  (String.length s <= m)%nat -> String.substring 0 m s = s.
Proof.
  revert m. induction s as [|c s IH]; intros m Hm.
  - now destruct m.
  - destruct m as [|m]; [simpl in Hm; lia|].
    cbn [String.substring]. f_equal. apply IH. simpl in Hm. lia.
Qed.

Lemma append_empty (s : string) : (s ++ "")%string = s.
Proof. induction s; simpl; congruence. Qed.

Lemma substr_inside (s : string) (k : Z) :
  0 <= k <= strlen s ->
  (substr s 0 (Some k) ++ substr s k None)%string = s
  /\ strlen (substr s 0 (Some k)) = k.
Proof.
  unfold substr, strlen. intros Hk. cbn [Z.ltb Z.compare].
  destruct (Z.ltb_spec k 0); [lia|].
  replace (Z.min (Z.max k 0) (Z.of_nat (String.length s) - 0)) with k by lia.
  change (Z.to_nat 0) with 0%nat.
  destruct (Z.leb_spec k 0).
  - assert (k = 0) by lia. subst k. cbn [append String.length Z.of_nat].
    split; [|reflexivity].
    destruct (Z.leb_spec (Z.of_nat (String.length s) - 0) 0).
    + destruct s; [reflexivity|]. simpl in *. lia.
    + apply substring_all. lia.
  - rewrite length_substring.
    destruct (Z.leb_spec (Z.of_nat (String.length s) - k) 0).
    + split; [|lia].
      rewrite substring_all by lia. apply append_empty.
    + split; [|lia].
      replace (Z.to_nat (Z.of_nat (String.length s) - k))
        with (String.length s - Z.to_nat k)%nat by lia.
      apply substring_prefix_suffix. lia.
Qed.

Lemma substr_beyond (s : string) (k : Z) :
  strlen s < k -> substr s 0 (Some k) = s /\ substr s k None = "".
Proof.
  unfold substr, strlen. intros Hk. cbn [Z.ltb Z.compare].
  destruct (Z.ltb_spec k 0); [lia|].
  replace (Z.min (Z.max k 0) (Z.of_nat (String.length s) - 0))
    with (Z.of_nat (String.length s)) by lia.
  change (Z.to_nat 0) with 0%nat.
  destruct (Z.leb_spec (Z.of_nat (String.length s) - k) 0); [|lia].
  split; [|reflexivity].
  destruct (Z.leb_spec (Z.of_nat (String.length s)) 0).
  - destruct s; [reflexivity|simpl in *; lia].
  - apply substring_all. lia.
Qed.

Lemma substr_negative (s : string) (k : Z) :
  k < 0 ->
  substr s 0 (Some k) = ""
  /\ strlen (substr s k None) = Z.min (- k) (strlen s)
  /\ exists prefix, (prefix ++ substr s k None)%string = s.
Proof.
  unfold substr, strlen. intros Hk. cbn [Z.ltb Z.compare].
  destruct (Z.ltb_spec k 0); [|lia].
  replace (Z.min (Z.max k 0) (Z.of_nat (String.length s) - 0)) with 0 by lia.
  split; [reflexivity|].
  set (n := Z.max (Z.of_nat (String.length s) + k) 0).
  destruct (Z.leb_spec (Z.of_nat (String.length s) - n) 0).
  - split; [cbn [String.length Z.of_nat]; lia|].
    exists s. apply append_empty.
  - split; [rewrite length_substring; lia|].
    exists (String.substring 0 (Z.to_nat n) s).
    replace (Z.to_nat (Z.of_nat (String.length s) - n))
      with (String.length s - Z.to_nat n)%nat by lia.
    apply substring_prefix_suffix. lia.
Qed.

(** ** What concat stores *)

Lemma get_mergeInto {A : Type} (join : list A -> list A -> list A)
  (mergedBlocks : object (list A)) (k : string) (bl : list A) (K : string) :
  get (mergeInto join mergedBlocks k bl) K
  = if String.eqb k K
    then Some (match get mergedBlocks k with
               | Some ml => join bl ml
               | None => bl
               end)
    else get mergedBlocks K.
Proof.
  unfold mergeInto. destruct (get mergedBlocks k); now rewrite get_set.
Qed.

Section Merge.
Context {A : Type}.
Variable join : list A -> list A -> list A.
Variable h : blockList -> list A.

Lemma get_fold_mergeInto (l : object blockList)
  (mergedBlocks : object (list A)) (K : string) :
  uniqueKeys (keys l) = true ->
  get (fold_left
         (fun mergedBlocks kv =>
            mergeInto join mergedBlocks (fst kv) (h (snd kv)))
         l mergedBlocks) K
  = match get l K with
    | Some b => Some (match get mergedBlocks K with
                      | Some ml => join (h b) ml
                      | None => h b
                      end)
    | None => get mergedBlocks K
    end.
Proof.
  revert mergedBlocks.
  induction l as [|[k b] l IH]; intros mergedBlocks; [reflexivity|].
  cbn [keys map uniqueKeys fold_left get fst].
  rewrite andb_true_iff, negb_true_iff. intros [Hk Hu].
  rewrite (IH _ Hu). rewrite !get_mergeInto.
  cbn [fst snd].
  destruct (String.eqb_spec k K) as [->|]; [|reflexivity].
  apply get_none_keys in Hk. now rewrite Hk.
Qed.

Lemma uniqueKeys_fold_mergeInto (l : object blockList)
  (mergedBlocks : object (list A)) :
  uniqueKeys (keys mergedBlocks) = true ->
  uniqueKeys
    (keys (fold_left
             (fun mergedBlocks kv =>
                mergeInto join mergedBlocks (fst kv) (h (snd kv)))
             l mergedBlocks)) = true.
Proof.
  revert mergedBlocks. induction l as [|kv l IH]; intros mg Hu; [exact Hu|].
  cbn [fold_left]. apply IH. unfold mergeInto.
  destruct (get mg (fst kv)); now apply uniqueKeys_set.
Qed.
End Merge.

Lemma get_wrap {A : Type} (w : list A -> blockList) (o : object (list A))
  (K : string) :
  get (wrap w o) K = option_map w (get o K).
Proof. apply (get_map_values (fun _ => w)). Qed.

Lemma keys_wrap {A : Type} (w : list A -> blockList) (o : object (list A)) :
  keys (wrap w o) = keys o.
Proof. apply (keys_map_values (fun _ => w)). Qed.

Lemma get_mergedNumbers (join : list Z -> list Z -> list Z) (type : setter)
  (num : Z) (before after : rangeModel) (K : string) :
  uniqueKeys (keys (blocks before)) = true ->
  get (mergedNumbers join type num before after) K
  = if hasKind type K then
      match get (blocks before) K, get (blocks after) K with
      | Some b, Some a =>
          Some (join (numbersOf b)
                  (map (fun value => value + num) (numbersOf a)))
      | Some b, None => Some (numbersOf b)
      | None, Some a => Some (map (fun value => value + num) (numbersOf a))
      | None, None => None
      end
    else None.
Proof.
  intros Hu. unfold mergedNumbers.
  rewrite get_fold_mergeInto by now apply uniqueKeys_pick.
  rewrite (get_map_values
             (fun _ b => map (fun value => value + num) (numbersOf b))).
  rewrite !get_pick.
  destruct (hasKind type K); [|reflexivity].
  now destruct (get (blocks before) K), (get (blocks after) K).
Qed.

Lemma uniqueKeys_mergedNumbers (join : list Z -> list Z -> list Z)
  (type : setter) (num : Z) (before after : rangeModel) :
  uniqueKeys (keys (blocks after)) = true ->
  uniqueKeys (keys (mergedNumbers join type num before after)) = true.
Proof.
  intros Hu. unfold mergedNumbers. apply uniqueKeys_fold_mergeInto.
  rewrite (keys_map_values
             (fun _ b => map (fun value => value + num) (numbersOf b))).
  now apply uniqueKeys_pick.
Qed.

(** The entry of a continuous kind in the result of [concat]. *)
Lemma get_concatBlocks_continuous (before after : rangeModel) (K : string)
  (v : list Z) :
  uniqueKeys (keys (blocks before)) = true ->
  uniqueKeys (keys (blocks after)) = true ->
  kindOf K = Some Continuous ->
  get (mergedNumbers (joinContinuous (strlen (text before))) Continuous
         (strlen (text before)) before after) K = Some v ->
  get (concatBlocks before after) K = Some (Numbers v).
Proof.
  intros Hb Ha Hk Hv. unfold concatBlocks.
  rewrite get_assign_none.
  - apply get_assign_some.
    + rewrite keys_wrap. now apply uniqueKeys_mergedNumbers.
    + now rewrite get_wrap, Hv.
  - rewrite get_wrap, get_mergedNumbers by exact Hb.
    now rewrite (hasKind_other Continuous Singled K Hk).
Qed.

(** ** Lists cut in two and joined again *)

Lemma at_last (l : list Z) (y : Z) :
  at_ (l ++ [y]) (Z.of_nat (List.length (l ++ [y])) - 1) = Some y.
Proof.
  rewrite at_nth by (rewrite length_app; simpl; lia).
  rewrite length_app. cbn [List.length].
  replace (Z.to_nat (Z.of_nat (List.length l + 1) - 1)) with (List.length l)
    by lia.
  now rewrite nth_middle.
Qed.

Lemma pair_inside (l : list Z) (n : nat) :
  (n + 1 < List.length l)%nat ->
  l = firstn n l ++ [nth n l 0; nth (n + 1) l 0] ++ skipn (n + 2) l.
Proof.
  revert n. induction l as [|x l IH]; intros n Hn; [simpl in Hn; lia|].
  destruct n as [|n].
  - destruct l as [|y l]; [simpl in Hn; lia|]. reflexivity.
  - cbn [firstn nth skipn Nat.add app]. f_equal.
    apply IH. simpl in Hn. lia.
Qed.

Lemma strictlyAscending_ascending (l : list Z) :
  strictlyAscending l = true -> ascending l.
Proof.
  induction l as [|x l IH]; intros H i j Hij; [simpl in Hij; lia|].
  assert (Hl : strictlyAscending l = true).
  { destruct l; [reflexivity|]. cbn [strictlyAscending] in H.
    now apply andb_true_iff in H. }
  assert (Hhead : forall j, (j < List.length l)%nat -> x < nth j l 0).
  { clear i j Hij. intros j Hj. destruct l as [|y l]; [simpl in Hj; lia|].
    cbn [strictlyAscending] in H. apply andb_true_iff in H as [Hxy _].
    apply Z.ltb_lt in Hxy. destruct j as [|j]; [exact Hxy|].
    apply Z.lt_trans with y; [exact Hxy|].
    apply (IH Hl 0%nat (S j)). simpl in *. lia. }
  destruct i as [|i], j as [|j]; try lia.
  - apply Hhead. simpl in Hij. lia.
  - apply (IH Hl i j). simpl in Hij. lia.
Qed.

(** Inside the span that starts at an even position the search stops at
    the span's end. *)
Lemma position_inside_span (l : list Z) (i : nat) (k : Z) :
  ascending l ->
  (2 * i + 1 < List.length l)%nat ->
  nth (2 * i) l 0 < k < nth (2 * i + 1) l 0 ->
  getBinarySortedInsertPosition l (Some k) = Z.of_nat (2 * i + 1).
Proof.
  intros Hasc Hi [Hlo Hhi].
  destruct (@getBinarySortedInsertPosition_sorted l k Hasc)
    as (Hr & Hbelow & Habove).
  set (r := getBinarySortedInsertPosition l (Some k)) in *.
  destruct (Z_lt_le_dec (Z.of_nat (2 * i)) r) as [H1|H1].
  - destruct (Z_lt_le_dec (Z.of_nat (2 * i + 1)) r) as [H2|H2]; [|lia].
    specialize (Hbelow (Z.of_nat (2 * i + 1))).
    rewrite Nat2Z.id in Hbelow. lia.
  - specialize (Habove (Z.of_nat (2 * i))).
    rewrite Nat2Z.id in Habove. lia.
Qed.

Lemma cutContinuous_inside_span (l : list Z) (i : nat) (k : Z) :
  ascending l ->
  (2 * i + 1 < List.length l)%nat ->
  nth (2 * i) l 0 < k < nth (2 * i + 1) l 0 ->
  cutContinuous k l
  = (firstn (2 * i) l ++ [nth (2 * i) l 0; k],
     [0; nth (2 * i + 1) l 0 - k]
     ++ map (fun value => value - k) (skipn (2 * i + 2) l)).
Proof.
  intros Hasc Hi Hk. unfold cutContinuous.
  rewrite (position_inside_span l i k Hasc Hi Hk).
  replace (Z.rem (Z.of_nat (2 * i + 1)) 2) with 1.
  2:{ rewrite Z.rem_mod_nonneg by lia.
      replace (Z.of_nat (2 * i + 1)) with (1 + Z.of_nat i * 2) by lia.
      now rewrite Z.mod_add by lia. }
  cbn [Z.eqb Pos.eqb]. unfold take, drop.
  replace (Z.to_nat (Z.of_nat (2 * i + 1) - 1)) with (2 * i)%nat by lia.
  replace (Z.to_nat (Z.of_nat (2 * i + 1) + 1)) with (2 * i + 2)%nat by lia.
  now rewrite Nat2Z.id.
Qed.

Lemma joinContinuous_seam (k : Z) (head tail : list Z) (open close : Z) :
  joinContinuous k (head ++ [open; k])
    (map (fun value => value + k)
       ([0; close - k] ++ map (fun value => value - k) tail))
  = head ++ [open; close] ++ tail.
Proof.
  unfold joinContinuous.
  replace (head ++ [open; k]) with ((head ++ [open]) ++ [k])
    by now rewrite <- app_assoc.
  rewrite at_last. cbn [map app].
  rewrite !Z.eqb_refl. cbn [andb]. rewrite removelast_last.
  unfold drop. change (Z.to_nat 1) with 1%nat. cbn [skipn].
  rewrite <- app_assoc. cbn [app]. do 3 f_equal.
  - lia.
  - rewrite map_map. rewrite <- (map_id tail) at 2.
    apply map_ext. intros; lia.
Qed.

Lemma fold_splitSingledBlock (num : Z) (l bb ab : list Z) :
  fold_left (splitSingledBlock num) l (bb, ab)
  = (bb ++ filter (fun pos => pos <? num) l,
     ab ++ map (fun pos => pos - num) (filter (fun pos => pos >? num) l)).
Proof.
  revert bb ab. induction l as [|pos l IH]; intros bb ab.
  - cbn. now rewrite !app_nil_r.
  - cbn [fold_left filter]. unfold splitSingledBlock at 2.
    destruct (Z.ltb_spec pos num), (Z.gtb_spec pos num); try lia;
      rewrite IH; cbn [map]; now rewrite <- ?app_assoc.
Qed.

Lemma typed_uniqueKeys (m : rangeModel) :
  typed m = true -> uniqueKeys (keys (blocks m)) = true.
Proof. unfold typed. rewrite andb_true_iff. tauto. Qed.

(** ** Where the dispatch error can come from *)

Lemma quiet_bind {A B : Type} (r : result A) (k : A -> result B) :
  quiet r -> (forall a, quiet (k a)) -> quiet (bind r k).
Proof.
  unfold quiet. intros Hr Hk. destruct r; cbn [bind]; try discriminate.
  - apply Hk.
  - congruence.
Qed.

Lemma quiet_foldM {A S : Type} (f : S -> A -> result S) (l : list A) (s : S) :
  (forall s a, quiet (f s a)) -> quiet (foldM f l s).
Proof.
  intros Hf. revert s. induction l as [|a l IH]; intros s; cbn [foldM].
  - discriminate.
  - apply quiet_bind; [apply Hf|apply IH].
Qed.

Lemma quiet_mapM {A B : Type} (f : A -> result B) (l : list A) :
  (forall a, quiet (f a)) -> quiet (mapM f l).
Proof.
  intros Hf. induction l as [|a l IH]; cbn [mapM]; [discriminate|].
  apply quiet_bind; [apply Hf|]. intros b.
  apply quiet_bind; [apply IH|]. discriminate.
Qed.

Ltac quiet_step :=
  match goal with
  | |- quiet (bind _ _) => apply quiet_bind; [|intros]
  | |- quiet (foldM _ _ _) => apply quiet_foldM; intros
  | |- quiet (mapM _ _) => apply quiet_mapM; intros
  | |- quiet (mapValues _ _) => apply quiet_mapM; intros
  | |- quiet (Ok _) => discriminate
  | |- quiet (Untyped _) => discriminate
  | |- quiet Fuel => discriminate
  | |- quiet (Throw (TypeError _)) => unfold quiet, dispatchError; discriminate
  | |- quiet (Throw (NotFoundError _)) => discriminate
  | |- quiet (Throw (InvalidCharacterError _)) => discriminate
  | |- quiet (match ?x with _ => _ end) => destruct x
  end.

Ltac quiet_auto := repeat quiet_step.

Lemma known_kinds (blocks : object blockList) :
  (forall k, In k (keys blocks) -> kindOf k <> None) ->
  existsb unknown (keys blocks) = false.
Proof.
  intros H. destruct (existsb unknown (keys blocks)) eqn:E; [|reflexivity].
  apply existsb_exists in E as (k & Hin & Hk). exfalso. apply (H k Hin).
  unfold unknown, lookup, kindOf in *.
  now destruct (get blockTypes k).
Qed.

Lemma quiet_getBlocksOfType (blocks : object blockList) (type : setter) :
  existsb unknown (keys blocks) = false -> quiet (getBlocksOfType blocks type).
Proof.
  intros H. rewrite getBlocksOfType_spec, H. discriminate.
Qed.

Lemma quiet_split (model : rangeModel) (num : Z) :
  existsb unknown (keys (blocks model)) = false -> quiet (split model num).
Proof.
  intros H. pose proof (fun type => quiet_getBlocksOfType _ type H) as Hpick.
  unfold split, splitPropertiedBlocks, splitContinuousBlocks,
    splitSingledBlocks, splitPropertiedBlock, splitContinuousBlock,
    objects, numbers, number, elem.
  quiet_auto; apply Hpick.
Qed.

Lemma quiet_concat (before after : rangeModel) :
  existsb unknown (keys (blocks before)) = false ->
  existsb unknown (keys (blocks after)) = false ->
  quiet (concat before after).
Proof.
  intros Hb Ha.
  pose proof (fun type => quiet_getBlocksOfType _ type Hb) as Hpb.
  pose proof (fun type => quiet_getBlocksOfType _ type Ha) as Hpa.
  unfold concat, concatPropertiedBlocks, concatContinuousBlocks,
    concatSingledBlocks, objects, numbers, number.
  quiet_auto; solve [apply Hpb|apply Hpa].
Qed.

Lemma quiet_walkToStart (fuel : nat) (w : walker) (str : string) (start : Z) :
  quiet (walkToStart fuel w str start).
Proof.
  revert w str. induction fuel as [|fuel IH]; intros w str;
    cbn [walkToStart]; unfold currentValue; quiet_auto. apply IH.
Qed.

Lemma quiet_walkToEnd (fuel : nat) (w : walker) (str : string)
  (list : list item) (end_ : Z) :
  quiet (walkToEnd fuel w str list end_).
Proof.
  revert w str list. induction fuel as [|fuel IH]; intros w str list;
    cbn [walkToEnd]; unfold currentValue; quiet_auto. apply IH.
Qed.

Lemma quiet_getTextNodeTargets (fuel : nat) (el : Node) (start : Z)
  (end_ : option Z) :
  quiet (getTextNodeTargets fuel el start end_).
Proof.
  unfold getTextNodeTargets.
  apply quiet_bind; [apply quiet_walkToStart|]. intros [w str].
  unfold currentValue. quiet_auto. apply quiet_walkToEnd.
Qed.

Lemma quiet_placeBlock (d : dom) (ref : nat) (attached : bool)
  (text_ : string) (blockEl : Node) (blockId : nat)
  (startText endText : string) :
  quiet (placeBlock d ref attached text_ blockEl blockId startText endText).
Proof.
  unfold placeBlock, domify. destruct (negb attached); [discriminate|].
  destruct (strlen startText >? 0), (strlen endText >? 0); discriminate.
Qed.

Lemma quiet_splitTextNode (blockType : string) (blockAttributes : object value)
  (d : dom) (item : item) :
  quiet (splitTextNode blockType blockAttributes d item).
Proof.
  unfold splitTextNode, tagNameOf, setAttributes, domify.
  quiet_auto; apply quiet_placeBlock.
Qed.

Lemma quiet_addSingledBlocks (blockType : string) (d : dom) (item : item) :
  quiet (addSingledBlocks blockType d item).
Proof.
  unfold addSingledBlocks, tagNameOf.
  quiet_auto; apply quiet_placeBlock.
Qed.

Lemma quiet_eachPair {S : Type} (f : S -> Z -> option Z -> result S)
  (l : list Z) (s : S) :
  (forall s x y, quiet (f s x y)) -> quiet (eachPair f l s).
Proof.
  intros Hf. remember (List.length l) as n eqn:Hn.
  revert l s Hn. induction n as [n IH] using lt_wf_ind. intros l s Hn.
  destruct l as [|x [|y rest]]; cbn [eachPair].
  - discriminate.
  - apply Hf.
  - apply quiet_bind; [apply Hf|]. intros s'.
    apply (IH (List.length rest)); [subst n; simpl; lia|reflexivity].
Qed.

Lemma quiet_toElement (fuel : nat) (model : rangeModel) :
  existsb unknown (keys (blocks model)) = false ->
  quiet (toElement fuel model).
Proof.
  intros H. pose proof (fun type => quiet_getBlocksOfType _ type H) as Hpick.
  unfold toElement, domify, addPropertiedBlocksToElement,
    addContinuousBlocksToElement, addSingledBlocksToElement.
  apply quiet_bind; [|intros d; apply quiet_bind; [|intros d';
                                  apply quiet_bind; [|discriminate]]].
  - apply quiet_bind; [apply Hpick|]. intros picked.
    apply quiet_foldM. intros d kv. unfold objects, number. quiet_auto;
      solve [apply quiet_getTextNodeTargets|apply quiet_splitTextNode].
  - apply quiet_bind; [apply Hpick|]. intros picked.
    apply quiet_bind.
    + unfold sortContinuousBlocks, numbers. quiet_auto.
    + intros sorted. apply quiet_foldM. intros d0 kv.
      apply quiet_bind; [unfold numbers; quiet_auto|]. intros l.
      apply quiet_eachPair. intros s x y.
      apply quiet_bind; [apply quiet_getTextNodeTargets|]. intros targets.
      apply quiet_foldM. intros. apply quiet_splitTextNode.
  - apply quiet_bind; [apply Hpick|]. intros picked.
    apply quiet_foldM. intros d0 kv.
    apply quiet_bind; [unfold numbers; quiet_auto|]. intros l.
    apply quiet_foldM. intros s pos.
    apply quiet_bind; [apply quiet_getTextNodeTargets|]. intros targets.
    apply quiet_foldM. intros. apply quiet_addSingledBlocks.
Qed.

Lemma getBlocksOfType_unknown (blocks : object blockList) (type : setter) :
  existsb unknown (keys blocks) = true ->
  getBlocksOfType blocks type = Throw dispatchError.
Proof. intros H. now rewrite getBlocksOfType_spec, H. Qed.

(** ** Ingest returns well-formed models *)

Lemma foldM_invariant {A S : Type} (P : S -> Prop) (f : S -> A -> result S)
  (l : list A) (s s' : S) :
  (forall s a s', P s -> f s a = Ok s' -> P s') ->
  P s -> foldM f l s = Ok s' -> P s'.
Proof.
  intros Hf. revert s. induction l as [|a l IH]; intros s Hs; cbn [foldM].
  - now intros [= <-].
  - destruct (f s a) as [s1| | |] eqn:E; cbn [bind]; try discriminate.
    apply IH. exact (Hf s a s1 Hs E).
Qed.

Lemma forallb_set {V : Type} (P : string * V -> bool) (o : object V)
  (k : string) (v : V) :
  forallb P o = true -> P (k, v) = true -> forallb P (set o k v) = true.
Proof.
  intros Ho Hkv. induction o as [|[k' v'] o IH]; cbn [set forallb].
  - now rewrite Hkv.
  - cbn [forallb] in Ho. apply andb_true_iff in Ho as [H1 H2].
    destruct (String.eqb_spec k' k) as [->|]; cbn [forallb].
    + now rewrite Hkv.
    + rewrite H1. now apply IH.
Qed.

Lemma forallb_get {V : Type} (P : string * V -> bool) (o : object V)
  (k : string) (v : V) :
  forallb P o = true -> get o k = Some v -> P (k, v) = true.
Proof.
  induction o as [|[k' v'] o IH]; cbn [get forallb]; [discriminate|].
  rewrite andb_true_iff. intros [H1 H2].
  destruct (String.eqb_spec k' k) as [->|]; [now intros [= <-]|now apply IH].
Qed.

Lemma strictlyAscending_push (l : list Z) (a b : Z) :
  strictlyAscending l = true ->
  (forall y, at_ l (Z.of_nat (List.length l) - 1) = Some y -> y < a) ->
  a < b ->
  strictlyAscending (l ++ [a; b]) = true.
Proof.
  intros Hl Hlast Hab. revert Hl Hlast.
  induction l as [|x l IH]; intros Hl Hlast.
  - cbn. apply Z.ltb_lt in Hab. now rewrite Hab.
  - destruct l as [|y l].
    + cbn. specialize (Hlast x eq_refl).
      apply Z.ltb_lt in Hlast, Hab. now rewrite Hlast, Hab.
    + cbn [strictlyAscending app] in Hl |- *.
      apply andb_true_iff in Hl as [Hxy Hl]. rewrite Hxy. cbn [andb].
      apply IH; [exact Hl|]. intros z Hz. apply Hlast.
      rewrite at_nth in Hz |- * by (cbn [List.length]; lia).
      rewrite <- Hz. f_equal. cbn [List.length].
      replace (Z.to_nat (Z.of_nat (S (S (List.length l))) - 1))
        with (S (Z.to_nat (Z.of_nat (S (List.length l)) - 1))) by lia.
      reflexivity.
Qed.

Lemma strictlyAscending_raise (l : list Z) (y y' : Z) :
  strictlyAscending (l ++ [y]) = true -> y <= y' ->
  strictlyAscending (l ++ [y']) = true.
Proof.
  intros Hl Hy. revert Hl. induction l as [|x l IH]; intros Hl; [reflexivity|].
  destruct l as [|z l].
  - cbn in *. rewrite andb_true_r in *. apply Z.ltb_lt in Hl.
    apply Z.ltb_lt. lia.
  - cbn [strictlyAscending app] in Hl |- *.
    apply andb_true_iff in Hl as [Hxz Hl]. rewrite Hxz. now apply IH.
Qed.

Lemma last_split (l : list Z) (y : Z) :
  at_ l (Z.of_nat (List.length l) - 1) = Some y -> l = removelast l ++ [y].
Proof.
  intros H. destruct l as [|x l] using rev_ind; [discriminate|].
  rewrite at_last in H. injection H as ->. now rewrite removelast_last.
Qed.

Lemma even_removelast (l : list Z) (y y' : Z) :
  l = removelast l ++ [y] ->
  List.length (removelast l ++ [y']) = List.length l.
Proof.
  intros H. rewrite H at 2. now rewrite !length_app.
Qed.

(** The list [continuous] stores: not empty, in pairs, ascending. *)
Lemma continuous_block (block : list Z) (start end_ : Z) :
  Nat.even (List.length block) && strictlyAscending block = true ->
  start < end_ ->
  let block' :=
    match at_ block (Z.of_nat (List.length block) - 1) with
    | Some lastEnd =>
        if (2 <=? Z.of_nat (List.length block)) && (lastEnd >=? start)
        then removelast block ++ [Z.max lastEnd end_]
        else block ++ [start; end_]
    | None => block ++ [start; end_]
    end in
  block' <> []
  /\ Nat.even (List.length block') && strictlyAscending block' = true.
Proof.
  intros Hgood Hlt. apply andb_true_iff in Hgood as [Heven Hasc].
  assert (Hpush :
             (forall y, at_ block (Z.of_nat (List.length block) - 1) = Some y ->
                        y < start) ->
             block ++ [start; end_] <> []
             /\ Nat.even (List.length (block ++ [start; end_]))
                && strictlyAscending (block ++ [start; end_]) = true).
  { intros Hlast.
    split; [intros H0; apply app_eq_nil in H0 as [_ H0]; discriminate|].
    rewrite length_app. cbn [List.length].
    replace (List.length block + 2)%nat with (S (S (List.length block))) by lia.
    cbn [Nat.even]. rewrite Heven. cbn [andb].
    apply strictlyAscending_push; auto. }
  cbv zeta.
  destruct (at_ block (Z.of_nat (List.length block) - 1)) as [lastEnd|] eqn:E.
  - destruct (Z.leb_spec 2 (Z.of_nat (List.length block))) as [Hlen|Hlen];
      cbn [andb].
    + destruct (Z.geb_spec lastEnd start) as [Hge|Hlt'].
      * pose proof (last_split block lastEnd E) as Hsplit.
        split; [now destruct (removelast block)|].
        rewrite (even_removelast block lastEnd _ Hsplit), Heven. cbn [andb].
        apply strictlyAscending_raise with lastEnd; [|lia].
        now rewrite <- Hsplit.
      * apply Hpush. intros y Hy. now injection Hy as <-.
    + exfalso. destruct block as [|x [|y block]]; try discriminate.
      cbn [List.length] in Hlen. lia.
  - apply Hpush. discriminate.
Qed.

Lemma wellFormed_set (m : rangeModel) (k : string) (b : blockList) :
  wellFormed m = true -> wellFormedEntry (k, b) = true ->
  wellFormed {| text := text m; blocks := set (blocks m) k b |} = true.
Proof. intros Hm Hb. unfold wellFormed. now apply forallb_set. Qed.

Lemma strlen_nonneg (s : string) : 0 <= strlen s.
Proof. unfold strlen. lia. Qed.

Lemma continuous_wellFormed (model model' : rangeModel) (node : Node) :
  wellFormed model = true -> continuous model node = Ok model' ->
  wellFormed model' = true.
Proof.
  intros Hm. unfold continuous.
  destruct (Z.eqb_spec (strlen (text model))
              (strlen (text model) + strlen (getContentText node)))
    as [|Hne]; [now intros [= <-]|].
  destruct (tagTypeOf _ _) as [t| | |]; cbn [bind]; try discriminate.
  set (key := name t).
  assert (Hold : forall l, get (blocks model) key = Some (Numbers l) ->
                           kindOf key = Some Continuous ->
                           Nat.even (List.length l) && strictlyAscending l = true).
  { intros l Hget Hk.
    pose proof (forallb_get _ _ _ _ Hm Hget) as He.
    unfold wellFormedEntry in He. cbn [fst snd] in He. rewrite Hk in He.
    now destruct l. }
  assert (Hnew : forall block,
             (kindOf key = Some Continuous ->
              Nat.even (List.length block) && strictlyAscending block = true) ->
             forall block', block' <> [] ->
             (Nat.even (List.length block) && strictlyAscending block = true ->
              Nat.even (List.length block') && strictlyAscending block' = true) ->
             wellFormedEntry (key, Numbers block') = true).
  { intros block Hb block' Hne' Hgood. unfold wellFormedEntry. cbn [fst snd].
    destruct block' as [|x block']; [contradiction|].
    destruct (kindOf key) as [[]|]; auto. }
  pose proof (strlen_nonneg (getContentText node)) as Hpos.
  destruct (get (blocks model) key) as [[l|[|o l]]|] eqn:Hget;
    cbn [numbers bind]; try discriminate; intros [= <-];
    apply wellFormed_set; try exact Hm.
  - destruct (kindOf key) as [[]|] eqn:Hk.
    + eapply (Hnew l (fun _ => Hold l eq_refl eq_refl));
        intros; apply continuous_block; auto; lia.
    + unfold wellFormedEntry. cbn [fst snd]. rewrite Hk.
      destruct (at_ l _) as [y|];
        [destruct (_ && _); [now destruct (removelast l)|now destruct l]
        |now destruct l].
    + unfold wellFormedEntry. cbn [fst snd]. rewrite Hk.
      destruct (at_ l _) as [y|];
        [destruct (_ && _); [now destruct (removelast l)|now destruct l]
        |now destruct l].
    + unfold wellFormedEntry. cbn [fst snd]. rewrite Hk.
      destruct (at_ l _) as [y|];
        [destruct (_ && _); [now destruct (removelast l)|now destruct l]
        |now destruct l].
  - apply (Hnew [] (fun _ => eq_refl));
      intros; apply (continuous_block [] _ _ eq_refl); lia.
  - apply (Hnew [] (fun _ => eq_refl));
      intros; apply (continuous_block [] _ _ eq_refl); lia.
Qed.

Lemma propertied_wellFormed (model model' : rangeModel) (node : Node) :
  wellFormed model = true -> propertied model node = Ok model' ->
  wellFormed model' = true.
Proof.
  intros Hm. unfold propertied.
  destruct (_ =? _); [now intros [= <-]|].
  destruct (tagTypeOf _ _) as [t| | |]; cbn [bind]; try discriminate.
  destruct (match get (blocks model) (name t) with
            | Some b => objects (name t) b
            | None => Ok []
            end) as [block| | |]; cbn [bind]; try discriminate.
  intros [= <-]. apply wellFormed_set; [exact Hm|].
  unfold wellFormedEntry. cbn [snd]. now destruct block.
Qed.

(** Every entry of the registry is filed under its own handler. *)
Lemma registry_inverse (n : string) (t : tagType) :
  get tagTypes n = Some t -> kindOf (name t) = Some (set_ t).
Proof.
  intros Hget.
  assert (Hall : forallb (fun kv => match kindOf (name (snd kv)) with
                                    | Some s => setter_eqb s (set_ (snd kv))
                                    | None => false
                                    end) tagTypes = true)
    by (vm_compute; reflexivity).
  pose proof (forallb_get _ _ _ _ Hall Hget) as H. cbn [snd] in H.
  destruct (kindOf (name t)) as [s|]; [|discriminate].
  destruct s, (set_ t); try discriminate; reflexivity.
Qed.

Lemma tagTypeOf_get (site : string) (n : option string) (t : tagType) :
  tagTypeOf site n = Ok t -> exists n', get tagTypes n' = Some t.
Proof.
  unfold tagTypeOf, lookup. destruct n as [n|]; [|discriminate].
  destruct (get tagTypes n) as [t'|] eqn:E.
  - intros [= <-]. now exists n.
  - now destruct (existsb _ _).
Qed.

Lemma tagTypeOf_site (site site' : string) (n : option string) (t : tagType) :
  tagTypeOf site n = Ok t -> tagTypeOf site' n = Ok t.
Proof.
  unfold tagTypeOf. destruct n as [n|]; [|discriminate].
  now destruct (lookup tagTypes n).
Qed.

Lemma singled_wellFormed (model model' : rangeModel) (node : Node)
  (t : tagType) :
  wellFormed model = true ->
  tagTypeOf "tagTypes[name].set" (getNodeName node) = Ok t ->
  set_ t = Singled ->
  singled model node = Ok model' ->
  wellFormed model' = true.
Proof.
  intros Hm Ht Hs. unfold singled.
  rewrite (tagTypeOf_site _ "tagTypes[nodeName].name" _ _ Ht). cbn [bind].
  destruct (match get (blocks model) (name t) with
            | Some b => numbers (name t) b
            | None => Ok []
            end) as [block| | |]; cbn [bind]; try discriminate.
  intros [= <-]. apply wellFormed_set; [exact Hm|].
  destruct (tagTypeOf_get _ _ _ Ht) as (n' & Hn').
  unfold wellFormedEntry. cbn [fst snd].
  rewrite (registry_inverse _ _ Hn'), Hs. now destruct block.
Qed.

(** The model [fromElement] returns is well-formed, whatever the tree. *)
Lemma fromElement_wellFormed (el : Node) (model : rangeModel) :
  fromElement el = Ok model -> wellFormed model = true.
Proof.
  unfold fromElement.
  apply (foldM_invariant (fun m => wellFormed m = true)); [|reflexivity].
  intros m [parent node] m' Hm. cbn [snd].
  destruct node as [i v|i n a ch|i v|ch]; try (now intros [= <-]);
    (destruct (tagTypeOf _ _) as [t| | |] eqn:Ht; cbn [bind];
     try discriminate;
     destruct (set_ t) eqn:Hs; cbn [call];
     [apply continuous_wellFormed|apply propertied_wellFormed
     |apply (singled_wellFormed _ _ _ t)]; auto).
Qed.

(** ** Propertied ranges away from the offset *)

Lemma clonePropertied_clear (num : Z) (l : list (object value))
  (acc : list (object value) * list (object value)) :
  forallb (clearOf num) l = true ->
  fold_left (clonePropertied num) l acc
  = (fst acc ++ flat_map (piecesBefore num) l,
     snd acc ++ flat_map (piecesAfter num) l).
Proof.
  revert acc. induction l as [|block l IH]; intros [bb ab] Hl.
  - cbn. now rewrite !app_nil_r.
  - cbn [forallb] in Hl. apply andb_true_iff in Hl as [Hblock Hl].
    cbn [fold_left flat_map]. rewrite (IH _ Hl). clear IH Hl.
    unfold clearOf in Hblock.
    apply andb_true_iff in Hblock as [Hblock Hend].
    apply andb_true_iff in Hblock as [Hlt Hstart].
    apply Z.ltb_lt in Hlt. apply negb_true_iff, Z.eqb_neq in Hstart, Hend.
    unfold clonePropertied, piecesBefore, piecesAfter. cbn [fst snd].
    destruct (Z.ltb_spec (num0 block "start") num),
      (Z.ltb_spec (num0 block "end") num),
      (Z.gtb_spec (num0 block "start") num),
      (Z.gtb_spec (num0 block "end") num),
      (Z.leb_spec (num0 block "end") num),
      (Z.leb_spec num (num0 block "start"));
      try lia; cbn [andb fst snd app]; now rewrite <- ?app_assoc, ?app_nil_r.
Qed.

(** Where no range touches the offset, [split] deals with the propertied
    ranges as the specification says. *)
Lemma split_propertied_ranges_clear_of_the_offset (model : rangeModel)
  (K : string) (l : list (object value)) (num : Z) :
  typed model = true ->
  kindOf K = Some Propertied ->
  get (blocks model) K = Some (Objects l) ->
  forallb (clearOf num) l = true ->
  exists before after,
    split model num = Ok (before, after)
    /\ get (blocks before) K
       = unlessEmpty Objects (flat_map (piecesBefore num) l)
    /\ get (blocks after) K
       = unlessEmpty Objects (flat_map (piecesAfter num) l).
Proof.
  intros Ht HK Hget Hclear.
  pose proof (typed_uniqueKeys model Ht) as Hu.
  do 2 eexists. split; [exact (split_typed model num Ht)|].
  rewrite !(get_splitSide _ model num K Hu), Hget, HK.
  unfold propertiedSide, propertiedHalves. cbn [objectsOf].
  now rewrite (clonePropertied_clear num l _ Hclear).
Qed.

(** ** The crossing count *)

Lemma countPairs_crossings (X Y : list Z) (n : nat) :
  List.length Y = (2 * n)%nat -> countPairs X Y = crossings X Y.
Proof.
  revert Y. induction n as [|n IH]; intros Y Hlen.
  - now destruct Y.
  - destruct Y as [|x [|y rest]]; try (simpl in Hlen; lia).
    cbn [countPairs]. unfold crossings in *. cbn [ranges filter fst snd].
    rewrite (IH rest) by (simpl in Hlen; lia).
    now destruct (_ =? _).
Qed.

Lemma getOverlapCount_crossings (X Y : list Z) :
  Nat.even (List.length Y) = true -> getOverlapCount X [Y] = crossings X Y.
Proof.
  intros Heven. apply Nat.even_spec in Heven as [n Hn].
  unfold getOverlapCount. cbn [fold_left Nat.add].
  now apply countPairs_crossings with n.
Qed.

Lemma sortContinuousBlocks_two (A B : string) (a b : list Z) :
  A <> B ->
  sortContinuousBlocks [(A, Numbers a); (B, Numbers b)]
  = Ok (if (getOverlapCount a [b] <=? getOverlapCount b [a])%nat
        then [(A, Numbers a); (B, Numbers b)]
        else [(B, Numbers b); (A, Numbers a)]).
Proof.
  intros Hne. cbn [sortContinuousBlocks numbers bind].
  rewrite Nat.ltb_antisym.
  destruct (getOverlapCount a [b] <=? getOverlapCount b [a])%nat;
    cbn [negb]; [reflexivity|].
  cbn [rev app fromPairs assign fold_left set fst snd].
  destruct (String.eqb_spec B A); [congruence|reflexivity].
Qed.

(** * The properties the specification states *)

(** C1.  The round trip does not hold for every tree.  [<br><br>] is
    ingested as the empty text with two marks at offset 0; emitting that
    model removes the only text node for the first mark and then reads
    [nodeValue.length] of the root for the second, which throws: there is
    no second tree to ingest. *)
Theorem round_trip_throws_on_two_breaks :
  fromElement br_br
  = Ok {| text := ""; blocks := [("soft return", Numbers [0; 0])] |}
  /\ forall fuel : nat,
      toElement fuel {| text := "";
                        blocks := [("soft return", Numbers [0; 0])] |}
      = Throw (TypeError "walker.currentNode.nodeValue.length").
Proof.
  split; [reflexivity|]. intros fuel. destruct fuel; reflexivity.
Qed.

(** A second way for the round trip to fail: a propertied range that
    encloses an element emitted before it comes back in two pieces. *)
Lemma round_trip_cuts_enclosing_span :
  exists first tree second,
    fromElement a_span_a = Ok first
    /\ toElement 8 first = Ok tree
    /\ fromElement tree = Ok second
    /\ get (blocks first) "span"
       = Some (Objects [[("start", Num 2); ("end", Num 6)]])
    /\ get (blocks second) "span"
       = Some (Objects [[("start", Num 2); ("end", Num 4)];
                        [("start", Num 4); ("end", Num 6)]]).
Proof.
  do 3 eexists.
  split; [vm_compute; reflexivity|].
  split; [vm_compute; reflexivity|].
  split; [vm_compute; reflexivity|].
  split; vm_compute; reflexivity.
Qed.

(** C2.  For a range model and an offset [k] with [0 <= k <= text.length],
    [split(model, k)] returns two models and [concat] of the two returns a
    model whose text is [model.text]. *)
Theorem split_concat_keeps_text (model : rangeModel) (k : Z) :
  typed model = true ->
  0 <= k <= strlen (text model) ->
  exists before after merged,
    split model k = Ok (before, after)
    /\ concat before after = Ok merged
    /\ text merged = text model.
Proof.
  intros Ht Hk. do 3 eexists.
  split; [exact (split_typed model k Ht)|].
  rewrite concat_shaped by (apply shaped_splitSide, typed_shaped, Ht).
  split; [reflexivity|]. cbn [text]. rewrite !text_splitSide.
  now apply substr_inside.
Qed.

Lemma split_concat_keeps_text_witness :
  typed sample = true
  /\ 0 <= 3 <= strlen (text sample)
  /\ exists before after merged,
      split sample 3 = Ok (before, after)
      /\ concat before after = Ok merged
      /\ text merged = text sample.
Proof.
  assert (Ht : typed sample = true) by reflexivity.
  assert (Hk : 0 <= 3 <= strlen (text sample)) by (cbv; split; discriminate).
  exact (conj Ht (conj Hk (split_concat_keeps_text sample 3 Ht Hk))).
Defined.

(** C3.  In a model whose continuous list [l] under kind [K] is ascending
    and holds the span [[start, end)] at positions [2i] and [2i + 1], with
    [start < k < end], [split] at [k] cuts the span into [[start, k)] on
    the left and [[0, end - k)] on the right, and [concat] of the two
    halves merges them at the seam: the list under [K] is [l] again, with
    the one span [[start, end)]. *)
Theorem split_concat_restores_span (model : rangeModel) (K : string)
  (l : list Z) (i : nat) (k : Z) :
  typed model = true ->
  kindOf K = Some Continuous ->
  get (blocks model) K = Some (Numbers l) ->
  strictlyAscending l = true ->
  (2 * i + 1 < List.length l)%nat ->
  nth (2 * i) l 0 < k < nth (2 * i + 1) l 0 ->
  0 <= k <= strlen (text model) ->
  exists before after merged,
    split model k = Ok (before, after)
    /\ get (blocks before) K
       = Some (Numbers (firstn (2 * i) l ++ [nth (2 * i) l 0; k]))
    /\ get (blocks after) K
       = Some (Numbers ([0; nth (2 * i + 1) l 0 - k]
                        ++ map (fun value => value - k) (skipn (2 * i + 2) l)))
    /\ concat before after = Ok merged
    /\ get (blocks merged) K = Some (Numbers l).
Proof.
  intros Ht HK Hget Hasc Hi Hspan Hk.
  apply strictlyAscending_ascending in Hasc.
  pose proof (typed_uniqueKeys model Ht) as Hu.
  pose proof (cutContinuous_inside_span l i k Hasc Hi Hspan) as Hcut.
  assert (Hside : forall side,
             get (blocks (splitSide side model k)) K
             = Some (Numbers (if side then fst (cutContinuous k l)
                              else snd (cutContinuous k l)))).
  { intros side. rewrite (get_splitSide side model k K Hu), Hget, HK.
    reflexivity. }
  do 3 eexists.
  split; [exact (split_typed model k Ht)|].
  split; [now rewrite (Hside true), Hcut|].
  split; [now rewrite (Hside false), Hcut|].
  rewrite concat_shaped by (apply shaped_splitSide, typed_shaped, Ht).
  split; [reflexivity|]. cbn [blocks].
  apply get_concatBlocks_continuous;
    [apply uniqueKeys_splitSide|apply uniqueKeys_splitSide|exact HK|].
  rewrite get_mergedNumbers by apply uniqueKeys_splitSide.
  rewrite (proj2 (hasKind_kindOf Continuous K) HK).
  rewrite (Hside true), (Hside false), Hcut. cbn [numbersOf fst snd].
  rewrite text_splitSide, (proj2 (substr_inside (text model) k Hk)).
  rewrite joinContinuous_seam. f_equal. symmetry.
  exact (pair_inside l (2 * i) Hi).
Qed.

Lemma split_concat_restores_span_witness :
  exists before after merged,
    split sample 3 = Ok (before, after)
    /\ get (blocks before) "strong" = Some (Numbers [0; 3])
    /\ get (blocks after) "strong" = Some (Numbers [0; 3])
    /\ concat before after = Ok merged
    /\ get (blocks merged) "strong" = Some (Numbers [0; 6]).
Proof.
  refine (split_concat_restores_span sample "strong" [0; 6] 0 3
            eq_refl eq_refl eq_refl eq_refl _ _ _).
  - cbv. repeat constructor.
  - cbv. split; reflexivity.
  - cbv. split; discriminate.
Defined.

(** C4 as stated fails: the model ingested from
    [<p><b>ab<i>cd</i>ef</b></p>] has no [bold] entry. *)
Lemma ingest_example_has_no_bold :
  ~ exists m, fromElement p_b_i = Ok m
              /\ get (blocks m) "bold" = Some (Numbers [0; 6]).
Proof.
  intros (m & Hm & Hbold).
  assert (E : fromElement p_b_i
              = Ok {| text := "abcdef";
                      blocks := [("strong", Numbers [0; 6]);
                                 ("emphasis", Numbers [2; 4])] |})
    by reflexivity.
  rewrite E in Hm. injection Hm as <-. discriminate Hbold.
Qed.

(** C4, amended.  [<p><b>ab<i>cd</i>ef</b></p>] is ingested as the text
    ["abcdef"] with [blocks.strong = [0, 6]] ([B] is an alias of [STRONG])
    and [blocks.emphasis = [2, 4]] ([I] is an alias of [EM]), and nothing
    else. *)
Theorem ingest_example :
  fromElement p_b_i
  = Ok {| text := "abcdef";
          blocks := [("strong", Numbers [0; 6]);
                     ("emphasis", Numbers [2; 4])] |}.
Proof. reflexivity. Qed.

(** What becomes of the range of length zero that [split] leaves behind:
    emitted, it is wrapped around the whole first text node. *)
Lemma zero_length_ranges_are_emitted_around_the_text :
  (forall fuel,
      toElement fuel
        {| text := "fgh";
           blocks := [("link", Objects [[("start", Num 0); ("end", Num 0);
                                         ("href", Str "x")]])] |}
      = Ok (DocumentFragment [Element 1 "A" [("href", "x")] [Text 2 "fgh"]]))
  /\ (forall fuel,
         toElement fuel
           {| text := "def"; blocks := [("strong", Numbers [0; 0])] |}
         = Ok (DocumentFragment [Element 1 "STRONG" [] [Text 2 "def"]])).
Proof. split; intros fuel; destruct fuel; vm_compute; reflexivity. Qed.

(** C5.  A propertied range that ends at the offset lies entirely left of
    it, and one that starts at the offset entirely right; [split] clones
    both, leaving a range of length zero on the other side. *)
Theorem split_clones_ranges_touching_the_offset :
  split link_2_5 5
  = Ok ({| text := "abcde";
           blocks := [("link", Objects [[("start", Num 2); ("end", Num 5);
                                         ("href", Str "x")]])] |},
        {| text := "fgh";
           blocks := [("link", Objects [[("start", Num 0); ("end", Num 0);
                                         ("href", Str "x")]])] |})
  /\ split link_5_8 5
     = Ok ({| text := "abcde";
              blocks := [("link", Objects [[("start", Num 5); ("end", Num 5);
                                            ("href", Str "x")]])] |},
           {| text := "fgh";
              blocks := [("link", Objects [[("start", Num 0); ("end", Num 3);
                                            ("href", Str "x")]])] |}).
Proof. split; vm_compute; reflexivity. Qed.

(** C6.  [split] returns models that are not well-formed: cut at the end of
    a continuous span it stores the span [[0, 0)] on the right, and cut
    before the first span it stores an empty list on the left. *)
Theorem split_returns_ill_formed_models :
  wellFormed strong_0_3 = true
  /\ split strong_0_3 3
     = Ok ({| text := "abc"; blocks := [("strong", Numbers [0; 3])] |},
           {| text := "def"; blocks := [("strong", Numbers [0; 0])] |})
  /\ wellFormed {| text := "def"; blocks := [("strong", Numbers [0; 0])] |}
     = false
  /\ wellFormed strong_4_6 = true
  /\ split strong_4_6 2
     = Ok ({| text := "ab"; blocks := [("strong", Numbers [])] |},
           {| text := "cdef"; blocks := [("strong", Numbers [2; 4])] |})
  /\ wellFormed {| text := "ab"; blocks := [("strong", Numbers [])] |}
     = false.
Proof.
  split; [vm_compute; reflexivity|].
  split; [vm_compute; reflexivity|].
  split; [vm_compute; reflexivity|].
  split; [vm_compute; reflexivity|].
  split; vm_compute; reflexivity.
Qed.

(** C7.  With exactly two continuous kinds, [A] first and [B] second in
    the model, [addContinuousBlocksToElement] (the pass of [toElement] over
    the continuous kinds) wraps the spans of the two kinds one kind after
    the other, in an order that does not depend on the tree: [A] is rendered
    before [B] if and only if [crossings(A, B) <= crossings(B, A)], and [B]
    before [A] otherwise, and [toElement] is the pass over the propertied
    kinds, then the two continuous kinds in that order, then the pass over
    the singled kinds; [getOverlapCount] is the crossing count of the
    specification (the pairs of the second list whose endpoints have
    different insertion positions in the first), with the three values the
    specification lists; with more than two continuous kinds the pass
    renders them in the order of the model. *)
Theorem render_order_by_crossings :
  (forall (model : rangeModel) (A B : string) (a b : list Z),
      getBlocksOfType (blocks model) Continuous
      = Ok [(A, Numbers a); (B, Numbers b)] ->
      A <> B ->
      Nat.even (List.length a) = true -> Nat.even (List.length b) = true ->
      exists order,
        (forall (fuel : nat) (d : dom),
            addContinuousBlocksToElement fuel d model
            = foldM (wrapSpans fuel) order d)
        /\ (forall fuel : nat,
               toElement fuel model
               = (d <- addPropertiedBlocksToElement fuel
                         {| el := DocumentFragment [Text 0 (text model)];
                            removed := []; next := 1 |} model ;;
                  d <- foldM (wrapSpans fuel) order d ;;
                  d <- addSingledBlocksToElement fuel d model ;;
                  Ok (el d)))
        /\ (order = [(A, Numbers a); (B, Numbers b)]
            <-> (crossings a b <= crossings b a)%nat)
        /\ (order = [(B, Numbers b); (A, Numbers a)]
            <-> (crossings b a < crossings a b)%nat))
  /\ (forall X Y : list Z,
         Nat.even (List.length Y) = true ->
         getOverlapCount X [Y] = crossings X Y)
  /\ crossings [0; 10] [5; 15] = 1%nat
  /\ crossings [5; 15] [0; 10] = 1%nat
  /\ crossings [0; 20] [5; 10] = 0%nat
  /\ (forall (model : rangeModel) (continuousBlocks : object blockList),
         getBlocksOfType (blocks model) Continuous = Ok continuousBlocks ->
         (2 < List.length continuousBlocks)%nat ->
         forall (fuel : nat) (d : dom),
           addContinuousBlocksToElement fuel d model
           = foldM (wrapSpans fuel) continuousBlocks d).
Proof.
  split; [|repeat split; try reflexivity].
  - intros model A B a b Hpick Hne Ha Hb.
    exists (if (crossings a b <=? crossings b a)%nat
            then [(A, Numbers a); (B, Numbers b)]
            else [(B, Numbers b); (A, Numbers a)]).
    assert (Hpass : forall (fuel : nat) (d : dom),
               addContinuousBlocksToElement fuel d model
               = foldM (wrapSpans fuel)
                   (if (crossings a b <=? crossings b a)%nat
                    then [(A, Numbers a); (B, Numbers b)]
                    else [(B, Numbers b); (A, Numbers a)]) d).
    { intros fuel d. unfold addContinuousBlocksToElement.
      rewrite Hpick. cbn [bind].
      rewrite (sortContinuousBlocks_two A B a b Hne).
      rewrite (getOverlapCount_crossings a b Hb),
        (getOverlapCount_crossings b a Ha).
      reflexivity. }
    split; [exact Hpass|]. split.
    + intros fuel. unfold toElement.
      cbn [domify text el removed next normalizeElementAsDocument].
      destruct (addPropertiedBlocksToElement fuel _ model) as [d| | |];
        cbn [bind]; try reflexivity.
      now rewrite Hpass.
    + destruct (Nat.leb_spec (crossings a b) (crossings b a)) as [Hle|Hlt];
        split; split; intros H; try reflexivity; try lia; congruence.
  - exact getOverlapCount_crossings.
  - intros model continuousBlocks Hpick Hlen fuel d.
    unfold addContinuousBlocksToElement. rewrite Hpick. cbn [bind].
    destruct continuousBlocks as [|[k0 b0] [|[k1 b1] [|kv rest]]];
      try (simpl in Hlen; lia).
    reflexivity.
Qed.

Lemma render_order_by_crossings_witness :
  (forall (fuel : nat) (d : dom),
      addContinuousBlocksToElement fuel d crossing
      = foldM (wrapSpans fuel)
          [("strong", Numbers [0; 10; 12; 18]); ("emphasis", Numbers [5; 15])]
          d)
  /\ crossings [5; 15] [0; 10; 12; 18] = 2%nat
  /\ crossings [0; 10; 12; 18] [5; 15] = 1%nat
  /\ toElement 8 crossing
     = Ok (DocumentFragment
             [Element 1 "STRONG" []
                [Text 8 "abcde"; Element 6 "EM" [] [Text 7 "fghij"]];
              Element 9 "EM" [] [Text 10 "kl"];
              Element 3 "STRONG" []
                [Element 11 "EM" [] [Text 12 "mno"]; Text 4 "pqr"];
              Text 0 "st"])
  /\ (exists d,
        foldM (wrapSpans 8)
          [("emphasis", Numbers [5; 15]); ("strong", Numbers [0; 10; 12; 18])]
          {| el := DocumentFragment [Text 0 "abcdefghijklmnopqrst"];
             removed := []; next := 1 |} = Ok d
        /\ el d
           = DocumentFragment
               [Element 4 "STRONG" [] [Text 5 "abcde"];
                Element 1 "EM" []
                  [Element 6 "STRONG" [] [Text 7 "fghij"];
                   Text 10 "kl"; Element 8 "STRONG" [] [Text 9 "mno"]];
                Element 11 "STRONG" [] [Text 12 "pqr"];
                Text 0 "st"]).
Proof.
  destruct (proj1 render_order_by_crossings crossing "emphasis" "strong"
              [5; 15] [0; 10; 12; 18] eq_refl)
    as (order & Hpass & _ & _ & Hswap);
    [discriminate|reflexivity|reflexivity|].
  assert (Horder : order = [("strong", Numbers [0; 10; 12; 18]);
                            ("emphasis", Numbers [5; 15])])
    by (apply Hswap; cbv; repeat constructor).
  rewrite Horder in Hpass.
  split; [exact Hpass|].
  split; [reflexivity|]. split; [reflexivity|].
  split; [vm_compute; reflexivity|].
  eexists. split; vm_compute; reflexivity.
Defined.

(** C8.  [split] sends the marks of a singled kind that are below the
    offset to [before] unchanged, those above it to [after] decreased by
    the offset, and drops the marks equal to the offset from both: the
    offset is not among the marks of [before], nor 0 among those of
    [after]; a side left without marks has no entry for the kind. *)
Theorem split_singled_marks (model : rangeModel) (K : string)
  (marks : list Z) (num : Z) :
  typed model = true ->
  kindOf K = Some Singled ->
  get (blocks model) K = Some (Numbers marks) ->
  exists before after,
    split model num = Ok (before, after)
    /\ get (blocks before) K
       = unlessEmpty Numbers (filter (fun pos => pos <? num) marks)
    /\ get (blocks after) K
       = unlessEmpty Numbers
           (map (fun pos => pos - num) (filter (fun pos => pos >? num) marks))
    /\ ~ In num (filter (fun pos => pos <? num) marks)
    /\ ~ In 0 (map (fun pos => pos - num)
                 (filter (fun pos => pos >? num) marks)).
Proof.
  intros Ht HK Hget.
  pose proof (typed_uniqueKeys model Ht) as Hu.
  do 2 eexists. split; [exact (split_typed model num Ht)|].
  rewrite !(get_splitSide _ model num K Hu), Hget, HK.
  unfold singledSide, singledHalves. cbn [numbersOf].
  rewrite fold_splitSingledBlock. cbn [fst snd app].
  repeat split.
  - intros Hin. apply filter_In in Hin as [_ Hlt].
    apply Z.ltb_lt in Hlt. lia.
  - intros Hin. apply in_map_iff in Hin as (pos & Hpos & Hin).
    apply filter_In in Hin as [_ Hgt].
    destruct (Z.gtb_spec pos num); [lia|discriminate].
Qed.

Lemma split_singled_marks_witness :
  exists before after,
    split sample 5 = Ok (before, after)
    /\ get (blocks before) "soft return" = Some (Numbers [1])
    /\ get (blocks after) "soft return" = Some (Numbers [2])
    /\ ~ In 5 [1]
    /\ ~ In 0 [2].
Proof.
  exact (split_singled_marks sample "soft return" [1; 5; 7; 5] 5
           eq_refl eq_refl eq_refl).
Defined.

(** C9 as stated fails: [split] with an offset past the end of the text
    returns. *)
Lemma split_past_the_end_returns :
  strlen (text plain_abc) < 5
  /\ split plain_abc 5
     = Ok ({| text := "abc"; blocks := [] |}, {| text := ""; blocks := [] |}).
Proof. split; vm_compute; reflexivity. Qed.

(** C9, amended.  [split] does not check its offset.  On a range model it
    returns for an offset outside [[0, text.length]] too: past the end,
    [before] has the whole text and [after] none; below zero, [before] has
    no text and [after] the last [min(-offset, text.length)] characters. *)
Theorem split_outside_the_text_returns (model : rangeModel) (k : Z) :
  typed model = true ->
  k < 0 \/ strlen (text model) < k ->
  exists before after,
    split model k = Ok (before, after)
    /\ (strlen (text model) < k ->
        text before = text model /\ text after = "")
    /\ (k < 0 ->
        text before = ""
        /\ strlen (text after) = Z.min (- k) (strlen (text model))
        /\ exists prefix, (prefix ++ text after)%string = text model).
Proof.
  intros Ht _. do 2 eexists. split; [exact (split_typed model k Ht)|].
  rewrite !text_splitSide. split.
  - apply substr_beyond.
  - apply substr_negative.
Qed.

Lemma split_outside_the_text_returns_witness :
  exists before after,
    split sample (-3) = Ok (before, after)
    /\ (strlen (text sample) < -3 ->
        text before = text sample /\ text after = "")
    /\ (-3 < 0 ->
        text before = ""
        /\ strlen (text after) = Z.min (- -3) (strlen (text sample))
        /\ exists prefix, (prefix ++ text after)%string = text sample).
Proof.
  apply (split_outside_the_text_returns sample (-3) eq_refl).
  left. reflexivity.
Defined.

(** C10 as stated fails: a key that is not a kind name but names a member
    every object inherits is skipped, and [split] returns. *)
Lemma split_ignores_an_inherited_key :
  kindOf "constructor" = None
  /\ split constructor_key 1
     = Ok ({| text := "a"; blocks := [] |}, {| text := "bc"; blocks := [] |}).
Proof. split; vm_compute; reflexivity. Qed.

(** C10, amended.  A key of [model.blocks] that [blockTypes] has no member
    for, neither its own nor one inherited from [Object.prototype], makes
    [split], [concat] and [toElement] throw the TypeError of the dispatch.
    Without such a key none of them throws it, and the dispatch returns the
    entries whose key is a kind name of the kind asked for, skipping the
    keys that name an inherited member; this is so in particular when
    every key is a kind name of the registry. *)
Theorem unknown_kind_throws (model : rangeModel) :
  (existsb unknown (keys (blocks model)) = true ->
   (forall num, split model num = Throw dispatchError)
   /\ (forall other, concat other model = Throw dispatchError)
   /\ (forall other, shaped (blocks other) = true ->
                     concat model other = Throw dispatchError)
   /\ (forall fuel, toElement fuel model = Throw dispatchError))
  /\ (existsb unknown (keys (blocks model)) = false ->
      (forall type, getBlocksOfType (blocks model) type
                    = Ok (pick type (blocks model)))
      /\ (forall num, split model num <> Throw dispatchError)
      /\ (forall other,
             existsb unknown (keys (blocks other)) = false ->
             concat model other <> Throw dispatchError
             /\ concat other model <> Throw dispatchError)
      /\ (forall fuel, toElement fuel model <> Throw dispatchError))
  /\ ((forall k, In k (keys (blocks model)) -> kindOf k <> None) ->
      existsb unknown (keys (blocks model)) = false)
  /\ (forall type k b,
         In (k, b) (pick type (blocks model)) -> kindOf k = Some type).
Proof.
  split; [|split; [|split]].
  - intros H.
    pose proof (fun type => getBlocksOfType_unknown _ type H) as Hthrow.
    repeat split.
    + intros num. unfold split, splitPropertiedBlocks. now rewrite Hthrow.
    + intros other. unfold concat, concatPropertiedBlocks. now rewrite Hthrow.
    + intros other Hs. unfold concat, concatPropertiedBlocks.
      rewrite (getBlocksOfType_shaped _ _ Hs). cbn [bind].
      rewrite (mapValues_pure _
                 (fun b => map (shiftPropertied (strlen (text model)))
                             (objectsOf b))
                 _ _ (pick_entries shapedEntry Propertied _ Hs)).
      * cbn [bind]. now rewrite Hthrow.
      * intros kv [Hkv Hk].
        destruct (entry_objects kv Hkv Hk) as (l & -> & Hl).
        cbn [objects bind objectsOf].
        apply mapM_pure with (P := fun block => numeric block = true).
        -- apply Forall_forall. now rewrite forallb_forall in Hl.
        -- intros block Hblock. now apply shiftPropertied_numeric.
    + intros fuel. unfold toElement, domify, addPropertiedBlocksToElement.
      now rewrite Hthrow.
  - intros H. repeat split.
    + intros type. now rewrite getBlocksOfType_spec, H.
    + intros num. now apply quiet_split.
    + now apply quiet_concat.
    + now apply quiet_concat.
    + intros fuel. now apply quiet_toElement.
  - apply known_kinds.
  - intros type k b Hin. apply filter_In in Hin as [_ Hk].
    now apply hasKind_kindOf.
Qed.

Lemma unknown_kind_throws_witness :
  (forall num, split colour_key num = Throw dispatchError)
  /\ (forall fuel, toElement fuel colour_key = Throw dispatchError)
  /\ (forall num, split sample num <> Throw dispatchError)
  /\ (forall fuel, toElement fuel sample <> Throw dispatchError)
  /\ (forall num, split constructor_key num <> Throw dispatchError).
Proof.
  destruct (unknown_kind_throws colour_key) as [Hthrow _].
  destruct (Hthrow eq_refl) as (Hsplit & _ & _ & Hemit).
  destruct (unknown_kind_throws sample) as (_ & Hquiet & Hkinds & _).
  assert (Hsample : existsb unknown (keys (blocks sample)) = false).
  { apply Hkinds. intros k Hin.
    repeat (destruct Hin as [<-|Hin]; [discriminate|]). destruct Hin. }
  destruct (Hquiet Hsample) as (_ & Hsplit' & _ & Hemit').
  destruct (unknown_kind_throws constructor_key) as (_ & Hquiet' & _).
  destruct (Hquiet' eq_refl) as (_ & Hsplit'' & _).
  exact (conj Hsplit (conj Hemit (conj Hsplit' (conj Hemit' Hsplit'')))).
Defined.

(** * Further properties of the code *)

(** ** The binary search *)

(** X1.  Whatever the list (sorted or not) and the value (a number or
    [undefined]), [getBinarySortedInsertPosition] returns an index between 0
    and the length of the list. *)
Theorem insert_position_within_the_list (list : list Z) (value : option Z) :
  0 <= getBinarySortedInsertPosition list value <= Z.of_nat (List.length list).
Proof.
  unfold getBinarySortedInsertPosition.
  pose proof (@search_bounds list value 0 (Z.of_nat (List.length list) - 1)).
  lia.
Qed.

(** X2.  On a strictly ascending list [getBinarySortedInsertPosition]
    returns the position that separates the elements below the value from
    the others: every element before it is smaller, every element from it on
    is at least the value; so a value that occurs in the list is found at its
    own index. *)
Theorem insert_position_separates (list : list Z) (value : Z) :
  strictlyAscending list = true ->
  let index := getBinarySortedInsertPosition list (Some value) in
  (forall j, 0 <= j < index -> nth (Z.to_nat j) list 0 < value)
  /\ (forall j, index <= j < Z.of_nat (List.length list) ->
                value <= nth (Z.to_nat j) list 0)
  /\ (forall i, at_ list i = Some value -> index = i).
Proof.
  intros Hasc index. apply strictlyAscending_ascending in Hasc.
  destruct (@getBinarySortedInsertPosition_sorted list value Hasc)
    as (Hr & Hbelow & Habove).
  fold index in Hr, Hbelow, Habove.
  split; [exact Hbelow|]. split; [exact Habove|].
  intros i Hi.
  assert (Hin : 0 <= i < Z.of_nat (List.length list)).
  { unfold at_ in Hi. destruct (Z.ltb_spec i 0); [discriminate|].
    assert (nth_error list (Z.to_nat i) <> None) by congruence.
    apply nth_error_Some in H0. lia. }
  rewrite at_nth in Hi by exact Hin. injection Hi as Hi.
  destruct (Z.lt_trichotomy index i) as [Hlt|[Heq|Hgt]]; [|exact Heq|].
  - pose proof (Habove index ltac:(lia)) as H1.
    pose proof (Hasc (Z.to_nat index) (Z.to_nat i) ltac:(lia)). lia.
  - pose proof (Hbelow i ltac:(lia)). lia.
Qed.

Lemma insert_position_separates_witness :
  getBinarySortedInsertPosition [0; 3; 7; 9] (Some 7) = 2
  /\ getBinarySortedInsertPosition [0; 3; 7; 9] (Some 4) = 2.
Proof.
  destruct (insert_position_separates [0; 3; 7; 9] 7 eq_refl) as (_ & _ & H).
  split; [exact (H 2 eq_refl)|reflexivity].
Defined.

(** ** Which spans cross *)

Lemma positions_differ (X : list Z) (s e : Z) :
  strictlyAscending X = true -> s <= e ->
  (getBinarySortedInsertPosition X (Some s)
   =? getBinarySortedInsertPosition X (Some e))
  = negb (holdsBoundary X (s, e)).
Proof.
  intros Hasc Hse. apply strictlyAscending_ascending in Hasc.
  destruct (@getBinarySortedInsertPosition_sorted X s Hasc) as (Hrs & Hbs & Has).
  destruct (@getBinarySortedInsertPosition_sorted X e Hasc) as (Hre & Hbe & Hae).
  set (rs := getBinarySortedInsertPosition X (Some s)) in *.
  set (re := getBinarySortedInsertPosition X (Some e)) in *.
  unfold holdsBoundary. cbn [fst snd].
  destruct (Z.eqb_spec rs re) as [Heq|Hne].
  - symmetry. apply negb_true_iff.
    destruct (existsb _ X) eqn:E; [|reflexivity].
    apply existsb_exists in E as (x & Hin & Hx).
    apply andb_true_iff in Hx as [Hsx Hxe].
    apply Z.leb_le in Hsx. apply Z.ltb_lt in Hxe.
    apply (In_nth _ _ 0) in Hin as (j & Hj & <-).
    destruct (Z_lt_le_dec (Z.of_nat j) rs) as [Hlt|Hge].
    + pose proof (Hbs (Z.of_nat j) ltac:(lia)) as H. rewrite Nat2Z.id in H. lia.
    + pose proof (Hae (Z.of_nat j) ltac:(lia)) as H. rewrite Nat2Z.id in H. lia.
  - symmetry. apply negb_false_iff.
    assert (Hlt : rs < re).
    { destruct (Z_lt_le_dec rs re) as [|Hle]; [assumption|].
      pose proof (Hbs re ltac:(lia)). pose proof (Hae re ltac:(lia)). lia. }
    apply existsb_exists. exists (nth (Z.to_nat rs) X 0). split.
    + apply nth_In. lia.
    + apply andb_true_iff. split; [apply Z.leb_le|apply Z.ltb_lt].
      * apply Has. lia.
      * apply Hbe. lia.
Qed.

Lemma strictlyAscending_tail (x : Z) (l : list Z) :
  strictlyAscending (x :: l) = true -> strictlyAscending l = true.
Proof.
  destruct l; [reflexivity|]. cbn [strictlyAscending].
  now rewrite andb_true_iff.
Qed.

(** X3.  For ascending lists, a span of the second list counts as a crossing
    exactly when a boundary of the first list lies in it, the span's start
    included and its end excluded: [getOverlapCount] is the number of such
    spans. *)
Theorem overlap_count_counts_spans_holding_a_boundary (X Y : list Z) :
  strictlyAscending X = true ->
  strictlyAscending Y = true ->
  Nat.even (List.length Y) = true ->
  getOverlapCount X [Y]
  = List.length (filter (holdsBoundary X) (ranges Y)).
Proof.
  intros HX HY Heven. apply Nat.even_spec in Heven as [n Hn].
  unfold getOverlapCount. cbn [fold_left Nat.add].
  revert Y HY Hn. induction n as [|n IH]; intros Y HY Hn.
  - now destruct Y.
  - destruct Y as [|s [|e rest]]; try (simpl in Hn; lia).
    cbn [countPairs ranges filter].
    assert (Hse : s <= e).
    { cbn [strictlyAscending] in HY. apply andb_true_iff in HY as [H _].
      apply Z.ltb_lt in H. lia. }
    rewrite (positions_differ X s e HX Hse).
    rewrite (IH rest) by
      (try (apply strictlyAscending_tail with e,
              strictlyAscending_tail with s; exact HY);
       simpl in Hn; lia).
    now destruct (holdsBoundary X (s, e)).
Qed.

Lemma overlap_count_counts_spans_holding_a_boundary_witness :
  getOverlapCount [0; 10; 12; 18] [[5; 11; 13; 15; 18; 20]] = 2%nat.
Proof.
  exact (overlap_count_counts_spans_holding_a_boundary
           [0; 10; 12; 18] [5; 11; 13; 15; 18; 20] eq_refl eq_refl eq_refl).
Defined.

(** ** Split and concat keep the shape of a model *)

Lemma get_assign {V : Type} (t s : object V) (k : string) :
  uniqueKeys (keys s) = true ->
  get (assign t s) k = match get s k with Some v => Some v | None => get t k end.
Proof.
  intros Hu. destruct (get s k) as [v|] eqn:E.
  - now apply get_assign_some.
  - now apply get_assign_none.
Qed.

Lemma forallb_assign {V : Type} (P : string * V -> bool) (t s : object V) :
  forallb P t = true -> forallb P s = true -> forallb P (assign t s) = true.
Proof.
  revert t. induction s as [|[k v] s IH]; intros t Ht Hs; [exact Ht|].
  cbn [forallb] in Hs. apply andb_true_iff in Hs as [Hkv Hs].
  apply IH; [|exact Hs]. now apply forallb_set.
Qed.

Lemma forallb_fold_store (P : string * blockList -> bool)
  (g : blockList -> option blockList) (l : object blockList) (m : rangeModel) :
  Forall (fun kv => forall v, g (snd kv) = Some v -> P (fst kv, v) = true) l ->
  forallb P (blocks m) = true ->
  forallb P (blocks (fold_left (store g) l m)) = true.
Proof.
  intros Hall. revert m.
  induction Hall as [|kv l Hkv _ IH]; intros m Hm; [exact Hm|].
  cbn [fold_left]. apply IH. unfold store.
  destruct (g (snd kv)) as [v|]; [|exact Hm].
  apply forallb_set; [exact Hm|now apply Hkv].
Qed.

Lemma odd_index (index : Z) :
  0 <= index -> Z.rem index 2 = 1 -> exists q : nat, Z.to_nat index = (2 * q + 1)%nat.
Proof.
  intros H0 Hodd. rewrite Z.rem_mod_nonneg in Hodd by lia.
  exists (Z.to_nat (index / 2)).
  pose proof (Z.div_mod index 2 ltac:(lia)).
  pose proof (Z.div_pos index 2 H0 ltac:(lia)). lia.
Qed.

Lemma even_index (index : Z) :
  0 <= index -> Z.rem index 2 <> 1 -> exists q : nat, Z.to_nat index = (2 * q)%nat.
Proof.
  intros H0 Hodd. rewrite Z.rem_mod_nonneg in Hodd by lia.
  exists (Z.to_nat (index / 2)).
  pose proof (Z.div_mod index 2 ltac:(lia)).
  pose proof (Z.div_pos index 2 H0 ltac:(lia)).
  pose proof (Z.mod_pos_bound index 2 ltac:(lia)). lia.
Qed.

Lemma even_double (n : nat) : Nat.even (2 * n) = true.
Proof. apply Nat.even_spec. now exists n. Qed.

(** The two halves of a list of pairs are lists of pairs. *)
Lemma cutContinuous_even (num : Z) (l : list Z) :
  Nat.even (List.length l) = true ->
  Nat.even (List.length (fst (cutContinuous num l))) = true
  /\ Nat.even (List.length (snd (cutContinuous num l))) = true.
Proof.
  intros Heven. unfold cutContinuous.
  pose proof (getBinarySortedInsertPosition_bounds l (Some num)) as Hb.
  set (index := getBinarySortedInsertPosition l (Some num)) in *.
  pose proof Heven as Hl. apply Nat.even_spec in Hl as [a Ha].
  destruct (Z.eqb_spec (Z.rem index 2) 1) as [Hodd|Hodd]; cbn [fst snd].
  - pose proof (even_index_inside _ _ Heven Hb Hodd) as Hin.
    destruct (odd_index index ltac:(lia) Hodd) as [q Hq].
    unfold take, drop.
    rewrite !length_app, length_map, length_firstn, length_skipn.
    cbn [List.length]. split.
    + replace (Init.Nat.min (Z.to_nat (index - 1)) (List.length l) + 2)%nat
        with (2 * (q + 1))%nat by lia.
      apply even_double.
    + replace (2 + (List.length l - Z.to_nat (index + 1)))%nat
        with (2 * (1 + (a - q - 1)))%nat by lia.
      apply even_double.
  - destruct (even_index index ltac:(lia) Hodd) as [q Hq].
    unfold take, drop. rewrite length_map, length_firstn, length_skipn. split.
    + replace (Init.Nat.min (Z.to_nat index) (List.length l))
        with (2 * q)%nat by lia.
      apply even_double.
    + replace (List.length l - Z.to_nat index)%nat
        with (2 * (a - q))%nat by lia.
      apply even_double.
Qed.

Lemma typedEntry_splitSide (side : bool) (m : rangeModel) (num : Z) :
  forallb typedEntry (blocks m) = true ->
  forallb typedEntry (blocks (splitSide side m num)) = true.
Proof.
  intros Ht. unfold splitSide.
  apply forallb_fold_store;
    [|apply forallb_fold_store; [|apply forallb_fold_store]];
    try reflexivity.
  - eapply Forall_impl; [|exact (pick_entries typedEntry Singled _ Ht)].
    intros kv [_ Hk] v. unfold singledSide, unlessEmpty, typedEntry.
    cbn [fst snd]. rewrite Hk.
    destruct (0 <? _)%nat; [|discriminate]. now intros [= <-].
  - eapply Forall_impl; [|exact (pick_entries typedEntry Continuous _ Ht)].
    intros kv [Hkv Hk] v. unfold continuousSide, typedEntry.
    cbn [fst snd]. rewrite Hk.
    destruct (entry_pairs _ Hkv Hk) as (l & -> & Heven).
    cbn [numbersOf]. intros [= <-].
    destruct (cutContinuous_even num l Heven). now destruct side.
  - eapply Forall_impl; [|exact (pick_entries typedEntry Propertied _ Ht)].
    intros kv [Hkv Hk] v. unfold propertiedSide, unlessEmpty, typedEntry.
    cbn [fst snd]. rewrite Hk.
    destruct (entry_objects _ (typedEntry_shaped _ Hkv) Hk) as (l & -> & Hnum).
    destruct (numeric_clonePropertied num l ([], []) Hnum eq_refl eq_refl)
      as [Hb Ha].
    unfold propertiedHalves. cbn [objectsOf].
    destruct (0 <? _)%nat; [|discriminate]. intros [= <-].
    now destruct side.
Qed.

Lemma typed_splitSide (side : bool) (m : rangeModel) (num : Z) :
  typed m = true -> typed (splitSide side m num) = true.
Proof.
  unfold typed. rewrite !andb_true_iff. intros [_ Ht]. split.
  - apply uniqueKeys_splitSide.
  - now apply typedEntry_splitSide.
Qed.

(** X4.  [split] keeps the shape of a range model: whatever the offset, both
    halves of a typed model (no key twice, every key a kind name, continuous
    lists in pairs, numbers for singled kinds, objects with a numeric
    [start] and [end] for propertied kinds) are typed again, so they can be
    split further or handed to [concat]. *)
Theorem split_keeps_models_typed (model : rangeModel) (num : Z) :
  typed model = true ->
  exists before after,
    split model num = Ok (before, after)
    /\ typed before = true /\ typed after = true.
Proof.
  intros Ht. do 2 eexists. split; [exact (split_typed model num Ht)|].
  split; now apply typed_splitSide.
Qed.

Lemma split_keeps_models_typed_witness :
  exists before after,
    split sample 5 = Ok (before, after)
    /\ typed before = true /\ typed after = true.
Proof. exact (split_keeps_models_typed sample 5 eq_refl). Defined.

Lemma forallb_fold_mergeInto {A : Type} (Q : string * list A -> bool)
  (join : list A -> list A -> list A) (h : blockList -> list A)
  (l : object blockList) (mergedBlocks : object (list A)) :
  Forall (fun kv =>
            Q (fst kv, h (snd kv)) = true
            /\ forall ml, Q (fst kv, ml) = true ->
                          Q (fst kv, join (h (snd kv)) ml) = true) l ->
  forallb Q mergedBlocks = true ->
  forallb Q
    (fold_left
       (fun mergedBlocks kv =>
          mergeInto join mergedBlocks (fst kv) (h (snd kv)))
       l mergedBlocks) = true.
Proof.
  intros Hall. revert mergedBlocks.
  induction Hall as [|kv l [Hh Hjoin] _ IH]; intros mg Hmg; [exact Hmg|].
  cbn [fold_left]. apply IH. unfold mergeInto.
  destruct (get mg (fst kv)) as [ml|] eqn:E.
  - apply forallb_set; [exact Hmg|]. apply Hjoin.
    exact (forallb_get Q mg _ _ Hmg E).
  - now apply forallb_set.
Qed.

Lemma forallb_mapped {A B : Type} (P : B -> bool) (f : A -> B) (l : list A) :
  forallb P (map f l) = forallb (fun x => P (f x)) l.
Proof. induction l as [|x l IH]; [reflexivity|]. cbn. now rewrite IH. Qed.

Lemma forallb_wrap {A : Type} (P : string * blockList -> bool)
  (w : list A -> blockList) (o : object (list A)) :
  forallb P (wrap w o) = forallb (fun kv => P (fst kv, w (snd kv))) o.
Proof. unfold wrap. now rewrite forallb_mapped. Qed.

Lemma joinContinuous_even (num : Z) (bl ml : list Z) :
  Nat.even (List.length bl) = true -> Nat.even (List.length ml) = true ->
  Nat.even (List.length (joinContinuous num bl ml)) = true.
Proof.
  intros Hb Hm. unfold joinContinuous.
  assert (Happ : Nat.even (List.length (bl ++ ml)) = true).
  { rewrite length_app, Nat.even_add, Hb, Hm. reflexivity. }
  destruct (at_ bl _) as [lastEnd|] eqn:E; [|exact Happ].
  destruct ml as [|firstStart ml]; [exact Happ|].
  destruct (_ && _); [|exact Happ].
  pose proof (last_split bl lastEnd E) as Hsplit.
  unfold drop. change (Z.to_nat 1) with 1%nat. cbn [skipn].
  rewrite length_app. rewrite Hsplit, length_app in Hb.
  cbn [List.length] in Hb, Hm.
  rewrite Nat.add_1_r, Nat.even_succ, <- Nat.negb_even in Hb.
  rewrite Nat.even_succ, <- Nat.negb_even in Hm.
  rewrite Nat.even_add.
  destruct (Nat.even (List.length (removelast bl))),
    (Nat.even (List.length ml)); try reflexivity; discriminate.
Qed.

Lemma typedEntry_mergedNumbers (type : setter)
  (join : list Z -> list Z -> list Z) (num : Z) (before after : rangeModel) :
  type = Continuous \/ type = Singled ->
  (type = Continuous ->
   forall bl ml, Nat.even (List.length bl) = true ->
                 Nat.even (List.length ml) = true ->
                 Nat.even (List.length (join bl ml)) = true) ->
  forallb typedEntry (blocks before) = true ->
  forallb typedEntry (blocks after) = true ->
  forallb typedEntry
    (wrap Numbers (mergedNumbers join type num before after)) = true.
Proof.
  intros Htype Hjoin Hb Ha. rewrite forallb_wrap. unfold mergedNumbers.
  assert (Hentry : forall kv : string * blockList,
             typedEntry kv = true /\ kindOf (fst kv) = Some type ->
             typedEntry (fst kv, Numbers (numbersOf (snd kv))) = true
             /\ (type = Continuous ->
                 Nat.even (List.length (numbersOf (snd kv))) = true)).
  { intros [k b] [Hkv Hk]. unfold typedEntry in *. cbn [fst snd] in *.
    rewrite Hk in *. destruct Htype; subst type; destruct b; try discriminate;
      cbn [numbersOf]; split; auto; discriminate. }
  apply forallb_fold_mergeInto.
  - eapply Forall_impl; [|exact (pick_entries typedEntry type _ Hb)].
    intros kv Hkv. destruct (Hentry kv Hkv) as [H1 H2]. split; [exact H1|].
    intros ml Hml. destruct Hkv as [_ Hk].
    unfold typedEntry in *. cbn [fst snd] in *. rewrite Hk in *.
    destruct Htype; subst type; auto.
  - rewrite forallb_mapped. apply forallb_forall. intros kv Hin.
    pose proof (pick_entries typedEntry type _ Ha) as Hall.
    rewrite Forall_forall in Hall. specialize (Hall kv Hin).
    destruct (Hentry kv Hall) as [H1 H2]. destruct Hall as [_ Hk].
    unfold typedEntry in *. cbn [fst snd] in *. rewrite Hk in *.
    destruct Htype; subst type; auto. rewrite length_map. auto.
Qed.

Lemma numeric_shiftPropertied (num : Z) (block : object value) :
  numeric (shiftPropertied num block) = true.
Proof. apply numeric_set_both. Qed.

Lemma typedEntry_mergedObjects (num : Z) (before after : rangeModel) :
  forallb typedEntry (blocks before) = true ->
  forallb typedEntry (blocks after) = true ->
  forallb typedEntry (wrap Objects (mergedObjects num before after)) = true.
Proof.
  intros Hb Ha. rewrite forallb_wrap. unfold mergedObjects.
  assert (Hentry : forall kv : string * blockList,
             typedEntry kv = true /\ kindOf (fst kv) = Some Propertied ->
             forallb numeric (objectsOf (snd kv)) = true).
  { intros [k b] [Hkv Hk]. unfold typedEntry in Hkv. cbn [fst snd] in *.
    rewrite Hk in Hkv. now destruct b. }
  apply forallb_fold_mergeInto.
  - eapply Forall_impl; [|exact (pick_entries typedEntry Propertied _ Hb)].
    intros kv Hkv. pose proof (Hentry kv Hkv) as Hnum. destruct Hkv as [_ Hk].
    unfold typedEntry. cbn [fst snd]. rewrite Hk. split; [exact Hnum|].
    intros ml Hml. rewrite forallb_app. apply andb_true_iff.
    split; [exact Hnum|exact Hml].
  - rewrite forallb_mapped. apply forallb_forall. intros kv Hin.
    pose proof (pick_entries typedEntry Propertied _ Ha) as Hall.
    rewrite Forall_forall in Hall. destruct (Hall kv Hin) as [_ Hk].
    unfold typedEntry. cbn [fst snd]. rewrite Hk.
    apply forallb_forall. intros block Hblock.
    apply in_map_iff in Hblock as (b0 & <- & _).
    apply numeric_shiftPropertied.
Qed.

Lemma uniqueKeys_concatBlocks (before after : rangeModel) :
  uniqueKeys (keys (concatBlocks before after)) = true.
Proof. unfold concatBlocks. now repeat apply uniqueKeys_assign. Qed.

Lemma typedEntry_concatBlocks (before after : rangeModel) :
  forallb typedEntry (blocks before) = true ->
  forallb typedEntry (blocks after) = true ->
  forallb typedEntry (concatBlocks before after) = true.
Proof.
  intros Hb Ha. unfold concatBlocks. repeat apply forallb_assign.
  - reflexivity.
  - now apply typedEntry_mergedObjects.
  - apply typedEntry_mergedNumbers; auto.
    intros _ bl ml. apply joinContinuous_even.
  - apply typedEntry_mergedNumbers; auto. discriminate.
Qed.

(** X5.  [concat] keeps the shape of a range model: for two typed models it
    returns a typed model whose text is the two texts one after the other. *)
Theorem concat_keeps_models_typed (before after : rangeModel) :
  typed before = true -> typed after = true ->
  exists merged,
    concat before after = Ok merged
    /\ typed merged = true
    /\ text merged = (text before ++ text after)%string.
Proof.
  intros Hb Ha. eexists.
  split; [apply concat_shaped; now apply typed_shaped|].
  split; [|reflexivity].
  unfold typed in *. apply andb_true_iff in Hb as [_ Hb], Ha as [_ Ha].
  cbn [blocks]. rewrite uniqueKeys_concatBlocks. cbn [andb].
  now apply typedEntry_concatBlocks.
Qed.

Lemma concat_keeps_models_typed_witness :
  exists merged,
    concat sample crossing = Ok merged
    /\ typed merged = true
    /\ text merged = (text sample ++ text crossing)%string.
Proof. exact (concat_keeps_models_typed sample crossing eq_refl eq_refl). Defined.

(** ** Ingest returns, and what it returns *)

Lemma alias_registered (n alias : string) (t0 : tagType) :
  get tagTypes n = Some t0 -> get sameAs n = Some alias ->
  exists t, get tagTypes alias = Some t /\ set_ t = set_ t0.
Proof.
  intros Hn Ha.
  assert (Hall : forallb
                   (fun kv => match get tagTypes (fst kv), get tagTypes (snd kv) with
                              | Some t0, Some t => setter_eqb (set_ t) (set_ t0)
                              | Some _, None => false
                              | None, _ => true
                              end) sameAs = true)
    by (vm_compute; reflexivity).
  pose proof (forallb_get _ _ _ _ Hall Ha) as H. cbn [fst snd] in H.
  rewrite Hn in H. destruct (get tagTypes alias) as [t|]; [|discriminate].
  exists t. split; [reflexivity|].
  destruct (set_ t), (set_ t0); try discriminate; reflexivity.
Qed.

Lemma dispatch_plain (site : string) (i : nat) (n : string)
  (a : list (string * string)) (ch : list Node) (t0 : tagType) :
  existsb (String.eqb n) ObjectPrototype = false ->
  get tagTypes n = Some t0 ->
  exists t, tagTypeOf site (getNodeName (Element i n a ch)) = Ok t
            /\ set_ t = set_ t0.
Proof.
  intros Hplain Hn. unfold getNodeName, lookup. cbn [nodeName_].
  rewrite Hplain.
  destruct (get sameAs n) as [alias|] eqn:Ha.
  - destruct (alias_registered n alias t0 Hn Ha) as (t & Ht & Hs).
    exists t. split; [|exact Hs]. unfold tagTypeOf, lookup. now rewrite Ht.
  - exists t0. split; [|reflexivity]. unfold tagTypeOf, lookup. now rewrite Hn.
Qed.

Lemma kinded_numbers (m : rangeModel) (key : string) (s : setter) :
  forallb kindedEntry (blocks m) = true ->
  kindOf key = Some s -> s <> Propertied ->
  exists block,
    match get (blocks m) key with
    | None => Ok []
    | Some b => numbers key b
    end = Ok block.
Proof.
  intros Hk Hkey Hs. destruct (get (blocks m) key) as [b|] eqn:E.
  - pose proof (forallb_get _ _ _ _ Hk E) as H.
    unfold kindedEntry in H. cbn [fst snd] in H. rewrite Hkey in H.
    destruct s, b; try discriminate; try contradiction; now eexists.
  - now eexists.
Qed.

Lemma kinded_objects (m : rangeModel) (key : string) :
  forallb kindedEntry (blocks m) = true ->
  kindOf key = Some Propertied ->
  exists block,
    match get (blocks m) key with
    | None => Ok []
    | Some b => objects key b
    end = Ok block.
Proof.
  intros Hk Hkey. destruct (get (blocks m) key) as [b|] eqn:E.
  - pose proof (forallb_get _ _ _ _ Hk E) as H.
    unfold kindedEntry in H. cbn [fst snd] in H. rewrite Hkey in H.
    destruct b; try discriminate; now eexists.
  - now eexists.
Qed.

Lemma ingested_set (m : rangeModel) (key : string) (b : blockList) :
  ingested m = true -> kindedEntry (key, b) = true ->
  wellFormed {| text := text m; blocks := set (blocks m) key b |} = true ->
  ingested {| text := text m; blocks := set (blocks m) key b |} = true.
Proof.
  unfold ingested. intros Hm Hb Hw.
  apply andb_true_iff in Hm as [Hm _]. apply andb_true_iff in Hm as [Hu Hk].
  cbn [blocks]. rewrite (uniqueKeys_set _ _ _ Hu), Hw.
  now rewrite (forallb_set kindedEntry _ _ _ Hk Hb).
Qed.

(** The handler of a registered element returns, keeps the text and keeps
    the model as [ingested] says. *)
Lemma ingest_element (m : rangeModel) (i : nat) (n : string)
  (a : list (string * string)) (ch : list Node) (t0 : tagType) :
  existsb (String.eqb n) ObjectPrototype = false ->
  get tagTypes n = Some t0 ->
  ingested m = true ->
  exists m',
    (t <- tagTypeOf "tagTypes[name].set" (getNodeName (Element i n a ch)) ;;
     call (set_ t) m (Element i n a ch)) = Ok m'
    /\ ingested m' = true /\ text m' = text m.
Proof.
  intros Hplain Hn Hm.
  destruct (dispatch_plain "tagTypes[name].set" i n a ch t0 Hplain Hn)
    as (t & Ht & Hs).
  rewrite Ht. cbn [bind].
  pose proof Hm as Hinv. unfold ingested in Hinv.
  apply andb_true_iff in Hinv as [Hinv Hw].
  apply andb_true_iff in Hinv as [Hu Hk].
  destruct (tagTypeOf_get _ _ _ Ht) as (n' & Hn').
  pose proof (registry_inverse _ _ Hn') as Hkind.
  pose proof (registry_inverse _ _ Hn) as Hkind0.
  destruct (set_ t) eqn:Hset; cbn [call].
  - (* continuous *)
    destruct (continuous m (Element i n a ch)) as [m'| | |] eqn:E.
    + exists m'. split; [reflexivity|].
      pose proof (continuous_wellFormed _ _ _ Hw E) as Hw'.
      revert E. unfold continuous.
      destruct (_ =? _); [now intros [= <-]|].
      rewrite (tagTypeOf_site _ "tagTypes[nodeName].name" _ _ Ht).
      cbn [bind].
      destruct (kinded_numbers m (name t) Continuous Hk Hkind) as (block & ->);
        [discriminate|].
      cbn [bind]. intros [= <-]. split; [|reflexivity].
      apply ingested_set; auto.
      unfold kindedEntry. cbn [fst snd]. now rewrite Hkind.
    + exfalso. revert E. unfold continuous.
      destruct (_ =? _); [discriminate|].
      rewrite (tagTypeOf_site _ "tagTypes[nodeName].name" _ _ Ht).
      cbn [bind].
      destruct (kinded_numbers m (name t) Continuous Hk Hkind) as (block & ->);
        discriminate.
    + exfalso. revert E. unfold continuous.
      destruct (_ =? _); [discriminate|].
      rewrite (tagTypeOf_site _ "tagTypes[nodeName].name" _ _ Ht).
      cbn [bind].
      destruct (kinded_numbers m (name t) Continuous Hk Hkind) as (block & ->);
        discriminate.
    + exfalso. revert E. unfold continuous.
      destruct (_ =? _); [discriminate|].
      rewrite (tagTypeOf_site _ "tagTypes[nodeName].name" _ _ Ht).
      cbn [bind].
      destruct (kinded_numbers m (name t) Continuous Hk Hkind) as (block & ->);
        discriminate.
  - (* propertied *)
    rewrite <- Hs in Hkind0.
    unfold propertied. destruct (_ =? _); [now exists m|].
    cbn [nodeName_]. unfold tagTypeOf at 1, lookup. rewrite Hn. cbn [bind].
    destruct (kinded_objects m (name t0) Hk Hkind0) as (block & ->).
    cbn [bind]. eexists. split; [reflexivity|]. split; [|reflexivity].
    apply ingested_set; auto.
    + unfold kindedEntry. cbn [fst snd]. now rewrite Hkind0.
    + apply wellFormed_set; [exact Hw|].
      unfold wellFormedEntry. cbn [snd]. now destruct block.
  - (* singled *)
    unfold singled.
    rewrite (tagTypeOf_site _ "tagTypes[nodeName].name" _ _ Ht). cbn [bind].
    destruct (kinded_numbers m (name t) Singled Hk Hkind) as (block & ->);
      [discriminate|].
    cbn [bind]. eexists. split; [reflexivity|]. split; [|reflexivity].
    apply ingested_set; auto.
    + unfold kindedEntry. cbn [fst snd]. now rewrite Hkind.
    + apply wellFormed_set; [exact Hw|].
      unfold wellFormedEntry. cbn [fst snd]. rewrite Hkind.
      now destruct block.
Qed.

Lemma text_node_filter (parent : Node) (i : nat) (v : string) :
  knownTagsOnly parent (Text i v) = contentTextOnly parent (Text i v).
Proof. reflexivity. Qed.

Lemma rejected_is_no_text (pn : Node * Node) :
  nodeFilter (snd pn) && knownTagsOnly (fst pn) (snd pn) = false ->
  SHOW_TEXT (snd pn) && contentTextOnly (fst pn) (snd pn) = false.
Proof.
  destruct pn as [parent [i v|i n a ch|i v|ch]]; cbn [fst snd]; try reflexivity.
  now rewrite text_node_filter.
Qed.

Lemma ingest_step (m : rangeModel) (pn : Node * Node) :
  plainName pn = true -> ingested m = true ->
  nodeFilter (snd pn) && knownTagsOnly (fst pn) (snd pn) = true ->
  exists m',
    match snd pn with
    | Text _ v => Ok {| text := (text m ++ v)%string; blocks := blocks m |}
    | _ =>
        t <- tagTypeOf "tagTypes[name].set" (getNodeName (snd pn)) ;;
        call (set_ t) m (snd pn)
    end = Ok m'
    /\ ingested m' = true
    /\ text m'
       = if SHOW_TEXT (snd pn) && contentTextOnly (fst pn) (snd pn)
         then match nodeValue_ (snd pn) with
              | Some v => (text m ++ v)%string
              | None => text m
              end
         else text m.
Proof.
  destruct pn as [parent [i v|i n a ch|i v|ch]]; cbn [fst snd];
    intros Hplain Hm Hacc; try discriminate.
  - rewrite text_node_filter in Hacc. cbn [nodeFilter andb] in Hacc.
    cbn [SHOW_TEXT andb nodeValue_]. rewrite Hacc.
    eexists. split; [reflexivity|]. split; [exact Hm|reflexivity].
  - unfold plainName in Hplain. cbn [snd] in Hplain.
    apply negb_true_iff in Hplain.
    cbn [nodeFilter andb SHOW_TEXT] in *.
    unfold knownTagsOnly in Hacc. cbn [SHOW_TEXT andb nodeName_] in Hacc.
    rewrite orb_false_r in Hacc. unfold lookup in Hacc. rewrite Hplain in Hacc.
    destruct (get tagTypes n) as [t0|] eqn:Hn; [|discriminate].
    exact (ingest_element m i n a ch t0 Hplain Hn Hm).
Qed.

Lemma inherited_name_throws (m : rangeModel) (pn : Node * Node) :
  plainName pn = false ->
  nodeFilter (snd pn) && knownTagsOnly (fst pn) (snd pn) = true
  /\ match snd pn with
     | Text _ v => Ok {| text := (text m ++ v)%string; blocks := blocks m |}
     | _ =>
         t <- tagTypeOf "tagTypes[name].set" (getNodeName (snd pn)) ;;
         call (set_ t) m (snd pn)
     end = Throw (TypeError "tagTypes[name].set").
Proof.
  destruct pn as [parent [i v|i n a ch|i v|ch]]; unfold plainName;
    cbn [fst snd]; try discriminate.
  intros Hn. apply negb_false_iff in Hn.
  assert (Hnone : forall A (o : object A),
             forallb (fun k => match get o k with None => true | _ => false end)
               ObjectPrototype = true ->
             lookup o n = Inherited).
  { intros A o Hall. unfold lookup. rewrite Hn.
    apply existsb_exists in Hn as (k & Hin & Hk).
    apply String.eqb_eq in Hk as <-.
    rewrite forallb_forall in Hall. specialize (Hall n Hin).
    now destruct (get o n). }
  split.
  - unfold knownTagsOnly. cbn [nodeName_ nodeFilter andb].
    rewrite (Hnone _ tagTypes) by (vm_compute; reflexivity). reflexivity.
  - unfold getNodeName. cbn [nodeName_].
    rewrite (Hnone _ sameAs) by (vm_compute; reflexivity). reflexivity.
Qed.

Lemma ingest_fold (ds : list (Node * Node)) (m : rangeModel) :
  forallb plainName ds = true -> ingested m = true ->
  exists m',
    foldM
      (fun model pn =>
         let node := snd pn in
         match node with
         | Text _ v =>
             Ok {| text := (text model ++ v)%string; blocks := blocks model |}
         | _ =>
             t <- tagTypeOf "tagTypes[name].set" (getNodeName node) ;;
             call (set_ t) model node
         end)
      (filter (fun pn => nodeFilter (snd pn)
                         && knownTagsOnly (fst pn) (snd pn)) ds) m = Ok m'
    /\ ingested m' = true
    /\ text m'
       = fold_left
           (fun str pn => match nodeValue_ (snd pn) with
                          | Some v => (str ++ v)%string
                          | None => str
                          end)
           (filter (fun pn => SHOW_TEXT (snd pn)
                              && contentTextOnly (fst pn) (snd pn)) ds)
           (text m).
Proof.
  revert m. induction ds as [|pn ds IH]; intros m Hplain Hm.
  - exists m. now repeat split.
  - cbn [forallb] in Hplain. apply andb_true_iff in Hplain as [Hpn Hplain].
    cbn [filter].
    destruct (nodeFilter (snd pn) && knownTagsOnly (fst pn) (snd pn)) eqn:Hacc.
    + destruct (ingest_step m pn Hpn Hm Hacc) as (m1 & Hstep & Hm1 & Htext).
      cbn [foldM]. cbv zeta. rewrite Hstep. cbn [bind].
      destruct (IH m1 Hplain Hm1) as (m' & Hfold & Hm' & Htext').
      exists m'. split; [exact Hfold|]. split; [exact Hm'|].
      rewrite Htext', Htext.
      now destruct (SHOW_TEXT (snd pn) && contentTextOnly (fst pn) (snd pn)).
    + rewrite (rejected_is_no_text pn Hacc). now apply IH.
Qed.

Lemma ingest_fold_throws (ds : list (Node * Node)) (m : rangeModel) :
  forallb plainName ds = false -> ingested m = true ->
  foldM
    (fun model pn =>
       let node := snd pn in
       match node with
       | Text _ v =>
           Ok {| text := (text model ++ v)%string; blocks := blocks model |}
       | _ =>
           t <- tagTypeOf "tagTypes[name].set" (getNodeName node) ;;
           call (set_ t) model node
       end)
    (filter (fun pn => nodeFilter (snd pn)
                       && knownTagsOnly (fst pn) (snd pn)) ds) m
  = Throw (TypeError "tagTypes[name].set").
Proof.
  revert m. induction ds as [|pn ds IH]; intros m Hplain Hm; [discriminate|].
  cbn [forallb filter] in *.
  destruct (plainName pn) eqn:Hpn.
  - cbn [andb] in Hplain.
    destruct (nodeFilter (snd pn) && knownTagsOnly (fst pn) (snd pn)) eqn:Hacc.
    + destruct (ingest_step m pn Hpn Hm Hacc) as (m1 & Hstep & Hm1 & _).
      cbn [foldM]. cbv zeta. rewrite Hstep. cbn [bind]. now apply IH.
    + now apply IH.
  - destruct (inherited_name_throws m pn Hpn) as [Hacc Hstep].
    rewrite Hacc. cbn [foldM]. cbv zeta. now rewrite Hstep.
Qed.



(** X7.  [fromElement] throws a TypeError, from the read of [.set] in its
    dispatch, on every tree that holds an element bearing the name of a
    member of [Object.prototype]: the filter lets the element pass and
    [getNodeName] returns the inherited member in place of a name. *)
Theorem fromElement_throws_on_an_inherited_name (el : Node) :
  forallb plainName (descendants (normalizeElementAsDocument el)) = false ->
  fromElement el = Throw (TypeError "tagTypes[name].set").
Proof.
  intros Hplain.
  exact (ingest_fold_throws _ {| text := ""; blocks := [] |} Hplain eq_refl).
Qed.

Lemma fromElement_throws_on_an_inherited_name_witness :
  fromElement
    (Element 1 "P" [] [Text 2 "ab"; Element 3 "constructor" [] [Text 4 "cd"]])
  = Throw (TypeError "tagTypes[name].set").
Proof.
  apply (fromElement_throws_on_an_inherited_name
           (Element 1 "P" []
              [Text 2 "ab"; Element 3 "constructor" [] [Text 4 "cd"]])).
  vm_compute. reflexivity.
Defined.

(** ** The positions ingest stores *)

Lemma strlen_append (s t : string) :
  strlen (s ++ t)%string = strlen s + strlen t.
Proof.
  unfold strlen. induction s as [|c s IH]; cbn [String.append String.length].
  - lia.
  - lia.
Qed.

Lemma string_append_assoc (s t u : string) :
  ((s ++ t) ++ u)%string = (s ++ (t ++ u))%string.
Proof. induction s as [|c s IH]; cbn [String.append]; congruence. Qed.

Lemma fold_content_from (l : list (Node * Node)) (s : string) :
  fold_left
    (fun str pn => match nodeValue_ (snd pn) with
                   | Some v => (str ++ v)%string
                   | None => str
                   end) l s
  = (s ++ fold_left
            (fun str pn => match nodeValue_ (snd pn) with
                           | Some v => (str ++ v)%string
                           | None => str
                           end) l "")%string.
Proof.
  revert s. induction l as [|pn l IH]; intros s; cbn [fold_left].
  - now rewrite append_empty.
  - rewrite IH. rewrite (IH (match nodeValue_ (snd pn) with
                             | Some v => ("" ++ v)%string
                             | None => ""
                             end)).
    destruct (nodeValue_ (snd pn)) as [v|]; cbn [String.append].
    + now rewrite string_append_assoc.
    + reflexivity.
Qed.

Lemma contentOf_app (l1 l2 : list (Node * Node)) :
  contentOf (l1 ++ l2) = (contentOf l1 ++ contentOf l2)%string.
Proof.
  unfold contentOf. rewrite filter_app, fold_left_app.
  now rewrite fold_content_from.
Qed.

Lemma contentOf_cons (pn : Node * Node) (ds : list (Node * Node)) :
  contentOf (pn :: ds)
  = if SHOW_TEXT (snd pn) && contentTextOnly (fst pn) (snd pn)
    then match nodeValue_ (snd pn) with
         | Some v => (v ++ contentOf ds)%string
         | None => contentOf ds
         end
    else contentOf ds.
Proof.
  change (pn :: ds) with ([pn] ++ ds). rewrite contentOf_app.
  unfold contentOf at 1. cbn [filter].
  destruct (SHOW_TEXT (snd pn) && contentTextOnly (fst pn) (snd pn));
    cbn [fold_left]; [|reflexivity].
  now destruct (nodeValue_ (snd pn)).
Qed.

Lemma nested_app (l1 l2 : list (Node * Node)) :
  nested l1 -> nested l2 -> nested (l1 ++ l2).
Proof.
  intros H1 H2. induction l1 as [|pn l1 IH]; [exact H2|].
  destruct H1 as [(after & ->) H1]. cbn [nested app]. split.
  - exists (after ++ l2). now rewrite app_assoc.
  - now apply IH.
Qed.

Lemma descendants_children (parent : Node) (l : list Node) :
  (fix each (l : list Node) : list (Node * Node) :=
     match l with
     | [] => []
     | c :: r => (parent, c) :: descendants c ++ each r
     end) l
  = flat_map (fun c => (parent, c) :: descendants c) l.
Proof. induction l as [|c l IH]; [reflexivity|]. cbn [flat_map app]. now rewrite IH. Qed.

Lemma nested_children (parent : Node) (l : list Node) :
  Forall (fun c => nested (descendants c)) l ->
  nested (flat_map (fun c => (parent, c) :: descendants c) l).
Proof.
  induction 1 as [|c l Hc _ IH]; [exact I|].
  cbn [flat_map]. apply (nested_app ((parent, c) :: descendants c)); [|exact IH].
  split; [|exact Hc]. exists []. cbn [snd]. now rewrite app_nil_r.
Qed.

Lemma nested_descendants (root : Node) : nested (descendants root).
Proof.
  induction root as [i v|i n a ch IH|i v|ch IH] using Node_forall;
    try exact I.
  - change (descendants (Element i n a ch))
      with ((fix each (l : list Node) : list (Node * Node) :=
               match l with
               | [] => []
               | c :: r => (Element i n a ch, c) :: descendants c ++ each r
               end) ch).
    rewrite descendants_children. now apply nested_children.
  - change (descendants (DocumentFragment ch))
      with ((fix each (l : list Node) : list (Node * Node) :=
               match l with
               | [] => []
               | c :: r => (DocumentFragment ch, c) :: descendants c ++ each r
               end) ch).
    rewrite descendants_children. now apply nested_children.
Qed.

Lemma forallb_removelast {A : Type} (P : A -> bool) (l : list A) :
  forallb P l = true -> forallb P (removelast l) = true.
Proof.
  induction l as [|x [|y l] IH]; intros H; try reflexivity.
  cbn [forallb] in H. apply andb_true_iff in H as [Hx H].
  change (removelast (x :: y :: l)) with (x :: removelast (y :: l)).
  cbn [forallb]. rewrite Hx. now apply IH.
Qed.

Lemma insideText_spec (n x : Z) : insideText n x = true <-> 0 <= x <= n.
Proof. unfold insideText. rewrite andb_true_iff, !Z.leb_le. tauto. Qed.

(** The list [continuous] stores holds positions of the text once the
    content of the element is in it. *)
Lemma continuous_block_inside (n : Z) (block : list Z) (start end_ : Z) :
  forallb (insideText n) block = true ->
  0 <= start -> start <= end_ -> end_ <= n ->
  forallb (insideText n)
    match at_ block (Z.of_nat (List.length block) - 1) with
    | Some lastEnd =>
        if (2 <=? Z.of_nat (List.length block)) && (lastEnd >=? start)
        then removelast block ++ [Z.max lastEnd end_]
        else block ++ [start; end_]
    | None => block ++ [start; end_]
    end = true.
Proof.
  intros Hblock H0 Hle Hn.
  assert (Hpush : forallb (insideText n) (block ++ [start; end_]) = true).
  { rewrite forallb_app, Hblock. cbn [forallb andb].
    rewrite !(proj2 (insideText_spec _ _)); [reflexivity|lia|lia]. }
  destruct (at_ block _) as [lastEnd|] eqn:E; [|exact Hpush].
  destruct (_ && _); [|exact Hpush].
  pose proof (last_split block lastEnd E) as Hsplit.
  rewrite forallb_app, (forallb_removelast _ _ Hblock). cbn [forallb andb].
  rewrite Hsplit, forallb_app in Hblock.
  apply andb_true_iff in Hblock as [_ Hlast]. cbn [forallb] in Hlast.
  rewrite andb_true_r in Hlast. apply insideText_spec in Hlast.
  rewrite andb_true_r. apply insideText_spec. lia.
Qed.

(** Members written under a name of any form. *)
Section WriteFacts.
Context {V : Type}.
Implicit Types (o t s : object V) (k : string) (v : V).

Lemma get_putIndex o n k v k' :
  get o k = None ->
  get (putIndex o n k v) k' = if String.eqb k k' then Some v else get o k'.
Proof.
  induction o as [|[k0 v0] o IH]; cbn [putIndex get]; [reflexivity|].
  destruct (String.eqb_spec k0 k) as [->|Hne]; [discriminate|]. intros Hk.
  destruct (arrayIndex k0) as [n0|]; [destruct (n0 <? n)|]; cbn [get];
    try reflexivity.
  rewrite (IH Hk).
  destruct (String.eqb_spec k0 k') as [<-|_]; [|reflexivity].
  now destruct (String.eqb_spec k k0); [congruence|].
Qed.

Lemma get_put o k v k' :
  get (put o k v) k' = if String.eqb k k' then Some v else get o k'.
Proof.
  unfold put. destruct (get o k) eqn:E; [apply get_set|].
  destruct (arrayIndex k); [now apply get_putIndex|apply get_set].
Qed.

Lemma put_plain o k v : arrayIndex k = None -> put o k v = set o k v.
Proof. intros H. unfold put. rewrite H. now destruct (get o k). Qed.

Lemma keys_putIndex o n k v k' :
  existsb (String.eqb k') (keys (putIndex o n k v))
  = String.eqb k' k || existsb (String.eqb k') (keys o).
Proof.
  induction o as [|[k0 v0] o IH]; cbn [putIndex keys map fst existsb];
    [reflexivity|].
  destruct (arrayIndex k0) as [n0|]; [destruct (n0 <? n)|];
    cbn [keys map fst existsb]; try reflexivity.
  fold (keys (putIndex o n k v)). rewrite IH. fold (keys o).
  now destruct (String.eqb k' k0), (String.eqb k' k).
Qed.

Lemma uniqueKeys_putIndex o n k v :
  get o k = None -> uniqueKeys (keys o) = true ->
  uniqueKeys (keys (putIndex o n k v)) = true.
Proof.
  intros Hk Hu. apply get_none_keys in Hk.
  induction o as [|[k0 v0] o IH]; cbn [putIndex]; [reflexivity|].
  change (keys ((k0, v0) :: o)) with (k0 :: keys o) in *.
  cbn [existsb uniqueKeys] in Hk, Hu.
  apply orb_false_iff in Hk as [Hkk0 Hk].
  apply andb_true_iff in Hu as [Hk0 Hu]. apply negb_true_iff in Hk0.
  assert (Hall : uniqueKeys (keys ((k, v) :: (k0, v0) :: o)) = true).
  { change (keys ((k, v) :: (k0, v0) :: o)) with (k :: k0 :: keys o).
    cbn [uniqueKeys existsb]. now rewrite Hkk0, Hk, Hk0, Hu. }
  destruct (arrayIndex k0) as [n0|]; [destruct (n0 <? n)|]; try exact Hall.
  change (keys ((k0, v0) :: putIndex o n k v))
    with (k0 :: keys (putIndex o n k v)).
  cbn [uniqueKeys]. rewrite keys_putIndex, Hk0, (IH Hk Hu).
  now rewrite String.eqb_sym, Hkk0.
Qed.

Lemma uniqueKeys_put o k v :
  uniqueKeys (keys o) = true -> uniqueKeys (keys (put o k v)) = true.
Proof.
  intros Hu. unfold put. destruct (get o k) eqn:E; [now apply uniqueKeys_set|].
  destruct (arrayIndex k);
    [now apply uniqueKeys_putIndex|now apply uniqueKeys_set].
Qed.

Lemma forallb_put (P : string * V -> bool) o k v :
  P (k, v) = true -> forallb P o = true -> forallb P (put o k v) = true.
Proof.
  intros Hkv Ho. unfold put.
  destruct (get o k) eqn:E; [now apply forallb_set|].
  destruct (arrayIndex k) as [n|]; [|now apply forallb_set]. clear E.
  induction o as [|[k0 v0] o IH]; cbn [putIndex forallb].
  - now rewrite Hkv.
  - cbn [forallb] in Ho. apply andb_true_iff in Ho as [H0 Ho].
    destruct (arrayIndex k0) as [n0|]; [destruct (n0 <? n)|];
      cbn [forallb]; rewrite ?Hkv, ?H0, ?Ho; try reflexivity.
    now rewrite IH.
Qed.

Lemma get_assignAny t s k :
  uniqueKeys (keys s) = true ->
  get (assignAny t s) k
  = match get s k with Some v => Some v | None => get t k end.
Proof.
  revert t. induction s as [|[k0 v0] s IH]; intros t Hu; [reflexivity|].
  cbn [keys map fst uniqueKeys] in Hu. fold (keys s) in Hu.
  apply andb_true_iff in Hu as [Hk0 Hu]. apply negb_true_iff in Hk0.
  change (assignAny t ((k0, v0) :: s)) with (assignAny (put t k0 v0) s).
  rewrite (IH _ Hu), get_put. cbn [get].
  destruct (String.eqb_spec k0 k) as [<-|_]; [|reflexivity].
  apply get_none_keys in Hk0. now rewrite Hk0.
Qed.

Lemma uniqueKeys_assignAny t s :
  uniqueKeys (keys t) = true -> uniqueKeys (keys (assignAny t s)) = true.
Proof.
  revert t. induction s as [|[k v] s IH]; intros t Hu; [exact Hu|].
  apply IH. now apply uniqueKeys_put.
Qed.

Lemma forallb_assignAny (P : string * V -> bool) t s :
  forallb P t = true -> forallb P s = true ->
  forallb P (assignAny t s) = true.
Proof.
  revert t. induction s as [|[k v] s IH]; intros t Ht Hs; [exact Ht|].
  cbn [forallb] in Hs. apply andb_true_iff in Hs as [Hkv Hs].
  apply IH; [|exact Hs]. now apply forallb_put.
Qed.

Lemma assignAny_plain t s :
  forallb (fun kv => match arrayIndex (fst kv) with
                     | None => true
                     | Some _ => false
                     end) s = true ->
  assignAny t s = assign t s.
Proof.
  revert t. induction s as [|[k v] s IH]; intros t Hs; [reflexivity|].
  cbn [forallb fst] in Hs. apply andb_true_iff in Hs as [Hk Hs].
  change (assignAny t ((k, v) :: s)) with (assignAny (put t k v) s).
  change (assign t ((k, v) :: s)) with (assign (set t k v) s).
  rewrite put_plain by (now destruct (arrayIndex k)). now apply IH.
Qed.
End WriteFacts.

Lemma getAttributes_strings (el : Node) (k : string) :
  match get (getAttributes el) k with
  | Some (Num _) => False
  | _ => True
  end.
Proof.
  unfold getAttributes.
  assert (H : forall acc : object value,
             forallb (fun kv => match snd kv with Num _ => false | _ => true end)
               acc = true ->
             forallb (fun kv => match snd kv with Num _ => false | _ => true end)
               (fold_left
                  (fun props attr =>
                     if String.eqb (fst attr) "__proto__" then props
                     else put props (fst attr) (Str (snd attr)))
                  (attributes_ el) acc) = true).
  { induction (attributes_ el) as [|attr l IH]; intros acc Hacc; [exact Hacc|].
    cbn [fold_left]. apply IH.
    destruct (String.eqb (fst attr) "__proto__"); [exact Hacc|].
    now apply forallb_put. }
  specialize (H [] eq_refl).
  destruct (get _ k) as [v|] eqn:E; [|exact I].
  pose proof (forallb_get _ _ _ _ H E) as Hv. cbn [snd] in Hv.
  now destruct v.
Qed.

Lemma getAttributes_uniqueKeys (el : Node) :
  uniqueKeys (keys (getAttributes el)) = true.
Proof.
  unfold getAttributes.
  assert (H : forall acc : object value,
             uniqueKeys (keys acc) = true ->
             uniqueKeys
               (keys (fold_left
                        (fun props attr =>
                           if String.eqb (fst attr) "__proto__" then props
                           else put props (fst attr) (Str (snd attr)))
                        (attributes_ el) acc)) = true).
  { induction (attributes_ el) as [|attr l IH]; intros acc Hacc; [exact Hacc|].
    cbn [fold_left]. apply IH.
    destruct (String.eqb (fst attr) "__proto__"); [exact Hacc|].
    now apply uniqueKeys_put. }
  now apply H.
Qed.

Lemma ranged_member_inside (n start end_ : Z) (el : Node) (k : string) :
  0 <= start -> start <= end_ -> end_ <= n ->
  memberInside n
    (get (assignAny [("start", Num start); ("end", Num end_)]
            (getAttributes el)) k)
  = true.
Proof.
  intros H0 Hle Hn. rewrite get_assignAny by apply getAttributes_uniqueKeys.
  pose proof (getAttributes_strings el k) as Hs.
  destruct (get (getAttributes el) k) as [[x|s]|]; try contradiction;
    try reflexivity.
  cbn [get]. destruct (String.eqb "start" k); cbn [memberInside].
  - apply insideText_spec. lia.
  - destruct (String.eqb "end" k); cbn [memberInside]; [|reflexivity].
    apply insideText_spec. lia.
Qed.

Lemma numbers_inside (n : Z) (m : rangeModel) (key : string) (block : list Z) :
  forallb (within n) (blocks m) = true ->
  match get (blocks m) key with
  | None => Ok []
  | Some b => numbers key b
  end = Ok block ->
  forallb (insideText n) block = true.
Proof.
  intros Hm. destruct (get (blocks m) key) as [[l|[|o l]]|] eqn:Hget;
    cbn [numbers]; try discriminate; intros [= <-]; try reflexivity.
  exact (forallb_get _ _ _ _ Hm Hget).
Qed.

Lemma objects_inside (n : Z) (m : rangeModel) (key : string)
  (block : list (object value)) :
  forallb (within n) (blocks m) = true ->
  match get (blocks m) key with
  | None => Ok []
  | Some b => objects key b
  end = Ok block ->
  forallb (fun block => memberInside n (get block "start")
                        && memberInside n (get block "end")) block = true.
Proof.
  intros Hm. destruct (get (blocks m) key) as [[[|x l]|l]|] eqn:Hget;
    cbn [objects]; try discriminate; intros [= <-]; try reflexivity.
  exact (forallb_get _ _ _ _ Hm Hget).
Qed.

(** A handler keeps the text, and stores positions that lie in the text as
    soon as the content of its element does. *)
Lemma call_inside (s : setter) (m m' : rangeModel) (node : Node) (n : Z) :
  forallb (within n) (blocks m) = true ->
  strlen (text m) + strlen (getContentText node) <= n ->
  call s m node = Ok m' ->
  forallb (within n) (blocks m') = true /\ text m' = text m.
Proof.
  intros Hm Hn.
  pose proof (strlen_nonneg (text m)) as H0.
  pose proof (strlen_nonneg (getContentText node)) as H1.
  destruct s; cbn [call].
  - unfold continuous. destruct (_ =? _); [now intros [= <-]|].
    destruct (tagTypeOf _ _) as [t| | |]; cbn [bind]; try discriminate.
    destruct (match get (blocks m) (name t) with
              | Some b => numbers (name t) b
              | None => Ok []
              end) as [block| | |] eqn:E; cbn [bind]; try discriminate.
    intros [= <-]. split; [|reflexivity]. cbn [blocks].
    apply forallb_set; [exact Hm|]. unfold within. cbn [snd].
    apply continuous_block_inside; try lia.
    exact (numbers_inside n m _ block Hm E).
  - unfold propertied. destruct (_ =? _); [now intros [= <-]|].
    destruct (tagTypeOf _ _) as [t| | |]; cbn [bind]; try discriminate.
    destruct (match get (blocks m) (name t) with
              | Some b => objects (name t) b
              | None => Ok []
              end) as [block| | |] eqn:E; cbn [bind]; try discriminate.
    intros [= <-]. split; [|reflexivity]. cbn [blocks].
    apply forallb_set; [exact Hm|]. unfold within. cbn [snd].
    rewrite forallb_app, (objects_inside n m _ block Hm E).
    cbn [forallb andb]. rewrite !ranged_member_inside by lia. reflexivity.
  - unfold singled.
    destruct (tagTypeOf _ _) as [t| | |]; cbn [bind]; try discriminate.
    destruct (match get (blocks m) (name t) with
              | Some b => numbers (name t) b
              | None => Ok []
              end) as [block| | |] eqn:E; cbn [bind]; try discriminate.
    intros [= <-]. split; [|reflexivity]. cbn [blocks].
    apply forallb_set; [exact Hm|]. unfold within. cbn [snd].
    rewrite forallb_app, (numbers_inside n m _ block Hm E).
    cbn [forallb andb]. rewrite (proj2 (insideText_spec _ _)); [reflexivity|lia].
Qed.

Lemma ingest_fold_inside (ds : list (Node * Node)) (m m' : rangeModel) :
  nested ds ->
  forallb (within (strlen (text m) + strlen (contentOf ds))) (blocks m) = true ->
  foldM
    (fun model pn =>
       let node := snd pn in
       match node with
       | Text _ v =>
           Ok {| text := (text model ++ v)%string; blocks := blocks model |}
       | _ =>
           t <- tagTypeOf "tagTypes[name].set" (getNodeName node) ;;
           call (set_ t) model node
       end)
    (filter (fun pn => nodeFilter (snd pn)
                       && knownTagsOnly (fst pn) (snd pn)) ds) m = Ok m' ->
  forallb (within (strlen (text m'))) (blocks m') = true.
Proof.
  revert m. induction ds as [|pn ds IH]; intros m Hnested Hm.
  - cbn [filter foldM]. intros [= <-].
    change (contentOf []) with "" in Hm. change (strlen "") with 0 in Hm.
    now rewrite Z.add_0_r in Hm.
  - destruct Hnested as [(after & Hafter) Hnested].
    rewrite contentOf_cons in Hm. cbn [filter].
    destruct (nodeFilter (snd pn) && knownTagsOnly (fst pn) (snd pn)) eqn:Hacc.
    + cbn [foldM]. cbv zeta.
      destruct pn as [parent [i v|i n a ch|i v|ch]]; cbn [fst snd] in *;
        try discriminate.
      * rewrite text_node_filter in Hacc. cbn [nodeFilter andb] in Hacc.
        cbn [SHOW_TEXT andb nodeValue_] in Hm. rewrite Hacc in Hm.
        cbn [bind]. apply IH; [exact Hnested|]. cbn [text blocks].
        rewrite strlen_append in *. now rewrite Z.add_assoc in Hm.
      * cbn [SHOW_TEXT andb] in Hm.
        destruct (tagTypeOf _ _) as [t| | |]; cbn [bind]; try discriminate.
        destruct (call (set_ t) m (Element i n a ch)) as [m1| | |] eqn:E;
          cbn [bind]; try discriminate.
        assert (Hlen : strlen (text m) + strlen (getContentText (Element i n a ch))
                       <= strlen (text m) + strlen (contentOf ds)).
        { rewrite Hafter, contentOf_app, strlen_append.
          change (getContentText (Element i n a ch))
            with (contentOf (descendants (Element i n a ch))).
          pose proof (strlen_nonneg (contentOf after)). lia. }
        destruct (call_inside _ _ _ _ _ Hm Hlen E) as [Hm1 Htext].
        apply IH; [exact Hnested|]. now rewrite Htext.
    + rewrite (rejected_is_no_text pn Hacc) in Hm. now apply IH.
Qed.

(** X8.  Every position [fromElement] stores lies in the text of the model it
    returns: the numbers of the continuous and singled lists, and the
    numeric [start] and [end] of the propertied ranges, are between 0 and
    the length of the text. *)
Theorem fromElement_positions_lie_in_the_text (el : Node) :
  forallb plainName (descendants (normalizeElementAsDocument el)) = true ->
  exists model,
    fromElement el = Ok model
    /\ forallb (within (strlen (text model))) (blocks model) = true.
Proof.
  intros Hplain.
  destruct (ingest_fold _ {| text := ""; blocks := [] |} Hplain eq_refl)
    as (model & Hfold & _).
  exists model. split; [exact Hfold|].
  apply (ingest_fold_inside (descendants (normalizeElementAsDocument el))
           {| text := ""; blocks := [] |});
    [apply nested_descendants|reflexivity|exact Hfold].
Qed.

Lemma fromElement_positions_lie_in_the_text_witness :
  exists model,
    fromElement a_span_a = Ok model
    /\ forallb (within (strlen (text model))) (blocks model) = true.
Proof.
  apply (fromElement_positions_lie_in_the_text a_span_a).
  vm_compute. reflexivity.
Defined.

(** ** Ingest and the shape split and concat expect *)

Lemma getAttributes_none (el : Node) (k : string) :
  forallb (fun attr => negb (String.eqb (fst attr) k)) (attributes_ el) = true ->
  get (getAttributes el) k = None.
Proof.
  unfold getAttributes.
  assert (H : forall acc : object value,
             forallb (fun attr => negb (String.eqb (fst attr) k))
               (attributes_ el) = true ->
             get acc k = None ->
             get (fold_left
                    (fun props attr =>
                       if String.eqb (fst attr) "__proto__" then props
                       else put props (fst attr) (Str (snd attr)))
                    (attributes_ el) acc) k = None).
  { induction (attributes_ el) as [|attr l IH]; intros acc Hl Hacc;
      [exact Hacc|].
    cbn [forallb] in Hl. apply andb_true_iff in Hl as [Hattr Hl].
    cbn [fold_left]. apply IH; [exact Hl|].
    destruct (String.eqb (fst attr) "__proto__"); [exact Hacc|].
    rewrite get_put. apply negb_true_iff in Hattr. now rewrite Hattr. }
  intros Hl. now apply H.
Qed.

Lemma ranged_numeric (start end_ : Z) (parent node : Node) :
  noRangeAttribute (parent, node) = true ->
  numeric (assignAny [("start", Num start); ("end", Num end_)]
             (getAttributes node)) = true.
Proof.
  unfold noRangeAttribute. cbn [snd]. intros Hno.
  assert (Hs : get (getAttributes node) "start" = None).
  { apply getAttributes_none. apply forallb_forall. intros attr Hin.
    rewrite forallb_forall in Hno. specialize (Hno attr Hin).
    now apply andb_true_iff in Hno as [Hno _]. }
  assert (He : get (getAttributes node) "end" = None).
  { apply getAttributes_none. apply forallb_forall. intros attr Hin.
    rewrite forallb_forall in Hno. specialize (Hno attr Hin).
    now apply andb_true_iff in Hno as [_ Hno]. }
  unfold numeric. rewrite !get_assignAny by apply getAttributes_uniqueKeys.
  rewrite Hs, He. reflexivity.
Qed.

Lemma call_numeric (s : setter) (m m' : rangeModel) (parent node : Node) :
  noRangeAttribute (parent, node) = true ->
  forallb numericEntry (blocks m) = true ->
  call s m node = Ok m' ->
  forallb numericEntry (blocks m') = true.
Proof.
  intros Hno Hm.
  destruct s; cbn [call].
  - unfold continuous. destruct (_ =? _); [now intros [= <-]|].
    destruct (tagTypeOf _ _) as [t| | |]; cbn [bind]; try discriminate.
    destruct (match get (blocks m) (name t) with
              | Some b => numbers (name t) b
              | None => Ok []
              end) as [block| | |] eqn:E; cbn [bind]; try discriminate.
    intros [= <-]. cbn [blocks]. now apply forallb_set.
  - unfold propertied. destruct (_ =? _); [now intros [= <-]|].
    destruct (tagTypeOf _ _) as [t| | |]; cbn [bind]; try discriminate.
    destruct (get (blocks m) (name t)) as [[[|x l]|l]|] eqn:Hget;
      cbn [objects bind]; try discriminate; intros [= <-]; cbn [blocks];
      apply forallb_set; try exact Hm; unfold numericEntry; cbn [snd objectsOf];
      rewrite ?forallb_app; cbn [forallb app];
      rewrite (ranged_numeric _ _ parent node Hno); try reflexivity.
    pose proof (forallb_get _ _ _ _ Hm Hget) as Hl.
    unfold numericEntry in Hl. cbn [snd objectsOf] in Hl. now rewrite Hl.
  - unfold singled.
    destruct (tagTypeOf _ _) as [t| | |]; cbn [bind]; try discriminate.
    destruct (match get (blocks m) (name t) with
              | Some b => numbers (name t) b
              | None => Ok []
              end) as [block| | |] eqn:E; cbn [bind]; try discriminate.
    intros [= <-]. cbn [blocks]. now apply forallb_set.
Qed.

Lemma ingest_fold_numeric (ds : list (Node * Node)) (m m' : rangeModel) :
  forallb noRangeAttribute ds = true ->
  forallb numericEntry (blocks m) = true ->
  foldM
    (fun model pn =>
       let node := snd pn in
       match node with
       | Text _ v =>
           Ok {| text := (text model ++ v)%string; blocks := blocks model |}
       | _ =>
           t <- tagTypeOf "tagTypes[name].set" (getNodeName node) ;;
           call (set_ t) model node
       end)
    (filter (fun pn => nodeFilter (snd pn)
                       && knownTagsOnly (fst pn) (snd pn)) ds) m = Ok m' ->
  forallb numericEntry (blocks m') = true.
Proof.
  revert m. induction ds as [|pn ds IH]; intros m Hno Hm.
  - cbn [filter foldM]. now intros [= <-].
  - cbn [forallb] in Hno. apply andb_true_iff in Hno as [Hpn Hno].
    cbn [filter].
    destruct (nodeFilter (snd pn) && knownTagsOnly (fst pn) (snd pn));
      [|now apply IH].
    cbn [foldM]. cbv zeta.
    destruct pn as [parent [i v|i n a ch|i v|ch]]; cbn [fst snd] in *;
      cbn [bind]; try (now apply IH);
      (destruct (tagTypeOf _ _) as [t| | |]; cbn [bind]; try discriminate;
       match goal with
       | |- context [call ?s ?m ?node] =>
           destruct (call s m node) as [m1| | |] eqn:E; cbn [bind];
           try discriminate;
           apply IH; [exact Hno|exact (call_numeric _ _ _ parent _ Hpn Hm E)]
       end).
Qed.

Lemma typedEntry_ingested (kv : string * blockList) :
  kindedEntry kv = true -> wellFormedEntry kv = true ->
  numericEntry kv = true -> typedEntry kv = true.
Proof.
  unfold kindedEntry, wellFormedEntry, numericEntry, typedEntry.
  destruct kv as [k [l|l]]; cbn [fst snd objectsOf];
    destruct (kindOf k) as [[]|]; try discriminate; auto.
  destruct l; [discriminate|]. intros _ H _.
  now apply andb_true_iff in H as [H _].
Qed.

Lemma ranged_ordered (start end_ : Z) (parent node : Node) :
  noRangeAttribute (parent, node) = true -> start <= end_ ->
  orderedRange (assignAny [("start", Num start); ("end", Num end_)]
                  (getAttributes node)) = true.
Proof.
  unfold noRangeAttribute. cbn [snd]. intros Hno Hle.
  assert (Hs : get (getAttributes node) "start" = None).
  { apply getAttributes_none. apply forallb_forall. intros attr Hin.
    rewrite forallb_forall in Hno. specialize (Hno attr Hin).
    now apply andb_true_iff in Hno as [Hno _]. }
  assert (He : get (getAttributes node) "end" = None).
  { apply getAttributes_none. apply forallb_forall. intros attr Hin.
    rewrite forallb_forall in Hno. specialize (Hno attr Hin).
    now apply andb_true_iff in Hno as [_ Hno]. }
  unfold orderedRange, num0.
  rewrite !get_assignAny by apply getAttributes_uniqueKeys.
  rewrite Hs, He. cbn [get String.eqb Ascii.eqb Bool.eqb].
  now apply Z.leb_le.
Qed.

Lemma call_ordered (s : setter) (m m' : rangeModel) (parent node : Node) :
  noRangeAttribute (parent, node) = true ->
  forallb (fun kv => forallb orderedRange (objectsOf (snd kv))) (blocks m)
  = true ->
  call s m node = Ok m' ->
  forallb (fun kv => forallb orderedRange (objectsOf (snd kv))) (blocks m')
  = true.
Proof.
  intros Hno Hm.
  pose proof (strlen_nonneg (getContentText node)) as Hlen.
  destruct s; cbn [call].
  - unfold continuous. destruct (_ =? _); [now intros [= <-]|].
    destruct (tagTypeOf _ _) as [t| | |]; cbn [bind]; try discriminate.
    destruct (match get (blocks m) (name t) with
              | Some b => numbers (name t) b
              | None => Ok []
              end) as [block| | |] eqn:E; cbn [bind]; try discriminate.
    intros [= <-]. cbn [blocks]. now apply forallb_set.
  - unfold propertied. destruct (_ =? _); [now intros [= <-]|].
    destruct (tagTypeOf _ _) as [t| | |]; cbn [bind]; try discriminate.
    destruct (get (blocks m) (name t)) as [[[|x l]|l]|] eqn:Hget;
      cbn [objects bind]; try discriminate; intros [= <-]; cbn [blocks];
      apply forallb_set; try exact Hm; cbn [snd objectsOf];
      rewrite ?forallb_app; cbn [forallb app];
      rewrite (ranged_ordered _ _ parent node Hno) by lia; try reflexivity.
    pose proof (forallb_get _ _ _ _ Hm Hget) as Hl.
    cbn [snd objectsOf] in Hl. now rewrite Hl.
  - unfold singled.
    destruct (tagTypeOf _ _) as [t| | |]; cbn [bind]; try discriminate.
    destruct (match get (blocks m) (name t) with
              | Some b => numbers (name t) b
              | None => Ok []
              end) as [block| | |] eqn:E; cbn [bind]; try discriminate.
    intros [= <-]. cbn [blocks]. now apply forallb_set.
Qed.

Lemma ingest_fold_ordered (ds : list (Node * Node)) (m m' : rangeModel) :
  forallb noRangeAttribute ds = true ->
  forallb (fun kv => forallb orderedRange (objectsOf (snd kv))) (blocks m)
  = true ->
  foldM
    (fun model pn =>
       let node := snd pn in
       match node with
       | Text _ v =>
           Ok {| text := (text model ++ v)%string; blocks := blocks model |}
       | _ =>
           t <- tagTypeOf "tagTypes[name].set" (getNodeName node) ;;
           call (set_ t) model node
       end)
    (filter (fun pn => nodeFilter (snd pn)
                       && knownTagsOnly (fst pn) (snd pn)) ds) m = Ok m' ->
  forallb (fun kv => forallb orderedRange (objectsOf (snd kv))) (blocks m')
  = true.
Proof.
  revert m. induction ds as [|pn ds IH]; intros m Hno Hm.
  - cbn [filter foldM]. now intros [= <-].
  - cbn [forallb] in Hno. apply andb_true_iff in Hno as [Hpn Hno].
    cbn [filter].
    destruct (nodeFilter (snd pn) && knownTagsOnly (fst pn) (snd pn));
      [|now apply IH].
    cbn [foldM]. cbv zeta.
    destruct pn as [parent [i v|i n a ch|i v|ch]]; cbn [fst snd] in *;
      cbn [bind]; try (now apply IH);
      (destruct (tagTypeOf _ _) as [t| | |]; cbn [bind]; try discriminate;
       match goal with
       | |- context [call ?s ?m ?node] =>
           destruct (call s m node) as [m1| | |] eqn:E; cbn [bind];
           try discriminate;
           apply IH; [exact Hno|exact (call_ordered _ _ _ parent _ Hpn Hm E)]
       end).
Qed.

(** X9.  On a tree in which no element bears an inherited name and no
    attribute is named [start] or [end], [fromElement] returns a sound
    model: of the shape [split] and [concat] expect (known kinds, one
    entry per key, continuous lists in pairs, propertied ranges with a
    numeric [start] and [end]), without empty arrays, its continuous lists
    strictly ascending, its positions in the text, its ranges not ending
    before they start. *)
Theorem fromElement_returns_a_sound_model (el : Node) :
  forallb plainName (descendants (normalizeElementAsDocument el)) = true ->
  forallb noRangeAttribute (descendants (normalizeElementAsDocument el))
  = true ->
  exists model, fromElement el = Ok model /\ sound model = true.
Proof.
  intros Hplain Hno.
  destruct (ingest_fold _ {| text := ""; blocks := [] |} Hplain eq_refl)
    as (model & Hfold & Hm & _).
  exists model. split; [exact Hfold|].
  pose proof (ingest_fold_numeric _ {| text := ""; blocks := [] |} _ Hno
                eq_refl Hfold) as Hnum.
  pose proof (ingest_fold_ordered _ {| text := ""; blocks := [] |} _ Hno
                eq_refl Hfold) as Hord.
  pose proof (ingest_fold_inside (descendants (normalizeElementAsDocument el))
                {| text := ""; blocks := [] |} model
                (nested_descendants _) eq_refl Hfold) as Hin.
  unfold ingested in Hm. apply andb_true_iff in Hm as [Hm Hw].
  apply andb_true_iff in Hm as [Hu Hk].
  unfold sound. rewrite Hu. cbn [andb].
  unfold wellFormed in Hw. rewrite forallb_forall in *.
  intros kv Hkv. unfold soundEntry.
  rewrite (typedEntry_ingested kv) by auto.
  now rewrite (Hw kv Hkv), (Hin kv Hkv), (Hord kv Hkv).
Qed.

Lemma fromElement_returns_a_sound_model_witness :
  exists model, fromElement a_span_a = Ok model /\ sound model = true.
Proof.
  apply (fromElement_returns_a_sound_model a_span_a);
    vm_compute; reflexivity.
Defined.

(** ** What concat holds under a key *)

Lemma get_mergedObjects (num : Z) (before after : rangeModel) (K : string) :
  uniqueKeys (keys (blocks before)) = true ->
  get (mergedObjects num before after) K
  = if hasKind Propertied K then
      match get (blocks before) K, get (blocks after) K with
      | Some b, Some a =>
          Some (objectsOf b ++ map (shiftPropertied num) (objectsOf a))
      | Some b, None => Some (objectsOf b)
      | None, Some a => Some (map (shiftPropertied num) (objectsOf a))
      | None, None => None
      end
    else None.
Proof.
  intros Hu. unfold mergedObjects.
  rewrite get_fold_mergeInto by now apply uniqueKeys_pick.
  rewrite (get_map_values
             (fun _ b => map (shiftPropertied num) (objectsOf b))).
  rewrite !get_pick.
  destruct (hasKind Propertied K); [|reflexivity].
  now destruct (get (blocks before) K), (get (blocks after) K).
Qed.

Lemma uniqueKeys_mergedObjects (num : Z) (before after : rangeModel) :
  uniqueKeys (keys (blocks after)) = true ->
  uniqueKeys (keys (mergedObjects num before after)) = true.
Proof.
  intros Hu. unfold mergedObjects. apply uniqueKeys_fold_mergeInto.
  rewrite (keys_map_values
             (fun _ b => map (shiftPropertied num) (objectsOf b))).
  now apply uniqueKeys_pick.
Qed.

(** The entry of [concat]'s result under a key, by the kind of the key. *)
Lemma get_concatBlocks (before after : rangeModel) (K : string) :
  uniqueKeys (keys (blocks before)) = true ->
  uniqueKeys (keys (blocks after)) = true ->
  get (concatBlocks before after) K
  = match kindOf K with
    | Some Propertied =>
        option_map Objects
          (get (mergedObjects (strlen (text before)) before after) K)
    | Some Continuous =>
        option_map Numbers
          (get (mergedNumbers (joinContinuous (strlen (text before)))
                  Continuous (strlen (text before)) before after) K)
    | Some Singled =>
        option_map Numbers
          (get (mergedNumbers (@app _) Singled (strlen (text before))
                  before after) K)
    | None => None
    end.
Proof.
  intros Hb Ha. unfold concatBlocks.
  rewrite !get_assign
    by (rewrite keys_wrap;
        first [now apply uniqueKeys_mergedNumbers
              |now apply uniqueKeys_mergedObjects]).
  rewrite !get_wrap.
  rewrite !get_mergedNumbers, get_mergedObjects by exact Hb.
  unfold hasKind.
  destruct (kindOf K) as [[]|]; cbn [setter_eqb get option_map];
    now destruct (get (blocks before) K), (get (blocks after) K).
Qed.

(** ** Split, then concat *)

Lemma map_back (k : Z) (l : list Z) :
  map (fun value => value + k) (map (fun value => value - k) l) = l.
Proof.
  rewrite map_map. rewrite <- (map_id l) at 2.
  apply map_ext. intros x. lia.
Qed.

(** Cutting a list of ascending pairs and joining the halves at the offset
    gives the list back. *)
Lemma cut_join (k : Z) (l : list Z) :
  Nat.even (List.length l) = true -> strictlyAscending l = true ->
  joinContinuous k (fst (cutContinuous k l))
    (map (fun value => value + k) (snd (cutContinuous k l))) = l.
Proof.
  intros Heven Hasc. apply strictlyAscending_ascending in Hasc.
  destruct (@getBinarySortedInsertPosition_sorted l k Hasc)
    as (Hb & Hbelow & _).
  unfold cutContinuous.
  set (index := getBinarySortedInsertPosition l (Some k)) in *.
  destruct (Z.eqb_spec (Z.rem index 2) 1) as [Hodd|Hodd]; cbn [fst snd].
  - pose proof (even_index_inside _ _ Heven Hb Hodd) as Hin.
    destruct (odd_index index ltac:(lia) Hodd) as [q Hq].
    rewrite joinContinuous_seam. unfold take, drop.
    replace (Z.to_nat (index - 1)) with (2 * q)%nat by lia.
    replace (Z.to_nat (index + 1)) with (2 * q + 2)%nat by lia.
    rewrite Hq. symmetry. apply (pair_inside l (2 * q)). lia.
  - rewrite map_back. unfold take, drop, joinContinuous.
    set (n := Z.to_nat index).
    assert (Hlen : List.length (firstn n l) = n)
      by (rewrite length_firstn; lia).
    destruct (at_ (firstn n l) _) as [lastEnd|] eqn:E;
      [|apply firstn_skipn].
    destruct (skipn n l) as [|firstStart rest] eqn:Hrest;
      [rewrite <- Hrest; apply firstn_skipn|].
    assert (Hlast : lastEnd < k).
    { destruct (Nat.eq_dec n 0) as [Hn|Hn].
      - rewrite Hn in E. discriminate.
      - rewrite Hlen in E. rewrite at_nth in E by (rewrite Hlen; lia).
        injection E as <-.
        replace (Z.to_nat (Z.of_nat n - 1)) with (n - 1)%nat by lia.
        rewrite nth_firstn.
        destruct (Nat.ltb_spec (n - 1) n); [|lia].
        specialize (Hbelow (Z.of_nat (n - 1))).
        rewrite Nat2Z.id in Hbelow. apply Hbelow. lia. }
    destruct (Z.eqb_spec lastEnd k); [lia|]. cbn [andb].
    rewrite <- Hrest. apply firstn_skipn.
Qed.

(** X10.  [split] followed by [concat] restores every continuous list: for
    a typed model whose positions all lie in its text (between 0 and
    [text.length], where the numbers of the code subtract and add the
    offset exactly), a strictly ascending list under a continuous kind and
    any offset of the text, the list under that kind in the concatenation
    of the two halves is the list of the model. *)
Theorem split_concat_restores_continuous (model : rangeModel) (K : string)
  (l : list Z) (k : Z) :
  typed model = true ->
  forallb (within (strlen (text model))) (blocks model) = true ->
  kindOf K = Some Continuous ->
  get (blocks model) K = Some (Numbers l) ->
  strictlyAscending l = true ->
  0 <= k <= strlen (text model) ->
  exists before after merged,
    split model k = Ok (before, after)
    /\ concat before after = Ok merged
    /\ get (blocks merged) K = Some (Numbers l).
Proof.
  intros Ht _ HK Hget Hasc Hk.
  pose proof (typed_uniqueKeys model Ht) as Hu.
  assert (Heven : Nat.even (List.length l) = true).
  { unfold typed in Ht. apply andb_true_iff in Ht as [_ Ht].
    pose proof (forallb_get _ _ _ _ Ht Hget) as He.
    unfold typedEntry in He. cbn [fst snd] in He. now rewrite HK in He. }
  do 3 eexists.
  split; [exact (split_typed model k Ht)|].
  rewrite concat_shaped by (apply shaped_splitSide, typed_shaped, Ht).
  split; [reflexivity|]. cbn [blocks].
  rewrite get_concatBlocks by apply uniqueKeys_splitSide.
  rewrite HK, get_mergedNumbers by apply uniqueKeys_splitSide.
  rewrite (proj2 (hasKind_kindOf Continuous K) HK).
  rewrite !(get_splitSide _ model k K Hu), Hget, HK.
  unfold continuousSide. cbn [numbersOf option_map].
  rewrite text_splitSide, (proj2 (substr_inside (text model) k Hk)).
  now rewrite cut_join.
Qed.

Lemma split_concat_restores_continuous_witness :
  exists before after merged,
    split crossing 10 = Ok (before, after)
    /\ concat before after = Ok merged
    /\ get (blocks merged) "strong" = Some (Numbers [0; 10; 12; 18]).
Proof.
  apply (split_concat_restores_continuous crossing "strong" [0; 10; 12; 18] 10);
    try reflexivity.
  vm_compute. split; discriminate.
Defined.

(** X11.  For a typed model whose positions all lie in its text (between
    0 and [text.length], where the numbers of the code subtract and add the
    offset exactly), [split] followed by [concat] brings back the marks of
    a singled kind that are not at the offset, those below the offset
    first; the marks at the offset are lost, and a kind left without marks
    has no entry. *)
Theorem split_concat_keeps_marks_off_the_offset (model : rangeModel)
  (K : string) (marks : list Z) (k : Z) :
  typed model = true ->
  forallb (within (strlen (text model))) (blocks model) = true ->
  kindOf K = Some Singled ->
  get (blocks model) K = Some (Numbers marks) ->
  0 <= k <= strlen (text model) ->
  exists before after merged,
    split model k = Ok (before, after)
    /\ concat before after = Ok merged
    /\ get (blocks merged) K
       = unlessEmpty Numbers
           (filter (fun pos => pos <? k) marks
            ++ filter (fun pos => pos >? k) marks).
Proof.
  intros Ht _ HK Hget Hk.
  pose proof (typed_uniqueKeys model Ht) as Hu.
  do 3 eexists.
  split; [exact (split_typed model k Ht)|].
  rewrite concat_shaped by (apply shaped_splitSide, typed_shaped, Ht).
  split; [reflexivity|]. cbn [blocks].
  rewrite get_concatBlocks by apply uniqueKeys_splitSide.
  rewrite HK, get_mergedNumbers by apply uniqueKeys_splitSide.
  rewrite (proj2 (hasKind_kindOf Singled K) HK).
  rewrite !(get_splitSide _ model k K Hu), Hget, HK.
  unfold singledSide, singledHalves. cbn [numbersOf].
  rewrite fold_splitSingledBlock. cbn [fst snd app].
  rewrite text_splitSide, (proj2 (substr_inside (text model) k Hk)).
  unfold unlessEmpty. rewrite length_map, length_app.
  destruct (filter (fun pos => pos <? k) marks) as [|x below],
    (filter (fun pos => pos >? k) marks) as [|y above];
    cbn [List.length Nat.add Nat.ltb Nat.leb numbersOf option_map app];
    rewrite ?map_back, ?app_nil_r; reflexivity.
Qed.

Lemma split_concat_keeps_marks_off_the_offset_witness :
  exists before after merged,
    split sample 5 = Ok (before, after)
    /\ concat before after = Ok merged
    /\ get (blocks merged) "soft return"
       = unlessEmpty Numbers
           (filter (fun pos => pos <? 5) [1; 5; 7; 5]
            ++ filter (fun pos => pos >? 5) [1; 5; 7; 5]).
Proof.
  apply (split_concat_keeps_marks_off_the_offset sample "soft return"
           [1; 5; 7; 5] 5);
    try reflexivity.
  vm_compute. split; discriminate.
Defined.

(** ** Members written twice *)

Lemma set_set_same {V : Type} (o : object V) (k : string) (v v' : V) :
  set (set o k v) k v' = set o k v'.
Proof.
  induction o as [|[k0 v0] o IH]; cbn [set].
  - now rewrite String.eqb_refl.
  - destruct (String.eqb k0 k) eqn:E; cbn [set]; rewrite E; [reflexivity|].
    now rewrite IH.
Qed.

Lemma set_get_same {V : Type} (o : object V) (k : string) (v : V) :
  get o k = Some v -> set o k v = o.
Proof.
  induction o as [|[k0 v0] o IH]; cbn [get set]; [discriminate|].
  destruct (String.eqb_spec k0 k) as [->|_].
  - now intros [= ->].
  - intros H. now rewrite IH.
Qed.

Lemma set_set_other {V : Type} (o : object V) (k k' : string) (v v' : V) :
  k <> k' -> get o k <> None ->
  set (set o k v) k' v' = set (set o k' v') k v.
Proof.
  intros Hne. induction o as [|[k0 v0] o IH]; cbn [get set]; [congruence|].
  destruct (String.eqb_spec k0 k) as [->|Hk].
  - intros _. destruct (String.eqb_spec k k') as [|_]; [contradiction|].
    cbn [set]. rewrite String.eqb_refl.
    destruct (String.eqb_spec k k'); [contradiction|reflexivity].
  - intros Hget. destruct (String.eqb_spec k0 k') as [->|Hk'].
    + cbn [set]. rewrite String.eqb_refl.
      destruct (String.eqb_spec k' k); [congruence|reflexivity].
    + cbn [set].
      destruct (String.eqb_spec k0 k); [contradiction|].
      destruct (String.eqb_spec k0 k'); [contradiction|].
      now rewrite IH.
Qed.

Lemma numeric_members (block : object value) :
  numeric block = true ->
  get block "start" = Some (Num (num0 block "start"))
  /\ get block "end" = Some (Num (num0 block "end")).
Proof.
  unfold numeric, num0, isNum.
  destruct (get block "start") as [[s|s]|]; try discriminate.
  destruct (get block "end") as [[e|e]|]; try discriminate.
  now split.
Qed.

(** Writing the two positions of a range, in whatever way, and then the
    positions it had gives the range back. *)
Lemma positions_restored (block : object value) (a b : value) :
  numeric block = true ->
  set (set (set (set block "start" a) "end" b)
         "start" (Num (num0 block "start")))
    "end" (Num (num0 block "end"))
  = block.
Proof.
  intros Hnum. destruct (numeric_members block Hnum) as [Hs He].
  rewrite (set_set_other (set block "start" a) "end" "start")
    by (rewrite ?get_set; cbn; congruence).
  rewrite !set_set_same, (set_get_same block "start" _ Hs).
  now apply set_get_same.
Qed.

Lemma shiftPropertied_back (k : Z) (block : object value) :
  numeric block = true ->
  shiftPropertied k
    (set (set block "start" (Num (num0 block "start" - k)))
       "end" (Num (num0 block "end" - k)))
  = block.
Proof.
  intros Hnum. unfold shiftPropertied.
  set (moved := set (set block "start" (Num (num0 block "start" - k)))
                  "end" (Num (num0 block "end" - k))).
  assert (Hs : num0 moved "start" = num0 block "start" - k)
    by (unfold num0 at 1, moved; now rewrite !get_set).
  assert (He : num0 moved "end" = num0 block "end" - k)
    by (unfold num0 at 1, moved; now rewrite !get_set).
  rewrite Hs, He.
  replace (num0 block "start" - k + k) with (num0 block "start") by lia.
  replace (num0 block "end" - k + k) with (num0 block "end") by lia.
  now apply positions_restored.
Qed.

Lemma shiftPropertied_zero (block : object value) :
  numeric block = true -> shiftPropertied 0 block = block.
Proof.
  intros Hnum. destruct (numeric_members block Hnum) as [Hs He].
  unfold shiftPropertied. rewrite !Z.add_0_r.
  rewrite (set_get_same block "start" _ Hs).
  now apply set_get_same.
Qed.

Lemma clonePropertied_off (k : Z) (l : list (object value))
  (acc : list (object value) * list (object value)) :
  forallb (fun block => liesBefore k block || liesAfter k block) l = true ->
  fold_left (clonePropertied k) l acc
  = (fst acc ++ filter (liesBefore k) l,
     snd acc
     ++ map (fun block =>
               set (set block "start" (Num (num0 block "start" - k)))
                 "end" (Num (num0 block "end" - k)))
          (filter (liesAfter k) l)).
Proof.
  revert acc. induction l as [|block l IH]; intros [bb ab] Hl.
  - cbn. now rewrite !app_nil_r.
  - cbn [forallb] in Hl. apply andb_true_iff in Hl as [Hblock Hl].
    cbn [fold_left filter]. rewrite (IH _ Hl). clear IH Hl.
    unfold clonePropertied, liesBefore, liesAfter in *. cbn [fst snd].
    destruct (Z.ltb_spec (num0 block "start") k),
      (Z.ltb_spec (num0 block "end") k),
      (Z.gtb_spec (num0 block "start") k),
      (Z.gtb_spec (num0 block "end") k);
      cbn [andb orb] in *; try discriminate; try lia;
      cbn [map fst snd]; now rewrite <- ?app_assoc.
Qed.

(** X12.  For a typed model whose positions all lie in its text (between
    0 and [text.length], where the numbers of the code subtract and add the
    offset exactly), [split] followed by [concat] brings back, unchanged,
    the ranges of a propertied kind that lie wholly below or wholly above
    the offset, those below the offset first. *)
Theorem split_concat_restores_ranges_off_the_offset (model : rangeModel)
  (K : string) (l : list (object value)) (k : Z) :
  typed model = true ->
  forallb (within (strlen (text model))) (blocks model) = true ->
  kindOf K = Some Propertied ->
  get (blocks model) K = Some (Objects l) ->
  forallb (fun block => liesBefore k block || liesAfter k block) l = true ->
  0 <= k <= strlen (text model) ->
  exists before after merged,
    split model k = Ok (before, after)
    /\ concat before after = Ok merged
    /\ get (blocks merged) K
       = unlessEmpty Objects (filter (liesBefore k) l ++ filter (liesAfter k) l).
Proof.
  intros Ht _ HK Hget Hoff Hk.
  pose proof (typed_uniqueKeys model Ht) as Hu.
  assert (Hnum : forallb numeric l = true).
  { unfold typed in Ht. apply andb_true_iff in Ht as [_ Ht].
    pose proof (forallb_get _ _ _ _ Ht Hget) as He.
    unfold typedEntry in He. cbn [fst snd] in He. now rewrite HK in He. }
  do 3 eexists.
  split; [exact (split_typed model k Ht)|].
  rewrite concat_shaped by (apply shaped_splitSide, typed_shaped, Ht).
  split; [reflexivity|]. cbn [blocks].
  rewrite get_concatBlocks by apply uniqueKeys_splitSide.
  rewrite HK, get_mergedObjects by apply uniqueKeys_splitSide.
  rewrite (proj2 (hasKind_kindOf Propertied K) HK).
  rewrite !(get_splitSide _ model k K Hu), Hget, HK.
  unfold propertiedSide, propertiedHalves. cbn [objectsOf].
  rewrite (clonePropertied_off k l _ Hoff). cbn [fst snd app].
  rewrite text_splitSide, (proj2 (substr_inside (text model) k Hk)).
  assert (Hback :
            map (shiftPropertied k)
              (map (fun block =>
                      set (set block "start" (Num (num0 block "start" - k)))
                        "end" (Num (num0 block "end" - k)))
                 (filter (liesAfter k) l))
            = filter (liesAfter k) l).
  { rewrite map_map. rewrite <- (map_id (filter (liesAfter k) l)) at 2.
    apply map_ext_in. intros block Hin. apply shiftPropertied_back.
    apply filter_In in Hin as [Hin _].
    rewrite forallb_forall in Hnum. now apply Hnum. }
  unfold unlessEmpty. rewrite length_map, length_app.
  destruct (filter (liesBefore k) l) as [|x below],
    (filter (liesAfter k) l) as [|y above];
    cbn [List.length Nat.add Nat.ltb Nat.leb objectsOf option_map app];
    rewrite ?Hback, ?app_nil_r; reflexivity.
Qed.

Lemma split_concat_restores_ranges_off_the_offset_witness :
  exists before after merged,
    split a_b_links 4 = Ok (before, after)
    /\ concat before after = Ok merged
    /\ get (blocks merged) "link"
       = unlessEmpty Objects
           (filter (liesBefore 4)
              [[("start", Num 5); ("end", Num 8); ("href", Str "y")];
               [("start", Num 0); ("end", Num 3); ("href", Str "x")]]
            ++ filter (liesAfter 4)
                 [[("start", Num 5); ("end", Num 8); ("href", Str "y")];
                  [("start", Num 0); ("end", Num 3); ("href", Str "x")]]).
Proof.
  apply (split_concat_restores_ranges_off_the_offset a_b_links "link"
           [[("start", Num 5); ("end", Num 8); ("href", Str "y")];
            [("start", Num 0); ("end", Num 3); ("href", Str "x")]] 4);
    try reflexivity.
  vm_compute. split; discriminate.
Defined.

(** ** Concat and the empty model *)

Lemma typed_entry (m : rangeModel) (K : string) (b : blockList) :
  typed m = true -> get (blocks m) K = Some b -> typedEntry (K, b) = true.
Proof.
  unfold typed. rewrite andb_true_iff. intros [_ Ht] Hget.
  exact (forallb_get _ _ _ _ Ht Hget).
Qed.

Lemma map_shiftPropertied_zero (l : list (object value)) :
  forallb numeric l = true -> map (shiftPropertied 0) l = l.
Proof.
  intros Hnum. rewrite <- (map_id l) at 2. apply map_ext_in.
  intros block Hin. apply shiftPropertied_zero.
  rewrite forallb_forall in Hnum. now apply Hnum.
Qed.

Lemma map_add_zero (l : list Z) : map (fun value => value + 0) l = l.
Proof.
  rewrite <- (map_id l) at 2. apply map_ext. intros x. lia.
Qed.

(** X13.  The empty model is neutral for [concat] on either side: the
    result has the text of the other model and, under every key, the array
    the other model has. *)
Theorem concat_with_the_empty_model (m : rangeModel) :
  typed m = true ->
  (exists merged,
      concat m emptyModel = Ok merged
      /\ text merged = text m
      /\ forall K, get (blocks merged) K = get (blocks m) K)
  /\ (exists merged,
         concat emptyModel m = Ok merged
         /\ text merged = text m
         /\ forall K, get (blocks merged) K = get (blocks m) K).
Proof.
  intros Ht. pose proof (typed_uniqueKeys m Ht) as Hu.
  pose proof (typed_shaped m Ht) as Hs.
  split; eexists; (split; [now apply concat_shaped|]); cbn [text blocks].
  - split; [apply append_empty|]. intros K.
    rewrite get_concatBlocks by (exact Hu || reflexivity).
    rewrite !get_mergedNumbers, get_mergedObjects by exact Hu.
    unfold hasKind. cbn [emptyModel blocks get].
    destruct (get (blocks m) K) as [b|] eqn:Hget.
    + pose proof (typed_entry m K b Ht Hget) as He.
      unfold typedEntry in He. cbn [fst snd] in He.
      destruct (kindOf K) as [[]|], b; try discriminate; reflexivity.
    + now destruct (kindOf K) as [[]|].
  - split; [reflexivity|]. intros K.
    rewrite get_concatBlocks by (exact Hu || reflexivity).
    rewrite !get_mergedNumbers, get_mergedObjects by reflexivity.
    unfold hasKind. cbn [emptyModel blocks get text].
    change (strlen "") with 0.
    destruct (get (blocks m) K) as [b|] eqn:Hget.
    + pose proof (typed_entry m K b Ht Hget) as He.
      unfold typedEntry in He. cbn [fst snd] in He.
      destruct (kindOf K) as [[]|], b; try discriminate;
        cbn [setter_eqb option_map numbersOf objectsOf];
        rewrite ?map_add_zero, ?map_shiftPropertied_zero; auto.
    + now destruct (kindOf K) as [[]|].
Qed.

Lemma concat_with_the_empty_model_witness :
  (exists merged,
      concat sample emptyModel = Ok merged
      /\ text merged = text sample
      /\ forall K, get (blocks merged) K = get (blocks sample) K)
  /\ (exists merged,
         concat emptyModel sample = Ok merged
         /\ text merged = text sample
         /\ forall K, get (blocks merged) K = get (blocks sample) K).
Proof. exact (concat_with_the_empty_model sample eq_refl). Defined.

(** ** Concat, then split at the seam *)

Lemma append_cancel (p q a b : string) :
  String.length p = String.length a ->
  (p ++ q)%string = (a ++ b)%string -> p = a /\ q = b.
Proof.
  revert a. induction p as [|c p IH]; intros [|c' a] Hlen H;
    try discriminate.
  - now split.
  - cbn [String.append] in H. injection H as -> H.
    cbn [String.length] in Hlen. injection Hlen as Hlen.
    destruct (IH a Hlen H) as [-> ->]. now split.
Qed.

Lemma substr_append (a b : string) :
  substr (a ++ b) 0 (Some (strlen a)) = a
  /\ substr (a ++ b) (strlen a) None = b.
Proof.
  assert (Hk : 0 <= strlen a <= strlen (a ++ b)).
  { rewrite strlen_append.
    pose proof (strlen_nonneg a). pose proof (strlen_nonneg b). lia. }
  destruct (substr_inside (a ++ b) (strlen a) Hk) as [Happ Hlen].
  apply append_cancel; [|exact Happ].
  apply Nat2Z.inj. exact Hlen.
Qed.

(** X14.  [concat] followed by [split] at the length of the first text
    gives the two texts back. *)
Theorem concat_split_restores_the_texts (before after : rangeModel) :
  typed before = true -> typed after = true ->
  exists merged before' after',
    concat before after = Ok merged
    /\ split merged (strlen (text before)) = Ok (before', after')
    /\ text before' = text before
    /\ text after' = text after.
Proof.
  intros Hb Ha.
  assert (Hm : typed {| text := (text before ++ text after)%string;
                        blocks := concatBlocks before after |} = true).
  { unfold typed in *. apply andb_true_iff in Hb as [_ Hb], Ha as [_ Ha].
    cbn [blocks]. rewrite uniqueKeys_concatBlocks. cbn [andb].
    now apply typedEntry_concatBlocks. }
  do 3 eexists.
  split; [apply concat_shaped; now apply typed_shaped|].
  split; [exact (split_typed _ _ Hm)|].
  rewrite !text_splitSide. cbn [text]. apply substr_append.
Qed.

Lemma concat_split_restores_the_texts_witness :
  exists merged before' after',
    concat sample crossing = Ok merged
    /\ split merged (strlen (text sample)) = Ok (before', after')
    /\ text before' = text sample
    /\ text after' = text crossing.
Proof.
  exact (concat_split_restores_the_texts sample crossing eq_refl eq_refl).
Defined.

(** ** Emit of one annotation *)

Lemma targets_in_one_text (fuel : nat) (t : string) (s e : Z) :
  s <= strlen t -> e <= strlen t ->
  getTextNodeTargets fuel (DocumentFragment [Text 0 t]) s (Some e)
  = Ok [{| node := Text 0 t; start := Some s; end_ := Some e |}].
Proof.
  intros Hs He. unfold getTextNodeTargets.
  change (nextNode (DocumentFragment [Text 0 t],
                    map snd (createTreeWalker (DocumentFragment [Text 0 t])
                               SHOW_TEXT contentTextOnly)))
    with (Text 0 t, @nil Node).
  assert (Hstart : walkToStart fuel (Text 0 t, []) "" s
                   = Ok ((Text 0 t, []), "")).
  { destruct fuel; cbn [walkToStart currentValue nodeValue_ fst bind];
      change (strlen "") with 0;
      destruct (Z.ltb_spec (0 + strlen t) s); try lia; reflexivity. }
  rewrite Hstart. cbn [bind currentValue nodeValue_ fst].
  assert (Hend : forall list,
             walkToEnd fuel (Text 0 t, []) ("" ++ t)%string list e
             = Ok ((Text 0 t, []), ("" ++ t)%string, list)).
  { intros list. destruct fuel; cbn [walkToEnd String.append];
      destruct (Z.ltb_spec (strlen t) e); try lia; reflexivity. }
  rewrite Hend. cbn [bind currentValue nodeValue_ fst map last removelast app].
  cbn [String.append]. change (strlen "") with 0.
  do 3 f_equal; f_equal; lia.
Qed.

Lemma strlen_substr_tail (t : string) (e : Z) :
  0 <= e <= strlen t -> strlen (substr t e None) = strlen t - e.
Proof.
  intros He. destruct (substr_inside t e He) as [Happ Hlen].
  rewrite <- Happ at 2. rewrite strlen_append. lia.
Qed.

Lemma splitTextNode_in_one_text (K tag : string) (attributes : object value)
  (attrs : list (string * string)) (t : string) (s e : Z) :
  tagNameOf K = Ok tag -> setAttributes attributes = Ok attrs ->
  0 <= s -> s < e -> e <= strlen t ->
  splitTextNode K attributes
    {| el := DocumentFragment [Text 0 t]; removed := []; next := 1 |}
    {| node := Text 0 t; start := Some s; end_ := Some e |}
  = Ok {| el := DocumentFragment
                  ((if 0 <? s then [Text 3 (substr t 0 (Some s))] else [])
                   ++ [Element 1 tag attrs [Text 2 (substr t s (Some (e - s)))]]
                   ++ (if e <? strlen t then [Text 0 (substr t e None)]
                       else []));
          removed := if e <? strlen t then [] else [(0%nat, t)];
          next := if 0 <? s then 4%nat else 3%nat |}.
Proof.
  intros Htag Hattrs H0 Hlt He. unfold splitTextNode. cbn [node start end_].
  change (textNode {| el := DocumentFragment [Text 0 t]; removed := [];
                      next := 1 |} 0) with (Some (true, t)).
  cbv iota beta.
  destruct (Z.eqb_spec e 0); [lia|].
  destruct (Z.eqb_spec s e); [lia|].
  rewrite Htag, Hattrs. cbn [bind domify el removed next].
  unfold placeBlock. cbn [negb domify el removed next].
  rewrite (proj2 (substr_inside t s ltac:(lia))).
  rewrite (strlen_substr_tail t e ltac:(lia)).
  rewrite !Z.gtb_ltb.
  destruct (Z.ltb_spec 0 s), (Z.ltb_spec 0 (strlen t - e)),
    (Z.ltb_spec e (strlen t)); try lia; reflexivity.
Qed.

Lemma getBlocksOfType_one (K : string) (b : blockList) (tt : tagType)
  (type : setter) :
  get blockTypes K = Some tt ->
  getBlocksOfType [(K, b)] type
  = Ok (if setter_eqb (set_ tt) type then [(K, b)] else []).
Proof.
  intros Hget. cbn [getBlocksOfType]. unfold lookup. rewrite Hget.
  reflexivity.
Qed.

Lemma tagNameOf_registered (K : string) (tt : tagType) :
  get blockTypes K = Some tt -> tagNameOf K = Ok (name tt).
Proof. intros Hget. unfold tagNameOf, lookup. now rewrite Hget. Qed.

(** The tree [toElement] builds for one span of a continuous kind. *)
Lemma toElement_one_span (fuel : nat) (t K : string) (tt : tagType)
  (s e : Z) :
  get blockTypes K = Some tt -> set_ tt = Continuous ->
  0 <= s -> s < e -> e <= strlen t ->
  toElement fuel {| text := t; blocks := [(K, Numbers [s; e])] |}
  = Ok (DocumentFragment
          ((if 0 <? s then [Text 3 (substr t 0 (Some s))] else [])
           ++ [Element 1 (name tt) [] [Text 2 (substr t s (Some (e - s)))]]
           ++ (if e <? strlen t then [Text 0 (substr t e None)] else []))).
Proof.
  intros Hget Hset H0 Hlt He. unfold toElement.
  cbn [domify text el removed next normalizeElementAsDocument].
  unfold addPropertiedBlocksToElement, addContinuousBlocksToElement,
    addSingledBlocksToElement. cbn [blocks].
  rewrite !(getBlocksOfType_one K _ tt _ Hget), Hset.
  cbn [setter_eqb bind foldM sortContinuousBlocks fst snd numbers eachPair el].
  rewrite targets_in_one_text by lia. cbn [bind foldM].
  rewrite (splitTextNode_in_one_text K (name tt) [] [] t s e
             (tagNameOf_registered K tt Hget) eq_refl H0 Hlt He).
  reflexivity.
Qed.

Lemma substring_split (t : string) (a b : nat) :
  String.substring 0 (a + b) t
  = (String.substring 0 a t ++ String.substring a b t)%string.
Proof.
  revert a. induction t as [|c t IH]; intros a.
  - destruct a, b; reflexivity.
  - destruct a as [|a].
    + cbn [Nat.add]. now destruct b.
    + cbn [Nat.add String.substring String.append]. now rewrite IH.
Qed.

(** [substr] cuts a text into the part before a range, the range and the
    part after it. *)
Lemma substr_middle (t : string) (s e : Z) :
  0 <= s -> s <= e -> e <= strlen t ->
  substr t 0 (Some e)
  = (substr t 0 (Some s) ++ substr t s (Some (e - s)))%string.
Proof.
  unfold substr, strlen. intros H0 Hle He. cbn [Z.ltb Z.compare].
  destruct (Z.ltb_spec s 0); [lia|].
  replace (Z.min (Z.max e 0) (Z.of_nat (String.length t) - 0)) with e by lia.
  replace (Z.min (Z.max s 0) (Z.of_nat (String.length t) - 0)) with s by lia.
  replace (Z.min (Z.max (e - s) 0) (Z.of_nat (String.length t) - s))
    with (e - s) by lia.
  change (Z.to_nat 0) with 0%nat.
  destruct (Z.leb_spec s 0), (Z.leb_spec (e - s) 0), (Z.leb_spec e 0);
    try lia; cbn [String.append]; rewrite ?append_empty.
  - reflexivity.
  - assert (s = 0) by lia. subst s. now rewrite Z.sub_0_r.
  - assert (s = e) by lia. now subst s.
  - replace (Z.to_nat e) with (Z.to_nat s + Z.to_nat (e - s))%nat by lia.
    apply substring_split.
Qed.

Lemma substr_three (t : string) (s e : Z) :
  0 <= s -> s <= e -> e <= strlen t ->
  ((substr t 0 (Some s) ++ substr t s (Some (e - s))) ++ substr t e None)%string
  = t
  /\ strlen (substr t 0 (Some s)) = s
  /\ strlen (substr t s (Some (e - s))) = e - s.
Proof.
  intros H0 Hle He.
  destruct (substr_inside t e ltac:(lia)) as [Happ Hlen].
  destruct (substr_inside t s ltac:(lia)) as [_ Hs].
  rewrite (substr_middle t s e H0 Hle He) in Happ, Hlen.
  rewrite strlen_append in Hlen. repeat split; [exact Happ|exact Hs|lia].
Qed.

(** Emit looks a kind up in [blockTypes], ingest the tag in [tagTypes]:
    each table sends a name of the other back. *)
Lemma registered_tag (K : string) (tt : tagType) :
  get blockTypes K = Some tt ->
  get tagTypes (name tt) = Some {| set_ := set_ tt; name := K |}
  /\ existsb (String.eqb (name tt)) ObjectPrototype = false
  /\ String.eqb (name tt) "SCRIPT" || String.eqb (name tt) "STYLE" = false.
Proof.
  intros Hget.
  assert (Hall : forallb
                   (fun kv =>
                      match get tagTypes (name (snd kv)) with
                      | Some t1 => setter_eqb (set_ t1) (set_ (snd kv))
                                   && String.eqb (name t1) (fst kv)
                      | None => false
                      end
                      && negb (existsb (String.eqb (name (snd kv)))
                                 ObjectPrototype)
                      && negb (String.eqb (name (snd kv)) "SCRIPT"
                               || String.eqb (name (snd kv)) "STYLE"))
                   blockTypes = true)
    by (vm_compute; reflexivity).
  pose proof (forallb_get _ _ _ _ Hall Hget) as H. cbn [fst snd] in H.
  apply andb_true_iff in H as [H H3]. apply andb_true_iff in H as [H1 H2].
  apply negb_true_iff in H2, H3. repeat split; try assumption.
  destruct (get tagTypes (name tt)) as [[s1 n1]|]; [|discriminate].
  cbn [set_ name] in H1. apply andb_true_iff in H1 as [Hs Hn].
  apply String.eqb_eq in Hn as ->.
  destruct s1, (set_ tt); try discriminate; reflexivity.
Qed.


Lemma ingest_one_span (K K' : string) (tt : tagType) (p mid q : string)
  (hasPre hasPost : bool) :
  get blockTypes K = Some tt -> set_ tt = Continuous ->
  canonicalKind K = Ok K' ->
  (hasPre = false -> p = "") -> (hasPost = false -> q = "") ->
  0 < strlen mid ->
  fromElement
    (DocumentFragment
       ((if hasPre then [Text 3 p] else [])
        ++ [Element 1 (name tt) [] [Text 2 mid]]
        ++ (if hasPost then [Text 0 q] else [])))
  = Ok {| text := ((p ++ mid) ++ q)%string;
          blocks := [(K', Numbers [strlen p; strlen p + strlen mid])] |}.
Proof.
  intros Hget Hset Hcanon Hpre Hpost Hmid.
  destruct (registered_tag K tt Hget) as (Htag & Hplain & Hscript).
  unfold canonicalKind in Hcanon.
  rewrite (tagNameOf_registered K tt Hget) in Hcanon. cbn [bind] in Hcanon.
  destruct (tagTypeOf _ _) as [t'| | |] eqn:Ht'; try discriminate.
  cbn [bind] in Hcanon. injection Hcanon as <-.
  destruct (dispatch_plain "tagTypes[name].set" 0 (name tt) [] [] _ Hplain Htag)
    as (t1 & Ht1 & Hs1).
  rewrite Ht' in Ht1. injection Ht1 as <-. cbn [set_] in Hs1.
  rewrite Hset in Hs1.
  assert (Hstep : forall m : rangeModel,
             blocks m = [] ->
             (t0 <- tagTypeOf "tagTypes[name].set"
                     (getNodeName (Element 1 (name tt) [] [Text 2 mid])) ;;
              call (set_ t0) m (Element 1 (name tt) [] [Text 2 mid]))
             = Ok {| text := text m;
                     blocks := [(name t',
                                 Numbers [strlen (text m);
                                          strlen (text m) + strlen mid])] |}).
  { intros m Hm.
    change (getNodeName (Element 1 (name tt) [] [Text 2 mid]))
      with (getNodeName (Element 0 (name tt) [] [])).
    rewrite Ht'. cbn [bind]. rewrite Hs1. cbn [call]. unfold continuous.
    change (getNodeName (Element 1 (name tt) [] [Text 2 mid]))
      with (getNodeName (Element 0 (name tt) [] [])).
    rewrite (tagTypeOf_site _ "tagTypes[nodeName].name" _ _ Ht').
    assert (Htext : getContentText (Element 1 (name tt) [] [Text 2 mid]) = mid).
    { unfold getContentText, createTreeWalker.
      cbn [descendants app filter fst snd SHOW_TEXT andb contentTextOnly].
      now rewrite Hscript. }
    rewrite Htext.
    destruct (Z.eqb_spec (strlen (text m)) (strlen (text m) + strlen mid));
      [lia|].
    cbn [bind]. rewrite Hm. reflexivity. }
  unfold fromElement. cbn [normalizeElementAsDocument]. unfold createTreeWalker.
  destruct hasPre; [clear Hpre|rewrite (Hpre eq_refl)];
    (destruct hasPost; [clear Hpost|rewrite (Hpost eq_refl)]);
    cbn [descendants app filter fst snd nodeFilter andb];
    rewrite !text_node_filter;
    cbn [contentTextOnly]; rewrite Hscript;
    unfold knownTagsOnly; cbn [nodeName_ SHOW_TEXT andb]; unfold lookup at 1;
    rewrite Htag; cbn [truthy orb negb foldM bind snd text blocks];
    rewrite Hstep by reflexivity;
    cbn [bind text blocks String.append]; rewrite ?append_empty; reflexivity.
Qed.

Lemma substr_none_before (t : string) : substr t 0 (Some 0) = "".
Proof.
  unfold substr. cbn [Z.ltb Z.compare Z.max].
  pose proof (strlen_nonneg t).
  destruct (Z.leb_spec (Z.min 0 (strlen t - 0)) 0); [reflexivity|lia].
Qed.

Lemma substr_none_after (t : string) : substr t (strlen t) None = "".
Proof.
  unfold substr. pose proof (strlen_nonneg t).
  destruct (Z.ltb_spec (strlen t) 0); [lia|].
  destruct (Z.leb_spec (strlen t - strlen t) 0); [reflexivity|lia].
Qed.

(** Emit, then ingest, of one span: for a text, a continuous kind and a
    span of positive length inside the text, [toElement] returns a tree
    whatever the fuel, and [fromElement] reads from it the same text with
    the same span, filed under the kind that [getNodeName] makes of the
    tag. *)
Theorem emit_ingest_one_span (fuel : nat) (t K K' : string) (s e : Z) :
  kindOf K = Some Continuous ->
  canonicalKind K = Ok K' ->
  0 <= s -> s < e -> e <= strlen t ->
  exists tree,
    toElement fuel {| text := t; blocks := [(K, Numbers [s; e])] |} = Ok tree
    /\ fromElement tree
       = Ok {| text := t; blocks := [(K', Numbers [s; e])] |}.
Proof.
  intros HK Hcanon H0 Hlt He. unfold kindOf in HK.
  destruct (get blockTypes K) as [tt|] eqn:Hget; [|discriminate].
  cbn [option_map] in HK. injection HK as Hset.
  eexists. split; [exact (toElement_one_span fuel t K tt s e Hget Hset H0 Hlt He)|].
  destruct (substr_three t s e H0 ltac:(lia) He) as (Happ & Hs & Hmid).
  rewrite (ingest_one_span K K' tt (substr t 0 (Some s))
             (substr t s (Some (e - s))) (substr t e None)
             (0 <? s) (e <? strlen t) Hget Hset Hcanon).
  - rewrite Happ, Hs, Hmid. now replace (s + (e - s)) with e by lia.
  - intros Hpre. apply Z.ltb_ge in Hpre. assert (s = 0) by lia. subst s.
    apply substr_none_before.
  - intros Hpost. apply Z.ltb_ge in Hpost. assert (e = strlen t) by lia.
    subst e. apply substr_none_after.
  - lia.
Qed.

Lemma emit_ingest_one_span_witness :
  exists tree,
    toElement 1 {| text := "abcdef"; blocks := [("bold", Numbers [2; 4])] |}
    = Ok tree
    /\ fromElement tree
       = Ok {| text := "abcdef"; blocks := [("strong", Numbers [2; 4])] |}.
Proof.
  apply (emit_ingest_one_span 1 "abcdef" "bold" "strong" 2 4);
    [reflexivity|reflexivity|lia|lia|vm_compute; discriminate].
Defined.

Lemma addSingledBlocks_in_one_text (K tag : string) (t : string) (p : Z) :
  tagNameOf K = Ok tag -> 0 <= p -> p <= strlen t ->
  addSingledBlocks K
    {| el := DocumentFragment [Text 0 t]; removed := []; next := 1 |}
    {| node := Text 0 t; start := Some p; end_ := Some p |}
  = Ok {| el := DocumentFragment
                  ((if 0 <? p then [Text 2 (substr t 0 (Some p))] else [])
                   ++ [Element 1 tag [] []]
                   ++ (if p <? strlen t then [Text 0 (substr t p None)]
                       else []));
          removed := if p <? strlen t then [] else [(0%nat, t)];
          next := if 0 <? p then 3%nat else 2%nat |}.
Proof.
  intros Htag H0 Hp. unfold addSingledBlocks. cbn [node start].
  change (textNode {| el := DocumentFragment [Text 0 t]; removed := [];
                      next := 1 |} 0) with (Some (true, t)).
  cbv iota beta. rewrite Htag. cbn [bind el removed next].
  unfold placeBlock. cbn [negb domify el removed next].
  rewrite (proj2 (substr_inside t p ltac:(lia))).
  rewrite (strlen_substr_tail t p ltac:(lia)).
  rewrite !Z.gtb_ltb.
  destruct (Z.ltb_spec 0 p), (Z.ltb_spec 0 (strlen t - p)),
    (Z.ltb_spec p (strlen t)); try lia; reflexivity.
Qed.

(** The tree [toElement] builds for one mark of a singled kind. *)
Lemma toElement_one_mark (fuel : nat) (t K : string) (tt : tagType) (p : Z) :
  get blockTypes K = Some tt -> set_ tt = Singled ->
  0 <= p -> p <= strlen t ->
  toElement fuel {| text := t; blocks := [(K, Numbers [p])] |}
  = Ok (DocumentFragment
          ((if 0 <? p then [Text 2 (substr t 0 (Some p))] else [])
           ++ [Element 1 (name tt) [] []]
           ++ (if p <? strlen t then [Text 0 (substr t p None)] else []))).
Proof.
  intros Hget Hset H0 Hp. unfold toElement.
  cbn [domify text el removed next normalizeElementAsDocument].
  unfold addPropertiedBlocksToElement, addContinuousBlocksToElement,
    addSingledBlocksToElement. cbn [blocks].
  rewrite !(getBlocksOfType_one K _ tt _ Hget), Hset.
  cbn [setter_eqb bind foldM sortContinuousBlocks fst snd numbers el].
  rewrite targets_in_one_text by lia. cbn [bind foldM].
  rewrite (addSingledBlocks_in_one_text K (name tt) t p
             (tagNameOf_registered K tt Hget) H0 Hp).
  reflexivity.
Qed.

(** For the kinds that are not continuous the tag comes back under the
    kind it was emitted for. *)
Lemma canonicalKind_same (K : string) (tt : tagType) :
  get blockTypes K = Some tt -> set_ tt <> Continuous ->
  canonicalKind K = Ok K.
Proof.
  intros Hget Hset.
  assert (Hall : forallb
                   (fun kv =>
                      match set_ (snd kv) with
                      | Continuous => true
                      | _ => match canonicalKind (fst kv) with
                             | Ok k => String.eqb k (fst kv)
                             | _ => false
                             end
                      end) blockTypes = true)
    by (vm_compute; reflexivity).
  pose proof (forallb_get _ _ _ _ Hall Hget) as H. cbn [fst snd] in H.
  destruct (set_ tt); try contradiction;
    destruct (canonicalKind K) as [k| | |]; try discriminate;
    apply String.eqb_eq in H; now subst k.
Qed.

Lemma ingest_one_mark (K : string) (tt : tagType) (p q : string)
  (hasPre hasPost : bool) :
  get blockTypes K = Some tt -> set_ tt = Singled ->
  (hasPre = false -> p = "") -> (hasPost = false -> q = "") ->
  fromElement
    (DocumentFragment
       ((if hasPre then [Text 2 p] else [])
        ++ [Element 1 (name tt) [] []]
        ++ (if hasPost then [Text 0 q] else [])))
  = Ok {| text := (p ++ q)%string; blocks := [(K, Numbers [strlen p])] |}.
Proof.
  intros Hget Hset Hpre Hpost.
  destruct (registered_tag K tt Hget) as (Htag & Hplain & Hscript).
  pose proof (canonicalKind_same K tt Hget ltac:(rewrite Hset; discriminate))
    as Hcanon.
  unfold canonicalKind in Hcanon.
  rewrite (tagNameOf_registered K tt Hget) in Hcanon. cbn [bind] in Hcanon.
  destruct (tagTypeOf _ _) as [t'| | |] eqn:Ht'; try discriminate.
  cbn [bind] in Hcanon. injection Hcanon as Hname.
  destruct (dispatch_plain "tagTypes[name].set" 0 (name tt) [] [] _ Hplain Htag)
    as (t1 & Ht1 & Hs1).
  rewrite Ht' in Ht1. injection Ht1 as <-. cbn [set_] in Hs1.
  rewrite Hset in Hs1.
  assert (Hstep : forall m : rangeModel,
             blocks m = [] ->
             (t0 <- tagTypeOf "tagTypes[name].set"
                     (getNodeName (Element 1 (name tt) [] [])) ;;
              call (set_ t0) m (Element 1 (name tt) [] []))
             = Ok {| text := text m;
                     blocks := [(K, Numbers [strlen (text m)])] |}).
  { intros m Hm.
    change (getNodeName (Element 1 (name tt) [] []))
      with (getNodeName (Element 0 (name tt) [] [])).
    rewrite Ht'. cbn [bind]. rewrite Hs1. cbn [call]. unfold singled.
    change (getNodeName (Element 1 (name tt) [] []))
      with (getNodeName (Element 0 (name tt) [] [])).
    rewrite (tagTypeOf_site _ "tagTypes[nodeName].name" _ _ Ht').
    cbn [bind]. rewrite Hm, Hname. reflexivity. }
  unfold fromElement. cbn [normalizeElementAsDocument]. unfold createTreeWalker.
  destruct hasPre; [clear Hpre|rewrite (Hpre eq_refl)];
    (destruct hasPost; [clear Hpost|rewrite (Hpost eq_refl)]);
    cbn [descendants app filter fst snd nodeFilter andb];
    rewrite ?text_node_filter;
    cbn [contentTextOnly];
    unfold knownTagsOnly; cbn [nodeName_ SHOW_TEXT andb]; unfold lookup at 1;
    rewrite Htag; cbn [truthy orb negb foldM bind snd text blocks];
    rewrite Hstep by reflexivity;
    cbn [bind text blocks String.append]; rewrite ?append_empty; reflexivity.
Qed.

(** X16.  Emit, then ingest, of one mark: for a text, a singled kind and a
    position of the text, its two ends included, [toElement] returns a tree
    from which [fromElement] reads the model again. *)
Theorem emit_ingest_one_mark (fuel : nat) (t K : string) (p : Z) :
  kindOf K = Some Singled ->
  0 <= p -> p <= strlen t ->
  exists tree,
    toElement fuel {| text := t; blocks := [(K, Numbers [p])] |} = Ok tree
    /\ fromElement tree = Ok {| text := t; blocks := [(K, Numbers [p])] |}.
Proof.
  intros HK H0 Hp. unfold kindOf in HK.
  destruct (get blockTypes K) as [tt|] eqn:Hget; [|discriminate].
  cbn [option_map] in HK. injection HK as Hset.
  eexists. split; [exact (toElement_one_mark fuel t K tt p Hget Hset H0 Hp)|].
  destruct (substr_inside t p ltac:(lia)) as [Happ Hlen].
  rewrite (ingest_one_mark K tt (substr t 0 (Some p)) (substr t p None)
             (0 <? p) (p <? strlen t) Hget Hset).
  - now rewrite Happ, Hlen.
  - intros Hpre. apply Z.ltb_ge in Hpre. assert (p = 0) by lia. subst p.
    apply substr_none_before.
  - intros Hpost. apply Z.ltb_ge in Hpost. assert (p = strlen t) by lia.
    subst p. apply substr_none_after.
Qed.

Lemma emit_ingest_one_mark_witness :
  exists tree,
    toElement 0 {| text := "abc"; blocks := [("soft return", Numbers [3])] |}
    = Ok tree
    /\ fromElement tree
       = Ok {| text := "abc"; blocks := [("soft return", Numbers [3])] |}.
Proof.
  apply (emit_ingest_one_mark 0 "abc" "soft return" 3);
    [reflexivity|lia|vm_compute; discriminate].
Defined.

(** ** Attributes, out and back *)

Lemma set_fresh {V : Type} (o : object V) (k : string) (v : V) :
  get o k = None -> set o k v = o ++ [(k, v)].
Proof.
  induction o as [|[k0 v0] o IH]; cbn [get set app]; [reflexivity|].
  destruct (String.eqb k0 k); [discriminate|]. intros H. now rewrite IH.
Qed.

Lemma uniqueKeys_middle (ks ks' : list string) (k : string) :
  uniqueKeys (ks ++ k :: ks') = true -> existsb (String.eqb k) ks = false.
Proof.
  induction ks as [|k0 ks IH]; cbn [app uniqueKeys existsb]; [reflexivity|].
  rewrite andb_true_iff, negb_true_iff, existsb_app. cbn [existsb].
  rewrite !orb_false_iff. intros [(_ & Hne & _) Hu].
  rewrite (String.eqb_sym k k0), Hne. split; [reflexivity|now apply IH].
Qed.

Lemma assign_fresh {V : Type} (t s : object V) :
  uniqueKeys (keys (t ++ s)) = true -> assign t s = t ++ s.
Proof.
  revert t. induction s as [|[k v] s IH]; intros t Hu.
  - now rewrite app_nil_r.
  - change (assign t ((k, v) :: s)) with (assign (set t k v) s).
    assert (Hk : get t k = None).
    { apply get_none_keys. unfold keys in Hu. rewrite map_app in Hu.
      exact (uniqueKeys_middle _ _ _ Hu). }
    rewrite (set_fresh t k v Hk), IH; rewrite <- app_assoc; [reflexivity|].
    exact Hu.
Qed.

Lemma keys_strings (attrs : list (string * string)) :
  keys (strings attrs) = keys attrs.
Proof. unfold keys, strings. rewrite map_map. reflexivity. Qed.

(** A name that can start an attribute's name is no digit. *)
Lemma nameStart_no_digit (c : ascii) :
  nameStart c = true -> Ascii.eqb c "0" = false /\ digitOf c = None.
Proof.
  destruct c as [b0 b1 b2 b3 b4 b5 b6 b7].
  destruct b0, b1, b2, b3, b4, b5, b6, b7; vm_compute;
    intros H; try discriminate H; split; reflexivity.
Qed.

Lemma valid_name_no_index (k : string) :
  validAttributeName k = Some true -> arrayIndex k = None.
Proof.
  destruct k as [|c rest]; [discriminate|]. unfold validAttributeName.
  destruct (existsb barred _); [discriminate|].
  destruct (nameStart c) eqn:Hc; [|discriminate]. intros _.
  destruct (nameStart_no_digit c Hc) as [Hzero Hdigit].
  unfold arrayIndex. rewrite Hzero. cbn [decimal]. now rewrite Hdigit.
Qed.

Lemma keptName_spec (k : string) :
  keptName k = true ->
  validAttributeName k = Some true /\ asciiLowercase k = k
  /\ String.eqb k "__proto__" = false /\ arrayIndex k = None.
Proof.
  unfold keptName. rewrite !andb_true_iff, negb_true_iff.
  intros [[Hvalid Hlower] Hproto].
  assert (Hv : validAttributeName k = Some true)
    by (now destruct (validAttributeName k) as [[|]|]).
  apply String.eqb_eq in Hlower.
  repeat split; try assumption. now apply valid_name_no_index.
Qed.

Lemma getAttributes_strings_of (i : nat) (n : string)
  (attrs : list (string * string)) (ch : list Node) :
  uniqueKeys (keys attrs) = true ->
  forallb keptName (keys attrs) = true ->
  getAttributes (Element i n attrs ch) = strings attrs.
Proof.
  intros Hu Hkept. unfold getAttributes. cbn [attributes_].
  assert (H : forall acc : object value,
             fold_left
               (fun props attr =>
                  if String.eqb (fst attr) "__proto__" then props
                  else put props (fst attr) (Str (snd attr)))
               attrs acc
             = assign acc (strings attrs)).
  { clear Hu. induction attrs as [|attr l IH]; intros acc; [reflexivity|].
    cbn [keys map forallb] in Hkept.
    apply andb_true_iff in Hkept as [Hattr Hkept].
    destruct (keptName_spec _ Hattr) as (_ & _ & Hproto & Hindex).
    cbn [fold_left]. rewrite Hproto, (put_plain _ _ _ Hindex).
    now rewrite (IH Hkept). }
  rewrite H. apply (assign_fresh [] (strings attrs)).
  cbn [app]. now rewrite keys_strings.
Qed.

Lemma get_strings (attrs : list (string * string)) (k : string) :
  get (strings attrs) k = option_map Str (get attrs k).
Proof.
  induction attrs as [|attr l IH]; [reflexivity|].
  destruct attr as [k0 v0]. cbn [strings map get fst snd].
  now destruct (String.eqb k0 k).
Qed.

Lemma setAttribute_each (l acc : list (string * string)) :
  forallb keptName (keys l) = true ->
  foldM (fun attrs kv =>
           match snd kv with
           | Str v =>
               match validAttributeName (fst kv) with
               | Some true => Ok (set attrs (asciiLowercase (fst kv)) v)
               | Some false =>
                   Throw (InvalidCharacterError
                            "blockEl.setAttribute(key, value)")
               | None => Untyped (fst kv)
               end
           | Num _ => Untyped (fst kv)
           end) (strings l) acc
  = Ok (assign acc l).
Proof.
  revert acc. induction l as [|attr l IH]; intros acc Hl; [reflexivity|].
  cbn [keys map forallb] in Hl. apply andb_true_iff in Hl as [Hattr Hl].
  destruct (keptName_spec _ Hattr) as (Hvalid & Hlower & _ & _).
  cbn [strings map foldM snd fst bind]. rewrite Hvalid, Hlower.
  cbn [bind]. now apply IH.
Qed.

Lemma setAttributes_strings (attrs : list (string * string)) :
  uniqueKeys (keys attrs) = true ->
  forallb keptName (keys attrs) = true ->
  setAttributes (strings attrs) = Ok attrs.
Proof.
  intros Hu Hkept. unfold setAttributes. rewrite get_strings.
  assert (Hfold := setAttribute_each attrs [] Hkept).
  rewrite (assign_fresh [] attrs Hu) in Hfold. cbn [app] in Hfold.
  now destruct (get attrs "length").
Qed.

Lemma omit_range_members (s e : Z) (attrs : list (string * string)) :
  uniqueKeys ("start" :: "end" :: keys attrs) = true ->
  omit (("start", Num s) :: ("end", Num e) :: strings attrs) ["start"; "end"]
  = strings attrs.
Proof.
  intros Hu. unfold omit. cbn [filter fst existsb negb String.eqb Ascii.eqb
                                 Bool.eqb orb andb].
  cbn [uniqueKeys] in Hu.
  apply andb_true_iff in Hu as [Hs Hu]. apply andb_true_iff in Hu as [He _].
  apply negb_true_iff in Hs, He. cbn [existsb] in Hs.
  apply orb_false_iff in Hs as [_ Hs].
  induction attrs as [|attr l IH]; [reflexivity|].
  cbn [keys map existsb] in Hs, He. apply orb_false_iff in Hs as [Hs1 Hs].
  apply orb_false_iff in He as [He1 He].
  cbn [strings map filter fst existsb].
  rewrite (String.eqb_sym (fst attr) "start"), Hs1.
  rewrite (String.eqb_sym (fst attr) "end"), He1. cbn [orb negb].
  f_equal. now apply IH.
Qed.

(** The tree [toElement] builds for one range of a propertied kind. *)
Lemma toElement_one_range (fuel : nat) (t K : string) (tt : tagType)
  (s e : Z) (attrs : list (string * string)) :
  get blockTypes K = Some tt -> set_ tt = Propertied ->
  uniqueKeys ("start" :: "end" :: keys attrs) = true ->
  forallb keptName (keys attrs) = true ->
  0 <= s -> s < e -> e <= strlen t ->
  toElement fuel
    {| text := t;
       blocks := [(K, Objects [("start", Num s) :: ("end", Num e)
                               :: strings attrs])] |}
  = Ok (DocumentFragment
          ((if 0 <? s then [Text 3 (substr t 0 (Some s))] else [])
           ++ [Element 1 (name tt) attrs [Text 2 (substr t s (Some (e - s)))]]
           ++ (if e <? strlen t then [Text 0 (substr t e None)] else []))).
Proof.
  intros Hget Hset Hu Hkept H0 Hlt He. unfold toElement.
  cbn [domify text el removed next normalizeElementAsDocument].
  unfold addPropertiedBlocksToElement, addContinuousBlocksToElement,
    addSingledBlocksToElement. cbn [blocks].
  rewrite !(getBlocksOfType_one K _ tt _ Hget), Hset.
  cbn [setter_eqb bind foldM fst snd objects el].
  change (number (("start", Num s) :: ("end", Num e) :: strings attrs) "start")
    with (@Ok Z s).
  change (number (("start", Num s) :: ("end", Num e) :: strings attrs) "end")
    with (@Ok Z e).
  cbn [bind]. rewrite targets_in_one_text by lia. cbn [bind foldM].
  rewrite (omit_range_members s e attrs Hu).
  assert (Hattrs : uniqueKeys (keys attrs) = true).
  { cbn [uniqueKeys] in Hu. apply andb_true_iff in Hu as [_ Hu].
    now apply andb_true_iff in Hu as [_ Hu]. }
  rewrite (splitTextNode_in_one_text K (name tt) (strings attrs) attrs t s e
             (tagNameOf_registered K tt Hget)
             (setAttributes_strings attrs Hattrs Hkept) H0 Hlt He).
  reflexivity.
Qed.

Lemma ingest_one_range (K : string) (tt : tagType) (p mid q : string)
  (attrs : list (string * string)) (hasPre hasPost : bool) :
  get blockTypes K = Some tt -> set_ tt = Propertied ->
  uniqueKeys ("start" :: "end" :: keys attrs) = true ->
  forallb keptName (keys attrs) = true ->
  (hasPre = false -> p = "") -> (hasPost = false -> q = "") ->
  0 < strlen mid ->
  fromElement
    (DocumentFragment
       ((if hasPre then [Text 3 p] else [])
        ++ [Element 1 (name tt) attrs [Text 2 mid]]
        ++ (if hasPost then [Text 0 q] else [])))
  = Ok {| text := ((p ++ mid) ++ q)%string;
          blocks := [(K, Objects [("start", Num (strlen p))
                                  :: ("end", Num (strlen p + strlen mid))
                                  :: strings attrs])] |}.
Proof.
  intros Hget Hset Hu Hkept Hpre Hpost Hmid.
  destruct (registered_tag K tt Hget) as (Htag & Hplain & Hscript).
  destruct (dispatch_plain "tagTypes[name].set" 1 (name tt) attrs [Text 2 mid]
              _ Hplain Htag) as (t1 & Ht1 & Hs1).
  cbn [set_] in Hs1. rewrite Hset in Hs1.
  assert (Hattrs : uniqueKeys (keys attrs) = true).
  { cbn [uniqueKeys] in Hu. apply andb_true_iff in Hu as [_ Hu].
    now apply andb_true_iff in Hu as [_ Hu]. }
  assert (Hstep : forall m : rangeModel,
             blocks m = [] ->
             (t0 <- tagTypeOf "tagTypes[name].set"
                     (getNodeName (Element 1 (name tt) attrs [Text 2 mid])) ;;
              call (set_ t0) m (Element 1 (name tt) attrs [Text 2 mid]))
             = Ok {| text := text m;
                     blocks :=
                       [(K, Objects [("start", Num (strlen (text m)))
                                     :: ("end", Num (strlen (text m) + strlen mid))
                                     :: strings attrs])] |}).
  { intros m Hm. rewrite Ht1. cbn [bind]. rewrite Hs1. cbn [call].
    unfold propertied.
    assert (Htext : getContentText (Element 1 (name tt) attrs [Text 2 mid])
                    = mid).
    { unfold getContentText, createTreeWalker.
      cbn [descendants app filter fst snd SHOW_TEXT andb contentTextOnly].
      now rewrite Hscript. }
    rewrite Htext.
    destruct (Z.eqb_spec (strlen (text m)) (strlen (text m) + strlen mid));
      [lia|].
    cbn [nodeName_]. unfold tagTypeOf, lookup. rewrite Htag.
    cbn [bind name]. rewrite Hm. cbn [get bind app].
    rewrite (getAttributes_strings_of 1 (name tt) attrs [Text 2 mid] Hattrs
               Hkept).
    rewrite assignAny_plain, assign_fresh; [reflexivity| |].
    - cbn [app keys map fst]. fold (keys (strings attrs)).
      now rewrite keys_strings.
    - clear -Hkept. induction attrs as [|attr l IH]; [reflexivity|].
      cbn [keys map forallb] in Hkept.
      apply andb_true_iff in Hkept as [Hattr Hkept].
      destruct (keptName_spec _ Hattr) as (_ & _ & _ & Hindex).
      cbn [strings map forallb fst]. rewrite Hindex. now apply IH. }
  unfold fromElement. cbn [normalizeElementAsDocument]. unfold createTreeWalker.
  destruct hasPre; [clear Hpre|rewrite (Hpre eq_refl)];
    (destruct hasPost; [clear Hpost|rewrite (Hpost eq_refl)]);
    cbn [descendants app filter fst snd nodeFilter andb];
    rewrite !text_node_filter;
    cbn [contentTextOnly]; rewrite Hscript;
    unfold knownTagsOnly; cbn [nodeName_ SHOW_TEXT andb]; unfold lookup at 1;
    rewrite Htag; cbn [truthy orb negb foldM bind snd text blocks];
    rewrite Hstep by reflexivity;
    cbn [bind text blocks String.append]; rewrite ?append_empty; reflexivity.
Qed.

(** Names outside that round trip: [setAttribute] stores an upper-case name
    in lower case and refuses a name with a space in it; [getAttributes]
    does not store [__proto__], and lists the names that are array indices
    first, in ascending order. *)
Lemma attribute_names_outside_the_round_trip :
  setAttributes [("HREF", Str "x")] = Ok [("href", "x")]
  /\ setAttributes [("a b", Str "x")]
     = Throw (InvalidCharacterError "blockEl.setAttribute(key, value)")
  /\ getAttributes
       (Element 1 "A"
          [("__proto__", "p"); ("b", "1"); ("10", "x"); ("2", "y")] [])
     = [("2", Str "y"); ("10", Str "x"); ("b", Str "1")].
Proof. repeat split; reflexivity. Qed.

(** X17.  Emit, then ingest, of one range: for a text, a propertied kind
    and a range of positive length inside the text whose members, after
    [start] and [end], are strings under distinct names that [setAttribute]
    takes and stores as they are (valid names in lower case; [__proto__],
    which [getAttributes] cannot store, is not among them), [toElement]
    returns a tree from which [fromElement] reads the model again,
    attributes included. *)
Theorem emit_ingest_one_range (fuel : nat) (t K : string) (s e : Z)
  (attrs : list (string * string)) :
  kindOf K = Some Propertied ->
  uniqueKeys ("start" :: "end" :: keys attrs) = true ->
  forallb keptName (keys attrs) = true ->
  0 <= s -> s < e -> e <= strlen t ->
  exists tree,
    toElement fuel
      {| text := t;
         blocks := [(K, Objects [("start", Num s) :: ("end", Num e)
                                 :: strings attrs])] |} = Ok tree
    /\ fromElement tree
       = Ok {| text := t;
               blocks := [(K, Objects [("start", Num s) :: ("end", Num e)
                                       :: strings attrs])] |}.
Proof.
  intros HK Hu Hkept H0 Hlt He. unfold kindOf in HK.
  destruct (get blockTypes K) as [tt|] eqn:Hget; [|discriminate].
  cbn [option_map] in HK. injection HK as Hset.
  eexists.
  split; [exact (toElement_one_range fuel t K tt s e attrs Hget Hset Hu
                   Hkept H0 Hlt He)|].
  destruct (substr_three t s e H0 ltac:(lia) He) as (Happ & Hs & Hmid).
  rewrite (ingest_one_range K tt (substr t 0 (Some s))
             (substr t s (Some (e - s))) (substr t e None) attrs
             (0 <? s) (e <? strlen t) Hget Hset Hu Hkept).
  - rewrite Happ, Hs, Hmid. now replace (s + (e - s)) with e by lia.
  - intros Hpre. apply Z.ltb_ge in Hpre. assert (s = 0) by lia. subst s.
    apply substr_none_before.
  - intros Hpost. apply Z.ltb_ge in Hpost. assert (e = strlen t) by lia.
    subst e. apply substr_none_after.
  - lia.
Qed.

Lemma emit_ingest_one_range_witness :
  exists tree,
    toElement 0
      {| text := "abcdef";
         blocks := [("link", Objects [("start", Num 0) :: ("end", Num 4)
                                      :: strings [("href", "x");
                                                  ("title", "y")]])] |}
    = Ok tree
    /\ fromElement tree
       = Ok {| text := "abcdef";
               blocks := [("link", Objects [("start", Num 0) :: ("end", Num 4)
                                            :: strings [("href", "x");
                                                        ("title", "y")]])] |}.
Proof.
  apply (emit_ingest_one_range 0 "abcdef" "link" 0 4
           [("href", "x"); ("title", "y")]);
    [reflexivity|reflexivity|reflexivity|lia|lia|vm_compute; discriminate].
Defined.

(** ** A position beyond an empty text *)

Lemma walkToStart_empty_text (fuel : nat) (s : Z) :
  0 < s -> walkToStart fuel (Text 0 "", []) "" s = Fuel.
Proof.
  intros Hs. induction fuel as [|fuel IH];
    cbn [walkToStart currentValue nodeValue_ fst bind];
    change (strlen "") with 0; cbn [Z.add];
    destruct (Z.ltb_spec 0 s); try lia; [reflexivity|exact IH].
Qed.

Lemma targets_empty_text (fuel : nat) (s : Z) (e : option Z) :
  0 < s -> getTextNodeTargets fuel (DocumentFragment [Text 0 ""]) s e = Fuel.
Proof.
  intros Hs. unfold getTextNodeTargets.
  change (nextNode (DocumentFragment [Text 0 ""],
                    map snd (createTreeWalker (DocumentFragment [Text 0 ""])
                               SHOW_TEXT contentTextOnly)))
    with (Text 0 "", @nil Node).
  now rewrite walkToStart_empty_text.
Qed.

(** X18.  [toElement] does not return for the empty text and a first
    position above 0 under a continuous or a singled kind: the walker is
    already at its last text node, [nextNode()] leaves it there, and the
    loop that looks for the start adds the empty string for ever. *)
Theorem toElement_never_returns_beyond_the_empty_text (fuel : nat)
  (K : string) (s : Z) (rest : list Z) :
  kindOf K = Some Continuous \/ kindOf K = Some Singled ->
  0 < s ->
  toElement fuel {| text := ""; blocks := [(K, Numbers (s :: rest))] |} = Fuel.
Proof.
  intros HK Hs. unfold kindOf in HK.
  destruct (get blockTypes K) as [tt|] eqn:Hget;
    [|destruct HK; discriminate].
  cbn [option_map] in HK.
  unfold toElement.
  cbn [domify text el removed next normalizeElementAsDocument].
  unfold addPropertiedBlocksToElement, addContinuousBlocksToElement,
    addSingledBlocksToElement. cbn [blocks].
  rewrite !(getBlocksOfType_one K _ tt _ Hget).
  destruct HK as [[= ->]|[= ->]];
    cbn [setter_eqb bind foldM sortContinuousBlocks fst snd numbers el].
  - destruct rest as [|e rest]; cbn [eachPair];
      now rewrite targets_empty_text.
  - now rewrite targets_empty_text.
Qed.

Lemma toElement_never_returns_beyond_the_empty_text_witness :
  toElement 1000 {| text := ""; blocks := [("bold", Numbers [1; 2])] |} = Fuel.
Proof.
  apply (toElement_never_returns_beyond_the_empty_text 1000 "bold" 1 [2]);
    [left; reflexivity|lia].
Defined.

(** ** Elements ingest does not see *)

Lemma foldM_snd {A B S : Type} (f : S -> B -> result S) (l : list (A * B))
  (s : S) :
  foldM (fun s pn => f s (snd pn)) l s = foldM f (map snd l) s.
Proof.
  revert s. induction l as [|pn l IH]; intros s; [reflexivity|].
  cbn [foldM map]. destruct (f s (snd pn)); cbn [bind]; auto.
Qed.

Lemma accepted_cons (parent c : Node) (rest : list (Node * Node)) :
  map snd
    (filter (fun pn => nodeFilter (snd pn) && knownTagsOnly (fst pn) (snd pn))
       ((parent, c) :: rest))
  = (if nodeFilter c && knownTagsOnly parent c then [c] else [])
    ++ map snd
         (filter (fun pn => nodeFilter (snd pn)
                            && knownTagsOnly (fst pn) (snd pn)) rest).
Proof.
  cbn [filter fst snd]. now destruct (nodeFilter c && knownTagsOnly parent c).
Qed.

(** The nodes the walker of [fromElement] stops at below the children [l]
    of a parent, and the same for a parent that hides as little text. *)
Lemma accepted_children (parent parent' : Node) (l : list Node) :
  (forall c, contentTextOnly parent c = contentTextOnly parent' c) ->
  map snd
    (filter (fun pn => nodeFilter (snd pn) && knownTagsOnly (fst pn) (snd pn))
       (flat_map (fun c => (parent, c) :: descendants c) l))
  = map snd
      (filter (fun pn => nodeFilter (snd pn) && knownTagsOnly (fst pn) (snd pn))
         (flat_map (fun c => (parent', c) :: descendants c) l)).
Proof.
  intros Hsame. induction l as [|c l IH]; [reflexivity|].
  cbn [flat_map app]. rewrite !accepted_cons, !filter_app, !map_app, IH.
  unfold knownTagsOnly. now rewrite (Hsame c).
Qed.

Lemma walker_of_children (l : list Node) :
  createTreeWalker (DocumentFragment l) nodeFilter knownTagsOnly
  = filter (fun pn => nodeFilter (snd pn) && knownTagsOnly (fst pn) (snd pn))
      (flat_map (fun c => (DocumentFragment l, c) :: descendants c) l).
Proof.
  unfold createTreeWalker.
  now rewrite <- (descendants_children (DocumentFragment l) l).
Qed.

Lemma descendants_of_element (i : nat) (n : string)
  (a : list (string * string)) (ch : list Node) :
  descendants (Element i n a ch)
  = flat_map (fun c => (Element i n a ch, c) :: descendants c) ch.
Proof. exact (descendants_children (Element i n a ch) ch). Qed.

(** [fromElement] on a fragment, as a fold over the nodes its walker
    stops at. *)
Lemma fromElement_of_children (l : list Node) :
  fromElement (DocumentFragment l)
  = foldM
      (fun model node =>
         match node with
         | Text _ v =>
             Ok {| text := (text model ++ v)%string; blocks := blocks model |}
         | _ =>
             t <- tagTypeOf "tagTypes[name].set" (getNodeName node) ;;
             call (set_ t) model node
         end)
      (map snd
         (filter (fun pn => nodeFilter (snd pn)
                            && knownTagsOnly (fst pn) (snd pn))
            (flat_map (fun c => (DocumentFragment l, c) :: descendants c) l)))
      {| text := ""; blocks := [] |}.
Proof.
  unfold fromElement. cbn [normalizeElementAsDocument].
  rewrite walker_of_children.
  exact (foldM_snd
           (fun model node =>
              match node with
              | Text _ v =>
                  Ok {| text := (text model ++ v)%string;
                        blocks := blocks model |}
              | _ =>
                  t <- tagTypeOf "tagTypes[name].set" (getNodeName node) ;;
                  call (set_ t) model node
              end) _ _).
Qed.



Lemma script_text_rejected (parent : Node) (ch : list Node) :
  (forall c, contentTextOnly parent c = false) ->
  forallb SHOW_TEXT ch = true ->
  map snd
    (filter (fun pn => nodeFilter (snd pn) && knownTagsOnly (fst pn) (snd pn))
       (flat_map (fun c => (parent, c) :: descendants c) ch)) = [].
Proof.
  intros Hparent Htext. induction ch as [|c ch IH]; [reflexivity|].
  cbn [forallb] in Htext. apply andb_true_iff in Htext as [Hc Htext].
  destruct c as [j v|j m b gc|j v|gc]; try discriminate.
  cbn [flat_map descendants app]. rewrite accepted_cons, text_node_filter.
  rewrite Hparent. cbn [nodeFilter andb app]. now apply IH.
Qed.

(** X20.  A SCRIPT or STYLE element that holds text nodes only leaves no
    trace in what [fromElement] returns. *)
Theorem fromElement_drops_script_text (pre post ch : list Node)
  (i : nat) (n : string) (a : list (string * string)) :
  String.eqb n "SCRIPT" || String.eqb n "STYLE" = true ->
  forallb SHOW_TEXT ch = true ->
  fromElement (DocumentFragment (pre ++ Element i n a ch :: post))
  = fromElement (DocumentFragment (pre ++ post)).
Proof.
  intros Hscript Htext. rewrite !fromElement_of_children. f_equal.
  assert (Hunknown : lookup tagTypes n = Undefined).
  { apply orb_true_iff in Hscript as [H|H]; apply String.eqb_eq in H;
      subst n; reflexivity. }
  rewrite !flat_map_app. cbn [flat_map app].
  rewrite !filter_app, !map_app, accepted_cons, filter_app, map_app.
  unfold knownTagsOnly at 2. cbn [nodeName_ SHOW_TEXT nodeFilter andb].
  rewrite Hunknown. cbn [truthy orb app]. rewrite descendants_of_element.
  rewrite (script_text_rejected (Element i n a ch) ch);
    [|intros c; cbn [contentTextOnly]; now rewrite Hscript|exact Htext].
  cbn [app].
  f_equal; apply accepted_children; intros c; reflexivity.
Qed.

Lemma fromElement_drops_script_text_witness :
  fromElement
    (DocumentFragment
       ([Element 1 "B" [] [Text 2 "a"]]
        ++ Element 3 "STYLE" [] [Text 4 "b { }"] :: [Text 5 "c"]))
  = fromElement
      (DocumentFragment ([Element 1 "B" [] [Text 2 "a"]] ++ [Text 5 "c"])).
Proof.
  apply (fromElement_drops_script_text
           [Element 1 "B" [] [Text 2 "a"]] [Text 5 "c"] [Text 4 "b { }"]
           3 "STYLE" []);
    reflexivity.
Defined.

(** ** Positions after split *)

Lemma first_part_below (l : list Z) (k : Z) (n : nat) (x : Z) :
  ascending l ->
  Z.of_nat n <= getBinarySortedInsertPosition l (Some k) ->
  In x (firstn n l) -> In x l /\ x < k.
Proof.
  intros Hasc Hn Hin.
  destruct (@getBinarySortedInsertPosition_sorted l k Hasc)
    as (Hb & Hbelow & _).
  apply (In_nth _ _ 0) in Hin as (j & Hj & <-).
  rewrite length_firstn in Hj. rewrite nth_firstn.
  destruct (Nat.ltb_spec j n); [|lia]. split.
  - apply nth_In. lia.
  - specialize (Hbelow (Z.of_nat j)). rewrite Nat2Z.id in Hbelow.
    apply Hbelow. lia.
Qed.

Lemma last_part_above (l : list Z) (k : Z) (n : nat) (x : Z) :
  ascending l ->
  getBinarySortedInsertPosition l (Some k) <= Z.of_nat n ->
  In x (skipn n l) -> In x l /\ k <= x.
Proof.
  intros Hasc Hn Hin.
  destruct (@getBinarySortedInsertPosition_sorted l k Hasc)
    as (Hb & _ & Habove).
  apply (In_nth _ _ 0) in Hin as (j & Hj & <-).
  rewrite length_skipn in Hj. rewrite nth_skipn. split.
  - apply nth_In. lia.
  - specialize (Habove (Z.of_nat (n + j))). rewrite Nat2Z.id in Habove.
    apply Habove. lia.
Qed.

(** The halves of a list of ascending pairs hold positions of the halves of
    the text. *)
Lemma cutContinuous_inside (n k : Z) (l : list Z) :
  Nat.even (List.length l) = true -> strictlyAscending l = true ->
  forallb (insideText n) l = true -> 0 <= k <= n ->
  forallb (insideText k) (fst (cutContinuous k l)) = true
  /\ forallb (insideText (n - k)) (snd (cutContinuous k l)) = true.
Proof.
  intros Heven Hasc Hl Hk. apply strictlyAscending_ascending in Hasc.
  rewrite forallb_forall in Hl.
  assert (Hin : forall x, In x l -> 0 <= x <= n)
    by (intros x Hx; now apply insideText_spec, Hl).
  destruct (@getBinarySortedInsertPosition_sorted l k Hasc)
    as (Hb & Hbelow & Habove).
  pose proof (first_part_below l k) as Hfirst.
  pose proof (last_part_above l k) as Hlast.
  unfold cutContinuous.
  set (index := getBinarySortedInsertPosition l (Some k)) in *.
  assert (Hbefore : forall m, Z.of_nat m <= index ->
                              forallb (insideText k) (firstn m l) = true).
  { intros m Hm. apply forallb_forall. intros x Hx.
    destruct (Hfirst m x Hasc Hm Hx) as [Hxl Hxk].
    apply insideText_spec. specialize (Hin x Hxl). lia. }
  assert (Hafter : forall m, index <= Z.of_nat m ->
                             forallb (insideText (n - k))
                               (map (fun value => value - k) (skipn m l))
                             = true).
  { intros m Hm. apply forallb_forall. intros y Hy.
    apply in_map_iff in Hy as (x & <- & Hx).
    destruct (Hlast m x Hasc Hm Hx) as [Hxl Hxk].
    apply insideText_spec. specialize (Hin x Hxl). lia. }
  destruct (Z.eqb_spec (Z.rem index 2) 1) as [Hodd|Hodd]; cbn [fst snd].
  - pose proof (even_index_inside _ _ Heven Hb Hodd) as Hidx.
    unfold take, drop. split.
    + rewrite forallb_app, Hbefore by lia. cbn [forallb andb].
      specialize (Hbelow (index - 1) ltac:(lia)).
      assert (In (nth (Z.to_nat (index - 1)) l 0) l) by (apply nth_In; lia).
      specialize (Hin _ H).
      rewrite !(proj2 (insideText_spec _ _)); [reflexivity|lia|lia].
    + cbn [app forallb]. rewrite Hafter by lia.
      specialize (Habove index ltac:(lia)).
      assert (In (nth (Z.to_nat index) l 0) l) by (apply nth_In; lia).
      specialize (Hin _ H).
      rewrite !(proj2 (insideText_spec _ _)); [reflexivity|lia|lia].
  - unfold take, drop. split; [apply Hbefore|apply Hafter]; lia.
Qed.

Lemma singled_inside (n k : Z) (l : list Z) :
  forallb (insideText n) l = true -> 0 <= k <= n ->
  forallb (insideText k) (filter (fun pos => pos <? k) l) = true
  /\ forallb (insideText (n - k))
       (map (fun pos => pos - k) (filter (fun pos => pos >? k) l)) = true.
Proof.
  intros Hl Hk. rewrite forallb_forall in Hl. split.
  - apply forallb_forall. intros x Hx. apply filter_In in Hx as [Hx Hlt].
    apply Z.ltb_lt in Hlt. apply insideText_spec.
    specialize (Hl x Hx). apply insideText_spec in Hl. lia.
  - apply forallb_forall. intros y Hy.
    apply in_map_iff in Hy as (x & <- & Hx).
    apply filter_In in Hx as [Hx Hgt]. rewrite Z.gtb_ltb in Hgt.
    apply Z.ltb_lt in Hgt. apply insideText_spec.
    specialize (Hl x Hx). apply insideText_spec in Hl. lia.
Qed.

Lemma rangeInside_set (n : Z) (block : object value) (a b : Z) :
  0 <= a <= n -> 0 <= b <= n ->
  memberInside n (get (set (set block "start" (Num a)) "end" (Num b)) "start")
  && memberInside n (get (set (set block "start" (Num a)) "end" (Num b)) "end")
  = true.
Proof.
  intros Ha Hb. rewrite !get_set. cbn [String.eqb Ascii.eqb Bool.eqb].
  cbn [memberInside]. now rewrite !(proj2 (insideText_spec _ _)).
Qed.

Lemma range_inside (n : Z) (block : object value) :
  numeric block = true ->
  0 <= num0 block "start" <= n -> 0 <= num0 block "end" <= n ->
  memberInside n (get block "start") && memberInside n (get block "end")
  = true.
Proof.
  intros Hnum Hs He. destruct (numeric_members block Hnum) as [-> ->].
  cbn [memberInside]. now rewrite !(proj2 (insideText_spec _ _)).
Qed.

Lemma range_inside_end (n : Z) (block : object value) (b : Z) :
  numeric block = true ->
  0 <= num0 block "start" <= n -> 0 <= b <= n ->
  memberInside n (get (set block "end" (Num b)) "start")
  && memberInside n (get (set block "end" (Num b)) "end")
  = true.
Proof.
  intros Hnum Hs Hb. destruct (numeric_members block Hnum) as [Hstart _].
  rewrite !get_set. cbn [String.eqb Ascii.eqb Bool.eqb]. rewrite Hstart.
  cbn [memberInside]. now rewrite !(proj2 (insideText_spec _ _)).
Qed.

Lemma clonePropertied_step_inside (n k : Z) (block : object value)
  (acc : list (object value) * list (object value)) :
  0 <= k <= n ->
  numeric block = true ->
  memberInside n (get block "start") && memberInside n (get block "end")
  = true ->
  orderedRange block = true ->
  forallb (fun block => memberInside k (get block "start")
                        && memberInside k (get block "end")) (fst acc) = true ->
  forallb (fun block => memberInside (n - k) (get block "start")
                        && memberInside (n - k) (get block "end")) (snd acc)
  = true ->
  forallb (fun block => memberInside k (get block "start")
                        && memberInside k (get block "end"))
    (fst (clonePropertied k acc block)) = true
  /\ forallb (fun block => memberInside (n - k) (get block "start")
                           && memberInside (n - k) (get block "end"))
       (snd (clonePropertied k acc block)) = true.
Proof.
  intros Hk Hnum Hin Hord Hb Ha.
  destruct (numeric_members block Hnum) as [Hs He].
  rewrite Hs, He in Hin. cbn [memberInside] in Hin.
  apply andb_true_iff in Hin as [Hsin Hein].
  apply insideText_spec in Hsin, Hein.
  unfold orderedRange in Hord. apply Z.leb_le in Hord.
  unfold clonePropertied.
  destruct ((num0 block "start" <? k) && (num0 block "end" <? k)) eqn:Hbefore.
  - apply andb_true_iff in Hbefore as [H1 H2]. apply Z.ltb_lt in H1, H2.
    cbn [fst snd]. split; [|exact Ha].
    rewrite forallb_app, Hb. cbn [forallb andb].
    rewrite range_inside by (assumption || lia). reflexivity.
  - destruct ((num0 block "start" >? k) && (num0 block "end" >? k)) eqn:Hafter.
    + apply andb_true_iff in Hafter as [H1 H2]. rewrite Z.gtb_ltb in H1, H2.
      apply Z.ltb_lt in H1, H2.
      cbn [fst snd]. split; [exact Hb|].
      rewrite forallb_app, Ha. cbn [forallb andb].
      rewrite rangeInside_set by lia. reflexivity.
    + assert (num0 block "start" <= k <= num0 block "end").
      { apply andb_false_iff in Hbefore, Hafter.
        rewrite !Z.gtb_ltb in Hafter. rewrite !Z.ltb_ge in Hbefore, Hafter.
        lia. }
      cbn [fst snd]. split.
      * rewrite forallb_app, Hb. cbn [forallb andb].
        rewrite range_inside_end by (assumption || lia). reflexivity.
      * rewrite forallb_app, Ha. cbn [forallb andb].
        rewrite rangeInside_set by lia. reflexivity.
Qed.

Lemma clonePropertied_inside (n k : Z) (l : list (object value))
  (acc : list (object value) * list (object value)) :
  0 <= k <= n ->
  forallb numeric l = true ->
  forallb (fun block => memberInside n (get block "start")
                        && memberInside n (get block "end")) l = true ->
  forallb orderedRange l = true ->
  forallb (fun block => memberInside k (get block "start")
                        && memberInside k (get block "end")) (fst acc) = true ->
  forallb (fun block => memberInside (n - k) (get block "start")
                        && memberInside (n - k) (get block "end")) (snd acc)
  = true ->
  forallb (fun block => memberInside k (get block "start")
                        && memberInside k (get block "end"))
    (fst (fold_left (clonePropertied k) l acc)) = true
  /\ forallb (fun block => memberInside (n - k) (get block "start")
                           && memberInside (n - k) (get block "end"))
       (snd (fold_left (clonePropertied k) l acc)) = true.
Proof.
  intros Hk. revert acc.
  induction l as [|block l IH]; intros acc Hnum Hin Hord Hb Ha;
    [now split|].
  cbn [forallb] in Hnum, Hin, Hord.
  apply andb_true_iff in Hnum as [Hblock Hnum].
  apply andb_true_iff in Hin as [Hblockin Hin].
  apply andb_true_iff in Hord as [Hblockord Hord].
  cbn [fold_left].
  destruct (clonePropertied_step_inside n k block acc Hk Hblock Hblockin
              Hblockord Hb Ha) as [Hb' Ha'].
  now apply IH.
Qed.

Lemma soundEntry_parts (n : Z) (kv : string * blockList) :
  soundEntry n kv = true ->
  typedEntry kv = true /\ wellFormedEntry kv = true /\ within n kv = true
  /\ forallb orderedRange (objectsOf (snd kv)) = true.
Proof.
  unfold soundEntry. rewrite !andb_true_iff. tauto.
Qed.

Lemma within_splitSide (side : bool) (m : rangeModel) (k : Z) :
  forallb (soundEntry (strlen (text m))) (blocks m) = true ->
  0 <= k <= strlen (text m) ->
  forallb (within (if side then k else strlen (text m) - k))
    (blocks (splitSide side m k)) = true.
Proof.
  intros Hm Hk. unfold splitSide.
  apply forallb_fold_store;
    [|apply forallb_fold_store; [|apply forallb_fold_store]];
    try reflexivity.
  - eapply Forall_impl; [|exact (pick_entries _ Singled _ Hm)].
    intros kv [Hkv HK] v.
    destruct (soundEntry_parts _ _ Hkv) as (Ht & _ & Hin & _).
    destruct (entry_numbers _ (typedEntry_shaped _ Ht) (or_intror HK))
      as (l & Hl).
    unfold within in Hin. rewrite Hl in Hin.
    unfold singledSide, singledHalves, unlessEmpty. rewrite Hl.
    cbn [numbersOf]. rewrite fold_splitSingledBlock. cbn [fst snd app].
    destruct (singled_inside _ k l Hin Hk) as [Hb Ha].
    destruct side; (destruct (0 <? _)%nat; [|discriminate]);
      intros [= <-]; assumption.
  - eapply Forall_impl; [|exact (pick_entries _ Continuous _ Hm)].
    intros kv [Hkv HK] v.
    destruct (soundEntry_parts _ _ Hkv) as (Ht & Hw & Hin & _).
    destruct (entry_pairs _ Ht HK) as (l & Hl & Heven).
    unfold within in Hin. rewrite Hl in Hin.
    unfold wellFormedEntry in Hw. rewrite Hl, HK in Hw.
    assert (Hasc : strictlyAscending l = true).
    { destruct l; [discriminate|]. now apply andb_true_iff in Hw as [_ Hw]. }
    unfold continuousSide. rewrite Hl. cbn [numbersOf].
    destruct (cutContinuous_inside _ k l Heven Hasc Hin Hk) as [Hb Ha].
    destruct side; intros [= <-]; assumption.
  - eapply Forall_impl; [|exact (pick_entries _ Propertied _ Hm)].
    intros kv [Hkv HK] v.
    destruct (soundEntry_parts _ _ Hkv) as (Ht & _ & Hin & Hord).
    destruct (entry_objects _ (typedEntry_shaped _ Ht) HK) as (l & Hl & Hnum).
    unfold within in Hin. rewrite Hl in Hin, Hord. cbn [objectsOf] in Hord.
    unfold propertiedSide, propertiedHalves, unlessEmpty. rewrite Hl.
    cbn [objectsOf].
    destruct (clonePropertied_inside _ k l ([], []) Hk Hnum Hin Hord
                eq_refl eq_refl) as [Hb Ha].
    destruct side; (destruct (0 <? _)%nat; [|discriminate]);
      intros [= <-]; assumption.
Qed.

(** X21.  [split] keeps positions inside the texts: for a sound model
    (typed, no empty array, continuous lists strictly ascending, positions
    in the text, no range ending before it starts) and an offset of the
    text, every position of [before] lies in the text of [before] and every
    position of [after] in the text of [after]. *)
Theorem split_keeps_positions_inside (m : rangeModel) (k : Z) :
  sound m = true ->
  0 <= k <= strlen (text m) ->
  exists before after,
    split m k = Ok (before, after)
    /\ forallb (within (strlen (text before))) (blocks before) = true
    /\ forallb (within (strlen (text after))) (blocks after) = true.
Proof.
  intros Hm Hk. unfold sound in Hm. apply andb_true_iff in Hm as [Hu Hm].
  assert (Ht : typed m = true).
  { unfold typed. rewrite Hu. cbn [andb]. apply forallb_forall.
    intros kv Hin. rewrite forallb_forall in Hm.
    now destruct (soundEntry_parts _ _ (Hm kv Hin)). }
  do 2 eexists. split; [exact (split_typed m k Ht)|].
  rewrite !text_splitSide.
  rewrite (proj2 (substr_inside (text m) k Hk)).
  rewrite (strlen_substr_tail (text m) k Hk).
  split.
  - exact (within_splitSide true m k Hm Hk).
  - exact (within_splitSide false m k Hm Hk).
Qed.

Lemma split_keeps_positions_inside_witness :
  exists before after,
    split sample 5 = Ok (before, after)
    /\ forallb (within (strlen (text before))) (blocks before) = true
    /\ forallb (within (strlen (text after))) (blocks after) = true.
Proof.
  apply (split_keeps_positions_inside sample 5); [reflexivity|].
  vm_compute. split; discriminate.
Defined.

(** ** Concat of sound models *)

Lemma forallb_by_get {V : Type} (P : string * V -> bool) (o : object V) :
  uniqueKeys (keys o) = true ->
  (forall k v, get o k = Some v -> P (k, v) = true) ->
  forallb P o = true.
Proof.
  induction o as [|[k0 v0] o IH]; intros Hu Hget; [reflexivity|].
  cbn [keys map uniqueKeys] in Hu. apply andb_true_iff in Hu as [Hk0 Hu].
  apply negb_true_iff in Hk0. cbn [forallb].
  rewrite (Hget k0 v0) by (cbn [get]; now rewrite String.eqb_refl).
  apply IH; [exact Hu|]. intros k v Hkv. apply Hget. cbn [get].
  destruct (String.eqb_spec k0 k) as [<-|]; [|exact Hkv].
  apply get_none_keys in Hk0. cbn [fst] in Hk0. congruence.
Qed.

Lemma strictlyAscending_two (x y : Z) (l : list Z) :
  strictlyAscending (x :: y :: l)
  = (x <? y) && strictlyAscending (y :: l).
Proof. reflexivity. Qed.

Lemma strictlyAscending_join (l1 l2 : list Z) :
  strictlyAscending l1 = true -> strictlyAscending l2 = true ->
  (l1 <> [] -> l2 <> [] -> last l1 0 < hd 0 l2) ->
  strictlyAscending (l1 ++ l2) = true.
Proof.
  intros H1 H2. induction l1 as [|x [|x' r] IH]; intros Hb.
  - exact H2.
  - destruct l2 as [|y l2]; [reflexivity|].
    change ([x] ++ y :: l2) with (x :: y :: l2).
    rewrite strictlyAscending_two, H2, andb_true_r.
    apply Z.ltb_lt. apply Hb; discriminate.
  - rewrite strictlyAscending_two in H1.
    apply andb_true_iff in H1 as [Hx H1].
    change ((x :: x' :: r) ++ l2) with (x :: x' :: (r ++ l2)).
    rewrite strictlyAscending_two, Hx. cbn [andb].
    apply IH; [exact H1|]. intros _ Hl2. apply Hb; [discriminate|exact Hl2].
Qed.

Lemma strictlyAscending_front (l1 l2 : list Z) :
  strictlyAscending (l1 ++ l2) = true -> strictlyAscending l1 = true.
Proof.
  induction l1 as [|x [|x' r] IH]; intros H; try reflexivity.
  change ((x :: x' :: r) ++ l2) with (x :: x' :: (r ++ l2)) in H.
  rewrite strictlyAscending_two in *. apply andb_true_iff in H as [Hx H].
  rewrite Hx. now apply IH.
Qed.

Lemma strictlyAscending_last_two (l : list Z) (x y : Z) :
  strictlyAscending (l ++ [x; y]) = true -> x < y.
Proof.
  induction l as [|a [|b r] IH].
  - cbn [app strictlyAscending]. rewrite andb_true_r. apply Z.ltb_lt.
  - cbn [app strictlyAscending].
    rewrite andb_true_r, andb_true_iff, !Z.ltb_lt. tauto.
  - change ((a :: b :: r) ++ [x; y]) with (a :: b :: (r ++ [x; y])).
    rewrite strictlyAscending_two, andb_true_iff. intros [_ H]. now apply IH.
Qed.

(** The seam rule of [concatContinuousBlocks] keeps a list of pairs
    strictly ascending when the first list lies in the first text and the
    second behind it. *)
Lemma joinContinuous_ascending (n : Z) (bl ml : list Z) :
  Nat.even (List.length bl) = true ->
  strictlyAscending bl = true -> strictlyAscending ml = true ->
  (forall x, In x bl -> x <= n) -> (forall y, In y ml -> n <= y) ->
  strictlyAscending (joinContinuous n bl ml) = true.
Proof.
  intros Heven Hb Hm Hbn Hmn. unfold joinContinuous.
  destruct (at_ bl _) as [lastEnd|] eqn:E.
  - pose proof (last_split bl lastEnd E) as Hsplit.
    assert (Hlast : last bl 0 = lastEnd)
      by (rewrite Hsplit; apply last_last).
    destruct ml as [|firstStart ml']; [now rewrite app_nil_r|].
    assert (Hle : lastEnd <= n)
      by (apply Hbn; rewrite Hsplit; apply in_or_app; right; now left).
    assert (Hge : n <= firstStart) by (apply Hmn; now left).
    destruct (Z.eqb_spec lastEnd n) as [->|Hne]; cbn [andb];
      [destruct (Z.eqb_spec firstStart n) as [->|Hne]|].
    + unfold drop. change (Z.to_nat 1) with 1%nat. cbn [skipn].
      apply strictlyAscending_join.
      * rewrite Hsplit in Hb. exact (strictlyAscending_front _ _ Hb).
      * destruct ml'; [reflexivity|]. cbn [strictlyAscending] in Hm.
        now apply andb_true_iff in Hm as [_ Hm].
      * intros Hr Hml'.
        destruct (removelast bl) as [|a r] using rev_ind; [contradiction|].
        rewrite last_last. rewrite <- app_assoc in Hsplit. cbn [app] in Hsplit.
        rewrite Hsplit in Hb. apply strictlyAscending_last_two in Hb.
        destruct ml' as [|y ml']; [contradiction|]. cbn [hd].
        cbn [strictlyAscending] in Hm. apply andb_true_iff in Hm as [Hy _].
        apply Z.ltb_lt in Hy. lia.
    + apply strictlyAscending_join; auto. intros _ _. rewrite Hlast.
      cbn [hd]. lia.
    + apply strictlyAscending_join; auto. intros _ _. rewrite Hlast.
      cbn [hd]. lia.
  - apply strictlyAscending_join; auto. intros Hbl _.
    destruct bl as [|x bl] using rev_ind; [contradiction|].
    now rewrite at_last in E.
Qed.

Lemma joinContinuous_elements (n : Z) (bl ml : list Z) (x : Z) :
  In x (joinContinuous n bl ml) -> In x bl \/ In x ml.
Proof.
  unfold joinContinuous.
  destruct (at_ bl _) as [lastEnd|] eqn:E;
    [destruct ml as [|firstStart ml']; [|destruct (_ && _)]|];
    try (intros H; apply in_app_or in H; tauto).
  intros H. apply in_app_or in H as [H|H].
  - left. rewrite (last_split bl lastEnd E). apply in_or_app. now left.
  - right. unfold drop in H. change (Z.to_nat 1) with 1%nat in H.
    cbn [skipn] in H. now right.
Qed.

Lemma joinContinuous_not_empty (n : Z) (bl ml : list Z) :
  Nat.even (List.length bl) = true -> bl <> [] ->
  joinContinuous n bl ml <> [].
Proof.
  intros Heven Hne. unfold joinContinuous.
  assert (Happ : bl ++ ml <> [])
    by (intros H; apply app_eq_nil in H as [H _]; contradiction).
  destruct (at_ bl _) as [lastEnd|] eqn:E; [|exact Happ].
  destruct ml as [|firstStart ml']; [exact Happ|].
  destruct (_ && _); [|exact Happ].
  destruct bl as [|a [|b r]]; try contradiction; discriminate.
Qed.

Lemma soundEntry_continuous (n : Z) (K : string) (b : blockList) :
  kindOf K = Some Continuous ->
  soundEntry n (K, b) = true
  <-> exists l, b = Numbers l /\ l <> []
                /\ Nat.even (List.length l) = true
                /\ strictlyAscending l = true
                /\ forallb (insideText n) l = true.
Proof.
  intros HK. unfold soundEntry, typedEntry, wellFormedEntry, within.
  cbn [fst snd]. rewrite HK. split.
  - rewrite !andb_true_iff. intros [[[Heven Hw] Hin] _].
    destruct b as [l|l]; [|discriminate]. exists l.
    destruct l; [discriminate|]. apply andb_true_iff in Hw as [_ Hasc].
    repeat split; try assumption. discriminate.
  - intros (l & -> & Hne & Heven & Hasc & Hin).
    destruct l; [contradiction|]. cbn [objectsOf].
    now rewrite Heven, Hasc, Hin.
Qed.

Lemma soundEntry_singled (n : Z) (K : string) (b : blockList) :
  kindOf K = Some Singled ->
  soundEntry n (K, b) = true
  <-> exists l, b = Numbers l /\ l <> [] /\ forallb (insideText n) l = true.
Proof.
  intros HK. unfold soundEntry, typedEntry, wellFormedEntry, within.
  cbn [fst snd]. rewrite HK. split.
  - rewrite !andb_true_iff. intros [[[Ht Hw] Hin] _].
    destruct b as [l|l]; [|discriminate]. exists l.
    destruct l; [discriminate|]. repeat split; try assumption. discriminate.
  - intros (l & -> & Hne & Hin).
    destruct l; [contradiction|]. cbn [objectsOf].
    now rewrite Hin.
Qed.

Lemma soundEntry_propertied (n : Z) (K : string) (b : blockList) :
  kindOf K = Some Propertied ->
  soundEntry n (K, b) = true
  <-> exists l, b = Objects l /\ l <> []
                /\ forallb numeric l = true
                /\ forallb (fun block => memberInside n (get block "start")
                                         && memberInside n (get block "end")) l
                   = true
                /\ forallb orderedRange l = true.
Proof.
  intros HK. unfold soundEntry, typedEntry, wellFormedEntry, within.
  cbn [fst snd]. rewrite HK. split.
  - rewrite !andb_true_iff. intros [[[Ht Hw] Hin] Hord].
    destruct b as [l|l]; [discriminate|]. exists l.
    destruct l; [discriminate|]. repeat split; try assumption. discriminate.
  - intros (l & -> & Hne & Hnum & Hin & Hord).
    destruct l; [contradiction|]. cbn [objectsOf].
    change (forallb numeric (o :: l) = true) in Hnum.
    unfold numeric in Hnum. now rewrite Hnum, Hin, Hord.
Qed.

Lemma sound_typed (m : rangeModel) : sound m = true -> typed m = true.
Proof.
  unfold sound, typed. rewrite !andb_true_iff. intros [Hu Hm].
  split; [exact Hu|]. apply forallb_forall. intros kv Hin.
  rewrite forallb_forall in Hm.
  now destruct (soundEntry_parts _ _ (Hm kv Hin)).
Qed.

Lemma inside_wider (n n' : Z) (l : list Z) :
  n <= n' -> forallb (insideText n) l = true ->
  forallb (insideText n') l = true.
Proof.
  intros Hn Hl. rewrite forallb_forall in *. intros x Hx.
  specialize (Hl x Hx). apply insideText_spec in Hl.
  apply insideText_spec. lia.
Qed.

Lemma inside_shifted (n k : Z) (l : list Z) :
  0 <= k -> forallb (insideText n) l = true ->
  forallb (insideText (k + n)) (map (fun value => value + k) l) = true
  /\ forall y, In y (map (fun value => value + k) l) -> k <= y.
Proof.
  intros Hk Hl. rewrite forallb_forall in Hl. split.
  - apply forallb_forall. intros y Hy.
    apply in_map_iff in Hy as (x & <- & Hx).
    specialize (Hl x Hx). apply insideText_spec in Hl.
    apply insideText_spec. lia.
  - intros y Hy. apply in_map_iff in Hy as (x & <- & Hx).
    specialize (Hl x Hx). apply insideText_spec in Hl. lia.
Qed.

Lemma strictlyAscending_shifted (k : Z) (l : list Z) :
  strictlyAscending l = true ->
  strictlyAscending (map (fun value => value + k) l) = true.
Proof.
  induction l as [|x [|y r] IH]; intros H; try reflexivity.
  rewrite strictlyAscending_two in H. apply andb_true_iff in H as [Hx H].
  change (map (fun value => value + k) (x :: y :: r))
    with (x + k :: y + k :: map (fun value => value + k) r).
  rewrite strictlyAscending_two. apply andb_true_iff. split.
  - apply Z.ltb_lt in Hx. apply Z.ltb_lt. lia.
  - now apply IH.
Qed.

Lemma ranges_wider (n n' : Z) (l : list (object value)) :
  n <= n' -> forallb numeric l = true ->
  forallb (fun block => memberInside n (get block "start")
                        && memberInside n (get block "end")) l = true ->
  forallb (fun block => memberInside n' (get block "start")
                        && memberInside n' (get block "end")) l = true.
Proof.
  intros Hn Hnum Hl. rewrite forallb_forall in *. intros block Hin.
  specialize (Hl block Hin). specialize (Hnum block Hin).
  destruct (numeric_members block Hnum) as [Hs He].
  rewrite Hs, He in *. cbn [memberInside] in *.
  apply andb_true_iff in Hl as [H1 H2]. apply insideText_spec in H1, H2.
  rewrite !(proj2 (insideText_spec _ _)); [reflexivity|lia|lia].
Qed.

Lemma ranges_shifted (n k : Z) (l : list (object value)) :
  0 <= k -> forallb numeric l = true ->
  forallb (fun block => memberInside n (get block "start")
                        && memberInside n (get block "end")) l = true ->
  forallb orderedRange l = true ->
  forallb numeric (map (shiftPropertied k) l) = true
  /\ forallb (fun block => memberInside (k + n) (get block "start")
                           && memberInside (k + n) (get block "end"))
       (map (shiftPropertied k) l) = true
  /\ forallb orderedRange (map (shiftPropertied k) l) = true.
Proof.
  intros Hk Hnum Hl Hord. rewrite forallb_forall in Hnum, Hl, Hord.
  repeat split; apply forallb_forall; intros shifted Hin;
    apply in_map_iff in Hin as (block & <- & Hin);
    specialize (Hnum block Hin); specialize (Hl block Hin);
    specialize (Hord block Hin).
  - apply numeric_shiftPropertied.
  - destruct (numeric_members block Hnum) as [Hs He].
    rewrite Hs, He in Hl. cbn [memberInside] in Hl.
    apply andb_true_iff in Hl as [H1 H2]. apply insideText_spec in H1, H2.
    unfold shiftPropertied. apply rangeInside_set; lia.
  - unfold orderedRange in *. apply Z.leb_le in Hord. apply Z.leb_le.
    unfold shiftPropertied, num0 at 1 4. rewrite !get_set.
    cbn [String.eqb Ascii.eqb Bool.eqb]. lia.
Qed.

(** X22.  [concat] keeps models sound: for two sound models it returns a
    sound model: typed, without empty arrays, its continuous lists
    strictly ascending, adjacent spans merged at the seam included, its
    positions in the joined text, its ranges not ending before they
    start. *)
Theorem concat_keeps_models_sound (before after : rangeModel) :
  sound before = true -> sound after = true ->
  exists merged, concat before after = Ok merged /\ sound merged = true.
Proof.
  intros Hb Ha.
  pose proof (sound_typed _ Hb) as Htb. pose proof (sound_typed _ Ha) as Hta.
  unfold sound in Hb, Ha.
  apply andb_true_iff in Hb as [Hub Hb], Ha as [Hua Ha].
  eexists. split; [apply concat_shaped; now apply typed_shaped|].
  unfold sound. cbn [text blocks]. rewrite uniqueKeys_concatBlocks.
  cbn [andb]. apply forallb_by_get; [apply uniqueKeys_concatBlocks|].
  intros K v. rewrite get_concatBlocks by assumption.
  rewrite strlen_append.
  pose proof (strlen_nonneg (text before)) as H0b.
  pose proof (strlen_nonneg (text after)) as H0a.
  set (A := strlen (text before)) in *. set (B := strlen (text after)) in *.
  assert (Hbefore : forall b, get (blocks before) K = Some b ->
                              soundEntry A (K, b) = true)
    by (intros b Hget; exact (forallb_get _ _ _ _ Hb Hget)).
  assert (Hafter : forall b, get (blocks after) K = Some b ->
                             soundEntry B (K, b) = true)
    by (intros b Hget; exact (forallb_get _ _ _ _ Ha Hget)).
  destruct (kindOf K) as [[]|] eqn:HK; [| | |discriminate].
  - (* continuous *)
    rewrite get_mergedNumbers by assumption.
    rewrite (proj2 (hasKind_kindOf Continuous K) HK).
    destruct (get (blocks before) K) as [bb|] eqn:Hgb;
      destruct (get (blocks after) K) as [ba|] eqn:Hga;
      cbn [option_map]; try discriminate; intros [= <-];
      try (destruct (proj1 (soundEntry_continuous A K bb HK) (Hbefore _ eq_refl))
            as (lb & -> & Hneb & Hevb & Hascb & Hinb));
      try (destruct (proj1 (soundEntry_continuous B K ba HK) (Hafter _ eq_refl))
            as (la & -> & Hnea & Heva & Hasca & Hina));
      cbn [numbersOf]; apply (soundEntry_continuous (A + B) K _ HK);
      eexists; (split; [reflexivity|]).
    + destruct (inside_shifted B A la H0b Hina) as [Hsh Hge].
      assert (Hle : forall x, In x lb -> x <= A).
      { intros x Hx. rewrite forallb_forall in Hinb.
        specialize (Hinb x Hx). apply insideText_spec in Hinb. lia. }
      repeat split.
      * now apply joinContinuous_not_empty.
      * apply joinContinuous_even; [exact Hevb|now rewrite length_map].
      * apply joinContinuous_ascending; auto.
        now apply strictlyAscending_shifted.
      * apply forallb_forall. intros x Hx.
        apply joinContinuous_elements in Hx as [Hx|Hx].
        -- rewrite forallb_forall in Hinb. specialize (Hinb x Hx).
           apply insideText_spec in Hinb. apply insideText_spec. lia.
        -- rewrite forallb_forall in Hsh. now apply Hsh.
    + repeat split; try assumption.
      apply (inside_wider A); [lia|exact Hinb].
    + destruct (inside_shifted B A la H0b Hina) as [Hsh Hge].
      repeat split.
      * now destruct la.
      * now rewrite length_map.
      * now apply strictlyAscending_shifted.
      * exact Hsh.
  - (* propertied *)
    rewrite get_mergedObjects by assumption.
    rewrite (proj2 (hasKind_kindOf Propertied K) HK).
    destruct (get (blocks before) K) as [bb|] eqn:Hgb;
      destruct (get (blocks after) K) as [ba|] eqn:Hga;
      cbn [option_map]; try discriminate; intros [= <-];
      try (destruct (proj1 (soundEntry_propertied A K bb HK) (Hbefore _ eq_refl))
            as (lb & -> & Hneb & Hnumb & Hinb & Hordb));
      try (destruct (proj1 (soundEntry_propertied B K ba HK) (Hafter _ eq_refl))
            as (la & -> & Hnea & Hnuma & Hina & Horda));
      cbn [objectsOf]; apply (soundEntry_propertied (A + B) K _ HK);
      eexists; (split; [reflexivity|]).
    + destruct (ranges_shifted B A la H0b Hnuma Hina Horda)
        as (Hn & Hi & Ho).
      repeat split.
      * now destruct lb.
      * now rewrite forallb_app, Hnumb, Hn.
      * rewrite forallb_app, Hi, andb_true_r.
        apply (ranges_wider A); [lia|exact Hnumb|exact Hinb].
      * now rewrite forallb_app, Hordb, Ho.
    + repeat split; try assumption.
      apply (ranges_wider A); [lia|exact Hnumb|exact Hinb].
    + destruct (ranges_shifted B A la H0b Hnuma Hina Horda)
        as (Hn & Hi & Ho).
      repeat split; try assumption. now destruct la.
  - (* singled *)
    rewrite get_mergedNumbers by assumption.
    rewrite (proj2 (hasKind_kindOf Singled K) HK).
    destruct (get (blocks before) K) as [bb|] eqn:Hgb;
      destruct (get (blocks after) K) as [ba|] eqn:Hga;
      cbn [option_map]; try discriminate; intros [= <-];
      try (destruct (proj1 (soundEntry_singled A K bb HK) (Hbefore _ eq_refl))
            as (lb & -> & Hneb & Hinb));
      try (destruct (proj1 (soundEntry_singled B K ba HK) (Hafter _ eq_refl))
            as (la & -> & Hnea & Hina));
      cbn [numbersOf]; apply (soundEntry_singled (A + B) K _ HK);
      eexists; (split; [reflexivity|]).
    + destruct (inside_shifted B A la H0b Hina) as [Hsh _].
      split; [now destruct lb|].
      rewrite forallb_app, Hsh, andb_true_r.
      apply (inside_wider A); [lia|exact Hinb].
    + split; [exact Hneb|]. apply (inside_wider A); [lia|exact Hinb].
    + destruct (inside_shifted B A la H0b Hina) as [Hsh _].
      split; [now destruct la|exact Hsh].
Qed.

Lemma concat_keeps_models_sound_witness :
  exists merged, concat sample crossing = Ok merged /\ sound merged = true.
Proof. exact (concat_keeps_models_sound sample crossing eq_refl eq_refl). Defined.

(** ** Emit of many spans of one kind *)

Section Pieces.
Variable tagName : string.
Hypothesis notScript :
  String.eqb tagName "SCRIPT" || String.eqb tagName "STYLE" = false.

Lemma text_nodes_of_pieces (parent : Node) (ps : list piece)
  (others : list Node) :
  (forall c, contentTextOnly parent c = true) ->
  map snd
    (filter (fun pn => SHOW_TEXT (snd pn) && contentTextOnly (fst pn) (snd pn))
       (flat_map (fun c => (parent, c) :: descendants c)
          (map (toNode tagName) ps ++ others)))
  = map pieceTextNode ps
    ++ map snd
         (filter (fun pn => SHOW_TEXT (snd pn)
                            && contentTextOnly (fst pn) (snd pn))
            (flat_map (fun c => (parent, c) :: descendants c) others)).
Proof.
  intros Hparent. induction ps as [|[id v|id inner v] ps IH];
    [reflexivity| |].
  - cbn [map app flat_map toNode descendants filter fst snd SHOW_TEXT andb].
    rewrite Hparent. cbn [map pieceTextNode app]. now rewrite IH.
  - cbn [map app flat_map toNode descendants filter fst snd SHOW_TEXT andb
           contentTextOnly].
    rewrite notScript. cbn [negb map pieceTextNode app]. now rewrite IH.
Qed.

Lemma find_after_pieces (parent : Node) (ps : list piece) (next : nat)
  (ref : nat) (v : string) (others : list Node) :
  forallb (pieceBelow next) ps = true -> (ref = 0 \/ next <= ref)%nat ->
  find (fun pn => isNode ref (snd pn) && SHOW_TEXT (snd pn))
    (flat_map (fun c => (parent, c) :: descendants c)
       (map (toNode tagName) ps ++ Text ref v :: others))
  = Some (parent, Text ref v).
Proof.
  intros Hps Href. induction ps as [|[id w|id inner w] ps IH].
  - cbn [map app flat_map find snd isNode SHOW_TEXT andb].
    now rewrite Nat.eqb_refl.
  - cbn [forallb pieceBelow] in Hps.
    apply andb_true_iff in Hps as [Hid Hps].
    apply andb_true_iff in Hid as [H0 H1].
    apply Nat.ltb_lt in H0, H1.
    cbn [map app flat_map toNode descendants find snd isNode SHOW_TEXT].
    destruct (Nat.eqb_spec id ref); [lia|]. cbn [andb]. now apply IH.
  - cbn [forallb pieceBelow] in Hps.
    apply andb_true_iff in Hps as [Hid Hps].
    apply andb_true_iff in Hid as [Hid H3].
    apply andb_true_iff in Hid as [Hid H2].
    apply andb_true_iff in Hid as [H0 H1].
    apply Nat.ltb_lt in H0, H1, H2, H3.
    cbn [map app flat_map toNode descendants find snd isNode SHOW_TEXT andb].
    rewrite andb_false_r.
    destruct (Nat.eqb_spec inner ref); [lia|]. cbn [andb]. now apply IH.
Qed.
End Pieces.

Lemma insertBefore_cons (x : Node) (ref : nat) (c : Node) (l : list Node) :
  insertBefore x ref (DocumentFragment (c :: l))
  = if isNode ref c then DocumentFragment (x :: c :: l)
    else match insertBefore x ref (DocumentFragment l) with
         | DocumentFragment l' => DocumentFragment (insertBefore x ref c :: l')
         | other => other
         end.
Proof. cbn [insertBefore]. now destruct (isNode ref c). Qed.

Lemma removeChild_cons (ref : nat) (c : Node) (l : list Node) :
  removeChild ref (DocumentFragment (c :: l))
  = if isNode ref c then DocumentFragment l
    else match removeChild ref (DocumentFragment l) with
         | DocumentFragment l' => DocumentFragment (removeChild ref c :: l')
         | other => other
         end.
Proof. cbn [removeChild]. now destruct (isNode ref c). Qed.

Lemma piece_untouched (tagName : string) (next ref : nat) (p : piece)
  (x : Node) (v : string) :
  pieceBelow next p = true -> (ref = 0 \/ next <= ref)%nat ->
  isNode ref (toNode tagName p) = false
  /\ insertBefore x ref (toNode tagName p) = toNode tagName p
  /\ removeChild ref (toNode tagName p) = toNode tagName p
  /\ setNodeValue ref v (toNode tagName p) = toNode tagName p.
Proof.
  intros Hp Href. destruct p as [id w|id inner w]; cbn [pieceBelow] in Hp.
  - apply andb_true_iff in Hp as [H0 H1]. apply Nat.ltb_lt in H0, H1.
    cbn [toNode isNode insertBefore removeChild setNodeValue].
    destruct (Nat.eqb_spec id ref); [lia|]. now repeat split.
  - apply andb_true_iff in Hp as [Hp H3]. apply andb_true_iff in Hp as [Hp H2].
    apply andb_true_iff in Hp as [H0 H1]. apply Nat.ltb_lt in H0, H1, H2, H3.
    cbn [toNode isNode insertBefore removeChild setNodeValue map].
    destruct (Nat.eqb_spec id ref); [lia|].
    destruct (Nat.eqb_spec inner ref); [lia|]. now repeat split.
Qed.

Lemma insertBefore_after_pieces (tagName : string) (ps : list piece)
  (next ref : nat) (x y : Node) (others : list Node) :
  forallb (pieceBelow next) ps = true -> (ref = 0 \/ next <= ref)%nat ->
  isNode ref y = true ->
  insertBefore x ref (DocumentFragment (map (toNode tagName) ps ++ y :: others))
  = DocumentFragment (map (toNode tagName) ps ++ x :: y :: others).
Proof.
  intros Hps Href Hy. induction ps as [|p ps IH]; cbn [map app].
  - now rewrite insertBefore_cons, Hy.
  - cbn [forallb] in Hps. apply andb_true_iff in Hps as [Hp Hps].
    destruct (piece_untouched tagName next ref p x "" Hp Href)
      as (Hnot & Hins & _).
    now rewrite insertBefore_cons, Hnot, (IH Hps), Hins.
Qed.

Lemma removeChild_after_pieces (tagName : string) (ps : list piece)
  (next ref : nat) (y : Node) (others : list Node) :
  forallb (pieceBelow next) ps = true -> (ref = 0 \/ next <= ref)%nat ->
  isNode ref y = true ->
  removeChild ref (DocumentFragment (map (toNode tagName) ps ++ y :: others))
  = DocumentFragment (map (toNode tagName) ps ++ others).
Proof.
  intros Hps Href Hy. induction ps as [|p ps IH]; cbn [map app].
  - now rewrite removeChild_cons, Hy.
  - cbn [forallb] in Hps. apply andb_true_iff in Hps as [Hp Hps].
    destruct (piece_untouched tagName next ref p y "" Hp Href)
      as (Hnot & _ & Hrem & _).
    now rewrite removeChild_cons, Hnot, (IH Hps), Hrem.
Qed.

Lemma setNodeValue_after_pieces (tagName : string) (ps : list piece)
  (next : nat) (old v : string) :
  forallb (pieceBelow next) ps = true ->
  setNodeValue 0 v (DocumentFragment (map (toNode tagName) ps ++ [Text 0 old]))
  = DocumentFragment (map (toNode tagName) ps ++ [Text 0 v]).
Proof.
  intros Hps. cbn [setNodeValue]. f_equal. rewrite map_app. f_equal.
  rewrite map_map. apply map_ext_in. intros p Hin.
  rewrite forallb_forall in Hps.
  now destruct (piece_untouched tagName next 0 p (Text 0 v) v (Hps p Hin)
                  (or_introl eq_refl)) as (_ & _ & _ & Hset).
Qed.

Lemma pieceBelow_wider (next next' : nat) (ps : list piece) :
  (next <= next')%nat -> forallb (pieceBelow next) ps = true ->
  forallb (pieceBelow next') ps = true.
Proof.
  intros Hn Hps. rewrite forallb_forall in *. intros p Hin.
  specialize (Hps p Hin). destruct p as [id w|id inner w];
    cbn [pieceBelow] in *;
    rewrite !andb_true_iff, !Nat.ltb_lt in *; lia.
Qed.

Lemma walkToStart_over_pieces (ps : list piece) (fuel : nat) (root : Node)
  (str rest : string) (s : Z) :
  (List.length ps <= fuel)%nat ->
  (ps <> [] -> strlen str + strlen (piecesText ps) < s) ->
  s <= strlen str + strlen (piecesText ps) + strlen rest ->
  walkToStart fuel
    (nextNode (root, map pieceTextNode ps ++ [Text 0 rest])) str s
  = Ok ((Text 0 rest, []), (str ++ piecesText ps)%string).
Proof.
  revert fuel root str. induction ps as [|p ps IH]; intros fuel root str Hfuel Hlt Hle.
  - cbn [map app nextNode snd piecesText fold_right] in *.
    change (strlen "") with 0 in Hle. rewrite append_empty.
    destruct fuel; cbn [walkToStart currentValue nodeValue_ fst bind];
      destruct (Z.ltb_spec (strlen str + strlen rest) s); try lia; reflexivity.
  - cbn [map app nextNode snd]. cbn [List.length] in Hfuel.
    destruct fuel as [|fuel]; [lia|].
    cbn [piecesText fold_right] in *. fold (piecesText ps) in *.
    rewrite strlen_append in *.
    pose proof (strlen_nonneg (piecesText ps)).
    specialize (Hlt ltac:(discriminate)).
    cbn [walkToStart currentValue fst bind].
    assert (Hv : currentValue (pieceTextNode p,
                               map pieceTextNode ps ++ [Text 0 rest])
                 = Ok (pieceText p))
      by now destruct p.
    rewrite Hv. cbn [bind].
    destruct (Z.ltb_spec (strlen str + strlen (pieceText p)) s); [|lia].
    rewrite IH.
    + now rewrite string_append_assoc.
    + lia.
    + intros _. rewrite strlen_append. lia.
    + rewrite strlen_append. lia.
Qed.

Lemma descendants_of_fragment (l : list Node) :
  descendants (DocumentFragment l)
  = flat_map (fun c => (DocumentFragment l, c) :: descendants c) l.
Proof. exact (descendants_children (DocumentFragment l) l). Qed.

Section Targets.
Variable tagName : string.
Hypothesis notScript :
  String.eqb tagName "SCRIPT" || String.eqb tagName "STYLE" = false.

Lemma targets_after_pieces (fuel : nat) (ps : list piece) (rest : string)
  (s e : Z) :
  (List.length ps <= fuel)%nat ->
  (ps <> [] -> strlen (piecesText ps) < s) ->
  s <= strlen (piecesText ps) + strlen rest ->
  e <= strlen (piecesText ps) + strlen rest ->
  getTextNodeTargets fuel
    (DocumentFragment (map (toNode tagName) ps ++ [Text 0 rest])) s (Some e)
  = Ok [{| node := Text 0 rest;
           start := Some (s - strlen (piecesText ps));
           end_ := Some (e - strlen (piecesText ps)) |}].
Proof.
  intros Hfuel Hlt Hs He. unfold getTextNodeTargets, createTreeWalker.
  rewrite descendants_of_fragment.
  rewrite (text_nodes_of_pieces tagName notScript) by reflexivity.
  cbn [flat_map descendants app filter fst snd SHOW_TEXT contentTextOnly andb
         map].
  rewrite (walkToStart_over_pieces ps fuel _ "" rest s Hfuel); cbn [String.append];
    change (strlen "") with 0; try lia; [|intros Hne; specialize (Hlt Hne); lia].
  cbn [bind currentValue nodeValue_ fst].
  assert (Hend : forall list,
             walkToEnd fuel (Text 0 rest, [])
               (piecesText ps ++ rest)%string list e
             = Ok ((Text 0 rest, []), (piecesText ps ++ rest)%string, list)).
  { intros list. rewrite <- (strlen_append (piecesText ps) rest) in He.
    destruct fuel; cbn [walkToEnd];
      destruct (Z.ltb_spec (strlen (piecesText ps ++ rest)) e); try lia;
      reflexivity. }
  rewrite Hend. cbn [bind currentValue nodeValue_ fst map last removelast app].
  rewrite strlen_append. do 3 f_equal. f_equal. lia.
Qed.
End Targets.

Section EmitSpan.
Variables (K tagName : string).
Hypothesis tagOfK : tagNameOf K = Ok tagName.

(** One span, cut out of the text node [toElement] started from. *)
Lemma splitTextNode_after_pieces (ps : list piece) (rest : string)
  (removed_ : list (nat * string)) (id : nat) (a b : Z) :
  forallb (pieceBelow id) ps = true -> (0 < id)%nat ->
  0 <= a -> a < b -> b <= strlen rest ->
  let startText := substr rest 0 (Some a) in
  let middleText := substr rest a (Some (b - a)) in
  let endText := substr rest b None in
  let id' := if strlen startText >? 0 then S (S (S id)) else S (S id) in
  let ps' := ps ++ (if strlen startText >? 0
                    then [Plain (S (S id)) startText] else [])
                ++ [Wrapped id (S id) middleText] in
  exists removed',
    splitTextNode K []
      {| el := DocumentFragment (map (toNode tagName) ps ++ [Text 0 rest]);
         removed := removed_; next := id |}
      {| node := Text 0 rest; start := Some a; end_ := Some b |}
    = Ok {| el := DocumentFragment
                    (map (toNode tagName) ps'
                     ++ (if strlen endText >? 0 then [Text 0 endText] else []));
            removed := removed'; next := id' |}
    /\ forallb (pieceBelow id') ps' = true.
Proof.
  intros Hps Hid H0 Hlt Hb startText middleText endText id' ps'.
  assert (Hps' : forallb (pieceBelow id') ps' = true).
  { subst ps' id'. rewrite !forallb_app.
    destruct (strlen startText >? 0); cbn [forallb pieceBelow];
      rewrite (pieceBelow_wider id _ ps) by (assumption || lia);
      rewrite !andb_true_r, !andb_true_iff, !Nat.ltb_lt; lia. }
  unfold splitTextNode. cbn [node start end_].
  assert (Htext : textNode
                    {| el := DocumentFragment
                               (map (toNode tagName) ps ++ [Text 0 rest]);
                       removed := removed_; next := id |} 0
                  = Some (true, rest)).
  { unfold textNode. cbn [el]. rewrite descendants_of_fragment.
    now rewrite (find_after_pieces tagName _ ps id 0 rest [] Hps
                   (or_introl eq_refl)). }
  rewrite Htext. cbv iota beta.
  destruct (Z.eqb_spec b 0); [lia|].
  destruct (Z.eqb_spec a b); [lia|].
  rewrite tagOfK. cbn [bind setAttributes get foldM domify el removed next].
  unfold placeBlock. cbn [negb domify el removed next].
  rewrite (insertBefore_after_pieces tagName ps id 0 _ (Text 0 rest) []
             Hps (or_introl eq_refl) eq_refl).
  fold startText middleText endText.
  assert (Hroot : forall pre : list piece,
             forallb (pieceBelow id') (ps ++ pre
                                       ++ [Wrapped id (S id) middleText])
             = true ->
             (if strlen endText >? 0
              then Ok {| el := setNodeValue 0 endText
                                 (DocumentFragment
                                    (map (toNode tagName)
                                       (ps ++ pre
                                        ++ [Wrapped id (S id) middleText])
                                     ++ [Text 0 rest]));
                         removed := removed_; next := id' |}
              else Ok {| el := removeChild 0
                                 (DocumentFragment
                                    (map (toNode tagName)
                                       (ps ++ pre
                                        ++ [Wrapped id (S id) middleText])
                                     ++ [Text 0 rest]));
                         removed := (0%nat, rest) :: removed_; next := id' |})
             = Ok {| el := DocumentFragment
                             (map (toNode tagName)
                                (ps ++ pre ++ [Wrapped id (S id) middleText])
                              ++ (if strlen endText >? 0
                                  then [Text 0 endText] else []));
                     removed := if strlen endText >? 0 then removed_
                                else (0%nat, rest) :: removed_;
                     next := id' |}).
  { intros pre Hpre. destruct (strlen endText >? 0).
    - now rewrite (setNodeValue_after_pieces tagName _ id' rest endText Hpre).
    - now rewrite (removeChild_after_pieces tagName _ id' 0 (Text 0 rest) []
                     Hpre (or_introl eq_refl) eq_refl). }
  eexists. split; [|exact Hps'].
  subst ps' id'. destruct (strlen startText >? 0) eqn:Hstart.
  - rewrite (insertBefore_after_pieces tagName ps id id _
               (Element id tagName [] [Text (S id) middleText])
               [Text 0 rest] Hps (or_intror (le_n id)))
      by (cbn [isNode]; apply Nat.eqb_refl).
    specialize (Hroot [Plain (S (S id)) startText] Hps').
    rewrite !map_app in Hroot. cbn [map toNode app] in Hroot.
    rewrite <- !app_assoc in Hroot. cbn [app] in Hroot.
    rewrite !map_app. cbn [map toNode app]. rewrite <- !app_assoc. cbn [app].
    exact Hroot.
  - specialize (Hroot [] Hps').
    rewrite !map_app in Hroot. cbn [map toNode app] in Hroot.
    rewrite <- !app_assoc in Hroot. cbn [app] in Hroot.
    rewrite !map_app. cbn [map toNode app]. rewrite <- !app_assoc. cbn [app].
    exact Hroot.
Qed.
End EmitSpan.

Lemma piecesText_app (ps qs : list piece) :
  piecesText (ps ++ qs) = (piecesText ps ++ piecesText qs)%string.
Proof.
  induction ps as [|p ps IH]; [reflexivity|].
  cbn [app piecesText fold_right]. fold (piecesText (ps ++ qs)).
  fold (piecesText ps). now rewrite IH, string_append_assoc.
Qed.

Section EmitSpans.
Variables (K tagName : string).
Hypothesis tagOfK : tagNameOf K = Ok tagName.
Hypothesis notScript :
  String.eqb tagName "SCRIPT" || String.eqb tagName "STYLE" = false.

(** The loop of [addContinuousBlocksToElement] over the spans of a kind. *)
Lemma eachPair_emits (fuel : nat) (spans : list Z) :
  forall (ps : list piece) (rest : string) (removed_ : list (nat * string))
         (id : nat) (first : bool) (c : Z),
  forallb (pieceBelow id) ps = true -> (0 < id)%nat ->
  strlen (piecesText ps) = c ->
  apart first c (c + strlen rest) spans = true ->
  (first = true -> ps = []) ->
  0 < strlen rest ->
  (List.length ps + List.length spans <= fuel + 2)%nat ->
  exists removed' id',
    eachPair
      (fun d start end_ =>
         list <- getTextNodeTargets fuel (el d) start end_ ;;
         foldM (splitTextNode K []) list d)
      spans
      {| el := DocumentFragment (map (toNode tagName) ps ++ [Text 0 rest]);
         removed := removed_; next := id |}
    = Ok {| el := DocumentFragment
                    (map (toNode tagName)
                       (ps ++ emittedPieces rest c id spans)
                     ++ (if strlen (leftover rest c spans) >? 0
                         then [Text 0 (leftover rest c spans)] else []));
            removed := removed'; next := id' |}.
Proof.
  induction spans as [spans IH] using (well_founded_induction
                                         (Wf_nat.well_founded_ltof _ (@List.length Z))).
  intros ps rest removed_ id first c Hps Hid Hc Hapart Hfirst Hrest Hfuel.
  destruct spans as [|s [|e more]]; [| discriminate |].
  - cbn [eachPair emittedPieces leftover]. rewrite app_nil_r.
    rewrite Z.gtb_ltb. destruct (Z.ltb_spec 0 (strlen rest)); [|lia].
    now do 2 eexists.
  - cbn [apart] in Hapart.
    apply andb_true_iff in Hapart as [Hapart Hmore].
    apply andb_true_iff in Hapart as [Hapart He].
    apply andb_true_iff in Hapart as [Hs Hse].
    apply Z.ltb_lt in Hse. apply Z.leb_le in He.
    assert (Hcs : c <= s /\ (ps <> [] -> c < s)).
    { destruct first.
      - apply Z.leb_le in Hs. split; [exact Hs|].
        intros Hne. now specialize (Hfirst eq_refl).
      - apply Z.ltb_lt in Hs. split; [lia|]. intros _. exact Hs. }
    destruct Hcs as [Hcs Hstrict].
    cbn [eachPair el List.length] in *.
    rewrite (targets_after_pieces tagName notScript fuel ps rest s e)
      by (rewrite ?Hc; (lia || assumption)).
    cbn [bind foldM]. rewrite Hc.
    destruct (splitTextNode_after_pieces K tagName tagOfK ps rest removed_ id
                (s - c) (e - c) Hps Hid ltac:(lia) ltac:(lia) ltac:(lia))
      as (removed' & Hsplit & Hps').
    cbv zeta in Hsplit, Hps'.
    replace (e - c - (s - c)) with (e - s) in Hsplit, Hps' by lia.
    rewrite Hsplit. cbn [bind emittedPieces leftover].
    destruct (substr_three rest (s - c) (e - c) ltac:(lia) ltac:(lia)
                ltac:(lia)) as (Happ & Hlen1 & Hlen2).
    replace (e - c - (s - c)) with (e - s) in Happ, Hlen2 by lia.
    pose proof (strlen_substr_tail rest (e - c) ltac:(lia)) as Hlen3.
    set (startText := substr rest 0 (Some (s - c))) in *.
    set (middleText := substr rest (s - c) (Some (e - s))) in *.
    set (endText := substr rest (e - c) None) in *.
    set (pre := if strlen startText >? 0
                then [Plain (S (S id)) startText] else []) in *.
    set (id' := if strlen startText >? 0 then S (S (S id)) else S (S id)) in *.
    assert (Hpre : strlen (piecesText pre) = strlen startText
                   /\ (List.length pre <= 1)%nat).
    { subst pre. rewrite Z.gtb_ltb.
      destruct (Z.ltb_spec 0 (strlen startText));
        cbn [piecesText fold_right pieceText List.length].
      - rewrite append_empty. split; [reflexivity|lia].
      - pose proof (strlen_nonneg startText). change (strlen "") with 0.
        split; [lia|lia]. }
    destruct Hpre as [Hpre Hprelen].
    assert (Hc' : strlen (piecesText (ps ++ pre ++ [Wrapped id (S id) middleText]))
                  = e).
    { rewrite !piecesText_app, !strlen_append, Hc, Hpre.
      cbn [piecesText fold_right pieceText]. rewrite append_empty. lia. }
    destruct (Z.ltb_spec 0 (strlen endText)) as [Hend|Hend].
    + rewrite Z.gtb_ltb. destruct (Z.ltb_spec 0 (strlen endText)); [|lia].
      destruct (IH more ltac:(unfold ltof; cbn [List.length]; lia)
                  (ps ++ pre ++ [Wrapped id (S id) middleText]) endText
                  removed' id' false e Hps'
                  ltac:(subst id'; destruct (strlen startText >? 0); lia) Hc')
        as (removed'' & id'' & Hloop).
      * now replace (e + strlen endText) with (c + strlen rest) by lia.
      * discriminate.
      * exact Hend.
      * rewrite !length_app. cbn [List.length]. lia.
      * do 2 eexists. rewrite Hloop. now rewrite <- !app_assoc.
    + assert (Hnone : more = []).
      { destruct more as [|s' [|e' more']]; [reflexivity|discriminate|].
        cbn [apart] in Hmore. rewrite !andb_true_iff in Hmore.
        destruct Hmore as [[[H1 H2] H3] _].
        apply Z.ltb_lt in H1, H2. apply Z.leb_le in H3. lia. }
      subst more. cbn [eachPair emittedPieces leftover].
      fold startText middleText endText. fold pre.
      rewrite Z.gtb_ltb. destruct (Z.ltb_spec 0 (strlen endText)); [lia|].
      rewrite !app_nil_r. now do 2 eexists.
Qed.
End EmitSpans.

Lemma foldM_app {A S : Type} (f : S -> A -> result S) (l1 l2 : list A)
  (s : S) :
  foldM f (l1 ++ l2) s = (s' <- foldM f l1 s ;; foldM f l2 s').
Proof.
  revert s. induction l1 as [|a l1 IH]; intros s; [reflexivity|].
  cbn [app foldM]. destruct (f s a); cbn [bind]; auto.
Qed.

Lemma strlen_zero (s : string) : strlen s <= 0 -> s = "".
Proof. destruct s; [reflexivity|]. unfold strlen. cbn [String.length]. lia. Qed.

(** The tree [toElement] builds for the spans of one continuous kind. *)
Lemma toElement_spans (fuel : nat) (t K : string) (tt : tagType)
  (spans : list Z) :
  get blockTypes K = Some tt -> set_ tt = Continuous ->
  apart true 0 (strlen t) spans = true -> spans <> [] ->
  (List.length spans <= fuel + 2)%nat ->
  toElement fuel {| text := t; blocks := [(K, Numbers spans)] |}
  = Ok (DocumentFragment
          (map (toNode (name tt)) (emittedPieces t 0 1 spans)
           ++ (if strlen (leftover t 0 spans) >? 0
               then [Text 0 (leftover t 0 spans)] else []))).
Proof.
  intros Hget Hset Hapart Hne Hfuel.
  destruct (registered_tag K tt Hget) as (_ & _ & Hscript).
  assert (Hrest : 0 < strlen t).
  { destruct spans as [|s [|e more]]; [contradiction|discriminate|].
    cbn [apart] in Hapart. rewrite !andb_true_iff in Hapart.
    destruct Hapart as [[[H1 H2] H3] _].
    apply Z.leb_le in H1, H3. apply Z.ltb_lt in H2. lia. }
  unfold toElement.
  cbn [domify text el removed next normalizeElementAsDocument].
  unfold addPropertiedBlocksToElement, addContinuousBlocksToElement,
    addSingledBlocksToElement. cbn [blocks].
  rewrite !(getBlocksOfType_one K _ tt _ Hget), Hset.
  cbn [setter_eqb bind foldM sortContinuousBlocks fst snd numbers].
  destruct (eachPair_emits K (name tt) (tagNameOf_registered K tt Hget)
              Hscript fuel spans [] t [] 1 true 0 eq_refl ltac:(lia)
              eq_refl Hapart ltac:(reflexivity) Hrest Hfuel)
    as (removed' & id' & Hloop).
  cbn [map app] in Hloop. rewrite Hloop. reflexivity.
Qed.

Section IngestPieces.
Variables (K K' : string) (tt : tagType).
Hypothesis registered : get blockTypes K = Some tt.
Hypothesis continuousKind : set_ tt = Continuous.
Hypothesis canonical : canonicalKind K = Ok K'.

Lemma accepted_pieces (parent : Node) (ps : list piece) (others : list Node) :
  (forall c, contentTextOnly parent c = true) ->
  map snd
    (filter (fun pn => nodeFilter (snd pn) && knownTagsOnly (fst pn) (snd pn))
       (flat_map (fun c => (parent, c) :: descendants c)
          (map (toNode (name tt)) ps ++ others)))
  = flat_map (visited (name tt)) ps
    ++ map snd
         (filter (fun pn => nodeFilter (snd pn)
                            && knownTagsOnly (fst pn) (snd pn))
            (flat_map (fun c => (parent, c) :: descendants c) others)).
Proof.
  intros Hparent.
  destruct (registered_tag K tt registered) as (Htag & Hplain & Hscript).
  induction ps as [|[id v|id inner v] ps IH]; [reflexivity| |].
  - cbn [map app flat_map toNode descendants visited].
    rewrite accepted_cons, text_node_filter, Hparent, IH. reflexivity.
  - cbn [map app flat_map toNode descendants visited].
    rewrite !accepted_cons, text_node_filter, IH.
    cbn [contentTextOnly]. rewrite Hscript.
    unfold knownTagsOnly. cbn [nodeName_ nodeFilter SHOW_TEXT andb].
    unfold lookup. rewrite Htag. reflexivity.
Qed.

(** The handler of a wrapped piece appends its span. *)
Lemma ingest_wrapped (m : rangeModel) (id inner : nat) (v : string)
  (acc : list Z) :
  0 < strlen v ->
  (blocks m = [] /\ acc = []
   \/ blocks m = [(K', Numbers acc)]
      /\ exists lastEnd,
           at_ acc (Z.of_nat (List.length acc) - 1) = Some lastEnd
           /\ lastEnd < strlen (text m)) ->
  (t0 <- tagTypeOf "tagTypes[name].set"
           (getNodeName (Element id (name tt) [] [Text inner v])) ;;
   call (set_ t0) m (Element id (name tt) [] [Text inner v]))
  = Ok {| text := text m;
          blocks := [(K', Numbers (acc ++ [strlen (text m);
                                           strlen (text m) + strlen v]))] |}.
Proof.
  intros Hv Hm.
  destruct (registered_tag K tt registered) as (Htag & Hplain & Hscript).
  pose proof canonical as Hcanon. unfold canonicalKind in Hcanon.
  rewrite (tagNameOf_registered K tt registered) in Hcanon.
  cbn [bind] in Hcanon.
  change (getNodeName (Element id (name tt) [] [Text inner v]))
    with (getNodeName (Element 0 (name tt) [] [])).
  destruct (tagTypeOf "tagTypes[name].set"
              (getNodeName (Element 0 (name tt) [] [])))
    as [t'| | |] eqn:Ht'; try discriminate.
  cbn [bind] in Hcanon. injection Hcanon as Hname.
  destruct (dispatch_plain "tagTypes[name].set" 0 (name tt) [] [] _ Hplain Htag)
    as (t1 & Ht1 & Hs1).
  rewrite Ht' in Ht1. injection Ht1 as <-. cbn [set_] in Hs1.
  rewrite continuousKind in Hs1.
  cbn [bind]. rewrite Hs1. cbn [call]. unfold continuous.
  change (getNodeName (Element id (name tt) [] [Text inner v]))
    with (getNodeName (Element 0 (name tt) [] [])).
  rewrite (tagTypeOf_site _ "tagTypes[nodeName].name" _ _ Ht').
  assert (Htext : getContentText (Element id (name tt) [] [Text inner v]) = v).
  { unfold getContentText, createTreeWalker.
    cbn [descendants app filter fst snd SHOW_TEXT andb contentTextOnly].
    now rewrite Hscript. }
  rewrite Htext.
  destruct (Z.eqb_spec (strlen (text m)) (strlen (text m) + strlen v));
    [lia|].
  cbn [bind]. rewrite Hname.
  destruct Hm as [[Hb ->]|[Hb (lastEnd & Hlast & Hlt)]]; rewrite Hb.
  - reflexivity.
  - cbn [get]. rewrite String.eqb_refl. cbn [numbers bind]. rewrite Hlast.
    destruct (Z.geb_spec lastEnd (strlen (text m))); [lia|].
    rewrite andb_false_r. cbn [set]. now rewrite String.eqb_refl.
Qed.

Lemma ingest_pieces (spans : list Z) :
  forall (rest : string) (c : Z) (id : nat) (first : bool) (m : rangeModel)
         (acc : list Z),
  apart first c (c + strlen rest) spans = true ->
  strlen (text m) = c ->
  (if first then blocks m = [] /\ acc = []
   else blocks m = [(K', Numbers acc)]
        /\ at_ acc (Z.of_nat (List.length acc) - 1) = Some c) ->
  foldM
    (fun model node =>
       match node with
       | Text _ v =>
           Ok {| text := (text model ++ v)%string; blocks := blocks model |}
       | _ =>
           t <- tagTypeOf "tagTypes[name].set" (getNodeName node) ;;
           call (set_ t) model node
       end)
    (flat_map (visited (name tt)) (emittedPieces rest c id spans)
     ++ (if strlen (leftover rest c spans) >? 0
         then [Text 0 (leftover rest c spans)] else []))
    m
  = Ok {| text := (text m ++ rest)%string;
          blocks := match spans with
                    | [] => blocks m
                    | _ => [(K', Numbers (acc ++ spans))]
                    end |}.
Proof.
  induction spans as [spans IH] using (well_founded_induction
                                         (Wf_nat.well_founded_ltof _ (@List.length Z))).
  intros rest c id first m acc Hapart Hc Hm.
  destruct spans as [|s [|e more]]; [| discriminate |].
  - cbn [emittedPieces leftover flat_map app]. rewrite Z.gtb_ltb.
    destruct (Z.ltb_spec 0 (strlen rest)) as [Hrest|Hrest].
    + reflexivity.
    + cbn [foldM]. rewrite (strlen_zero rest Hrest), append_empty.
      now destruct m.
  - cbn [apart] in Hapart.
    apply andb_true_iff in Hapart as [Hapart Hmore].
    apply andb_true_iff in Hapart as [Hapart He].
    apply andb_true_iff in Hapart as [Hs Hse].
    apply Z.ltb_lt in Hse. apply Z.leb_le in He.
    assert (Hcs : c <= s /\ (first = false -> c < s)).
    { destruct first.
      - apply Z.leb_le in Hs. split; [exact Hs|discriminate].
      - apply Z.ltb_lt in Hs. split; [lia|]. intros _. exact Hs. }
    destruct Hcs as [Hcs Hstrict].
    cbn [emittedPieces leftover].
    destruct (substr_three rest (s - c) (e - c) ltac:(lia) ltac:(lia)
                ltac:(lia)) as (Happ & Hlen1 & Hlen2).
    replace (e - c - (s - c)) with (e - s) in Happ, Hlen2 by lia.
    pose proof (strlen_substr_tail rest (e - c) ltac:(lia)) as Hlen3.
    set (startText := substr rest 0 (Some (s - c))) in *.
    set (middleText := substr rest (s - c) (Some (e - s))) in *.
    set (endText := substr rest (e - c) None) in *.
    rewrite !flat_map_app. cbn [flat_map visited app].
    rewrite <- !app_assoc. rewrite foldM_app.
    assert (Hpre : foldM
                     (fun model node =>
                        match node with
                        | Text _ v =>
                            Ok {| text := (text model ++ v)%string;
                                  blocks := blocks model |}
                        | _ =>
                            t <- tagTypeOf "tagTypes[name].set"
                                   (getNodeName node) ;;
                            call (set_ t) model node
                        end)
                     (flat_map (visited (name tt))
                        (if strlen startText >? 0
                         then [Plain (S (S id)) startText] else [])) m
                   = Ok {| text := (text m ++ startText)%string;
                           blocks := blocks m |}).
    { rewrite Z.gtb_ltb. destruct (Z.ltb_spec 0 (strlen startText)) as [H|H].
      - reflexivity.
      - cbn [flat_map foldM]. rewrite (strlen_zero startText H), append_empty.
        now destruct m. }
    rewrite Hpre. cbn [bind app foldM].
    rewrite (ingest_wrapped _ id (S id) middleText acc).
    2:{ lia. }
    2:{ cbn [text blocks]. destruct first.
        - left. exact Hm.
        - right. destruct Hm as [Hb Hlast]. split; [exact Hb|].
          exists c. split; [exact Hlast|]. rewrite strlen_append.
          specialize (Hstrict eq_refl). lia. }
    cbn [bind text blocks].
    rewrite (IH more ltac:(unfold ltof; cbn [List.length]; lia) endText e _
               false _ (acc ++ [s; e])).
    + cbn [text blocks]. f_equal. f_equal.
      * rewrite !string_append_assoc. f_equal.
        rewrite <- string_append_assoc. exact Happ.
      * rewrite !strlen_append, Hc, Hlen1, Hlen2.
        replace (c + (s - c)) with s by lia.
        replace (s + (e - s)) with e by lia.
        destruct more; rewrite <- ?app_assoc; cbn [app];
          rewrite ?app_nil_r; reflexivity.
    + now replace (e + strlen endText) with (c + strlen rest) by lia.
    + cbn [text]. rewrite !strlen_append. lia.
    + cbn [blocks]. rewrite !strlen_append, Hc, Hlen1, Hlen2.
      replace (c + (s - c)) with s by lia.
      replace (s + (e - s)) with e by lia.
      split; [reflexivity|].
      replace (acc ++ [s; e]) with ((acc ++ [s]) ++ [e])
        by now rewrite <- app_assoc.
      apply at_last.
Qed.
End IngestPieces.

(** X15.  Emit, then ingest, of the spans of one kind: for a text, a
    continuous kind and a list of spans of positive length that lie in the
    text one after the other with text between them, [toElement] returns a
    tree, and [fromElement] reads from it the same text with the same spans,
    filed under the kind that [getNodeName] makes of the tag ([bold] comes
    back as [strong]).  The loops of [getTextNodeTargets] make fewer turns
    than there are numbers in the list. *)
Theorem emit_ingest_spans (fuel : nat) (t K K' : string) (spans : list Z) :
  kindOf K = Some Continuous ->
  canonicalKind K = Ok K' ->
  spans <> [] ->
  apart true 0 (strlen t) spans = true ->
  (List.length spans <= fuel + 2)%nat ->
  exists tree,
    toElement fuel {| text := t; blocks := [(K, Numbers spans)] |} = Ok tree
    /\ fromElement tree
       = Ok {| text := t; blocks := [(K', Numbers spans)] |}.
Proof.
  intros HK Hcanon Hne Hapart Hfuel. unfold kindOf in HK.
  destruct (get blockTypes K) as [tt|] eqn:Hget; [|discriminate].
  cbn [option_map] in HK. injection HK as Hset.
  eexists.
  split; [exact (toElement_spans fuel t K tt spans Hget Hset Hapart Hne Hfuel)|].
  rewrite fromElement_of_children.
  rewrite (accepted_pieces K tt Hget) by reflexivity.
  assert (Hleft : forall parent : Node,
             (forall c, contentTextOnly parent c = true) ->
             map snd
               (filter (fun pn => nodeFilter (snd pn)
                                  && knownTagsOnly (fst pn) (snd pn))
                  (flat_map (fun c => (parent, c) :: descendants c)
                     (if strlen (leftover t 0 spans) >? 0
                      then [Text 0 (leftover t 0 spans)] else [])))
             = if strlen (leftover t 0 spans) >? 0
               then [Text 0 (leftover t 0 spans)] else []).
  { intros parent Hparent. destruct (strlen (leftover t 0 spans) >? 0);
      [|reflexivity].
    cbn [flat_map descendants app]. rewrite accepted_cons, text_node_filter.
    now rewrite Hparent. }
  rewrite Hleft by reflexivity.
  rewrite (ingest_pieces K K' tt Hget Hset Hcanon spans t 0 1 true
             {| text := ""; blocks := [] |} []).
  - cbn [text blocks String.append app]. now destruct spans.
  - exact Hapart.
  - reflexivity.
  - now split.
Qed.

Lemma emit_ingest_spans_witness :
  exists tree,
    toElement 4
      {| text := "abcdefgh"; blocks := [("bold", Numbers [0; 2; 3; 5; 6; 8])] |}
    = Ok tree
    /\ fromElement tree
       = Ok {| text := "abcdefgh";
               blocks := [("strong", Numbers [0; 2; 3; 5; 6; 8])] |}.
Proof.
  apply (emit_ingest_spans 4 "abcdefgh" "bold" "strong" [0; 2; 3; 5; 6; 8]);
    [reflexivity|reflexivity|discriminate|reflexivity|cbn [List.length]; lia].
Defined.

(** ** Concat, three at a time *)

Lemma at_last_of {A : Type} (l : list A) (x : A) :
  at_ (l ++ [x]) (Z.of_nat (List.length (l ++ [x])) - 1) = Some x.
Proof.
  unfold at_. rewrite length_app. cbn [List.length].
  destruct (Z.ltb_spec (Z.of_nat (List.length l + 1) - 1) 0); [lia|].
  replace (Z.to_nat (Z.of_nat (List.length l + 1) - 1)) with (List.length l)
    by lia.
  rewrite nth_error_app2 by lia. now rewrite Nat.sub_diag.
Qed.

(** The seam rule on a first list given by its last element. *)
Lemma joinContinuous_last (n : Z) (l : list Z) (x : Z) (merged : list Z) :
  joinContinuous n (l ++ [x]) merged
  = match merged with
    | firstStart :: rest =>
        if (x =? n) && (firstStart =? n) then l ++ rest
        else (l ++ [x]) ++ merged
    | [] => (l ++ [x]) ++ merged
    end.
Proof.
  unfold joinContinuous. rewrite at_last_of.
  destruct merged as [|firstStart rest]; [reflexivity|].
  destruct ((x =? n) && (firstStart =? n)); [|reflexivity].
  rewrite removelast_last. reflexivity.
Qed.

Lemma joinContinuous_nil (n : Z) (merged : list Z) :
  joinContinuous n [] merged = merged.
Proof. reflexivity. Qed.

Lemma joinContinuous_shift (n k : Z) (l merged : list Z) :
  joinContinuous (n + k) (map (fun value => value + k) l)
    (map (fun value => value + k) merged)
  = map (fun value => value + k) (joinContinuous n l merged).
Proof.
  destruct l as [|x l] using rev_ind; [reflexivity|].
  rewrite map_app. cbn [map]. rewrite !joinContinuous_last.
  destruct merged as [|firstStart rest]; cbn [map].
  - now rewrite !map_app.
  - replace (x + k =? n + k) with (x =? n)
      by (destruct (Z.eqb_spec x n), (Z.eqb_spec (x + k) (n + k)); lia).
    replace (firstStart + k =? n + k) with (firstStart =? n)
      by (destruct (Z.eqb_spec firstStart n),
            (Z.eqb_spec (firstStart + k) (n + k)); lia).
    destruct ((x =? n) && (firstStart =? n)); now rewrite !map_app.
Qed.

(** Joining three lists: the seams do not see each other when the list in
    the middle has two numbers at least. *)
Lemma joinContinuous_assoc (n1 n2 : Z) (la lb lc : list Z) :
  (2 <= List.length lb)%nat ->
  joinContinuous n2 (joinContinuous n1 la lb) lc
  = joinContinuous n1 la (joinContinuous n2 lb lc).
Proof.
  intros Hlen.
  destruct lb as [|y lb]; [cbn in Hlen; lia|].
  destruct lb as [|x lb] using rev_ind; [cbn in Hlen; lia|]. clear IHlb Hlen.
  assert (Hright : joinContinuous n2 (y :: lb ++ [x]) lc
                   = y :: match lc with
                          | firstStart :: rest =>
                              if (x =? n2) && (firstStart =? n2)
                              then lb ++ rest
                              else (lb ++ [x]) ++ lc
                          | [] => (lb ++ [x]) ++ lc
                          end).
  { change (y :: lb ++ [x]) with ((y :: lb) ++ [x]).
    rewrite joinContinuous_last.
    destruct lc as [|firstStart rest]; [reflexivity|].
    now destruct ((x =? n2) && (firstStart =? n2)). }
  rewrite Hright.
  destruct la as [|w la] using rev_ind.
  - rewrite !joinContinuous_nil. exact Hright.
  - clear IHla. rewrite !joinContinuous_last.
    destruct ((w =? n1) && (y =? n1)).
    + rewrite app_assoc, joinContinuous_last.
      destruct lc as [|firstStart rest]; [now rewrite <- !app_assoc|].
      destruct ((x =? n2) && (firstStart =? n2)); now rewrite <- !app_assoc.
    + replace ((la ++ [w]) ++ y :: lb ++ [x])
        with (((la ++ [w]) ++ y :: lb) ++ [x])
        by (rewrite <- !app_assoc; reflexivity).
      rewrite joinContinuous_last.
      destruct lc as [|firstStart rest];
        [now rewrite <- !app_assoc|].
      destruct ((x =? n2) && (firstStart =? n2));
        rewrite <- !app_assoc; reflexivity.
Qed.

(** A first model without text in which to end, or a third that starts
    behind the seam, is not merged across an absent second list. *)
Lemma joinContinuous_skip (A B : Z) (la lc : list Z) :
  0 <= B ->
  (forall x, In x la -> x <= A) -> (forall y, In y lc -> 0 <= y) ->
  joinContinuous (A + B) la (map (fun value => value + (A + B)) lc)
  = joinContinuous A la
      (map (fun value => value + A) (map (fun value => value + B) lc)).
Proof.
  intros HB Hla Hlc.
  assert (Hmap : map (fun value => value + A) (map (fun value => value + B) lc)
                 = map (fun value => value + (A + B)) lc).
  { rewrite map_map. apply map_ext. intros v. lia. }
  rewrite Hmap.
  destruct (Z.eq_dec B 0) as [->|HB0]; [now rewrite Z.add_0_r|].
  destruct la as [|x la] using rev_ind; [reflexivity|]. clear IHla.
  rewrite !joinContinuous_last.
  destruct lc as [|y lc]; [reflexivity|]. cbn [map].
  specialize (Hla x ltac:(apply in_or_app; right; now left)).
  specialize (Hlc y ltac:(now left)).
  destruct (Z.eqb_spec x (A + B)); [lia|].
  destruct (Z.eqb_spec (y + (A + B)) A); [lia|].
  now rewrite andb_false_r.
Qed.

Lemma typed_concatBlocks (before after : rangeModel) :
  typed before = true -> typed after = true ->
  typed {| text := (text before ++ text after)%string;
           blocks := concatBlocks before after |} = true.
Proof.
  intros Hb Ha. unfold typed in *.
  apply andb_true_iff in Hb as [_ Hb], Ha as [_ Ha].
  cbn [blocks]. rewrite uniqueKeys_concatBlocks. cbn [andb].
  now apply typedEntry_concatBlocks.
Qed.

Lemma set_positions_twice (block : object value) (a b c d : value) :
  set (set (set (set block "start" a) "end" b) "start" c) "end" d
  = set (set block "start" c) "end" d.
Proof.
  rewrite <- (set_set_other (set block "start" a) "start" "end" c b)
    by (rewrite ?get_set; cbn; congruence).
  now rewrite !set_set_same.
Qed.

Lemma shiftPropertied_twice (A B : Z) (block : object value) :
  shiftPropertied A (shiftPropertied B block)
  = shiftPropertied (A + B) block.
Proof.
  unfold shiftPropertied at 1.
  assert (Hs : num0 (shiftPropertied B block) "start"
               = num0 block "start" + B)
    by (unfold shiftPropertied, num0 at 1; now rewrite !get_set).
  assert (He : num0 (shiftPropertied B block) "end" = num0 block "end" + B)
    by (unfold shiftPropertied, num0 at 1; now rewrite !get_set).
  rewrite Hs, He. unfold shiftPropertied. rewrite set_positions_twice.
  replace (num0 block "start" + B + A) with (num0 block "start" + (A + B))
    by lia.
  now replace (num0 block "end" + B + A) with (num0 block "end" + (A + B))
    by lia.
Qed.

Lemma map_add_twice (A B : Z) (l : list Z) :
  map (fun value => value + A) (map (fun value => value + B) l)
  = map (fun value => value + (A + B)) l.
Proof. rewrite map_map. apply map_ext. intros v. lia. Qed.

(** X23.  [concat] is associative on sound models, up to the order of the
    keys: joining three models from the left or from the right gives the
    same text and, under every key, the same array. *)
Theorem concat_is_associative (a b c : rangeModel) :
  sound a = true -> sound b = true -> sound c = true ->
  exists ab bc left right,
    concat a b = Ok ab /\ concat ab c = Ok left
    /\ concat b c = Ok bc /\ concat a bc = Ok right
    /\ text left = text right
    /\ forall K, get (blocks left) K = get (blocks right) K.
Proof.
  intros Ha Hb Hc.
  pose proof (sound_typed _ Ha) as Hta. pose proof (sound_typed _ Hb) as Htb.
  pose proof (sound_typed _ Hc) as Htc.
  pose proof (typed_concatBlocks a b Hta Htb) as Htab.
  pose proof (typed_concatBlocks b c Htb Htc) as Htbc.
  unfold sound in Ha, Hb, Hc.
  apply andb_true_iff in Ha as [Hua Ha], Hb as [Hub Hb], Hc as [Huc Hc].
  exists {| text := (text a ++ text b)%string; blocks := concatBlocks a b |},
    {| text := (text b ++ text c)%string; blocks := concatBlocks b c |}.
  do 2 eexists.
  split; [apply concat_shaped; now apply typed_shaped|].
  split; [apply concat_shaped; now apply typed_shaped|].
  split; [apply concat_shaped; now apply typed_shaped|].
  split; [apply concat_shaped; now apply typed_shaped|].
  cbn [text blocks]. split; [apply string_append_assoc|].
  intros K.
  rewrite !get_concatBlocks
    by (cbn [blocks]; (assumption || apply uniqueKeys_concatBlocks)).
  cbn [text blocks]. rewrite strlen_append.
  pose proof (strlen_nonneg (text a)) as H0a.
  pose proof (strlen_nonneg (text b)) as H0b.
  set (A := strlen (text a)) in *. set (B := strlen (text b)) in *.
  assert (Hsa : forall v, get (blocks a) K = Some v ->
                          soundEntry A (K, v) = true)
    by (intros v Hget; exact (forallb_get _ _ _ _ Ha Hget)).
  assert (Hsb : forall v, get (blocks b) K = Some v ->
                          soundEntry B (K, v) = true)
    by (intros v Hget; exact (forallb_get _ _ _ _ Hb Hget)).
  assert (Hsc : forall v, get (blocks c) K = Some v ->
                          soundEntry (strlen (text c)) (K, v) = true)
    by (intros v Hget; exact (forallb_get _ _ _ _ Hc Hget)).
  destruct (kindOf K) as [[]|] eqn:HK; [| | |reflexivity].
  - (* continuous *)
    rewrite !get_mergedNumbers
      by (cbn [blocks]; (assumption || apply uniqueKeys_concatBlocks)).
    rewrite (proj2 (hasKind_kindOf Continuous K) HK). cbn [blocks].
    rewrite !get_concatBlocks by assumption.
    rewrite HK, !get_mergedNumbers by assumption.
    rewrite (proj2 (hasKind_kindOf Continuous K) HK).
    fold A B.
    destruct (get (blocks a) K) as [va|] eqn:Hga;
      [destruct (proj1 (soundEntry_continuous A K va HK) (Hsa _ eq_refl))
        as (la & -> & Hnea & Heva & Hasca & Hina)|];
      (destruct (get (blocks b) K) as [vb|] eqn:Hgb;
       [destruct (proj1 (soundEntry_continuous B K vb HK) (Hsb _ eq_refl))
         as (lb & -> & Hneb & Hevb & Hascb & Hinb)|]);
      (destruct (get (blocks c) K) as [vc|] eqn:Hgc;
       [destruct (proj1 (soundEntry_continuous _ K vc HK) (Hsc _ eq_refl))
         as (lc & -> & Hnec & Hevc & Hascc & Hinc)|]);
      cbn [option_map numbersOf]; try reflexivity; do 2 f_equal.
    + rewrite <- (joinContinuous_shift B A lb), map_add_twice.
      rewrite (Z.add_comm B A).
      apply joinContinuous_assoc. rewrite length_map.
      destruct lb as [|y [|y' lb]]; try contradiction; try discriminate.
      cbn [List.length]. lia.
    + apply joinContinuous_skip; [exact H0b| |].
      * intros x Hx. rewrite forallb_forall in Hina.
        specialize (Hina x Hx). apply insideText_spec in Hina. lia.
      * intros y Hy. rewrite forallb_forall in Hinc.
        specialize (Hinc y Hy). apply insideText_spec in Hinc. lia.
    + rewrite <- (joinContinuous_shift B A lb), map_add_twice.
      now rewrite (Z.add_comm B A).
    + symmetry. apply map_add_twice.
  - (* propertied *)
    rewrite !get_mergedObjects
      by (cbn [blocks]; (assumption || apply uniqueKeys_concatBlocks)).
    rewrite (proj2 (hasKind_kindOf Propertied K) HK). cbn [blocks].
    rewrite !get_concatBlocks by assumption.
    rewrite HK, !get_mergedObjects by assumption.
    rewrite (proj2 (hasKind_kindOf Propertied K) HK).
    fold A B.
    assert (Htwice : forall l,
               map (shiftPropertied A) (map (shiftPropertied B) l)
               = map (shiftPropertied (A + B)) l).
    { intros l. rewrite map_map. apply map_ext. intros block.
      apply shiftPropertied_twice. }
    destruct (get (blocks a) K) as [va|]; destruct (get (blocks b) K) as [vb|];
      destruct (get (blocks c) K) as [vc|];
      cbn [option_map objectsOf]; try reflexivity; do 2 f_equal;
      rewrite ?map_app, ?Htwice, <- ?app_assoc; reflexivity.
  - (* singled *)
    rewrite !get_mergedNumbers
      by (cbn [blocks]; (assumption || apply uniqueKeys_concatBlocks)).
    rewrite (proj2 (hasKind_kindOf Singled K) HK). cbn [blocks].
    rewrite !get_concatBlocks by assumption.
    rewrite HK, !get_mergedNumbers by assumption.
    rewrite (proj2 (hasKind_kindOf Singled K) HK).
    fold A B.
    destruct (get (blocks a) K) as [va|]; destruct (get (blocks b) K) as [vb|];
      destruct (get (blocks c) K) as [vc|];
      cbn [option_map numbersOf]; try reflexivity; do 2 f_equal;
      rewrite ?map_app, ?map_add_twice, <- ?app_assoc; reflexivity.
Qed.

Lemma concat_is_associative_witness :
  exists ab bc left right,
    concat sample crossing = Ok ab /\ concat ab a_b_links = Ok left
    /\ concat crossing a_b_links = Ok bc /\ concat sample bc = Ok right
    /\ text left = text right
    /\ forall K, get (blocks left) K = get (blocks right) K.
Proof.
  exact (concat_is_associative sample crossing a_b_links
           eq_refl eq_refl eq_refl).
Defined.

(** ** Positions beyond the text *)

Lemma targets_beyond_one_text (fuel : nat) (t : string) (s e : Z) :
  strlen t < s -> s <= 2 * strlen t -> e <= 2 * strlen t ->
  getTextNodeTargets (S fuel) (DocumentFragment [Text 0 t]) s (Some e)
  = Ok [{| node := Text 0 t; start := Some (s - strlen t);
           end_ := Some (e - strlen t) |}].
Proof.
  intros Hlt Hs He. unfold getTextNodeTargets.
  change (nextNode (DocumentFragment [Text 0 t],
                    map snd (createTreeWalker (DocumentFragment [Text 0 t])
                               SHOW_TEXT contentTextOnly)))
    with (Text 0 t, @nil Node).
  assert (Hstart : walkToStart (S fuel) (Text 0 t, []) "" s
                   = Ok ((Text 0 t, []), t)).
  { cbn [walkToStart currentValue nodeValue_ fst bind nextNode snd
           String.append].
    change (strlen "") with 0.
    destruct (Z.ltb_spec (0 + strlen t) s); [|lia].
    destruct fuel; cbn [walkToStart currentValue nodeValue_ fst bind];
      destruct (Z.ltb_spec (strlen t + strlen t) s); try lia; reflexivity. }
  rewrite Hstart. cbn [bind currentValue nodeValue_ fst].
  assert (Hend : forall list,
             walkToEnd (S fuel) (Text 0 t, []) (t ++ t)%string list e
             = Ok ((Text 0 t, []), (t ++ t)%string, list)).
  { intros list. cbn [walkToEnd]. rewrite strlen_append.
    destruct (Z.ltb_spec (strlen t + strlen t) e); [lia|reflexivity]. }
  rewrite Hend. cbn [bind currentValue nodeValue_ fst map last removelast app].
  rewrite strlen_append. do 3 f_equal. f_equal. lia.
Qed.

(** X24.  [toElement] does not check positions against the text: a mark
    of a singled kind that lies beyond the text, by no more than the length
    of the text, is emitted where the position less that length is.  The
    walker of [getTextNodeTargets] stays at its last text node and the loop
    counts that node a second time. *)
Theorem toElement_wraps_a_mark_beyond_the_text (fuel : nat) (t K : string)
  (p : Z) :
  kindOf K = Some Singled ->
  strlen t < p -> p <= 2 * strlen t ->
  exists tree,
    toElement (S fuel) {| text := t; blocks := [(K, Numbers [p])] |} = Ok tree
    /\ toElement (S fuel)
         {| text := t; blocks := [(K, Numbers [p - strlen t])] |} = Ok tree.
Proof.
  intros HK Hlt Hp. unfold kindOf in HK.
  destruct (get blockTypes K) as [tt|] eqn:Hget; [|discriminate].
  cbn [option_map] in HK. injection HK as Hset.
  pose proof (strlen_nonneg t) as H0.
  eexists. split;
    [|exact (toElement_one_mark (S fuel) t K tt (p - strlen t) Hget Hset
               ltac:(lia) ltac:(lia))].
  rewrite <- (toElement_one_mark (S fuel) t K tt (p - strlen t) Hget Hset
                ltac:(lia) ltac:(lia)).
  unfold toElement.
  cbn [domify text el removed next normalizeElementAsDocument].
  unfold addPropertiedBlocksToElement, addContinuousBlocksToElement,
    addSingledBlocksToElement. cbn [blocks].
  rewrite !(getBlocksOfType_one K _ tt _ Hget), Hset.
  cbn [setter_eqb bind foldM sortContinuousBlocks fst snd numbers el].
  rewrite targets_beyond_one_text by lia.
  now rewrite targets_in_one_text by lia.
Qed.

Lemma toElement_wraps_a_mark_beyond_the_text_witness :
  exists tree,
    toElement 1 {| text := "abc"; blocks := [("soft return", Numbers [5])] |}
    = Ok tree
    /\ toElement 1
         {| text := "abc";
            blocks := [("soft return", Numbers [5 - strlen "abc"])] |}
       = Ok tree.
Proof.
  apply (toElement_wraps_a_mark_beyond_the_text 0 "abc" "soft return" 5);
    [reflexivity|vm_compute; reflexivity|vm_compute; discriminate].
Defined.

(** ** Elements of one kind side by side *)

Lemma continuous_element (K K' : string) (tt : tagType) (m : rangeModel)
  (id inner : nat) (a : list (string * string)) (v : string) :
  get blockTypes K = Some tt -> set_ tt = Continuous ->
  canonicalKind K = Ok K' ->
  0 < strlen v ->
  (t0 <- tagTypeOf "tagTypes[name].set"
           (getNodeName (Element id (name tt) a [Text inner v])) ;;
   call (set_ t0) m (Element id (name tt) a [Text inner v]))
  = (block <- match get (blocks m) K' with
              | None => Ok []
              | Some b => numbers K' b
              end ;;
     Ok {| text := text m;
           blocks :=
             set (blocks m) K'
               (Numbers
                  match at_ block (Z.of_nat (List.length block) - 1) with
                  | Some lastEnd =>
                      if (2 <=? Z.of_nat (List.length block))
                         && (lastEnd >=? strlen (text m))
                      then removelast block
                           ++ [Z.max lastEnd (strlen (text m) + strlen v)]
                      else block ++ [strlen (text m);
                                     strlen (text m) + strlen v]
                  | None => block ++ [strlen (text m);
                                      strlen (text m) + strlen v]
                  end) |}).
Proof.
  intros registered continuousKind canonical Hv.
  destruct (registered_tag K tt registered) as (Htag & Hplain & Hscript).
  pose proof canonical as Hcanon. unfold canonicalKind in Hcanon.
  rewrite (tagNameOf_registered K tt registered) in Hcanon.
  cbn [bind] in Hcanon.
  change (getNodeName (Element id (name tt) a [Text inner v]))
    with (getNodeName (Element 0 (name tt) [] [])).
  destruct (tagTypeOf "tagTypes[name].set"
              (getNodeName (Element 0 (name tt) [] [])))
    as [t'| | |] eqn:Ht'; try discriminate.
  cbn [bind] in Hcanon. injection Hcanon as Hname.
  destruct (dispatch_plain "tagTypes[name].set" 0 (name tt) [] [] _ Hplain Htag)
    as (t1 & Ht1 & Hs1).
  rewrite Ht' in Ht1. injection Ht1 as <-. cbn [set_] in Hs1.
  rewrite continuousKind in Hs1.
  cbn [bind]. rewrite Hs1. cbn [call]. unfold continuous.
  change (getNodeName (Element id (name tt) a [Text inner v]))
    with (getNodeName (Element 0 (name tt) [] [])).
  rewrite (tagTypeOf_site _ "tagTypes[nodeName].name" _ _ Ht').
  assert (Htext : getContentText (Element id (name tt) a [Text inner v]) = v).
  { unfold getContentText, createTreeWalker.
    cbn [descendants app filter fst snd SHOW_TEXT andb contentTextOnly].
    now rewrite Hscript. }
  rewrite Htext.
  destruct (Z.eqb_spec (strlen (text m)) (strlen (text m) + strlen v));
    [lia|].
  cbn [bind]. now rewrite Hname.
Qed.

(** X25.  [fromElement] merges elements of one kind that stand side by
    side: two elements whose tags [getNodeName] files under the same
    continuous kind, each around a text that is not empty, give one span
    over both texts, whatever their attributes. *)
Theorem fromElement_merges_adjacent_elements (K1 K2 K' : string)
  (tt1 tt2 : tagType) (i1 j1 i2 j2 : nat) (a1 a2 : list (string * string))
  (u v : string) :
  get blockTypes K1 = Some tt1 -> set_ tt1 = Continuous ->
  get blockTypes K2 = Some tt2 -> set_ tt2 = Continuous ->
  canonicalKind K1 = Ok K' -> canonicalKind K2 = Ok K' ->
  0 < strlen u -> 0 < strlen v ->
  fromElement
    (DocumentFragment [ Element i1 (name tt1) a1 [Text j1 u];
                        Element i2 (name tt2) a2 [Text j2 v] ])
  = Ok {| text := (u ++ v)%string;
          blocks := [(K', Numbers [0; strlen u + strlen v])] |}.
Proof.
  intros Hg1 Hs1 Hg2 Hs2 Hc1 Hc2 Hu Hv.
  destruct (registered_tag K1 tt1 Hg1) as (Htag1 & _ & Hscript1).
  destruct (registered_tag K2 tt2 Hg2) as (Htag2 & _ & Hscript2).
  unfold fromElement. cbn [normalizeElementAsDocument]. unfold createTreeWalker.
  cbn [descendants app filter fst snd nodeFilter andb].
  rewrite !text_node_filter. cbn [contentTextOnly].
  rewrite Hscript1, Hscript2.
  unfold knownTagsOnly. cbn [nodeName_ SHOW_TEXT andb]. unfold lookup at 1 2.
  rewrite Htag1, Htag2. cbn [truthy orb negb foldM snd].
  rewrite (continuous_element K1 K' tt1 _ i1 j1 a1 u Hg1 Hs1 Hc1 Hu).
  cbn [blocks get bind text List.length at_ Z.of_nat Z.sub Z.ltb Z.compare
         Z.opp Z.add set app].
  rewrite (continuous_element K2 K' tt2 _ i2 j2 a2 v Hg2 Hs2 Hc2 Hv).
  cbn [blocks get text]. rewrite String.eqb_refl. cbn [numbers bind].
  change (strlen "") with 0. cbn [Z.add String.append].
  change (at_ [0; strlen u] (Z.of_nat (List.length [0; strlen u]) - 1))
    with (Some (strlen u)).
  cbn [List.length Z.of_nat Pos.of_succ_nat Pos.succ Z.leb Z.compare
         Pos.compare Pos.compare_cont andb].
  destruct (Z.geb_spec (strlen u) (strlen u)); [|lia].
  cbn [removelast app set]. rewrite String.eqb_refl.
  now replace (Z.max (strlen u) (strlen u + strlen v))
    with (strlen u + strlen v) by lia.
Qed.

Lemma fromElement_merges_adjacent_elements_witness :
  fromElement
    (DocumentFragment
       [ Element 1 (name {| set_ := Continuous; name := "B" |}) []
           [Text 2 "ab"];
         Element 3 (name {| set_ := Continuous; name := "STRONG" |})
           [("class", "x")] [Text 4 "cd"] ])
  = Ok {| text := ("ab" ++ "cd")%string;
          blocks := [("strong", Numbers [0; strlen "ab" + strlen "cd"])] |}.
Proof.
  apply (fromElement_merges_adjacent_elements "bold" "strong" "strong"
           {| set_ := Continuous; name := "B" |}
           {| set_ := Continuous; name := "STRONG" |} 1 2 3 4
           [] [("class", "x")] "ab" "cd");
    try reflexivity.
Defined.
